(* ===== verification/_CoqProject ===== *)
-Q . S2P
Prelude.v
Doubles.v
Errors.v
Decimals.v
Validation.v
Json.v
Time.v
Semver.v
Actors.v
Catalog.v
CanonicalJson.v
Manifest.v
Delta.v
Media.v
LauncherRelease.v
Hash.v
CrashReport.v
PatchNote.v
ClientAddress.v
EnvInterpolation.v
Migrations.v
BlobStore.v
Signer.v
RateLimiter.v
Signature.v
Config.v
Programs.v
Random.v
World.v
Ordering.v
Accounts.v
AuditLog.v
MailTemplates.v
MailTransport.v
AuthService.v
JwtTokenService.v
AccountSafety.v
AuthSessions.v
Releases.v
ReleaseSafety.v
ReleaseCorrect.v
Uploads.v
CatalogRepositories.v
ContentRepositories.v
AdminRepositories.v
MediaStore.v
CatalogService.v
AdminUserService.v
AnalyticsService.v
CrashReportService.v
PatchNoteService.v
MediaService.v
StorageSafety.v
CatalogSafety.v
CrashGroups.v
AdminSafety.v
CatalogCorrect.v
UploadService.v
DownloadService.v
RetentionService.v
System.v
AppContext.v
Http.v
Wire.v
Controllers.v
AdminControllers.v
Filters.v
Server.v
Gate.v
Responses.v
Refinement.v
Administration.v
Isolation.v
Artwork.v
Publishing.v
Scenarios.v
Storefront.v
Console.v
CommandLine.v
ServerScenes.v
