(* ===== verification/Prelude.v ===== *)
(** * Custom Game Launcher backend: a verification library

    The program is the HTTP backend of a game launcher: accounts and sign-in, a catalog of
    games, uploads of builds as content-addressed blobs, delta downloads through signed
    links, artwork, patch notes, crash reports, releases of the launcher itself, and a
    console for operators on a listener of its own.  Its layers are [src/src/domain] (pure
    rules), [src/src/repositories/postgres] (one C++ method per SQL statement),
    [src/src/services] (coroutines that check, then run statements), [src/src/storage] (files
    on disk), [src/src/controllers] (JSON in, JSON out), [src/src/filters] (who may call), and
    [src/src/app] and [src/src/main.cpp] (configuration and start-up).  This library models
    all of them, from the command line and the bytes of a request to the rows of the tables.

    ** How the program is modelled

    - A text is a [string] of bytes; a [size_t] or [int64_t] is a [Z] with the bounds the
      code or the column has, wrapped where the code can overflow ([wrapSigned],
      [wrapUnsigned]); a [double] is the rational it stands for, rounded as IEEE 754 does
      ([Doubles]); a [Result] is [Errors.Result]; a C++ exception is [None] of a run or
      [Raise] of a program, the answer 500 of the server.
    - A coroutine is a [Programs.Prog]: straight code between steps, each step one SQL
      statement, one call on the file system, one mail, one draw of the generator or one call
      on a limiter.  A step is atomic and gives [None] when the database refuses it; between
      two steps of a request any step of any other may happen ([Programs.poolStep]: requests
      arrive, advance one step, end, and time passes).  [Programs.perform] runs a request
      alone.
    - The tables are the fields of [World.World], lists of rows in insertion order;
      [selectWhere], [updateWhere], [deleteWhere] and [insertRow] are the statements.  A column
      that a query joins from another table is blank in the row and filled in by the query's
      mapping ([mapGame], [mapPatchNote]).  CHECK, UNIQUE and FOREIGN KEY constraints of
      [migrations/*.sql] are written out in the statement that can run into them, and what
      ON DELETE CASCADE and SET NULL do in the statement that deletes ([dropGames] and those
      under it).  Releases of the launcher have a world of their own
      ([Releases.ReleaseWorld]), and [Filters.Server] is both with the limiters.
    - An instant is a number of seconds, and a timestamp the program only passes on is the
      text PostgreSQL renders, ordered as that text; uuid and citext columns are compared by
      their lower-cased text; ORDER BY on text is byte order; the serial numbers of the audit
      log follow its inserts; the operating system's wording of an I/O error is left off.
    - A request is the parts of it the code asks for ([Http.HttpRequest]) and a response its
      status, headers and content.  What a document sent by a client says is asked of it
      through [Json.Jsoncpp], and what the program sends is a [Json.Json].
    - Code outside the repository is a class: [Hash.Evp] (SHA-256), [Signer.Md5],
      [Random.Sodium] and [Random.PasswordHasher] (random bytes, Argon2id),
      [Accounts.Postgres] (fresh uuids, rendering of instants), [World.Disk] (which file
      operations fail), [Json.Jsoncpp], [JwtTokenService.Jwt] (jwt-cpp), [Signature.Openssl]
      (P-256 keys and signatures, with libsodium's base64), [MailTransport.Base64],
      [MailTransport.Curl], [Releases.Connection] (a connection to the database of a
      command). Two interfaces of the program are classes too, so that the services are
      proved against them: [MailTemplates.MailSender], which [MailTransport.mailSenderFor]
      implements, and [AuthService.TokenService], which [Server.tokenService] does. Their
      fields are arguments of every definition that uses them and their laws are what the
      code relies on. No theorem assumes SHA-256 injective: where two contents could collide
      the statement says so.
    - Assumed of what comes from outside and not checked by the code: texts are valid UTF-8
      without null bytes (but for what is handed to libpq as a [c_str], where the text ends
      at the first), and an artifact does not change while it is read.

    ** The files

    Shared: [Prelude] (text, integers, lists, the tactics and the hint databases), [Doubles],
    [Errors], [Decimals], [Time] (the calendar), [Json], [Ordering] (the comparisons of ORDER
    BY, and counting), [Programs] (coroutines, pools, reachability, the rules [Keeps] by which
    an invariant and a relation are carried through a program), [World] (the tables).

    Pure rules, one file per source file: [Validation], [Semver], [Actors], [Catalog],
    [CanonicalJson], [Manifest], [Delta], [Media], [LauncherRelease], [Hash], [CrashReport],
    [PatchNote] ([domain/] and [common/Hash.cpp]), [ClientAddress], [EnvInterpolation],
    [RateLimiter], [Signature] ([common/]), [Migrations] ([migrations/MigrationRunner.cpp]),
    [Config] ([app/Config.cpp]), [MailTemplates].  Storage and randomness: [BlobStore],
    [MediaStore], [Signer], [Random], and the artifact store at the head of [Releases].

    Statements: [Accounts] ([PgRepositories.cpp]), [AuditLog] and [AdminRepositories]
    ([PgAdminRepositories.cpp]), [Uploads] ([PgUploadRepositories.cpp],
    [PgDownloadRepositories.cpp]), [CatalogRepositories] and [ContentRepositories]
    ([PgCatalogRepositories.cpp]); those of releases, crash reports and download figures are
    with their services.  Services: [AuthService], [JwtTokenService], [CatalogService],
    [PatchNoteService], [MediaService], [UploadService], [DownloadService],
    [RetentionService], [AdminUserService] (with [AccountService.cpp]), [AnalyticsService],
    [CrashReportService], [Releases], one definition per method, with the guards in the order
    of the code.

    The server: [AppContext] (what each service is configured with), [Http] (error documents,
    body readers, headers), [Wire] (the documents of the routes), [Controllers] and
    [AdminControllers] (one definition per handler), [Filters], [Server] (the routes, their
    filters and handlers, and a request from its first advice to its response).  The process:
    [CommandLine] ([main.cpp], [app/RoleGrant.cpp], the limits on bodies) and [MailTransport]
    (SMTP, and the escaping of log lines).

    What they keep, whoever else is running: [AccountSafety], [StorageSafety],
    [CatalogSafety], [AdminSafety] and [ReleaseSafety] prove of every statement and every
    handler that it keeps the invariant of its tables and a relation that says what never
    happens (a spent token comes back, a ready build changes); [System] is the pool of all
    requests and the timers, and [Refinement] shows that the server, with its filters,
    exceptions and limiters, does nothing to the tables and stores that this pool could not.
    What each does, run alone: [AuthSessions], [CatalogCorrect], [Artwork], [Publishing],
    [Administration], [CrashGroups], [ReleaseCorrect], [Gate], [Responses] and the ends of the
    service files.  [Isolation] compares two publishers.  [Scenarios], [Storefront], [Console]
    and [ServerScenes] are concrete deployments: they instantiate the theorems that have a
    hypothesis and run the schedules and requests on which the code does not do what it means
    to.

    ** What the theorems show

    - The system, under any interleaving: [accounts_safe] (quotas, revoked tokens, spent
      links), [storage_safe] (sessions, blobs, manifests), [catalog_safe] (unique keys, no
      dangling reference through cascading deletes), [artwork_safe], [published_immutable],
      [releases_safe]; and [server_refines], by which they hold of the server.
    - The gate: [gate_correct] (a handler runs only under the claims of a verified token that
      its route admits, anything else is refused and changes nothing, and whoever is
      entitled is let through), [admin_hidden], [temporary_session], [rate_bound], and
      [served_hardened] (every request is answered, with the headers of the server).
    - Authorization: [hidden_builds] and [hidden_games] (what may not be seen answers as if it
      were not there), [strangers_change_nothing] (isolation of publishers),
      [resolveClientAddress_unspoofable], [validateRelativePath_contained],
      [no_account_oracle], [admin_refused].
    - Functional correctness of sign-in, rotation and password reset; of Explore, a game's page,
      creation and deletion; of image uploads; of publication, download plans and install
      reports; of the retention sweep; of migrations; of roles, temporary passwords, erasures
      and the last operator ([operators_remain], and [bootstrap_correct] for the first); of
      crash groups and download figures; of releases and their signatures; of the
      configuration the server accepts ([parse_correct]) and the command line it reads
      ([arguments_correct]).
    - Encodings: manifests, release documents and fingerprints determine what they are made
      from; access tokens read back as what was signed ([token_roundtrip]); a relay reads the
      headers that were written and no other ([mail_correct]), and a log line what was
      logged; base64url and signed links.
    - Divergences, each proved on a schedule or an input: [refresh_race], [size_race],
      [sweep_race], [operators_race], [updateGame_by_slug], [stale_erasure], [self_lockout],
      [erasure_blocked], [null_deactivates], [paging_overflow], [analytics_windows],
      [hidden_told_apart], [empty_address_serves], [negative_unbounded].

    ** Fuel and bounds

    Recursion is structural throughout, on the text, the list or the program, except in
    [ClientAddress.hopLoop] and [EnvInterpolation.interpolateLoop], whose fuel is the length
    of the text they scan, and [MailTransport.readAll], whose fuel is one more than the length
    of the document it reads out, each proved to be enough (the reader of documents that
    [ReleaseCorrect] takes for an example of jsoncpp has the length of its text too).  [perform] is structural: a program
    is a finite tree.

    ** Not modelled

    Drogon: which route a path leads to, the reading of a request off the network, its
    threads and its pool of connections.  The conversation with a mail relay, and the
    verification of its certificate, which are libcurl's.  What the commands print, the sinks
    and the pattern of the log, signals.  The HTML of the two public pages and of the console,
    which are bytes the build embeds, and the version of the program are arguments
    ([Server]).  Arithmetic on doubles is by value, without infinities and subnormal numbers,
    which the quantities computed with cannot reach.  Functional extensionality is used in
    [Refinement], to identify programs that continue alike. *)

From Stdlib Require Export ZArith Lia.
From Stdlib Require Export Ascii.
From Stdlib Require Import String.
From stdpp Require Export base gmap strings list fin_maps pretty sorting.

Open Scope Z_scope.

Declare Scope launcher_scope.
Delimit Scope launcher_scope with launcher.
Open Scope launcher_scope.

(** ** Text

    A [std::string] is a sequence of bytes.  The model keeps it as a [string]
    (so that literals, map keys and messages read as in the source) and scans
    it as the list of its bytes. *)

Definition chars (s : string) : list ascii := String.list_ascii_of_string s.

Definition text (l : list ascii) : string := String.string_of_list_ascii l.

(** [std::string::size]. *)
Definition size (s : string) : Z := Z.of_nat (length (chars s)).

(** The value of a byte, as [static_cast<unsigned char>] gives it. *)
Definition byte (c : ascii) : Z := Z.of_N (N_of_ascii c).

Definition byteInRange (lo hi : Z) (c : ascii) : bool :=
  (lo <=? byte c) && (byte c <=? hi).

(** The [<cctype>] predicates in the "C" locale the server runs in. *)
Definition isdigit (c : ascii) : bool := byteInRange 48 57 c.

Definition isupper (c : ascii) : bool := byteInRange 65 90 c.

Definition islower (c : ascii) : bool := byteInRange 97 122 c.

Definition isalpha (c : ascii) : bool := isupper c || islower c.

Definition isalnum (c : ascii) : bool := isalpha c || isdigit c.

Definition isxdigit (c : ascii) : bool :=
  isdigit c || byteInRange 65 70 c || byteInRange 97 102 c.

Definition isspace (c : ascii) : bool := byteInRange 9 13 c || (byte c =? 32).

Definition tolower (c : ascii) : ascii :=
  if isupper c then ascii_of_N (N_of_ascii c + 32) else c.

Definition ceqb (a b : ascii) : bool := Ascii.eqb a b.

(** [std::string::substr] on an in-range position; a count that runs past the
    end is clipped, as the standard says. *)
Definition substr (s : string) (pos count : nat) : string :=
  text (take count (drop pos (chars s))).

Definition substrFrom (s : string) (pos : nat) : string :=
  text (drop pos (chars s)).

(** [s[i] == c] for an index the code has already checked to be in range. *)
Definition charIs (s : string) (i : nat) (c : ascii) : bool :=
  bool_decide (chars s !! i = Some c).

(** [find(c)]: the first position of a byte, [None] for [npos]. *)
Fixpoint findChar (c : ascii) (l : list ascii) : option nat :=
  match l with
  | [] => None
  | x :: l' => if ceqb x c then Some 0%nat else S <$> findChar c l'
  end.

(** Whether [needle] is a prefix of [l]. *)
Fixpoint prefixb (needle l : list ascii) : bool :=
  match needle, l with
  | [], _ => true
  | _, [] => false
  | x :: needle', y :: l' => ceqb x y && prefixb needle' l'
  end.

(** [find(needle)] for a string needle. *)
Fixpoint findSub (needle l : list ascii) : option nat :=
  if prefixb needle l then Some 0%nat
  else match l with
       | [] => None
       | _ :: l' => S <$> findSub needle l'
       end.

(** The pieces of a text between the occurrences of a separator, in order: what
    the repeated [find]/[substr] loops of the source visit.  Never empty. *)
Fixpoint splitOn (sep : ascii) (l : list ascii) : list (list ascii) :=
  match l with
  | [] => [[]]
  | x :: l' =>
      if ceqb x sep then [] :: splitOn sep l'
      else match splitOn sep l' with
           | [] => [[x]]
           | piece :: rest => (x :: piece) :: rest
           end
  end.

(** Pieces written one after the other with a separator between them. *)
Fixpoint joinOn (sep : ascii) (pieces : list (list ascii)) : list ascii :=
  match pieces with
  | [] => []
  | [p] => p
  | p :: rest => p ++ sep :: joinOn sep rest
  end.

Fixpoint dropWhile {A} (p : A → bool) (l : list A) : list A :=
  match l with
  | [] => []
  | x :: l' => if p x then dropWhile p l' else l
  end.

(** The same from the right end. *)
Definition dropWhileEnd {A} (p : A → bool) (l : list A) : list A :=
  reverse (dropWhile p (reverse l)).

(** [std::to_string] on integers. *)
Definition toDecimal (z : Z) : string := pretty z.

(** ** Machine integers *)

Definition INT32_MAX : Z := 2147483647.
Definition INT64_MAX : Z := 9223372036854775807.
Definition INT64_MIN : Z := -9223372036854775808.

(** Two's complement narrowing to [w] bits, signed and unsigned. *)
Definition wrapSigned (w z : Z) : Z := (z + 2 ^ (w - 1)) mod 2 ^ w - 2 ^ (w - 1).

Definition wrapUnsigned (w z : Z) : Z := z mod 2 ^ w.

(** [a + b] on [int64_t] operands. *)
Definition add64 (a b : Z) : Z := wrapSigned 64 (a + b).

Definition inInt64 (z : Z) : Prop := INT64_MIN ≤ z ≤ INT64_MAX.

(** ** Stateful code

    A coroutine that reads and writes the world is a state transformer; the
    instances make stdpp's [x ← m; k] notation available for it. *)

Definition St (W A : Type) : Type := W → A * W.

#[export] Instance St_ret W : MRet (St W) := λ A x w, (x, w).

#[export] Instance St_bind W : MBind (St W) :=
  λ A B f m w, let r := m w in f r.1 r.2.

Definition gets {W A} (f : W → A) : St W A := λ w, (f w, w).

Definition modify {W} (f : W → W) : St W unit := λ w, (tt, f w).

Definition runState {W A} (m : St W A) (w : W) : W := (m w).2.

Definition runValue {W A} (m : St W A) (w : W) : A := (m w).1.

(** ** Reachability

    State machines are step relations; [reachable] is the reflexive and
    transitive closure every invariant is proved over. *)

Inductive reachable {S : Type} (step : S → S → Prop) (s : S) : S → Prop :=
| reachable_refl : reachable step s s
| reachable_step s1 s2 : reachable step s s1 → step s1 s2 → reachable step s s2.

(** ** Generic lemmas *)

Create HintDb launcher.
Create Rewrite HintDb launcher.

Lemma chars_text l : chars (text l) = l.
Proof. apply String.list_ascii_of_string_of_list_ascii. Qed.

Lemma text_chars s : text (chars s) = s.
Proof. apply String.string_of_list_ascii_of_string. Qed.

Lemma chars_inj s t : chars s = chars t → s = t.
Proof. intros H. by rewrite <- (text_chars s), H, text_chars. Qed.

Lemma text_inj k l : text k = text l → k = l.
Proof. intros H. by rewrite <- (chars_text k), H, chars_text. Qed.

Lemma chars_app s t : chars (s +:+ t) = chars s ++ chars t.
Proof.
  induction s as [|c s IH]; [done|].
  change (c :: chars (s +:+ t) = c :: chars s ++ chars t). by rewrite IH.
Qed.

Lemma text_app k l : text (k ++ l) = text k +:+ text l.
Proof. apply chars_inj. by rewrite chars_app, !chars_text. Qed.

#[export] Hint Rewrite chars_text text_chars chars_app text_app : launcher.

Lemma size_text l : size (text l) = Z.of_nat (length l).
Proof. unfold size. by rewrite chars_text. Qed.

Lemma size_nonneg s : 0 ≤ size s.
Proof. unfold size. lia. Qed.

Lemma size_app s t : size (s +:+ t) = size s + size t.
Proof. unfold size. rewrite chars_app, length_app. lia. Qed.

Lemma size_zero s : size s = 0 → s = ""%stdpp.
Proof.
  unfold size. intros H. apply chars_inj. change (chars "") with (@nil ascii).
  apply nil_length_inv. lia.
Qed.

#[export] Hint Resolve size_nonneg : launcher.

Lemma byte_range c : 0 ≤ byte c ≤ 255.
Proof. destruct c as [[] [] [] [] [] [] [] []]; vm_compute; split; discriminate. Qed.

Lemma byte_inj a b : byte a = byte b → a = b.
Proof.
  unfold byte. intros H%N2Z.inj.
  by rewrite <- (ascii_N_embedding a), H, ascii_N_embedding.
Qed.

Lemma ceqb_eq a b : ceqb a b = true ↔ a = b.
Proof. apply Ascii.eqb_eq. Qed.

Lemma ceqb_neq a b : ceqb a b = false ↔ a ≠ b.
Proof. apply Ascii.eqb_neq. Qed.

Lemma ceqb_refl a : ceqb a a = true.
Proof. by apply ceqb_eq. Qed.

(** A statement about every byte is decided by trying all 256. *)
Ltac every_byte c := destruct c as [[] [] [] [] [] [] [] []]; vm_compute.

Lemma tolower_idemp c : tolower (tolower c) = tolower c.
Proof. by every_byte c. Qed.

Lemma isspace_tolower c : isspace (tolower c) = isspace c.
Proof. by every_byte c. Qed.

(** *** Searching and splitting *)

Lemma findChar_Some c l i :
  findChar c l = Some i →
  l = take i l ++ c :: drop (S i) l ∧ c ∉ take i l.
Proof.
  revert i; induction l as [|x l IH]; intros i; cbn; [done|].
  destruct (ceqb x c) eqn:E.
  - intros [= <-]. apply ceqb_eq in E as ->. cbn. split; [done|set_solver].
  - destruct (findChar c l) as [j|]; [|done]. intros [= <-]. cbn.
    destruct (IH j eq_refl) as [H1 H2]. apply ceqb_neq in E. split.
    + f_equal. exact H1.
    + set_solver.
Qed.

Lemma findChar_None c l : findChar c l = None ↔ c ∉ l.
Proof.
  induction l as [|x l IH]; cbn; [set_solver|].
  destruct (ceqb x c) eqn:E.
  - apply ceqb_eq in E as ->. set_solver.
  - apply ceqb_neq in E. rewrite fmap_None, IH. set_solver.
Qed.

Lemma findChar_split c k l : c ∉ k → findChar c (k ++ c :: l) = Some (length k).
Proof.
  induction k as [|x k IH]; intros H; cbn.
  - by rewrite ceqb_refl.
  - destruct (ceqb x c) eqn:E; [apply ceqb_eq in E; set_solver|].
    rewrite IH; [done|set_solver].
Qed.

Lemma prefixb_spec k l : prefixb k l = true ↔ ∃ r, l = k ++ r.
Proof.
  revert l; induction k as [|x k IH]; intros l; cbn; [naive_solver|].
  destruct l as [|y l]; [naive_solver|].
  rewrite andb_true_iff, ceqb_eq, IH. split.
  - intros [-> [r ->]]. by exists r.
  - intros [r [= -> ->]]. by split; [|exists r].
Qed.

Lemma findSub_none_head c needle l : c ∉ l → findSub (c :: needle) l = None.
Proof.
  induction l as [|x l IH]; intros H; [done|]. apply not_elem_of_cons in H as [? ?].
  cbn [findSub prefixb]. rewrite (proj2 (ceqb_neq c x)) by done. cbn [andb]. by rewrite IH.
Qed.

(** The first occurrence, when the text before it lacks the first byte. *)
Lemma findSub_split c needle k l :
  c ∉ k → findSub (c :: needle) (k ++ (c :: needle) ++ l) = Some (length k).
Proof.
  change ((c :: needle) ++ l) with (c :: needle ++ l).
  induction k as [|x k IH]; intros H.
  - assert (prefixb (c :: needle) (c :: needle ++ l) = true) as E
      by (apply prefixb_spec; by exists l).
    cbn [findSub app]. by rewrite E.
  - apply not_elem_of_cons in H as [? ?]. cbn [findSub app prefixb].
    rewrite (proj2 (ceqb_neq c x)) by done. cbn [andb]. by rewrite IH.
Qed.

Lemma splitOn_nonempty sep l : splitOn sep l ≠ [].
Proof.
  destruct l as [|x l]; cbn; [done|].
  destruct (ceqb x sep); [done|]. by destruct (splitOn sep l).
Qed.

Lemma splitOn_no_sep sep l : sep ∉ l → splitOn sep l = [l].
Proof.
  induction l as [|x l IH]; intros H; cbn; [done|].
  destruct (ceqb x sep) eqn:E; [apply ceqb_eq in E; set_solver|].
  rewrite IH; [done|set_solver].
Qed.

Lemma splitOn_app sep k l :
  sep ∉ k → splitOn sep (k ++ sep :: l) = k :: splitOn sep l.
Proof.
  induction k as [|x k IH]; intros H; cbn.
  - by rewrite ceqb_refl.
  - destruct (ceqb x sep) eqn:E; [apply ceqb_eq in E; set_solver|].
    rewrite IH; [done|set_solver].
Qed.

Lemma splitOn_pieces sep l p : p ∈ splitOn sep l → sep ∉ p.
Proof.
  revert p; induction l as [|x l IH]; intros p; cbn.
  - intros ->%list_elem_of_singleton. apply not_elem_of_nil.
  - destruct (ceqb x sep) eqn:E.
    { intros [->|Hp]%elem_of_cons; [apply not_elem_of_nil|by apply IH]. }
    apply ceqb_neq in E. destruct (splitOn sep l) as [|q rest] eqn:Eq.
    { intros ->%list_elem_of_singleton. by rewrite list_elem_of_singleton. }
    intros [->|Hp]%elem_of_cons; [|apply IH; by right].
    rewrite not_elem_of_cons. split; [done|]. apply IH. by left.
Qed.

Lemma splitOn_joinOn sep ps :
  ps ≠ [] → Forall (λ p, sep ∉ p) ps → splitOn sep (joinOn sep ps) = ps.
Proof.
  induction ps as [|p ps IH]; intros Hne Hp; [done|].
  apply Forall_cons in Hp as [Hp Hps]. destruct ps as [|q ps].
  - by apply splitOn_no_sep.
  - change (joinOn sep (p :: q :: ps)) with (p ++ sep :: joinOn sep (q :: ps)).
    rewrite splitOn_app by done. by rewrite IH.
Qed.

Lemma joinOn_splitOn sep l : joinOn sep (splitOn sep l) = l.
Proof.
  induction l as [|x l IH]; cbn; [done|].
  pose proof (splitOn_nonempty sep l). destruct (ceqb x sep) eqn:E.
  - apply ceqb_eq in E as ->. destruct (splitOn sep l) as [|p ps]; [done|].
    cbn. f_equal. exact IH.
  - destruct (splitOn sep l) as [|p [|q ps]]; [done|..]; cbn in *; by rewrite IH.
Qed.

(** *** Trimming lists *)

Lemma dropWhile_suffix {A} (p : A → bool) l : ∃ k, l = k ++ dropWhile p l.
Proof.
  induction l as [|x l [k IH]]; cbn; [by exists []|].
  destruct (p x); [|by exists []]. exists (x :: k). cbn. by f_equal.
Qed.

Lemma dropWhile_head {A} (p : A → bool) l x k : dropWhile p l = x :: k → p x = false.
Proof.
  induction l as [|y l IH]; cbn; [done|].
  destruct (p y) eqn:E; [done|]. by intros [= -> ->].
Qed.

Lemma dropWhile_stop {A} (p : A → bool) x l : p x = false → dropWhile p (x :: l) = x :: l.
Proof. cbn. by intros ->. Qed.

Lemma dropWhile_idemp {A} (p : A → bool) l : dropWhile p (dropWhile p l) = dropWhile p l.
Proof.
  destruct (dropWhile p l) as [|x k] eqn:E; [done|].
  apply dropWhile_stop. eapply dropWhile_head, E.
Qed.

Lemma dropWhile_nil {A} (p : A → bool) l : dropWhile p l = [] ↔ Forall (λ x, p x = true) l.
Proof.
  induction l as [|x l IH]; cbn; [done|].
  rewrite Forall_cons. destruct (p x); [tauto|]. split; [done|]. by intros [? _].
Qed.

Lemma dropWhileEnd_prefix {A} (p : A → bool) l : ∃ k, l = dropWhileEnd p l ++ k.
Proof.
  unfold dropWhileEnd. destruct (dropWhile_suffix p (reverse l)) as [k H].
  exists (reverse k). rewrite <- reverse_app, <- H. by rewrite reverse_involutive.
Qed.

Lemma dropWhileEnd_idemp {A} (p : A → bool) l :
  dropWhileEnd p (dropWhileEnd p l) = dropWhileEnd p l.
Proof. unfold dropWhileEnd. by rewrite reverse_involutive, dropWhile_idemp. Qed.

Lemma dropWhileEnd_last {A} (p : A → bool) l x :
  last (dropWhileEnd p l) = Some x → p x = false.
Proof.
  unfold dropWhileEnd. rewrite last_reverse.
  destruct (dropWhile p (reverse l)) as [|y k] eqn:E; cbn; [done|].
  intros [= ->]. eapply dropWhile_head, E.
Qed.

Lemma dropWhileEnd_nil {A} (p : A → bool) l :
  dropWhileEnd p l = [] ↔ Forall (λ x, p x = true) l.
Proof.
  unfold dropWhileEnd. rewrite <- (reverse_involutive []), (inj_iff reverse).
  cbn. rewrite dropWhile_nil. by rewrite Forall_reverse.
Qed.

Lemma dropWhileEnd_keep {A} (p : A → bool) l x :
  p x = false → dropWhileEnd p (l ++ [x]) = l ++ [x].
Proof.
  intros Hx. unfold dropWhileEnd. rewrite reverse_app. cbn. rewrite Hx.
  rewrite <- (reverse_involutive (l ++ [x])) at 1. by rewrite reverse_app.
Qed.

Lemma dropWhileEnd_drop {A} (p : A → bool) l x :
  p x = true → dropWhileEnd p (l ++ [x]) = dropWhileEnd p l.
Proof. intros Hx. unfold dropWhileEnd. rewrite reverse_app. cbn. by rewrite Hx. Qed.

(** What is trimmed from the end stops at the last element that does not match. *)
Lemma dropWhileEnd_app_stop {A} (p : A → bool) k l x :
  last k = Some x → p x = false → dropWhileEnd p (k ++ l) = k ++ dropWhileEnd p l.
Proof.
  intros Hk Hx. induction l as [|y l IH] using rev_ind.
  - rewrite !app_nil_r. apply last_Some in Hk as [k' ->]. by apply dropWhileEnd_keep.
  - rewrite app_assoc. destruct (p y) eqn:E.
    + by rewrite !dropWhileEnd_drop.
    + by rewrite !dropWhileEnd_keep, app_assoc.
Qed.

Lemma drop_add {A} n m (l : list A) : drop (n + m) l = drop m (drop n l).
Proof. by rewrite skipn_skipn, Nat.add_comm. Qed.

Lemma last_cons_ne {A} (x : A) l : l ≠ [] → last (x :: l) = last l.
Proof. by destruct l. Qed.

Lemma filter_all {A} (P : A → Prop) `{∀ x, Decision (P x)} (l : list A) :
  (∀ x, x ∈ l → P x) → filter P l = l.
Proof.
  induction l as [|x l IH]; intros HP; [done|]. rewrite filter_cons, decide_True by (apply HP; by left).
  f_equal. apply IH. intros y Hy. apply HP. by right.
Qed.

Lemma filter_none {A} (P : A → Prop) `{∀ x, Decision (P x)} (l : list A) :
  (∀ x, x ∈ l → ¬ P x) → filter P l = [].
Proof.
  induction l as [|x l IH]; intros HP; [done|]. rewrite filter_cons, decide_False by (apply HP; by left).
  apply IH. intros y Hy. apply HP. by right.
Qed.

(** *** Integers *)

Lemma wrapSigned_id w z :
  0 < w → - 2 ^ (w - 1) ≤ z < 2 ^ (w - 1) → wrapSigned w z = z.
Proof.
  intros Hw Hz. unfold wrapSigned.
  assert (2 ^ w = 2 * 2 ^ (w - 1)) as E by (rewrite <- Z.pow_succ_r; [f_equal|]; lia).
  rewrite Z.mod_small; lia.
Qed.

Lemma add64_exact a b : inInt64 (a + b) → add64 a b = a + b.
Proof.
  unfold inInt64, INT64_MIN, INT64_MAX, add64. intros H.
  apply wrapSigned_id; [lia|].
  change (2 ^ (64 - 1)) with 9223372036854775808. lia.
Qed.

(** Bits below a shift are added by [lor]. *)
Lemma lor_disjoint a b n : 0 ≤ n → 0 ≤ b < 2 ^ n → Z.lor (Z.shiftl a n) b = a * 2 ^ n + b.
Proof.
  intros Hn Hb. assert (Z.land (Z.shiftl a n) b = 0) as Hland.
  { apply Z.bits_inj'. intros i Hi. rewrite Z.land_spec, Z.bits_0.
    destruct (Z.lt_ge_cases i n); [by rewrite Z.shiftl_spec_low|].
    rewrite <- (Z.mod_small b (2 ^ n)) by lia. rewrite Z.mod_pow2_bits_high by lia. apply andb_false_r. }
  pose proof (Z.add_lor_land (Z.shiftl a n) b) as HA. rewrite Hland in HA.
  rewrite (Z.shiftl_mul_pow2 a n) in * by done. lia.
Qed.

#[export] Hint Rewrite add64_exact using (unfold inInt64, INT64_MIN, INT64_MAX; lia) : launcher.

(** *** Reachability *)

Lemma reachable_trans {S : Type} (step : S → S → Prop) s1 s2 s3 :
  reachable step s1 s2 → reachable step s2 s3 → reachable step s1 s3.
Proof. intros H1 H2. induction H2; eauto using @reachable. Qed.

(** An invariant every step preserves holds in every reachable state. *)
Lemma reachable_invariant {S : Type} (step : S → S → Prop) (Inv : S → Prop) s s' :
  (∀ a b, Inv a → step a b → Inv b) → Inv s → reachable step s s' → Inv s'.
Proof. intros Hstep Hs H. induction H; eauto. Qed.

(** ** Automation *)

(** Split every [match] and [if] left in the goal or the hypotheses, keeping the
    equations and discarding the impossible branches. *)
Ltac cases := repeat (case_match; simplify_eq/=; try done).

(** Read boolean tests as the propositions they decide. *)
Ltac bool_to_prop :=
  repeat match goal with
  | H : _ && _ = true |- _ => apply andb_true_iff in H as [? ?]
  | H : _ || _ = false |- _ => apply orb_false_iff in H as [? ?]
  | H : negb _ = true |- _ => apply negb_true_iff in H
  | H : negb _ = false |- _ => apply negb_false_iff in H
  | H : (_ <? _) = true |- _ => apply Z.ltb_lt in H
  | H : (_ <? _) = false |- _ => apply Z.ltb_ge in H
  | H : (_ <=? _) = true |- _ => apply Z.leb_le in H
  | H : (_ <=? _) = false |- _ => apply Z.leb_gt in H
  | H : (_ =? _) = true |- _ => apply Z.eqb_eq in H
  | H : (_ =? _) = false |- _ => apply Z.eqb_neq in H
  | H : ceqb _ _ = true |- _ => apply ceqb_eq in H
  | H : ceqb _ _ = false |- _ => apply ceqb_neq in H
  | H : bool_decide _ = true |- _ => apply bool_decide_eq_true in H
  | H : bool_decide _ = false |- _ => apply bool_decide_eq_false in H
  end.
