(* ===== verification/Doubles.v ===== *)
(** The arithmetic of [double], by value: a result is the rational that the operation has,
    rounded to the nearest with a significand of fifty-three bits, ties to even.

    Infinities, subnormal numbers and signs of zero are left out: the quantities computed with
    these operations are not negative, and lie between 2^-200 and 2^200 where they are not
    zero. *)

From Stdlib Require Import QArith Qround Qpower Lqa.
From Stdlib Require Qcanon.
From S2P Require Import Prelude.

#[local] Open Scope Q_scope.

Definition PRECISION : Z := 53.

(** The power of two that is the unit of the last of the fifty-three bits. *)
Definition exponentOf (x : Q) : Z :=
  let e := (Z.log2 (Qnum x) - Z.log2 (QDen x) - (PRECISION - 1))%Z in
  if Qle_bool (2 ^ (e + (PRECISION - 1))) x then e else (e - 1)%Z.

(** The nearest integer, the even one of two. *)
Definition nearestEven (x : Q) : Z :=
  let down := Qfloor x in
  let rest := x - inject_Z down in
  if Qle_bool (1 # 2) rest then
    if Qle_bool rest (1 # 2) then (if Z.even down then down else down + 1)%Z else (down + 1)%Z
  else down.

Definition rnd (x : Q) : Q :=
  if Qle_bool x 0 then 0
  else Qred (inject_Z (nearestEven (x * 2 ^ (- exponentOf x))) * 2 ^ exponentOf x).

(** [+], [-], [*] and [/] of doubles, and the conversion of an integer. *)
Definition fadd (x y : Q) : Q := rnd (x + y).
Definition fsub (x y : Q) : Q := rnd (x - y).
Definition fmul (x y : Q) : Q := rnd (x * y).
Definition fdiv (x y : Q) : Q := rnd (x / y).
Definition ofInt (n : Z) : Q := rnd (inject_Z n).

Definition flt (x y : Q) : bool := negb (Qle_bool y x).

(** [std::min(a, b)]: the first of two that are equal. *)
Definition fmin (x y : Q) : Q := if flt y x then y else x.

(** ** Lemmas *)

Lemma flt_true x y : flt x y = true ↔ x < y.
Proof. unfold flt. rewrite negb_true_iff, <- not_true_iff_false, Qle_bool_iff. split; intros; [by apply Qnot_le_lt|lra]. Qed.

Lemma flt_false x y : flt x y = false ↔ y <= x.
Proof. unfold flt. by rewrite negb_false_iff, Qle_bool_iff. Qed.

Lemma two_pos e : 0 < 2 ^ e.
Proof. by apply Qpower_0_lt. Qed.

Lemma two_plus a b : 2 ^ (a + b) == 2 ^ a * 2 ^ b.
Proof. by apply Qpower_plus. Qed.

Lemma two_cancel e : 2 ^ (- e) * 2 ^ e == 1.
Proof. rewrite <- two_plus. by replace (- e + e)%Z with 0%Z by lia. Qed.

Lemma two_int a : (0 <= a)%Z → 2 ^ a == inject_Z (2 ^ a).
Proof. intros Ha. symmetry. by apply Zpower_Qpower. Qed.

(** A positive rational between the powers of two its parts are between. *)
Lemma log2_bounds x :
  0 < x → let e := (Z.log2 (Qnum x) - Z.log2 (QDen x))%Z in 2 ^ (e - 1) < x ∧ x < 2 ^ (e + 1).
Proof.
  intros Hx. cbv zeta. destruct x as [n d]. cbn [Qnum Qden]. change (0 < n # d) with (0 * Z.pos d < n * 1)%Z in Hx.
  destruct (Z.log2_spec n) as [N1 N2]; [lia|]. destruct (Z.log2_spec (Z.pos d)) as [D1 D2]; [lia|].
  set (a := Z.log2 n) in *. set (b := Z.log2 (Z.pos d)) in *.
  assert (0 <= a)%Z by apply Z.log2_nonneg. assert (0 <= b)%Z by apply Z.log2_nonneg.
  assert (n # d == inject_Z n / inject_Z (Z.pos d)) as -> by apply Qmake_Qdiv.
  assert (HD : 0 < inject_Z (Z.pos d)) by (change 0 with (inject_Z 0); rewrite <- Zlt_Qlt; lia).
  split.
  - apply Qlt_shift_div_l; [done|]. apply (Qlt_le_trans _ (2 ^ a)).
    + replace a with (a - b - 1 + (b + 1))%Z at 2 by lia. rewrite two_plus. rewrite Qmult_lt_l by apply two_pos.
      rewrite two_int by lia. rewrite <- Zlt_Qlt. lia.
    + rewrite two_int by lia. rewrite <- Zle_Qle. lia.
  - apply Qlt_shift_div_r; [done|]. apply (Qlt_le_trans _ (2 ^ (a + 1))).
    + rewrite two_int by lia. rewrite <- Zlt_Qlt. lia.
    + replace (a + 1)%Z with (a - b + 1 + b)%Z by lia. rewrite two_plus. rewrite Qmult_le_l by apply two_pos.
      rewrite two_int by lia. rewrite <- Zle_Qle. lia.
Qed.

Lemma exponentOf_spec x : 0 < x → 2 ^ (exponentOf x + 52) <= x ∧ x < 2 ^ (exponentOf x + 53).
Proof.
  intros Hx. unfold exponentOf, PRECISION. destruct (log2_bounds x Hx) as [L U].
  set (k := (Z.log2 (Qnum x) - Z.log2 (QDen x))%Z) in *. destruct (Qle_bool _ _) eqn:E.
  - apply Qle_bool_iff in E. replace (k - (53 - 1) + (53 - 1))%Z with k in E by lia.
    replace (k - (53 - 1) + 52)%Z with k by lia. replace (k - (53 - 1) + 53)%Z with (k + 1)%Z by lia. done.
  - apply not_true_iff_false in E. rewrite Qle_bool_iff in E. apply Qnot_le_lt in E.
    replace (k - (53 - 1) + (53 - 1))%Z with k in E by lia.
    replace (k - (53 - 1) - 1 + 52)%Z with (k - 1)%Z by lia. replace (k - (53 - 1) - 1 + 53)%Z with k by lia.
    split; [by apply Qlt_le_weak|done].
Qed.

Lemma nearestEven_error x : inject_Z (nearestEven x) - (1 # 2) <= x ∧ x <= inject_Z (nearestEven x) + (1 # 2).
Proof.
  unfold nearestEven. pose proof (Qfloor_le x) as L. pose proof (Qlt_floor x) as U.
  rewrite inject_Z_plus in U. change (inject_Z 1) with 1 in U.
  destruct (Qle_bool (1 # 2) (x - inject_Z (Qfloor x))) eqn:E.
  - apply Qle_bool_iff in E. destruct (Qle_bool (x - inject_Z (Qfloor x)) (1 # 2)) eqn:E'.
    + apply Qle_bool_iff in E'. destruct (Z.even _); rewrite ?inject_Z_plus; change (inject_Z 1) with 1; lra.
    + rewrite inject_Z_plus. change (inject_Z 1) with 1. lra.
  - apply not_true_iff_false in E. rewrite Qle_bool_iff in E. apply Qnot_le_lt in E. lra.
Qed.

(** Half a unit in the last place, relative to the value. *)
Definition ulp : Q := 2 ^ (-53).
#[global] Arguments ulp : simpl never.
#[global] Typeclasses Opaque ulp.

Lemma ulp_pos : 0 < ulp.
Proof. apply two_pos. Qed.

Lemma rnd_zero x : x <= 0 → rnd x = 0.
Proof. intros Hx. unfold rnd. by rewrite (proj2 (Qle_bool_iff x 0) Hx). Qed.

Lemma rnd_pos x : 0 < x → rnd x == inject_Z (nearestEven (x * 2 ^ (- exponentOf x))) * 2 ^ exponentOf x.
Proof.
  intros Hx. unfold rnd. destruct (Qle_bool x 0) eqn:E; [apply Qle_bool_iff in E; lra|]. apply Qred_correct.
Qed.

(** Scaling back and forth. *)
Lemma scaled x e : x * 2 ^ (- e) * 2 ^ e == x.
Proof. rewrite <- Qmult_assoc, two_cancel. ring. Qed.

Lemma rnd_error x : 0 <= x → x * (1 - ulp) <= rnd x ∧ rnd x <= x * (1 + ulp).
Proof.
  intros Hx. destruct (Qlt_le_dec 0 x) as [Hp|Hz]; 
    [|rewrite rnd_zero by done; assert (x == 0) as -> by lra; generalize ulp; split; lra].
  rewrite (rnd_pos x Hp). set (e := exponentOf x). destruct (exponentOf_spec x Hp) as [He _]. fold e in He.
  set (m := inject_Z (nearestEven (x * 2 ^ (- e)))).
  destruct (nearestEven_error (x * 2 ^ (- e))) as [L U]. fold m in L, U.
  assert (Hhalf : (1 # 2) * 2 ^ e <= x * ulp).
  { unfold ulp. assert ((1 # 2) * 2 ^ e == 2 ^ (e + 52) * 2 ^ (-53)) as ->.
    - rewrite <- two_plus. replace (e + 52 + -53)%Z with (-1 + e)%Z by lia. by rewrite two_plus.
    - apply Qmult_le_compat_r; [done|]. apply Qlt_le_weak, two_pos. }
  pose proof (two_pos e) as Hpos. clearbody m e.
  assert (L2 : (m - (1 # 2)) * 2 ^ e <= x) by (rewrite <- (scaled x e); apply Qmult_le_compat_r; [done|by apply Qlt_le_weak]).
  assert (U2 : x <= (m + (1 # 2)) * 2 ^ e) by (rewrite <- (scaled x e); apply Qmult_le_compat_r; [done|by apply Qlt_le_weak]).
  assert (x * (1 - ulp) == x - x * ulp) as -> by ring. assert (x * (1 + ulp) == x + x * ulp) as -> by ring.
  revert L2 U2 Hhalf Hpos. generalize (2 ^ e) (x * ulp). intros p u L2 U2 Hhalf Hpos. split; lra.
Qed.

Lemma rnd_nonneg x : 0 <= rnd x.
Proof.
  destruct (Qlt_le_dec 0 x) as [Hp|Hz]; [|by rewrite rnd_zero]. destruct (rnd_error x) as [L _]; [lra|].
  assert (0 <= x * (1 - ulp)); [|lra]. apply Qmult_le_0_compat; [lra|]. unfold ulp. by vm_compute.
Qed.

(** An integer below is not overtaken. *)
Lemma nearestEven_ge k x : inject_Z k <= x → (k <= nearestEven x)%Z.
Proof.
  intros Hk. assert (k <= Qfloor x)%Z as Hf.
  { rewrite <- (Qfloor_Z k). by apply Qfloor_resp_le. }
  unfold nearestEven. repeat case_match; lia.
Qed.

Lemma nearestEven_int k : nearestEven (inject_Z k) = k.
Proof.
  unfold nearestEven. rewrite Qfloor_Z.
  destruct (Qle_bool (1 # 2) _) eqn:E; [|done]. apply Qle_bool_iff in E. lra.
Qed.

Global Instance nearestEven_proper : Proper (Qeq ==> eq) nearestEven.
Proof.
  intros x y E. unfold nearestEven. rewrite (Qfloor_comp x y E).
  assert (∀ c, Qle_bool c (x - inject_Z (Qfloor y)) = Qle_bool c (y - inject_Z (Qfloor y))) as E1.
  { intros c. apply eq_true_iff_eq. rewrite !Qle_bool_iff. by rewrite E. }
  assert (∀ c, Qle_bool (x - inject_Z (Qfloor y)) c = Qle_bool (y - inject_Z (Qfloor y)) c) as E2.
  { intros c. apply eq_true_iff_eq. rewrite !Qle_bool_iff. by rewrite E. }
  by rewrite E1, E2.
Qed.

(** Integers of fifty-three bits are doubles, and no rounding crosses one of them. *)
Lemma rnd_ge_int n x : (0 <= n <= 2 ^ 53)%Z → inject_Z n <= x → inject_Z n <= rnd x.
Proof.
  intros Hn Hx. destruct (Qlt_le_dec 0 x) as [Hp|Hz].
  2: { apply (Qle_trans _ x); [done|]. pose proof (rnd_nonneg x). lra. }
  rewrite (rnd_pos x Hp). set (e := exponentOf x). destruct (exponentOf_spec x Hp) as [He _]. fold e in He.
  pose proof (two_pos e) as Hpos. destruct (Z_le_gt_dec e 0) as [Hle|Hgt].
  - assert (inject_Z n == inject_Z (n * 2 ^ (- e)) * 2 ^ e) as ->.
    + rewrite inject_Z_mult, <- two_int by lia. by rewrite scaled.
    + apply Qmult_le_compat_r; [|by apply Qlt_le_weak]. rewrite <- Zle_Qle. apply nearestEven_ge.
      rewrite inject_Z_mult, <- two_int by lia. apply Qmult_le_compat_r; [done|]. apply Qlt_le_weak, two_pos.
  - apply (Qle_trans _ (inject_Z (2 ^ 52) * 2 ^ e)).
    + apply (Qle_trans _ (2 ^ 53)); [rewrite two_int by lia; rewrite <- Zle_Qle; lia|].
      rewrite <- two_int, <- two_plus by lia. apply Qpower_le_compat_l; [lia|by vm_compute].
    + apply Qmult_le_compat_r; [|by apply Qlt_le_weak]. rewrite <- Zle_Qle. apply nearestEven_ge.
      rewrite <- two_int by lia. apply (Qmult_le_r _ _ (2 ^ e)); [done|]. rewrite scaled, <- two_plus.
      by replace (52 + e)%Z with (e + 52)%Z by lia.
Qed.

Lemma rnd_int n : (0 <= n < 2 ^ 53)%Z → rnd (inject_Z n) == inject_Z n.
Proof.
  intros Hn. destruct (decide (n = 0)%Z) as [->|Hne]; [by rewrite rnd_zero|].
  assert (Hp : 0 < inject_Z n) by (change 0 with (inject_Z 0); rewrite <- Zlt_Qlt; lia).
  rewrite (rnd_pos _ Hp). set (e := exponentOf (inject_Z n)). destruct (exponentOf_spec _ Hp) as [He _]. fold e in He.
  assert (e <= 0)%Z.
  { assert (2 ^ (e + 52) < 2 ^ 53) as Hlt.
    - apply (Qle_lt_trans _ (inject_Z n)); [done|]. rewrite two_int by lia. rewrite <- Zlt_Qlt. lia.
    - apply Qpower_lt_compat_l_inv in Hlt; [lia|done]. }
  assert (E : inject_Z n * 2 ^ (- e) == inject_Z (n * 2 ^ (- e))) by (by rewrite inject_Z_mult, <- two_int by lia).
  rewrite (nearestEven_proper _ _ E), nearestEven_int, <- E. apply scaled.
Qed.

(** A double that is an integer is written as one. *)
Lemma rnd_int_eq n : (0 <= n < 2 ^ 53)%Z → rnd (inject_Z n) = inject_Z n.
Proof.
  intros Hn. pose proof (rnd_int n Hn) as E. unfold rnd in *. destruct (Qle_bool (inject_Z n) 0) eqn:Ez.
  - apply Qle_bool_iff in Ez. change 0 with (inject_Z 0) in Ez. rewrite <- Zle_Qle in Ez. by replace n with 0%Z by lia.
  - rewrite Qred_correct in E. rewrite (Qred_complete _ _ E). unfold inject_Z.
    apply Qcanon.Qred_identity. cbn. by rewrite Z.gcd_1_r.
Qed.

Lemma ofInt_eq n : (0 <= n < 2 ^ 53)%Z → ofInt n = inject_Z n.
Proof. apply rnd_int_eq. Qed.

Lemma fmin_cases x y : fmin x y = x ∧ x <= y ∨ fmin x y = y ∧ y < x.
Proof. unfold fmin. destruct (flt y x) eqn:E; [right; by rewrite flt_true in E|left; by rewrite flt_false in E]. Qed.

(** What is below stays below, up to one rounding. *)
Lemma rnd_le x y : 0 <= x → x <= y → rnd x <= y * (1 + ulp).
Proof.
  intros Hx Hy. destruct (rnd_error x Hx) as [_ U]. apply (Qle_trans _ _ _ U).
  apply Qmult_le_compat_r; [done|]. unfold ulp. by vm_compute.
Qed.

Lemma rnd_gt0 x : 0 < x → 0 < rnd x.
Proof.
  intros Hx. destruct (rnd_error x) as [L _]; [lra|]. apply (Qlt_le_trans _ (x * (1 - ulp))); [|done].
  apply Qmult_lt_0_compat; [done|]. unfold ulp. by vm_compute.
Qed.
