(* ===== verification/Errors.v ===== *)
(** Failure values: [src/common/Error.h], [src/common/Error.cpp] and
    [src/common/Result.h].  Every service of the program answers a [Result]; the
    controllers turn its error into an HTTP envelope through the three functions
    at the end of the definitions. *)

From S2P Require Import Prelude.

(** ** Data *)

Inductive ErrorCode :=
| InvalidInput
| Unauthenticated
| Forbidden
| PasswordChangeRequired
| NotFound
| Conflict
| QuotaExceeded
| RateLimited
| DependencyFailure
| Internal.

#[export] Instance ErrorCode_eq_dec : EqDecision ErrorCode.
Proof. solve_decision. Defined.

Record Error := mkError {
  code : ErrorCode;
  detail : string;
  rule : string;
  ruleArgs : list string
}.

#[export] Instance Error_eq_dec : EqDecision Error.
Proof. solve_decision. Defined.

(** [Result<T>]: a value or an error; [Result<void>] is [Result unit]. *)
Inductive Result (A : Type) :=
| Success (value : A)
| Failure (error : Error).
Arguments Success {A} _.
Arguments Failure {A} _.

Definition VoidResult : Type := Result unit.

#[export] Instance Result_eq_dec `{EqDecision A} : EqDecision (Result A).
Proof. solve_decision. Defined.

Definition ok {A} (r : Result A) : bool :=
  match r with
  | Success _ => true
  | Failure _ => false
  end.

(** The two-argument [Result::failure]: an error with no rule. *)
Definition failure {A} (c : ErrorCode) (message : string) : Result A :=
  Failure (mkError c message "" []).

Definition invalidInput (message ruleName : string) (args : list string) : Error :=
  mkError InvalidInput message ruleName args.

Definition notFound (message : string) : Error := mkError NotFound message "" [].

Definition conflict (message : string) : Error := mkError Conflict message "" [].

Definition internalError (message : string) : Error := mkError Internal message "" [].

(** [if (auto check = r; !check.ok()) return failure(check.error());] followed by
    the rest of the function. *)
Notation "'let?' x := r 'in' k" :=
  (match r with Success x => k | Failure e => Failure e end)
  (at level 200, x pattern, r at level 100, k at level 200) : launcher_scope.

(** The same inside a state transformer: [co_return failure(...)]. *)
Notation "'await?' x := r 'in' k" :=
  (mbind (M := St _) (λ y, match y with Success x => k | Failure e => mret (Failure e) end) r)
  (at level 200, x pattern, r at level 100, k at level 200) : launcher_scope.

Definition httpStatusFor (c : ErrorCode) : Z :=
  match c with
  | InvalidInput => 422
  | Unauthenticated => 401
  | Forbidden => 403
  | PasswordChangeRequired => 403
  | NotFound => 404
  | Conflict => 409
  | QuotaExceeded => 413
  | RateLimited => 429
  | DependencyFailure => 503
  | Internal => 500
  end.

Definition titleFor (c : ErrorCode) : string :=
  match c with
  | InvalidInput => "Validation failed"
  | Unauthenticated => "Authentication required"
  | Forbidden => "Forbidden"
  | PasswordChangeRequired => "Password change required"
  | NotFound => "Not found"
  | Conflict => "Conflict"
  | QuotaExceeded => "Quota exceeded"
  | RateLimited => "Too many requests"
  | DependencyFailure => "Service unavailable"
  | Internal => "Internal server error"
  end.

Definition nameFor (c : ErrorCode) : string :=
  match c with
  | InvalidInput => "invalid_input"
  | Unauthenticated => "unauthenticated"
  | Forbidden => "forbidden"
  | PasswordChangeRequired => "password_change_required"
  | NotFound => "not_found"
  | Conflict => "conflict"
  | QuotaExceeded => "quota_exceeded"
  | RateLimited => "rate_limited"
  | DependencyFailure => "dependency_failure"
  | Internal => "internal"
  end.

(** ** Lemmas *)

Lemma ok_Success {A} (r : Result A) : ok r = true ↔ ∃ a, r = Success a.
Proof. destruct r; naive_solver. Qed.

Lemma ok_void (r : VoidResult) : ok r = true ↔ r = Success tt.
Proof. destruct r as [[]|]; naive_solver. Qed.

Lemma failure_not_success {A} c m (a : A) : failure c m ≠ Success a.
Proof. done. Qed.

(** The wire name of a category identifies it, so a client can switch on it. *)
#[export] Instance nameFor_inj : Inj (=) (=) nameFor.
Proof. by intros [] []. Qed.
