(* ===== verification/Decimals.v ===== *)
(** Decimal numerals: the value of a run of digits, and the correspondence
    between canonical numerals (no leading zero) and [std::to_string].  Shared by
    the components that read numbers out of text. *)

From S2P Require Import Prelude.

(** [character - '0'] *)
Definition digitValue (c : ascii) : Z := byte c - 48.

(** [value = value * 10 + (character - '0')] over the digits, left to right. *)
Definition decimalFrom (acc : Z) (l : list ascii) : Z :=
  foldl (λ v c, v * 10 + digitValue c) acc l.

Definition decimalValue (l : list ascii) : Z := decimalFrom 0 l.

(** At least one digit, nothing but digits, no superfluous leading zero. *)
Definition canonicalNumeral (l : list ascii) : Prop :=
  l ≠ [] ∧ forallb isdigit l = true ∧ (head l = Some "0"%char → l = ["0"%char]).

Lemma digitValue_range c : isdigit c = true → 0 ≤ digitValue c ≤ 9.
Proof. unfold isdigit, byteInRange, digitValue. intros H. bool_to_prop. lia. Qed.

Lemma digitValue_inj a b : digitValue a = digitValue b → a = b.
Proof. unfold digitValue. intros H. apply byte_inj. lia. Qed.

Lemma digitValue_zero c : digitValue c = 0 → c = "0"%char.
Proof. intros H. by apply digitValue_inj. Qed.

Lemma decimalFrom_cons acc c l :
  decimalFrom acc (c :: l) = decimalFrom (acc * 10 + digitValue c) l.
Proof. reflexivity. Qed.

Lemma decimalFrom_snoc acc l c :
  decimalFrom acc (l ++ [c]) = decimalFrom acc l * 10 + digitValue c.
Proof. unfold decimalFrom. by rewrite foldl_app. Qed.

Lemma decimalFrom_nonneg acc l :
  0 ≤ acc → forallb isdigit l = true → acc ≤ decimalFrom acc l.
Proof.
  revert acc; induction l as [|c l IH]; intros acc Ha H; cbn in *; [lia|].
  bool_to_prop. apply digitValue_range in H.
  etrans; [|apply IH; [lia|done]]. lia.
Qed.

Lemma decimalFrom_monotone acc acc' l :
  acc ≤ acc' → decimalFrom acc l ≤ decimalFrom acc' l.
Proof.
  revert acc acc'; induction l as [|c l IH]; intros acc acc' Ha; cbn; [done|].
  apply IH. lia.
Qed.

(** Without a leading zero the value determines the digits. *)
Lemma decimalValue_unique k l :
  forallb isdigit k = true → forallb isdigit l = true →
  head k ≠ Some "0"%char → head l ≠ Some "0"%char →
  decimalValue k = decimalValue l → k = l.
Proof.
  assert (∀ m, forallb isdigit m = true → head m ≠ Some "0"%char → m ≠ [] →
          0 < decimalValue m) as Hpos.
  { intros [|c m] Hd Hz Hne; [done|]. cbn in Hd. bool_to_prop.
    pose proof (digitValue_range _ H) as Hc.
    assert (digitValue c ≠ 0) by (intros ->%digitValue_zero; done).
    change (0 < decimalFrom (digitValue c) m).
    pose proof (decimalFrom_nonneg (digitValue c) m ltac:(lia) H0). lia. }
  revert l; induction k as [|c k IH] using rev_ind; intros l Hk Hl Hzk Hzl Hv.
  - destruct (decide (l = [])) as [->|Hne]; [done|].
    specialize (Hpos l Hl Hzl Hne). cbn in Hv. unfold decimalValue in *. cbn in *. lia.
  - destruct l as [|d l] using rev_ind.
    { specialize (Hpos _ Hk Hzk ltac:(by destruct k)).
      unfold decimalValue in Hv at 2. cbn in Hv. lia. }
    clear IHl. unfold decimalValue in Hv. rewrite !decimalFrom_snoc in Hv.
    rewrite forallb_app in Hk, Hl. cbn in Hk, Hl. bool_to_prop.
    pose proof (digitValue_range c ltac:(done)). pose proof (digitValue_range d ltac:(done)).
    assert (digitValue c = digitValue d) as ->%digitValue_inj by lia.
    f_equal. apply IH; try done.
    + by destruct k.
    + by destruct l.
    + unfold decimalValue. lia.
Qed.

Lemma pretty_N_char_spec x :
  (x < 10)%N → isdigit (pretty_N_char x) = true ∧ digitValue (pretty_N_char x) = Z.of_N x.
Proof.
  intros H. assert (x = 0 ∨ x = 1 ∨ x = 2 ∨ x = 3 ∨ x = 4 ∨ x = 5 ∨ x = 6
    ∨ x = 7 ∨ x = 8 ∨ x = 9)%N as D by lia.
  repeat destruct D as [->|D]; subst; done.
Qed.

Lemma pretty_N_go_spec x s :
  ∃ ds, chars (pretty_N_go x s) = ds ++ chars s ∧ forallb isdigit ds = true ∧
        decimalValue ds = Z.of_N x ∧ head ds ≠ Some "0"%char.
Proof.
  revert s. induction (N.lt_wf_0 x) as [x _ IH]; intros s.
  destruct (decide (x = 0)%N) as [->|Hx].
  { exists []. by rewrite pretty_N_go_0. }
  rewrite pretty_N_go_step by lia.
  destruct (IH (x `div` 10)%N ltac:(apply N.div_lt; lia)
              (String (pretty_N_char (x `mod` 10)) s)) as (ds & H1 & H2 & H3 & H4).
  destruct (pretty_N_char_spec (x `mod` 10)) as [Hd Hv]; [by apply N.mod_lt|].
  exists (ds ++ [pretty_N_char (x `mod` 10)]). split_and!.
  - rewrite H1. by rewrite <- app_assoc.
  - rewrite forallb_app, H2. cbn. by rewrite Hd.
  - unfold decimalValue in *. rewrite decimalFrom_snoc, H3, Hv.
    rewrite N2Z.inj_div, N2Z.inj_mod. change (Z.of_N 10) with 10.
    pose proof (Z.div_mod (Z.of_N x) 10 ltac:(lia)). lia.
  - destruct ds as [|d ds]; [|done]. cbn. intros [= E]. rewrite E in Hv.
    cbn in H3. change (digitValue "0") with 0 in Hv. unfold decimalValue in H3. cbn in H3.
    rewrite N2Z.inj_div in H3. rewrite N2Z.inj_mod in Hv.
    change (Z.of_N 10) with 10 in *. pose proof (Z.div_mod (Z.of_N x) 10 ltac:(lia)). lia.
Qed.

(** [std::to_string] on a natural number prints its canonical numeral. *)
Lemma toDecimal_spec z :
  0 ≤ z → canonicalNumeral (chars (toDecimal z)) ∧ decimalValue (chars (toDecimal z)) = z.
Proof.
  intros Hz. destruct z as [|p|p]; [|unfold toDecimal, pretty, pretty_Z, pretty, pretty_positive, pretty, pretty_N|lia].
  { split; [|done]. by split_and!. }
  rewrite decide_False by done.
  destruct (pretty_N_go_spec (N.pos p) "") as (ds & H1 & H2 & H3 & H4).
  rewrite H1. change (chars "") with (@nil ascii). rewrite app_nil_r.
  split; [|done]. split_and!; [|done|done]. intros ->. done.
Qed.

(** A canonical numeral is what [std::to_string] prints for its value. *)
Lemma canonicalNumeral_toDecimal l :
  canonicalNumeral l → chars (toDecimal (decimalValue l)) = l.
Proof.
  intros (Hne & Hd & Hz).
  pose proof (decimalFrom_nonneg 0 l ltac:(lia) Hd) as Hv.
  destruct (toDecimal_spec (decimalValue l) Hv) as [(Hne' & Hd' & Hz') Hv'].
  destruct (decide (head l = Some "0"%char)) as [H0|H0].
  { rewrite (Hz H0). done. }
  destruct (decide (head (chars (toDecimal (decimalValue l))) = Some "0"%char)) as [H1|H1].
  { rewrite (Hz' H1) in Hv'. change (decimalValue ["0"%char]) with 0 in Hv'.
    destruct l as [|c l]; [done|]. cbn in Hd. bool_to_prop.
    pose proof (digitValue_range _ H) as Hc.
    assert (digitValue c ≠ 0) by (intros ->%digitValue_zero; done).
    pose proof (decimalFrom_nonneg (digitValue c) l ltac:(lia) H2) as Hp.
    change (decimalFrom (digitValue c) l) with (decimalValue (c :: l)) in Hp. lia. }
  by apply decimalValue_unique.
Qed.

Lemma toDecimal_digits z :
  0 ≤ z → forallb isdigit (chars (toDecimal z)) = true.
Proof. intros H. by destruct (toDecimal_spec z H) as [(_ & ? & _) _]. Qed.

Lemma toDecimal_inj a b : toDecimal a = toDecimal b → a = b.
Proof. apply (inj pretty). Qed.

Lemma canonicalNumeral_value_nonneg l : canonicalNumeral l → 0 ≤ decimalValue l.
Proof. intros (_ & Hd & _). by apply (decimalFrom_nonneg 0). Qed.

(** ** Fixed-width numerals *)

(** The last [k] decimal digits of a number, zero padded. *)
Fixpoint paddedDigits (k : nat) (z : Z) : list ascii :=
  match k with
  | O => []
  | S k' => paddedDigits k' (z / 10) ++ [ascii_of_N (Z.to_N (48 + z mod 10))]
  end.

Lemma digitChar_spec d :
  0 ≤ d < 10 → isdigit (ascii_of_N (Z.to_N (48 + d))) = true ∧
               digitValue (ascii_of_N (Z.to_N (48 + d))) = d.
Proof.
  intros H. unfold isdigit, digitValue, byteInRange, byte.
  rewrite N_ascii_embedding by lia. rewrite Z2N.id by lia.
  split; [|lia]. apply andb_true_iff. split; apply Z.leb_le; lia.
Qed.

Lemma length_paddedDigits k z : length (paddedDigits k z) = k.
Proof.
  revert z; induction k as [|k IH]; intros z; cbn; [done|].
  rewrite length_app, IH. cbn. lia.
Qed.

Lemma paddedDigits_digits k z : forallb isdigit (paddedDigits k z) = true.
Proof.
  revert z; induction k as [|k IH]; intros z; cbn; [done|].
  rewrite forallb_app, IH. cbn. rewrite (proj1 (digitChar_spec _ (Z.mod_pos_bound z 10 ltac:(lia)))).
  done.
Qed.

Lemma paddedDigits_value k z :
  0 ≤ z < 10 ^ Z.of_nat k → decimalValue (paddedDigits k z) = z.
Proof.
  revert z; induction k as [|k IH]; intros z Hz; cbn -[Z.pow] in *.
  { change (10 ^ 0) with 1 in Hz. unfold decimalValue, decimalFrom. cbn. lia. }
  unfold decimalValue in *. rewrite decimalFrom_snoc.
  rewrite (proj2 (digitChar_spec _ (Z.mod_pos_bound z 10 ltac:(lia)))).
  rewrite Nat2Z.inj_succ, Z.pow_succ_r in Hz by lia.
  rewrite IH.
  - pose proof (Z.div_mod z 10 ltac:(lia)). lia.
  - split; [apply Z.div_pos; lia|]. apply Z.div_lt_upper_bound; lia.
Qed.

(** Every run of digits is the padded numeral of its value. *)
Lemma paddedDigits_of_value l :
  forallb isdigit l = true → paddedDigits (length l) (decimalValue l) = l.
Proof.
  induction l as [|c l IH] using rev_ind; intros H; [done|].
  rewrite forallb_app in H. cbn in H. bool_to_prop.
  pose proof (digitValue_range c ltac:(done)) as Hc.
  rewrite length_app, Nat.add_comm. cbn.
  unfold decimalValue in *. rewrite decimalFrom_snoc.
  rewrite Z.div_add_l, (Z.div_small (digitValue c)), Z.add_0_r by lia.
  rewrite IH by done. f_equal. f_equal.
  rewrite (Z.add_comm (_ * 10)), Z_mod_plus_full, Z.mod_small by lia.
  apply digitValue_inj. apply digitChar_spec. lia.
Qed.

Lemma decimalValue_bound l :
  forallb isdigit l = true → 0 ≤ decimalValue l < 10 ^ Z.of_nat (length l).
Proof.
  induction l as [|c l IH] using rev_ind; intros H.
  { unfold decimalValue. cbn. lia. }
  rewrite forallb_app in H. cbn in H. bool_to_prop.
  pose proof (digitValue_range c ltac:(done)) as Hc. specialize (IH ltac:(done)).
  unfold decimalValue in *. rewrite decimalFrom_snoc, length_app, Nat.add_comm.
  cbn -[Z.pow]. rewrite Nat2Z.inj_succ, Z.pow_succ_r by lia. lia.
Qed.

#[global] Arguments decimalValue _ : simpl never.
#[global] Arguments paddedDigits _ _ : simpl never.
