(* ===== verification/Validation.v ===== *)
(** Field validation: [src/domain/Validation.cpp], [src/domain/Validation.h] and
    the rule names of [src/domain/ValidationRules.h]. *)

From S2P Require Import Prelude.
From S2P Require Import Errors.

(** ** Constants *)

Definition MIN_PASSWORD_LENGTH : Z := 8.
Definition MAX_PASSWORD_LENGTH : Z := 256.
Definition MAX_EMAIL_LENGTH : Z := 254.
Definition MIN_DISPLAY_NAME_LENGTH : Z := 2.
Definition MAX_DISPLAY_NAME_LENGTH : Z := 64.

Module rules.
Definition EMAIL_REQUIRED : string := "email_required".
Definition EMAIL_TOO_LONG : string := "email_too_long".
Definition EMAIL_INVALID : string := "email_invalid".
Definition PASSWORD_REQUIRED : string := "password_required".
Definition PASSWORD_TOO_SHORT : string := "password_too_short".
Definition PASSWORD_TOO_LONG : string := "password_too_long".
Definition PASSWORD_BLANK : string := "password_blank".
Definition PASSWORD_UNCHANGED : string := "password_unchanged".
Definition DISPLAY_NAME_REQUIRED : string := "display_name_required".
Definition DISPLAY_NAME_TOO_SHORT : string := "display_name_too_short".
Definition DISPLAY_NAME_TOO_LONG : string := "display_name_too_long".
Definition DISPLAY_NAME_INVALID : string := "display_name_invalid".
Definition ERASURE_REASON_TOO_LONG : string := "erasure_reason_too_long".
Definition TITLE_REQUIRED : string := "title_required".
Definition TITLE_TOO_LONG : string := "title_too_long".
Definition SUMMARY_TOO_LONG : string := "summary_too_long".
Definition DESCRIPTION_TOO_LONG : string := "description_too_long".
Definition SLUG_REQUIRED : string := "slug_required".
Definition SLUG_TOO_LONG : string := "slug_too_long".
Definition SLUG_INVALID : string := "slug_invalid".
Definition RELEASE_DATE_INVALID : string := "release_date_invalid".
Definition VERSION_REQUIRED : string := "version_required".
Definition VERSION_INVALID : string := "version_invalid".
Definition VERSION_TOO_LARGE : string := "version_too_large".
Definition RELEASE_NOTES_TOO_LONG : string := "release_notes_too_long".
Definition BUILD_NAME_TOO_LONG : string := "build_name_too_long".
Definition PATCH_NOTE_TITLE_REQUIRED : string := "patch_note_title_required".
Definition PATCH_NOTE_TITLE_TOO_LONG : string := "patch_note_title_too_long".
Definition PATCH_NOTE_BODY_TOO_LONG : string := "patch_note_body_too_long".
Definition ALT_TEXT_TOO_LONG : string := "alt_text_too_long".
Definition ALT_TEXT_INVALID : string := "alt_text_invalid".
End rules.

(** ** Operations *)

Definition isControl (c : ascii) : bool := (byte c <? 32) || (byte c =? 127).

Definition containsControlCharacter (s : string) : bool := existsb isControl (chars s).

(** The two index loops: [begin] moves right over white space, then [end] moves
    left over it without passing [begin]. *)
Definition trimChars (l : list ascii) : list ascii :=
  dropWhileEnd isspace (dropWhile isspace l).

Definition trim (s : string) : string := text (trimChars (chars s)).

Definition normalizeEmail (email : string) : string :=
  text (map tolower (chars (trim email))).

Definition validateEmail (email : string) : VoidResult :=
  let candidate := trim email in
  if bool_decide (candidate = "") then
    Failure (invalidInput "email is required" rules.EMAIL_REQUIRED [])
  else if MAX_EMAIL_LENGTH <? size candidate then
    Failure (invalidInput "email is too long" rules.EMAIL_TOO_LONG
               [toDecimal MAX_EMAIL_LENGTH])
  else if containsControlCharacter candidate then
    Failure (invalidInput "email contains invalid characters" rules.EMAIL_INVALID [])
  else
    let noParts :=
      Failure (invalidInput "email must contain a local part and a domain"
                 rules.EMAIL_INVALID []) in
    match findChar "@" (chars candidate) with
    | None => noParts
    | Some at_ =>
        if bool_decide (at_ = 0)%nat
           || bool_decide (length (chars candidate) ≤ at_ + 1)%nat then noParts
        else
          let domain := drop (at_ + 1) (chars candidate) in
          if bool_decide (findChar "@" domain ≠ None) then
            Failure (invalidInput "email must contain exactly one '@'"
                       rules.EMAIL_INVALID [])
          else if existsb (λ c, ceqb c " " || (byte c =? 9)) (chars candidate) then
            Failure (invalidInput "email must not contain spaces" rules.EMAIL_INVALID [])
          else
            let badDomain :=
              Failure (invalidInput "email domain is not valid" rules.EMAIL_INVALID []) in
            match findChar "." domain with
            | None => badDomain
            | Some dot =>
                if bool_decide (dot = 0)%nat
                   || bool_decide (length domain ≤ dot + 1)%nat then badDomain
                else if bool_decide (head domain = Some "-"%char)
                        || bool_decide (last domain = Some "-"%char)
                        || bool_decide (last domain = Some "."%char) then badDomain
                else Success tt
            end
    end.

Definition validatePassword (password : string) : VoidResult :=
  if size password <? MIN_PASSWORD_LENGTH then
    Failure (invalidInput
               ("password must be at least " +:+ toDecimal MIN_PASSWORD_LENGTH
                +:+ " characters")
               rules.PASSWORD_TOO_SHORT [toDecimal MIN_PASSWORD_LENGTH])
  else if MAX_PASSWORD_LENGTH <? size password then
    Failure (invalidInput
               ("password must be at most " +:+ toDecimal MAX_PASSWORD_LENGTH
                +:+ " characters")
               rules.PASSWORD_TOO_LONG [toDecimal MAX_PASSWORD_LENGTH])
  else if bool_decide (trim password = "") then
    Failure (invalidInput "password must not consist only of whitespace"
               rules.PASSWORD_BLANK [])
  else Success tt.

Definition validateDisplayName (displayName : string) : VoidResult :=
  let candidate := trim displayName in
  if size candidate <? MIN_DISPLAY_NAME_LENGTH then
    Failure (invalidInput
               ("display name must be at least " +:+ toDecimal MIN_DISPLAY_NAME_LENGTH
                +:+ " characters")
               rules.DISPLAY_NAME_TOO_SHORT [toDecimal MIN_DISPLAY_NAME_LENGTH])
  else if MAX_DISPLAY_NAME_LENGTH <? size candidate then
    Failure (invalidInput
               ("display name must be at most " +:+ toDecimal MAX_DISPLAY_NAME_LENGTH
                +:+ " characters")
               rules.DISPLAY_NAME_TOO_LONG [toDecimal MAX_DISPLAY_NAME_LENGTH])
  else if containsControlCharacter candidate then
    Failure (invalidInput "display name contains invalid characters"
               rules.DISPLAY_NAME_INVALID [])
  else Success tt.

Definition UUID_HYPHENS : list nat := [8; 13; 18; 23]%nat.

Definition isUuid (value : string) : bool :=
  if negb (size value =? 36) then false
  else if negb (forallb (λ position, charIs value position "-") UUID_HYPHENS) then false
  else forallb
         (λ index, bool_decide (index ∈ UUID_HYPHENS)
                   || from_option isxdigit false (chars value !! index))
         (seq 0 36).

(** ** Specification *)

(** What an accepted address looks like: a local part and a domain around the
    only ['@'], with a dot strictly inside the domain. *)
Definition EmailShape (l : list ascii) : Prop :=
  ∃ localPart host tld,
    l = localPart ++ "@"%char :: host ++ "."%char :: tld ∧
    localPart ≠ [] ∧ host ≠ [] ∧ tld ≠ [] ∧
    "@"%char ∉ localPart ∧ "@"%char ∉ host ++ "."%char :: tld ∧ "."%char ∉ host ∧
    head host ≠ Some "-"%char ∧
    last tld ≠ Some "-"%char ∧ last tld ≠ Some "."%char ∧
    Forall (λ c, isControl c = false ∧ c ≠ " "%char) l ∧
    Z.of_nat (length l) ≤ MAX_EMAIL_LENGTH.

(** ** Lemmas *)

(** Trimming leaves nothing exactly when there was nothing but white space. *)
Lemma trim_blank s : trim s = ""%stdpp ↔ Forall (λ c, isspace c = true) (chars s).
Proof.
  unfold trim, trimChars. rewrite <- (text_chars ""). split.
  - intros E%text_inj. apply dropWhileEnd_nil in E.
    destruct (dropWhile isspace (chars s)) as [|x k] eqn:Ed; [by apply dropWhile_nil|].
    apply Forall_cons in E as [Hx _]. apply dropWhile_head in Ed. congruence.
  - intros E%dropWhile_nil. by rewrite E.
Qed.

(** A password of an acceptable length with one visible byte is accepted. *)
Lemma validatePassword_accepts s c :
  MIN_PASSWORD_LENGTH ≤ size s ≤ MAX_PASSWORD_LENGTH → c ∈ chars s → isspace c = false →
  validatePassword s = Success tt.
Proof.
  intros [Hlo Hhi] Hc Hs. unfold validatePassword.
  rewrite (proj2 (Z.ltb_ge _ _)), (proj2 (Z.ltb_ge _ _)) by lia.
  rewrite bool_decide_eq_false_2; [done|]. rewrite trim_blank, Forall_forall.
  intros H. specialize (H c Hc). congruence.
Qed.

Lemma trimChars_idemp l : trimChars (trimChars l) = trimChars l.
Proof.
  unfold trimChars. destruct (dropWhileEnd isspace (dropWhile isspace l)) as [|x k] eqn:E.
  { done. }
  assert (isspace x = false) as Hx.
  { destruct (dropWhileEnd_prefix isspace (dropWhile isspace l)) as [r Hr].
    rewrite E in Hr. eapply dropWhile_head. exact Hr. }
  rewrite dropWhile_stop by done. rewrite <- E at 1. by rewrite dropWhileEnd_idemp.
Qed.

Lemma trim_idemp s : trim (trim s) = trim s.
Proof. unfold trim. by rewrite chars_text, trimChars_idemp. Qed.

Lemma trimChars_nil l : trimChars l = [] ↔ Forall (λ c, isspace c = true) l.
Proof.
  unfold trimChars. rewrite dropWhileEnd_nil.
  destruct (dropWhile_suffix isspace l) as [k Hk]. split; intros H.
  - assert (dropWhile isspace l = []) as ?%dropWhile_nil; [|done].
    destruct (dropWhile isspace l) as [|x r] eqn:E; [done|].
    apply dropWhile_head in E. apply Forall_cons in H as [? _]. congruence.
  - apply dropWhile_nil in H as ->. done.
Qed.

(** Trimming keeps a contiguous part of the text. *)
Lemma trimChars_infix l : ∃ k r, l = k ++ trimChars l ++ r.
Proof.
  destruct (dropWhile_suffix isspace l) as [k Hk].
  destruct (dropWhileEnd_prefix isspace (dropWhile isspace l)) as [r Hr].
  exists k, r. unfold trimChars. by rewrite <- Hr, <- Hk.
Qed.

Lemma trim_size s : size (trim s) ≤ size s.
Proof.
  unfold trim. rewrite size_text. destruct (trimChars_infix (chars s)) as (k & r & H).
  unfold size. rewrite H at 2. rewrite !length_app. lia.
Qed.

Lemma trimChars_ends l x :
  (head (trimChars l) = Some x ∨ last (trimChars l) = Some x) → isspace x = false.
Proof.
  intros [H|H].
  - destruct (trimChars l) as [|y k] eqn:E; simplify_eq/=.
    destruct (dropWhileEnd_prefix isspace (dropWhile isspace l)) as [r Hr].
    unfold trimChars in E. rewrite E in Hr. eapply dropWhile_head. exact Hr.
  - eapply dropWhileEnd_last. exact H.
Qed.

Lemma trimChars_fixed l :
  (∀ x, head l = Some x → isspace x = false) →
  (∀ x, last l = Some x → isspace x = false) →
  trimChars l = l.
Proof.
  intros Hh Hl. unfold trimChars. destruct l as [|x l]; [done|].
  rewrite dropWhile_stop by (by apply Hh). unfold dropWhileEnd.
  destruct (reverse (x :: l)) as [|y k] eqn:E.
  { apply (f_equal reverse) in E. by rewrite reverse_involutive in E. }
  rewrite dropWhile_stop; [by rewrite <- E, reverse_involutive|].
  apply Hl. by rewrite <- (reverse_involutive (x :: l)), last_reverse, E.
Qed.

#[export] Hint Rewrite trim_idemp : launcher.

Lemma normalizeEmail_idemp email : normalizeEmail (normalizeEmail email) = normalizeEmail email.
Proof.
  unfold normalizeEmail, trim. rewrite !chars_text. f_equal.
  rewrite (trimChars_fixed (map tolower _)).
  - rewrite map_map. apply map_ext. intros c. apply tolower_idemp.
  - intros x. destruct (trimChars (chars email)) as [|y k] eqn:E; [done|].
    intros [= <-]. rewrite isspace_tolower. eapply trimChars_ends. left. by rewrite E.
  - intros x. change (map tolower) with (fmap (M := list) tolower).
    rewrite fmap_last. intros (y & H & ->)%fmap_Some. rewrite isspace_tolower.
    eapply trimChars_ends. by right.
Qed.

Lemma existsb_false_Forall {A} (p : A → bool) l :
  existsb p l = false ↔ Forall (λ x, p x = false) l.
Proof.
  induction l as [|x l IH]; cbn; [done|]. rewrite orb_false_iff, Forall_cons. tauto.
Qed.

Lemma trim_empty s : trim s = ""%stdpp ↔ chars (trim s) = [].
Proof.
  split; [by intros ->|]. intros H. apply chars_inj. by rewrite H.
Qed.

Lemma findChar_parts c l i :
  findChar c l = Some i →
  ∃ k r, l = k ++ c :: r ∧ length k = i ∧ c ∉ k ∧ drop (i + 1) l = r.
Proof.
  intros H. pose proof (findChar_Some _ _ _ H) as [Hl Hn].
  exists (take i l), (drop (S i) l). rewrite Nat.add_1_r.
  split_and!; [done| |done|done].
  apply length_take_le. apply (f_equal length) in Hl.
  rewrite length_app, length_cons, length_take in Hl. lia.
Qed.

(** The domain half of [validateEmail]. *)
Lemma domain_shape domain :
  (∃ dot, findChar "." domain = Some dot ∧
     bool_decide (dot = 0)%nat || bool_decide (length domain ≤ dot + 1)%nat = false ∧
     bool_decide (head domain = Some "-"%char)
     || bool_decide (last domain = Some "-"%char)
     || bool_decide (last domain = Some "."%char) = false) ↔
  (∃ host tld, domain = host ++ "."%char :: tld ∧ host ≠ [] ∧ tld ≠ [] ∧
     "."%char ∉ host ∧ head host ≠ Some "-"%char ∧
     last tld ≠ Some "-"%char ∧ last tld ≠ Some "."%char).
Proof.
  split.
  - intros (dot & Hd & H1 & H2).
    apply findChar_parts in Hd as (host & tld & -> & Hlen & Hn & _).
    rewrite length_app, length_cons in H1. bool_to_prop.
    exists host, tld. assert (host ≠ []) by (intros ->; cbn in *; lia).
    assert (tld ≠ []) by (intros ->; cbn in *; lia).
    split_and!; try done.
    + by destruct host.
    + by rewrite last_app_cons, last_cons_ne in * by done.
    + by rewrite last_app_cons, last_cons_ne in * by done.
  - intros (host & tld & -> & ? & ? & Hn & Hh & Hl1 & Hl2).
    exists (length host). rewrite findChar_split by done. split; [done|].
    rewrite length_app, length_cons, last_app_cons, last_cons_ne by done.
    split; rewrite ?orb_false_iff, ?bool_decide_eq_false.
    + destruct host, tld; cbn; [done..|]. cbn. lia.
    + destruct host; [done|]. cbn in *. tauto.
Qed.

Lemma isControl_at : isControl "@" = false.
Proof. reflexivity. Qed.

(** The per-byte refusals of [validateEmail], taken together. *)
Lemma email_bytes l :
  (existsb isControl l = false ∧ existsb (λ c, ceqb c " " || (byte c =? 9)) l = false) ↔
  Forall (λ c, isControl c = false ∧ c ≠ " "%char) l.
Proof.
  rewrite !existsb_false_Forall, <- Forall_and. apply Forall_iff. intros c. cbn.
  rewrite orb_false_iff, ceqb_neq. split; [tauto|].
  intros [H1 H2]. split_and!; try done.
  unfold isControl in H1. bool_to_prop. apply Z.eqb_neq. lia.
Qed.

(** ** Theorems *)

(** An address is accepted exactly when its trimmed text has the documented
    shape: one ['@'] between a non-empty local part and a domain with an inner dot
    that neither starts nor ends with a hyphen nor ends with a dot, no control byte
    or blank, and at most 254 bytes. *)
Theorem validateEmail_correct email :
  validateEmail email = Success tt ↔ EmailShape (chars (trim email)).
Proof.
  unfold validateEmail, containsControlCharacter, size.
  set (l := chars (trim email)).
  assert (bool_decide (trim email = "") = bool_decide (l = [])) as ->
    by (apply bool_decide_ext, trim_empty).
  split.
  - intros H. case_bool_decide as H0; [done|].
    destruct (MAX_EMAIL_LENGTH <? Z.of_nat (length l)) eqn:Hs; [done|].
    destruct (existsb isControl l) eqn:Hc; [done|].
    destruct (findChar "@" l) as [i|] eqn:Ha; [|done].
    destruct (bool_decide (i = 0)%nat || bool_decide (length l ≤ i + 1)%nat) eqn:Hi; [done|].
    case_bool_decide as Hd; [done|]. apply findChar_None in Hd.
    destruct (existsb _ l) eqn:Hsp in H; [done|].
    apply findChar_parts in Ha as (k & r & Hl & Hk & Hnk & Hr).
    rewrite Hr in *.
    destruct (domain_shape r) as [(host & tld & -> & ?) _].
    { destruct (findChar "." r) as [dot|] eqn:Hdot; [|done]. exists dot.
      destruct (bool_decide (dot = 0)%nat || _) eqn:?; [done|].
      by destruct (bool_decide (head r = _) || _ || _) eqn:?. }
    destruct_and!. exists k, host, tld. bool_to_prop.
    split_and!; try done; try lia.
    + intros ->. cbn in *. lia.
    + by apply email_bytes.
  - intros (k & host & tld & Hl & Hk & Hh & Ht & Hnk & Hnd & Hdot & H1 & H2 & H3 & Hb & Hs).
    apply email_bytes in Hb as [-> Hsp].
    rewrite bool_decide_eq_false_2 by (rewrite Hl; by destruct k).
    apply Z.ltb_ge in Hs as ->.
    rewrite Hl at 1. rewrite findChar_split by done. rewrite Hsp.
    replace (drop (length k + 1) l) with (host ++ "."%char :: tld).
    2: { rewrite Hl, drop_app_ge by lia. by replace (_ - _)%nat with 1%nat by lia. }
    destruct (proj2 (domain_shape (host ++ "."%char :: tld))) as (dot & -> & -> & ->).
    { by exists host, tld. }
    rewrite bool_decide_eq_false_2 by (by destruct k).
    rewrite bool_decide_eq_false_2.
    2: { rewrite Hl, length_app, length_cons, length_app, length_cons.
         destruct host; [done|]. cbn. lia. }
    rewrite (proj2 (findChar_None _ _) Hnd). done.
Qed.
