(* ===== verification/Json.v ===== *)
(** Documents that cross the wire: what the code asks of a [Json::Value] it was sent, and what
    it puts in one it sends. *)

From Stdlib Require Import SpecFloat.
From S2P Require Import Prelude.
From S2P Require Import Decimals.

Notation double := spec_float (only parsing).

(** ** What is written *)

(** A document as the code puts it together; [JParsed] is one that was read and is passed on. *)
Inductive Json (V : Type) : Type :=
| JBool (b : bool)
| JInt (z : Z)
| JReal (x : double)
| JText (s : string)
| JArray (items : list (Json V))
| JObject (members : list (string * Json V))
| JParsed (v : V).
Arguments JBool {V} _.
Arguments JInt {V} _.
Arguments JReal {V} _.
Arguments JText {V} _.
Arguments JArray {V} _.
Arguments JObject {V} _.
Arguments JParsed {V} _.

Definition JTexts {V} (l : list string) : Json V := JArray (map JText l).

(** ** What is read *)

(** [Json::CharReader], and the methods of [Json::Value].  The ones that throw for some values
    give [None] there: a conversion of something that cannot be converted, and [isMember] of
    something that is neither an object nor null. *)
Class Jsoncpp := {
  Value : Type;
  readJson : string → option Value;
  isObject : Value → bool;
  isArray : Value → bool;
  isString : Value → bool;
  isBool : Value → bool;
  isNumeric : Value → bool;
  isIntegral : Value → bool;
  isInt64 : Value → bool;
  isMember : Value → string → option bool;
  member : Value → string → Value;
  elements : Value → list Value;
  asInt : Value → option Z;
  asInt64 : Value → option Z;
  asString : Value → option string;
  asBool : Value → option bool;
  asDouble : Value → option double
}.

(** What the documentation of jsoncpp promises of these methods. *)
Class JsoncppLaws `{Jsoncpp} := {
  isMember_object v name : isObject v = true → ∃ b, isMember v name = Some b;
  asString_string v : isString v = true → ∃ s, asString v = Some s;
  asBool_bool v : isBool v = true → ∃ b, asBool v = Some b;
  asInt64_int64 v : isInt64 v = true → ∃ z, asInt64 v = Some z ∧ inInt64 z
}.

(** ** A reader of plain values *)

(** Values without a fractional part, as a reader of them would hold them. *)
Inductive PlainValue :=
| PlainNull
| PlainBool (b : bool)
| PlainNumber (z : Z)
| PlainText (s : string)
| PlainArray (items : list PlainValue)
| PlainObject (members : list (string * PlainValue)).

Definition plainMember (v : PlainValue) (name : string) : option PlainValue :=
  match v with
  | PlainObject members => snd <$> List.find (λ m : string * PlainValue, bool_decide (m.1 = name)) members
  | _ => None
  end.

Definition fitsInt64 (z : Z) : bool := (INT64_MIN <=? z) && (z <=? INT64_MAX).

Definition plainBool (v : PlainValue) : option bool :=
  match v with
  | PlainNull => Some false
  | PlainBool b => Some b
  | PlainNumber z => Some (negb (z =? 0))
  | _ => None
  end.

Definition plainString (v : PlainValue) : option string :=
  match v with
  | PlainNull => Some ""%stdpp
  | PlainBool b => Some (if b then "true" else "false")%stdpp
  | PlainNumber z => Some (toDecimal z)
  | PlainText s => Some s
  | _ => None
  end.

Definition plainJson (read : string → option PlainValue) : Jsoncpp := {|
  Value := PlainValue;
  readJson := read;
  isObject v := match v with PlainObject _ => true | _ => false end;
  isArray v := match v with PlainArray _ => true | _ => false end;
  isString v := match v with PlainText _ => true | _ => false end;
  isBool v := match v with PlainBool _ => true | _ => false end;
  isNumeric v := match v with PlainNumber _ => true | _ => false end;
  isIntegral v := match v with PlainNumber _ => true | _ => false end;
  isInt64 v := match v with PlainNumber z => fitsInt64 z | _ => false end;
  isMember v name :=
    match v with
    | PlainObject _ => Some (match plainMember v name with None => false | Some _ => true end)
    | PlainNull => Some false
    | _ => None
    end;
  member v name := match plainMember v name with None => PlainNull | Some x => x end;
  elements v := match v with PlainArray items => items | _ => [] end;
  asInt v := match v with PlainNumber z => if (-2147483648 <=? z) && (z <=? INT32_MAX) then Some z else None | _ => None end;
  asInt64 v := match v with PlainNumber z => if fitsInt64 z then Some z else None | _ => None end;
  asString := plainString;
  asBool := plainBool;
  asDouble v := match v with PlainNumber z => Some (binary_normalize 53 1024 z 0 false) | _ => None end
|}.

#[export] Instance plainJson_laws read : @JsoncppLaws (plainJson read).
Proof.
  split.
  - intros [| | | | |members] name E; try discriminate E. by eexists.
  - intros [| | |s| |] E; try discriminate E. by eexists.
  - intros [|b| | | |] E; try discriminate E. by eexists.
  - intros [| |z| | |] E; try discriminate E. cbn in *. rewrite E. exists z. split; [done|].
    apply andb_true_iff in E as [E1 E2]. unfold inInt64. lia.
Qed.
