(* ===== verification/Time.v ===== *)
(** Instants on the calendar: [src/common/Time.cpp], with the Gregorian calendar of the C
    library, and the days PostgreSQL counts by. *)

From S2P Require Import Prelude.
From S2P Require Import Decimals.

Definition SECONDS_PER_DAY : Z := 86400.

(** The date of a day within an era of 146097 days that begins on a first of March. *)
Definition eraDate (dayOfEra : Z) : Z * Z * Z :=
  let year := (dayOfEra - dayOfEra / 1460 + dayOfEra / 36524 - dayOfEra / 146096) / 365 in
  let dayOfYear := dayOfEra - (365 * year + year / 4 - year / 100) in
  let month := (5 * dayOfYear + 2) / 153 in
  (year, month, dayOfYear - (153 * month + 2) / 5 + 1).

(** Year, month and day of a number of days since 1970. *)
Definition civilDate (day : Z) : Z * Z * Z :=
  let shifted := day + 719468 in
  let '(year, month, dayOfMonth) := eraDate (shifted mod 146097) in
  let january := if month <? 10 then month + 3 else month - 9 in
  (year + 400 * (shifted / 146097) + (if january <=? 2 then 1 else 0), january, dayOfMonth).

Definition padded2 (z : Z) : string := text (paddedDigits 2 z).

(** [gmtime_r], whose years are counted from 1900 in an [int], and [strftime]. *)
Definition formatUnixTimeUtc (seconds : Z) : string :=
  let '(year, month, day) := civilDate (seconds / SECONDS_PER_DAY) in
  let time := seconds mod SECONDS_PER_DAY in
  if (- INT32_MAX - 1 <=? year - 1900) && (year - 1900 <=? INT32_MAX) then
    toDecimal year +:+ "-" +:+ padded2 month +:+ "-" +:+ padded2 day
    +:+ "T" +:+ padded2 (time / 3600) +:+ ":" +:+ padded2 (time / 60 mod 60) +:+ ":" +:+ padded2 (time mod 60) +:+ "Z"
  else "".

(** The UTC day of an instant, and [to_char(day, 'YYYY-MM-DD')]. *)
Definition utcDay (seconds : Z) : Z := seconds / SECONDS_PER_DAY.

Definition dayText (day : Z) : string :=
  let '(year, month, dayOfMonth) := civilDate day in
  text (paddedDigits 4 year) +:+ "-" +:+ padded2 month +:+ "-" +:+ padded2 dayOfMonth.

Example epoch : formatUnixTimeUtc 0 = "1970-01-01T00:00:00Z"%stdpp.
Proof. by vm_compute. Qed.

Example before_the_epoch : formatUnixTimeUtc (-1) = "1969-12-31T23:59:59Z"%stdpp.
Proof. by vm_compute. Qed.

Example leap_day : formatUnixTimeUtc 951827696 = "2000-02-29T12:34:56Z"%stdpp.
Proof. by vm_compute. Qed.

Example no_leap_day : formatUnixTimeUtc 4107542400 = "2100-03-01T00:00:00Z"%stdpp.
Proof. by vm_compute. Qed.
