(* ===== verification/Semver.v ===== *)
(** Version numbers: [src/domain/Semver.h] and [src/domain/Semver.cpp]. *)

From S2P Require Import Prelude.
From S2P Require Import Errors.
From S2P Require Import Decimals.
From S2P Require Import Validation.

(** ** Data *)

Record Semver := mkSemver {
  major : Z;
  minor : Z;
  patch : Z;
  semverText : string
}.

#[export] Instance Semver_eq_dec : EqDecision Semver.
Proof. solve_decision. Defined.

Definition MAX_VERSION_COMPONENT : Z := 999999.

(** ** Operations *)

(** The digit loop of [parseComponent], on an [int]. *)
Fixpoint componentLoop (value : Z) (l : list ascii) : Result Z :=
  match l with
  | [] => Success value
  | c :: l' =>
      if negb (isdigit c) then
        Failure (invalidInput "version components must be numeric" rules.VERSION_INVALID [])
      else
        let value' := wrapSigned 32 (value * 10 + digitValue c) in
        if MAX_VERSION_COMPONENT <? value' then
          Failure (invalidInput "version components are too large" rules.VERSION_TOO_LARGE
                     [toDecimal MAX_VERSION_COMPONENT])
        else componentLoop value' l'
  end.

Definition parseComponent (l : list ascii) : Result Z :=
  if bool_decide (l = []) then
    Failure (invalidInput "version components must not be empty" rules.VERSION_INVALID [])
  else if bool_decide (1 < length l)%nat && bool_decide (head l = Some "0"%char) then
    Failure (invalidInput "version components must not have leading zeros"
               rules.VERSION_INVALID [])
  else componentLoop 0 l.

(** The loop over [targets]: the first failing component ends the parse. *)
Fixpoint parseComponents (parts : list (list ascii)) : Result (list Z) :=
  match parts with
  | [] => Success []
  | p :: parts' =>
      let? n := parseComponent p in
      let? ns := parseComponents parts' in
      Success (n :: ns)
  end.

(** Omitted components keep the value the [Semver] was initialised with. *)
Definition semverOf (ns : list Z) (written : string) : Semver :=
  mkSemver (nth 0 ns 0) (nth 1 ns 0) (nth 2 ns 0) written.

Definition parseSemver (input : string) : Result Semver :=
  let written := trim input in
  if bool_decide (written = "") then
    Failure (invalidInput "a version is required" rules.VERSION_REQUIRED [])
  else
    let parts := splitOn "." (chars written) in
    if bool_decide (3 < length parts)%nat then
      Failure (invalidInput "a version has at most three components, e.g. 1.2.3"
                 rules.VERSION_INVALID [])
    else
      let? ns := parseComponents parts in
      Success (semverOf ns written).

(** ** Specification *)

(** The numbers a version text denotes: one to three of them, each printed in
    canonical decimal form and separated by dots. *)
Definition VersionText (ns : list Z) (written : string) : Prop :=
  (1 ≤ length ns ≤ 3)%nat ∧
  Forall (λ n, 0 ≤ n ≤ MAX_VERSION_COMPONENT) ns ∧
  chars written = joinOn "." (map (λ n, chars (toDecimal n)) ns).

(** ** Lemmas *)

(** Below the bound the [int] arithmetic of the loop never wraps. *)
Lemma componentLoop_step v d :
  0 ≤ v ≤ MAX_VERSION_COMPONENT → 0 ≤ d ≤ 9 →
  wrapSigned 32 (v * 10 + d) = v * 10 + d.
Proof.
  unfold MAX_VERSION_COMPONENT. intros. apply wrapSigned_id; [lia|].
  change (2 ^ (32 - 1)) with 2147483648. lia.
Qed.

Lemma componentLoop_spec v l n :
  0 ≤ v ≤ MAX_VERSION_COMPONENT →
  componentLoop v l = Success n ↔
  forallb isdigit l = true ∧ decimalFrom v l = n ∧ n ≤ MAX_VERSION_COMPONENT.
Proof.
  revert v; induction l as [|c l IH]; intros v Hv;
    cbn [componentLoop forallb]; rewrite ?decimalFrom_cons.
  - split; [intros [= <-]; split_and!; [done|done|lia]|by intros (_ & <- & _)].
  - destruct (isdigit c) eqn:Hc; cbn [negb andb]; [|split; [done|by intros [? _]]].
    pose proof (digitValue_range _ Hc). rewrite componentLoop_step by done.
    destruct (MAX_VERSION_COMPONENT <? _) eqn:E; bool_to_prop.
    + split; [done|]. intros (Hd & <- & Hle).
      pose proof (decimalFrom_nonneg (v * 10 + digitValue c) l ltac:(lia) Hd). lia.
    + by rewrite IH by lia.
Qed.

Lemma parseComponent_spec l n :
  parseComponent l = Success n ↔
  canonicalNumeral l ∧ decimalValue l = n ∧ n ≤ MAX_VERSION_COMPONENT.
Proof.
  unfold parseComponent, canonicalNumeral.
  case_bool_decide as H0; [split; [done|naive_solver]|].
  destruct (bool_decide (1 < length l)%nat && _) eqn:Hz.
  - bool_to_prop. split; [done|]. intros ((_ & _ & Hh) & _). rewrite Hh in H by done.
    cbn in H. lia.
  - rewrite componentLoop_spec by (unfold MAX_VERSION_COMPONENT; lia).
    split; [|tauto]. intros (Hd & Hv & Hle). split_and!; try done.
    intros Hh. apply andb_false_iff in Hz as [Hz|Hz]; bool_to_prop; [|done].
    destruct l as [|c [|]]; cbn in *; [done|congruence|lia].
Qed.

Lemma parseComponents_spec parts ns :
  parseComponents parts = Success ns ↔
  parts = map (λ n, chars (toDecimal n)) ns ∧
  Forall (λ n, 0 ≤ n ≤ MAX_VERSION_COMPONENT) ns.
Proof.
  revert ns; induction parts as [|p parts IH]; intros ns; cbn.
  { split; [by intros [= <-]|]. by destruct ns as [|? ?]; [|intros [? _]]. }
  destruct (parseComponent p) as [n|e] eqn:Hp.
  - apply parseComponent_spec in Hp as (Hc & <- & Hle).
    pose proof (canonicalNumeral_toDecimal _ Hc) as Hp.
    pose proof (canonicalNumeral_value_nonneg _ Hc).
    destruct (parseComponents parts) as [ms|e] eqn:Hps.
    + split.
      * intros [= <-]. destruct (proj1 (IH ms) eq_refl) as [-> Hms]. cbn.
        rewrite Hp. split; [done|]. by constructor.
      * destruct ns as [|n ns]; [by intros [? _]|]. intros [[= E1 E2] HF].
        apply Forall_cons in HF as [? HF].
        specialize (proj2 (IH ns) (conj E2 HF)) as [= ->].
        rewrite <- Hp in E1. apply chars_inj, toDecimal_inj in E1. by rewrite E1.
    + split; [done|]. destruct ns as [|n ns]; [by intros [? _]|]. intros [[= E1 E2] HF].
      apply Forall_cons in HF as [? HF]. by specialize (proj2 (IH ns) (conj E2 HF)).
  - split; [done|]. destruct ns as [|n ns]; [by intros [? _]|]. intros [[= E1 E2] HF].
    apply Forall_cons in HF as [Hn HF].
    destruct (toDecimal_spec n ltac:(lia)) as [Hc Hv].
    assert (parseComponent p = Success n) as Hp'; [|congruence].
    apply parseComponent_spec. rewrite E1. split_and!; [done|done|lia].
Qed.

Lemma toDecimal_no_dot n : 0 ≤ n → "."%char ∉ chars (toDecimal n).
Proof.
  intros Hn. pose proof (toDecimal_digits n Hn) as H.
  intros Hin. rewrite forallb_forall in H. specialize (H "."%char).
  apply list_elem_of_In in Hin. by specialize (H Hin).
Qed.

(** ** Theorems *)

(** [parseSemver] accepts exactly the texts that, once trimmed, are one to
    three canonical decimal numbers up to 999999 joined by dots, and returns those
    numbers (a missing one is zero) with the trimmed text; the [int] arithmetic of
    the digit loop never overflows on the way. *)
Theorem parseSemver_correct input v :
  parseSemver input = Success v ↔
  ∃ ns, VersionText ns (trim input) ∧ v = semverOf ns (trim input).
Proof.
  unfold parseSemver, VersionText. set (t := trim input). clearbody t. clear input.
  case_bool_decide as H0.
  { subst t. split; [done|]. intros (ns & (Hl & HF & Ht) & _). change (chars "") with (@nil ascii) in Ht.
    destruct ns as [|n ns]; [cbn in Hl; lia|]. apply Forall_cons in HF as [Hn _].
    destruct (toDecimal_spec n ltac:(lia)) as [(Hne & _) _].
    destruct ns; cbn in Ht; [congruence|]. by destruct (chars (toDecimal n)). }
  assert (∀ ns, VersionText ns t →
          splitOn "." (chars t) = map (λ n, chars (toDecimal n)) ns) as Hsplit.
  { intros ns (Hl & HF & ->). apply splitOn_joinOn.
    - by destruct ns; [cbn in Hl; lia|].
    - rewrite Forall_map. eapply Forall_impl; [exact HF|].
      intros n [Hn _]. by apply toDecimal_no_dot. }
  split.
  - case_bool_decide as H3; [done|].
    destruct (parseComponents _) as [ns|] eqn:Hp; [|done]. intros [= <-].
    apply parseComponents_spec in Hp as [Hp HF]. exists ns. split_and!; [| |done| |done].
    + pose proof (splitOn_nonempty "." (chars t)). destruct ns; [by rewrite Hp in *|cbn; lia].
    + rewrite Hp, length_map in H3. lia.
    + by rewrite <- Hp, joinOn_splitOn.
  - intros (ns & (Hl & HF & Ht) & ->).
    rewrite (Hsplit ns) by done. rewrite length_map, bool_decide_eq_false_2 by lia.
    by rewrite (proj2 (parseComponents_spec _ ns)).
Qed.
