(* ===== verification/Actors.v ===== *)
(** Who is asking, and what they may do: [src/domain/Actor.h], [src/domain/Role.h]
    and [src/domain/Admin.h]. *)

From S2P Require Import Prelude.

(** ** Data *)

Module roles.
Definition PLAYER : string := "player".
Definition DEV : string := "dev".
Definition ADMIN : string := "admin".
End roles.

Module permissions.
Definition LIBRARY_READ : string := "library.read".
Definition LIBRARY_MANAGE : string := "library.manage".
Definition GAME_READ : string := "game.read".
Definition GAME_DOWNLOAD : string := "game.download".
Definition GAME_PUBLISH : string := "game.publish".
Definition BUILD_UPLOAD : string := "build.upload".
Definition PATCHNOTE_WRITE : string := "patchnote.write".
Definition ADMIN_USERS_MANAGE : string := "admin.users.manage".
Definition ADMIN_ROLES_MANAGE : string := "admin.roles.manage".
Definition ADMIN_GAMES_MANAGE : string := "admin.games.manage".
Definition ADMIN_SETTINGS_MANAGE : string := "admin.settings.manage".
Definition ADMIN_CRASHES_READ : string := "admin.crashes.read".
End permissions.

Record Role := mkRole { roleId : Z; roleKey : string; roleDescription : string }.

Record Actor := mkActor {
  actorUserId : string;
  heldPermissions : list string
}.

(** ** Operations *)

Definition can (a : Actor) (permission : string) : bool :=
  existsb (λ held, bool_decide (held = permission)) (heldPermissions a).

Definition managesAnyGame (a : Actor) : bool := can a permissions.ADMIN_GAMES_MANAGE.

Definition owns (a : Actor) (publisherUserId : string) : bool :=
  bool_decide (actorUserId a = publisherUserId).

Definition isAdministrativePermission (permission : string) : bool :=
  (6 <? size permission) && bool_decide (substr permission 0 6 = "admin.").

Definition mayUseAdminSurface (a : Actor) : bool :=
  existsb isAdministrativePermission (heldPermissions a).

(** ** Lemmas *)

Lemma can_spec a p : can a p = true ↔ p ∈ heldPermissions a.
Proof.
  unfold can. rewrite existsb_exists. setoid_rewrite bool_decide_eq_true.
  rewrite list_elem_of_In. split; [by intros (x & ? & ->)|eauto].
Qed.

Lemma owns_spec a u : owns a u = true ↔ actorUserId a = u.
Proof. apply bool_decide_eq_true. Qed.

(** Whoever may edit somebody else's games may also sign in on the console. *)
Lemma managesAnyGame_admin a : managesAnyGame a = true → mayUseAdminSurface a = true.
Proof.
  unfold managesAnyGame, mayUseAdminSurface. rewrite can_spec, existsb_exists.
  intros H%list_elem_of_In. by exists permissions.ADMIN_GAMES_MANAGE.
Qed.
