(* ===== verification/Catalog.v ===== *)
(** The catalog's data and pure rules: [src/domain/Catalog.h] and
    [src/domain/Catalog.cpp].  Enumerations and their wire names, slugs, release
    dates, games, versions and builds, and the four authorization rules. *)

From S2P Require Import Prelude.
From S2P Require Import Errors.
From S2P Require Import Decimals.
From S2P Require Import Validation.
From S2P Require Import Semver.
From S2P Require Import Actors.

(** ** Enumerations *)

Inductive GameVisibility := Draft | Unlisted | Public.

Inductive BuildStage := Demo | Alpha | Beta | Release.

Inductive BuildPlatform := Windows | Linux | MacOS.

Inductive BuildArchitecture := X64 | Arm64.

Inductive BuildStatus := Uploading | Ready | Failed.

#[export] Instance GameVisibility_eq_dec : EqDecision GameVisibility.
Proof. solve_decision. Defined.
#[export] Instance BuildStage_eq_dec : EqDecision BuildStage.
Proof. solve_decision. Defined.
#[export] Instance BuildPlatform_eq_dec : EqDecision BuildPlatform.
Proof. solve_decision. Defined.
#[export] Instance BuildArchitecture_eq_dec : EqDecision BuildArchitecture.
Proof. solve_decision. Defined.
#[export] Instance BuildStatus_eq_dec : EqDecision BuildStatus.
Proof. solve_decision. Defined.

Definition GameVisibility_toString (v : GameVisibility) : string :=
  match v with Unlisted => "unlisted" | Public => "public" | Draft => "draft" end.

Definition BuildStage_toString (v : BuildStage) : string :=
  match v with
  | Demo => "demo" | Alpha => "alpha" | Beta => "beta" | Release => "release"
  end.

Definition BuildPlatform_toString (v : BuildPlatform) : string :=
  match v with Linux => "linux" | MacOS => "macos" | Windows => "windows" end.

Definition BuildArchitecture_toString (v : BuildArchitecture) : string :=
  match v with Arm64 => "arm64" | X64 => "x64" end.

Definition BuildStatus_toString (v : BuildStatus) : string :=
  match v with Ready => "ready" | Failed => "failed" | Uploading => "uploading" end.

Definition sameText (s t : string) : bool := bool_decide (s = t).

Definition parseGameVisibility (value : string) : option GameVisibility :=
  if sameText value "draft" then Some Draft
  else if sameText value "unlisted" then Some Unlisted
  else if sameText value "public" then Some Public
  else None.

Definition parseBuildStage (value : string) : option BuildStage :=
  if sameText value "demo" then Some Demo
  else if sameText value "alpha" then Some Alpha
  else if sameText value "beta" then Some Beta
  else if sameText value "release" then Some Release
  else None.

Definition parseBuildPlatform (value : string) : option BuildPlatform :=
  if sameText value "windows" then Some Windows
  else if sameText value "linux" then Some Linux
  else if sameText value "macos" then Some MacOS
  else None.

Definition parseBuildArchitecture (value : string) : option BuildArchitecture :=
  if sameText value "x64" then Some X64
  else if sameText value "arm64" then Some Arm64
  else None.

Definition parseBuildStatus (value : string) : option BuildStatus :=
  if sameText value "uploading" then Some Uploading
  else if sameText value "ready" then Some Ready
  else if sameText value "failed" then Some Failed
  else None.

(** ** Bounds *)

Definition MAX_SLUG_LENGTH : Z := 80.
Definition MAX_TITLE_LENGTH : Z := 200.
Definition MAX_SUMMARY_LENGTH : Z := 500.
Definition MAX_DESCRIPTION_LENGTH : Z := 20000.
Definition MAX_RELEASE_NOTES_LENGTH : Z := 20000.
Definition MAX_LAUNCH_ARGS_LENGTH : Z := 1000.
Definition MAX_BUILD_NAME_LENGTH : Z := 100.

(** ** Slugs *)

Definition slugChar (c : ascii) : bool := byteInRange 97 122 c || byteInRange 48 57 c.

(** The character loop: [None] when it refuses, otherwise the final value of
    [previousWasHyphen]. *)
Fixpoint slugLoop (previousWasHyphen : bool) (l : list ascii) : option bool :=
  match l with
  | [] => Some previousWasHyphen
  | c :: l' =>
      if slugChar c then slugLoop false l'
      else if ceqb c "-" && negb previousWasHyphen then slugLoop true l'
      else None
  end.

Definition validateSlug (slug : string) : VoidResult :=
  if bool_decide (slug = "") then
    Failure (invalidInput "slug must not be empty" rules.SLUG_REQUIRED [])
  else if MAX_SLUG_LENGTH <? size slug then
    Failure (invalidInput
               ("slug must be at most " +:+ toDecimal MAX_SLUG_LENGTH +:+ " characters")
               rules.SLUG_TOO_LONG [toDecimal MAX_SLUG_LENGTH])
  else
    match slugLoop true (chars slug) with
    | None =>
        Failure (invalidInput
          "slug must be lowercase letters, digits and single hyphens, e.g. my-great-game"
          rules.SLUG_INVALID [])
    | Some true =>
        Failure (invalidInput "slug must not end with a hyphen" rules.SLUG_INVALID [])
    | Some false => Success tt
    end.

(** One step of the [slugify] loop: [push_back] on the slug built so far. *)
Definition slugifyStep (slug : list ascii) (c : ascii) : list ascii :=
  if isalnum c then slug ++ [tolower c]
  else if bool_decide (slug ≠ []) && negb (bool_decide (last slug = Some "-"%char))
  then slug ++ ["-"%char]
  else slug.

Definition popHyphens (slug : list ascii) : list ascii := dropWhileEnd (λ c, ceqb c "-") slug.

Definition slugify (title : string) : string :=
  let slug := popHyphens (foldl slugifyStep [] (chars title)) in
  text (if MAX_SLUG_LENGTH <? Z.of_nat (length slug)
        then popHyphens (take (Z.to_nat MAX_SLUG_LENGTH) slug)
        else slug).

(** ** Dates *)

Definition isDigits (l : list ascii) : bool := forallb isdigit l && bool_decide (l ≠ []).

Definition monthLengths : list Z := [31; 28; 31; 30; 31; 30; 31; 31; 30; 31; 30; 31].

Definition isLeapYear (year : Z) : bool :=
  ((Z.rem year 4 =? 0) && negb (Z.rem year 100 =? 0)) || (Z.rem year 400 =? 0).

Definition daysInMonth (year month : Z) : Z :=
  if month =? 2 then (if isLeapYear year then 29 else 28)
  else nth (Z.to_nat (month - 1)) monthLengths 0.

(** [std::stoi] on a run of at most four digits. *)
Definition stoi (l : list ascii) : Z := decimalValue l.

Definition validateReleaseDate (date : string) : VoidResult :=
  let malformed :=
    Failure (invalidInput "releaseDate must be an ISO date, e.g. 2026-04-30"
               rules.RELEASE_DATE_INVALID []) in
  let field pos count := take count (drop pos (chars date)) in
  if negb (size date =? 10) || negb (charIs date 4 "-") || negb (charIs date 7 "-")
  then malformed
  else if negb (isDigits (field 0%nat 4%nat)) || negb (isDigits (field 5%nat 2%nat))
          || negb (isDigits (field 8%nat 2%nat)) then malformed
  else
    let year := stoi (field 0%nat 4%nat) in
    let month := stoi (field 5%nat 2%nat) in
    let day := stoi (field 8%nat 2%nat) in
    if (year <? 1970) || (9999 <? year) || (month <? 1) || (12 <? month) || (day <? 1)
       || (daysInMonth year month <? day) then malformed
    else Success tt.

(** ** Games, versions and builds *)

Record Game := mkGame {
  gameId : string;
  slug : string;
  title : string;
  summary : string;
  description : string;
  publisherUserId : string;
  publisherDisplayName : string;
  releaseDate : string;
  visibility : GameVisibility;
  gameCreatedAt : string;
  gameUpdatedAt : string;
  coverStorageKey : string
}.

Record GameVersion := mkGameVersion {
  versionId : string;
  versionGameId : string;
  semver : string;
  versionMajor : Z;
  versionMinor : Z;
  versionPatch : Z;
  stage : BuildStage;
  releaseNotes : string;
  publishedAt : string;
  versionCreatedAt : string
}.

Record Build := mkBuild {
  buildId : string;
  buildVersionId : string;
  buildName : string;
  platform : BuildPlatform;
  architecture : BuildArchitecture;
  status : BuildStatus;
  buildManifestSha256 : string;
  totalSizeBytes : Z;
  fileCount : Z;
  entrypointRelativePath : string;
  defaultLaunchArgs : string;
  buildCreatedAt : string;
  readyAt : string
}.

Record BuildOwnership := mkBuildOwnership {
  ownBuildId : string;
  ownVersionId : string;
  ownGameId : string;
  ownPublisherUserId : string;
  ownVisibility : GameVisibility;
  ownStatus : BuildStatus;
  versionPublished : bool
}.


Record NewGame := mkNewGame {
  newSlug : string;
  newTitle : string;
  newSummary : string;
  newDescription : string;
  newPublisherUserId : string;
  newReleaseDate : string;
  newVisibility : GameVisibility
}.

Record GameUpdate := mkGameUpdate {
  changeTitle : option string;
  changeSummary : option string;
  changeDescription : option string;
  changeReleaseDate : option string;
  changeVisibility : option GameVisibility
}.

Definition gameUpdateEmpty (changes : GameUpdate) : bool :=
  match changeTitle changes, changeSummary changes, changeDescription changes,
        changeReleaseDate changes, changeVisibility changes with
  | None, None, None, None, None => true
  | _, _, _, _, _ => false
  end.

Record NewGameVersion := mkNewVersion {
  newVersionGameId : string;
  newVersionSemver : Semver;
  newVersionStage : BuildStage;
  newReleaseNotes : string;
  newVersionPublish : bool
}.

Record GameVersionUpdate := mkVersionUpdate {
  changeStage : option BuildStage;
  changeReleaseNotes : option string;
  changePublished : option bool
}.

Definition versionUpdateEmpty (changes : GameVersionUpdate) : bool :=
  match changeStage changes, changeReleaseNotes changes, changePublished changes with
  | None, None, None => true
  | _, _, _ => false
  end.

Record NewBuild := mkNewBuild {
  newBuildVersionId : string;
  newBuildName : string;
  newBuildPlatform : BuildPlatform;
  newBuildArchitecture : BuildArchitecture
}.

(** ** Authorization *)

Definition mayEditGame (game : Game) (actor : Actor) : bool :=
  owns actor (publisherUserId game) || managesAnyGame actor.

Definition mayViewGame (game : Game) (actor : Actor) : bool :=
  negb (bool_decide (visibility game = Draft)) || mayEditGame game actor.

Definition mayPublishBuild (ownership : BuildOwnership) (actor : Actor) : bool :=
  owns actor (ownPublisherUserId ownership) || managesAnyGame actor.

Definition mayReadBuild (ownership : BuildOwnership) (actor : Actor) : bool :=
  let public_ :=
    negb (bool_decide (ownVisibility ownership = Draft)) && versionPublished ownership in
  public_ || mayPublishBuild ownership actor.

(** ** Lemmas *)

Lemma sameText_true s t : sameText s t = true → s = t.
Proof. apply bool_decide_eq_true. Qed.

Definition slugGroup (g : list ascii) : Prop := g ≠ [] ∧ forallb slugChar g = true.

Lemma slugChar_hyphen c : slugChar c = true → ceqb c "-" = false.
Proof. intros H. apply ceqb_neq. by intros ->. Qed.

Lemma slugLoop_spec p l :
  slugLoop p l = Some false ↔
  match splitOn "-" l with
  | [] => False
  | g :: gs => forallb slugChar g = true ∧ (g = [] → p = false) ∧ Forall slugGroup gs
  end.
Proof.
  revert p; induction l as [|c l IH]; intros p; cbn.
  - split; [intros [= ->]; by split_and!|]. intros (_ & H & _). by rewrite H.
  - pose proof (splitOn_nonempty "-" l) as Hne. destruct (slugChar c) eqn:Hc.
    + rewrite (slugChar_hyphen _ Hc), IH. destruct (splitOn "-" l) as [|g gs]; [done|].
      cbn. rewrite Hc. naive_solver.
    + destruct (ceqb c "-") eqn:Hh; [destruct p; cbn|cbn].
      * split; [done|]. intros (_ & H & _). by specialize (H eq_refl).
      * rewrite IH. destruct (splitOn "-" l) as [|g gs]; [done|].
        rewrite Forall_cons. unfold slugGroup at 2. naive_solver.
      * destruct (splitOn "-" l) as [|g gs]; [done|]. cbn. rewrite Hc. naive_solver.
Qed.

Lemma slugLoop_app p k l :
  slugLoop p (k ++ l) = slugLoop p k ≫= λ q, slugLoop q l.
Proof.
  revert p; induction k as [|c k IH]; intros p; cbn; [done|].
  destruct (slugChar c); [apply IH|]. destruct (_ && _); [apply IH|done].
Qed.

(** The flag the loop carries is whether the last character was a hyphen. *)
Lemma slugLoop_last p k q :
  slugLoop p k = Some q → q = match last k with None => p | Some c => ceqb c "-" end.
Proof.
  destruct k as [|c k _] using rev_ind; cbn; [by intros [= ->]|].
  rewrite slugLoop_app, last_snoc. destruct (slugLoop p k) as [r|]; [|done]. cbn.
  destruct (slugChar c) eqn:Hc.
  - intros [= <-]. by rewrite (slugChar_hyphen _ Hc).
  - destruct (ceqb c "-"); [|done]. by destruct (negb r); [intros [= <-]|].
Qed.

(** Dropping trailing hyphens from anything the loop accepts leaves a slug body. *)
Lemma popHyphens_slug k q :
  slugLoop true k = Some q →
  popHyphens k = [] ∨ slugLoop true (popHyphens k) = Some false.
Proof.
  intros H. destruct (dropWhileEnd_prefix (λ c, ceqb c "-") k) as [r Hr].
  fold (popHyphens k) in Hr. rewrite Hr, slugLoop_app in H.
  destruct (slugLoop true (popHyphens k)) as [q'|] eqn:E; [|done].
  pose proof (slugLoop_last _ _ _ E) as ->. destruct (last (popHyphens k)) as [c|] eqn:El.
  - right. by rewrite (dropWhileEnd_last _ _ _ El).
  - left. by apply last_None.
Qed.

Lemma slugify_loop l :
  ∃ q, slugLoop true (foldl slugifyStep [] l) = Some q.
Proof.
  induction l as [|c l IH] using rev_ind; [by exists true|].
  destruct IH as [q Hq]. rewrite foldl_app. cbn. unfold slugifyStep at 1.
  destruct (isalnum c) eqn:Hc.
  - rewrite slugLoop_app, Hq. cbn. assert (slugChar (tolower c) = true) as ->; [|by eexists].
    revert Hc. by every_byte c.
  - destruct (bool_decide _ && _) eqn:E; [|by eexists].
    rewrite slugLoop_app, Hq. cbn. bool_to_prop.
    pose proof (slugLoop_last _ _ _ Hq) as Hl.
    destruct (last (foldl slugifyStep [] l)) as [d|] eqn:El; [|by apply last_None in El].
    subst q. assert (ceqb d "-" = false) as -> by (apply ceqb_neq; congruence). by eexists.
Qed.

Lemma slugLoop_valid s :
  size s ≤ MAX_SLUG_LENGTH → slugLoop true (chars s) = Some false →
  validateSlug s = Success tt.
Proof.
  intros Hs Hl. unfold validateSlug. rewrite Hl.
  rewrite bool_decide_eq_false_2 by (by intros ->).
  by rewrite (proj2 (Z.ltb_ge _ _) Hs).
Qed.

(** On an accepted slug the [slugify] loop copies every character. *)
Lemma slugify_copy k q :
  slugLoop true k = Some q → foldl slugifyStep [] k = k.
Proof.
  revert q. induction k as [|c k IH] using rev_ind; intros q; [done|].
  rewrite slugLoop_app. destruct (slugLoop true k) as [r|] eqn:Hr; [|done].
  rewrite foldl_app, (IH r eq_refl). cbn. unfold slugifyStep.
  pose proof (slugLoop_last _ _ _ Hr) as Hl.
  destruct (slugChar c) eqn:Hc.
  - intros _. assert (isalnum c = true ∧ tolower c = c) as [-> ->]; [|done].
    revert Hc. by every_byte c.
  - destruct (ceqb c "-") eqn:Hh; [|done]. apply ceqb_eq in Hh as ->. cbn.
    destruct r; [done|]. intros _.
    destruct (last k) as [d|] eqn:El; [|done].
    change (isalnum "-") with false. cbn.
    rewrite bool_decide_eq_true_2 by (by intros ->).
    rewrite bool_decide_eq_false_2; [done|]. intros [= ->]. by rewrite ceqb_refl in Hl.
Qed.

Lemma popHyphens_fixed k :
  slugLoop true k = Some false → popHyphens k = k.
Proof.
  intros H. pose proof (slugLoop_last _ _ _ H) as Hl.
  destruct k as [|c k _] using rev_ind; [done|]. rewrite last_snoc in Hl.
  unfold popHyphens, dropWhileEnd. rewrite reverse_snoc, dropWhile_stop by done.
  by rewrite reverse_cons, reverse_involutive.
Qed.

Lemma validateSlug_loop s :
  validateSlug s = Success tt ↔
  size s ≤ MAX_SLUG_LENGTH ∧ slugLoop true (chars s) = Some false.
Proof.
  split; [|intros [? ?]; by apply slugLoop_valid].
  unfold validateSlug. case_bool_decide; [done|].
  destruct (_ <? _) eqn:E; [done|]. bool_to_prop.
  by destruct (slugLoop true (chars s)) as [[]|].
Qed.

Lemma slugify_nil l :
  foldl slugifyStep [] l = [] ↔ Forall (λ c, isalnum c = false) l.
Proof.
  induction l as [|c l IH] using rev_ind; [done|].
  rewrite foldl_app, Forall_app, Forall_singleton. cbn. unfold slugifyStep at 1.
  destruct (isalnum c) eqn:Hc.
  - split; [|by intros [_ ?]]. intros H. by apply app_eq_nil in H as [_ ?].
  - rewrite <- IH. destruct (foldl slugifyStep [] l) as [|d r]; cbn; [done|].
    split; [|by intros [? _]]. by destruct (negb _).
Qed.

(** The first character [slugify] keeps is never a hyphen, so popping hyphens does
    not empty a slug that has a character. *)
Lemma slugify_head l c r : foldl slugifyStep [] l = c :: r → ceqb c "-" = false.
Proof.
  intros H. destruct (slugify_loop l) as [q Hq]. rewrite H in Hq. cbn in Hq.
  destruct (slugChar c) eqn:Hc; [by apply slugChar_hyphen|].
  by destruct (ceqb c "-").
Qed.

Lemma popHyphens_nonempty c r : ceqb c "-" = false → popHyphens (c :: r) ≠ [].
Proof.
  intros H Hn. apply dropWhileEnd_nil, Forall_cons in Hn as [? _]. congruence.
Qed.

Lemma popHyphens_take_nonempty n c r :
  ceqb c "-" = false → (0 < n)%nat → popHyphens (take n (popHyphens (c :: r))) ≠ [].
Proof.
  intros H Hn. destruct (popHyphens (c :: r)) as [|d k] eqn:E.
  { by apply popHyphens_nonempty in E. }
  destruct (dropWhileEnd_prefix (λ c, ceqb c "-") (c :: r)) as [t Ht].
  fold (popHyphens (c :: r)) in Ht. rewrite E in Ht. injection Ht as <- _.
  destruct n; [lia|]. by apply popHyphens_nonempty.
Qed.

Lemma isDigits_spec l : isDigits l = true → forallb isdigit l = true.
Proof. unfold isDigits. by intros [? _]%andb_true_iff. Qed.

(** *** The calendar

    The day number of a civil date counted from 1 March of year 0, the usual
    closed form of the Gregorian calendar; it knows nothing of month lengths or of
    the leap-year test. *)
Definition marchYear (y : Z) : Z := 365 * y + y / 4 - y / 100 + y / 400.

Definition monthOffset (m : Z) : Z := (153 * ((m + 9) mod 12) + 2) / 5.

Definition dayNumber (y m d : Z) : Z :=
  marchYear (if m <=? 2 then y - 1 else y) + monthOffset m + d.

(** The first day of the month after [m] of year [y]. *)
Definition nextMonthStart (y m : Z) : Z :=
  if m =? 12 then dayNumber (y + 1) 1 1 else dayNumber y (m + 1) 1.

Definition IsDate (y m d : Z) : Prop :=
  1970 ≤ y ≤ 9999 ∧ 1 ≤ m ≤ 12 ∧ 1 ≤ d ∧ dayNumber y m d < nextMonthStart y m.

(** How many of the days 29 February that begin the years up to [y] belong to [y]. *)
Definition leapDay (y : Z) : Z :=
  (y / 4 - (y - 1) / 4) - (y / 100 - (y - 1) / 100) + (y / 400 - (y - 1) / 400).

Lemma div_step y k : 0 < k → y / k - (y - 1) / k = if y mod k =? 0 then 1 else 0.
Proof.
  intros Hk. pose proof (Z.div_mod y k ltac:(lia)). pose proof (Z.mod_pos_bound y k Hk).
  destruct (Z.eqb_spec (y mod k) 0).
  - assert ((y - 1) / k = y / k - 1) as ->; [|lia].
    symmetry. apply (Z.div_unique _ _ _ (k - 1)); lia.
  - assert ((y - 1) / k = y / k) as ->; [|lia].
    symmetry. apply (Z.div_unique _ _ _ (y mod k - 1)); lia.
Qed.

Lemma mod_multiple y k q : 0 < k → 0 < q → y mod (q * k) = 0 → y mod k = 0.
Proof.
  intros Hk Hq Hm. apply Z.mod_divide in Hm as [r ->]; [|lia].
  rewrite Z.mul_assoc. apply Z_mod_mult.
Qed.

Lemma isLeapYear_spec y : 0 < y → leapDay y = if isLeapYear y then 1 else 0.
Proof.
  intros Hy. unfold isLeapYear, leapDay. rewrite !Z.rem_mod_nonneg, !div_step by lia.
  pose proof (mod_multiple y 4 25 ltac:(lia) ltac:(lia)) as H4.
  pose proof (mod_multiple y 100 4 ltac:(lia) ltac:(lia)) as H1.
  change (25 * 4) with 100 in H4. change (4 * 100) with 400 in H1.
  destruct (Z.eqb_spec (y mod 4) 0), (Z.eqb_spec (y mod 100) 0), (Z.eqb_spec (y mod 400) 0);
    cbn; try lia; exfalso; auto.
Qed.

Lemma monthOffset_step m :
  1 ≤ m ≤ 12 → m ≠ 2 → m ≠ 12 →
  monthOffset (m + 1) = monthOffset m + nth (Z.to_nat (m - 1)) monthLengths 0.
Proof.
  intros Hm H2 H12. assert (m = 1 ∨ m = 3 ∨ m = 4 ∨ m = 5 ∨ m = 6 ∨ m = 7 ∨ m = 8 ∨ m = 9
    ∨ m = 10 ∨ m = 11) as D by lia.
  repeat destruct D as [->|D]; subst; reflexivity.
Qed.

Lemma daysInMonth_le y m : daysInMonth y m ≤ 31.
Proof.
  unfold daysInMonth. destruct (m =? 2); [destruct (isLeapYear y); lia|].
  destruct (Nat.lt_ge_cases (Z.to_nat (m - 1)) 12) as [H|H].
  - assert (Forall (λ n, n ≤ 31) monthLengths) as HF by (repeat constructor; lia).
    rewrite Forall_forall in HF. apply HF, list_elem_of_In, nth_In, H.
  - rewrite nth_overflow by exact H. lia.
Qed.

(** The month table and the leap-year test agree with the calendar. *)
Lemma daysInMonth_calendar y m :
  0 < y → 1 ≤ m ≤ 12 → daysInMonth y m = nextMonthStart y m - dayNumber y m 1.
Proof.
  intros Hy Hm. unfold daysInMonth, nextMonthStart, dayNumber.
  destruct (Z.eqb_spec m 2) as [->|H2].
  - pose proof (isLeapYear_spec y Hy) as HL. unfold leapDay in HL.
    change (monthOffset (2 + 1)) with 0. change (monthOffset 2) with 337.
    change (2 =? 12) with false. change (2 + 1 <=? 2) with false. change (2 <=? 2) with true.
    cbv iota. unfold marchYear. destruct (isLeapYear y); lia.
  - destruct (Z.eqb_spec m 12) as [->|H12].
    + rewrite Z.add_simpl_r. change (monthOffset 1) with 306. change (monthOffset 12) with 275.
      change (1 <=? 2) with true. change (12 <=? 2) with false.
      change (nth (Z.to_nat (12 - 1)) monthLengths 0) with 31. cbv iota. lia.
    + rewrite monthOffset_step by done.
      assert ((m + 1 <=? 2) = (m <=? 2)) as -> by (destruct (Z.leb_spec (m + 1) 2), (Z.leb_spec m 2); (done || (exfalso; lia))). lia.
Qed.

(** ** Theorems *)

(** The wire names of the five enumerations are parsed back to the value they
    print, and nothing else is accepted: each parser is the exact inverse of its
    printer. *)
Theorem enum_roundtrip :
  (∀ s v, parseGameVisibility s = Some v ↔ s = GameVisibility_toString v) ∧
  (∀ s v, parseBuildStage s = Some v ↔ s = BuildStage_toString v) ∧
  (∀ s v, parseBuildPlatform s = Some v ↔ s = BuildPlatform_toString v) ∧
  (∀ s v, parseBuildArchitecture s = Some v ↔ s = BuildArchitecture_toString v) ∧
  (∀ s v, parseBuildStatus s = Some v ↔ s = BuildStatus_toString v).
Proof.
  unfold parseGameVisibility, parseBuildStage, parseBuildPlatform, parseBuildArchitecture,
    parseBuildStatus.
  split_and!; intros s v; (split; [|intros ->; by destruct v]);
    repeat (case_match; [intros [= <-]; by apply sameText_true|]); done.
Qed.

(** A slug is accepted exactly when it is at most 80 bytes long and made of
    non-empty groups of lower-case letters and digits joined by single hyphens. *)
Theorem validateSlug_correct s :
  validateSlug s = Success tt ↔
  size s ≤ MAX_SLUG_LENGTH ∧ Forall slugGroup (splitOn "-" (chars s)).
Proof.
  rewrite validateSlug_loop, slugLoop_spec.
  destruct (splitOn "-" (chars s)) as [|g gs] eqn:E.
  { by apply splitOn_nonempty in E. }
  rewrite Forall_cons. unfold slugGroup at 2. naive_solver.
Qed.

(** What [slugify] derives from a title is always an acceptable slug, unless
    the title has no letter or digit at all, in which case it is empty (and refused by
    [validateSlug]); a title that already is a slug is left as it is. *)
Theorem slugify_correct t :
  (slugify t = ""%stdpp ↔ Forall (λ c, isalnum c = false) (chars t)) ∧
  (slugify t ≠ ""%stdpp → validateSlug (slugify t) = Success tt) ∧
  (validateSlug t = Success tt → slugify t = t).
Proof.
  destruct (slugify_loop (chars t)) as [q Hq]. unfold slugify.
  set (raw := foldl slugifyStep [] (chars t)) in *.
  split_and!.
  - rewrite <- slugify_nil. fold raw. split; [|intros ->; done].
    intros H. apply (f_equal chars) in H. rewrite chars_text in H.
    destruct raw as [|c r] eqn:E; [done|]. exfalso.
    pose proof (slugify_head _ _ _ E) as Hc. revert H.
    destruct (_ <? _); [|by apply popHyphens_nonempty].
    apply popHyphens_take_nonempty; [done|]. unfold MAX_SLUG_LENGTH. lia.
  - intros Hne.
    assert (∀ k, popHyphens k = [] ∨ slugLoop true (popHyphens k) = Some false →
      popHyphens k ≠ [] → Z.of_nat (length (popHyphens k)) ≤ MAX_SLUG_LENGTH →
      validateSlug (text (popHyphens k)) = Success tt) as Hfin.
    { intros k [->|Hk] Hk' Hlen; [done|].
      apply slugLoop_valid; [by rewrite size_text|by rewrite chars_text]. }
    pose proof (popHyphens_slug _ _ Hq) as Hraw.
    destruct (MAX_SLUG_LENGTH <? _) eqn:Hlen; bool_to_prop.
    2: { apply Hfin; [done| |done]. intros E. by rewrite E in Hne. }
    apply Hfin; [|intros E; by rewrite E in Hne|].
    + destruct Hraw as [->|Hraw]; [by left|].
      rewrite <- (take_drop (Z.to_nat MAX_SLUG_LENGTH) (popHyphens raw)), slugLoop_app in Hraw.
      destruct (slugLoop true (take _ _)) as [q'|] eqn:Hq'; [|done].
      by eapply popHyphens_slug.
    + destruct (dropWhileEnd_prefix (λ c, ceqb c "-")
                  (take (Z.to_nat MAX_SLUG_LENGTH) (popHyphens raw))) as [k Hk].
      fold (popHyphens (take (Z.to_nat MAX_SLUG_LENGTH) (popHyphens raw))) in Hk.
      apply (f_equal length) in Hk. rewrite length_app, length_take in Hk.
      unfold MAX_SLUG_LENGTH in *. lia.
  - intros [Hs Hl]%validateSlug_loop. subst raw. rewrite (slugify_copy _ _ Hl).
    rewrite popHyphens_fixed by done. unfold size in Hs.
    rewrite (proj2 (Z.ltb_ge _ _) Hs). by rewrite text_chars.
Qed.

(** A release date is accepted exactly when it is written [YYYY-MM-DD] with the
    padded numbers of a day of the Gregorian calendar between 1970 and 9999: the
    month table and leap-year test of the code agree with the closed form of the
    calendar. *)
Theorem validateReleaseDate_correct date :
  validateReleaseDate date = Success tt ↔
  ∃ y m d, IsDate y m d ∧
    chars date = paddedDigits 4 y ++ "-"%char :: paddedDigits 2 m ++ "-"%char :: paddedDigits 2 d.
Proof.
  unfold validateReleaseDate, charIs, size. set (l := chars date). clearbody l.
  split.
  - destruct (negb (_ =? 10) || _ || _) eqn:H1; [done|]. bool_to_prop.
    destruct (negb (isDigits _) || _ || _) eqn:H2; [done|].
    destruct (_ || (daysInMonth _ _ <? _)) eqn:H3; [done|]. intros _.
    assert (length l = 10%nat) as Hlen by lia.
    destruct l as [|a0 [|a1 [|a2 [|a3 [|a4 [|a5 [|a6 [|a7 [|a8 [|a9 [|]]]]]]]]]]];
      try discriminate Hlen.
    cbn in H1, H0. simplify_eq. cbn [take drop] in H2, H3 |- *. bool_to_prop.
    repeat match goal with H : isDigits _ = true |- _ => apply isDigits_spec in H end.
    unfold stoi in *.
    exists (decimalValue [a0; a1; a2; a3]), (decimalValue [a5; a6]), (decimalValue [a8; a9]). split.
    + pose proof (daysInMonth_calendar (decimalValue [a0; a1; a2; a3]) (decimalValue [a5; a6])
        ltac:(lia) ltac:(lia)) as Hc.
      unfold IsDate. unfold dayNumber in *. lia.
    + pose proof (paddedDigits_of_value [a0; a1; a2; a3] H2) as Ey.
      pose proof (paddedDigits_of_value [a5; a6] ltac:(done)) as Em.
      pose proof (paddedDigits_of_value [a8; a9] ltac:(done)) as Ed.
      cbn [length] in Ey, Em, Ed. by rewrite Ey, Em, Ed.
  - intros (y & m & d & (Hy & Hm & Hd & Hlt) & ->).
    pose proof (daysInMonth_calendar y m ltac:(lia) ltac:(lia)) as Hc.
    assert (d <= daysInMonth y m) as Hdm by (unfold dayNumber in *; lia).
    assert (daysInMonth y m ≤ 31) as H31 by apply daysInMonth_le.
    pose proof (paddedDigits_value 4 y ltac:(cbn; lia)) as Vy.
    pose proof (paddedDigits_value 2 m ltac:(cbn; lia)) as Vm.
    pose proof (paddedDigits_value 2 d ltac:(cbn; lia)) as Vd.
    pose proof (paddedDigits_digits 4 y) as Dy. pose proof (paddedDigits_digits 2 m) as Dm.
    pose proof (paddedDigits_digits 2 d) as Dd.
    pose proof (length_paddedDigits 4 y) as Ly. pose proof (length_paddedDigits 2 m) as Lm.
    pose proof (length_paddedDigits 2 d) as Ld.
    destruct (paddedDigits 4 y) as [|a0 [|a1 [|a2 [|a3 [|]]]]]; try done.
    destruct (paddedDigits 2 m) as [|a5 [|a6 [|]]]; try done.
    destruct (paddedDigits 2 d) as [|a8 [|a9 [|]]]; try done.
    cbn [app take drop length]. unfold isDigits, stoi. rewrite Dy, Dm, Dd, Vy, Vm, Vd.
    cbn [andb negb orb bool_decide]. 
    repeat match goal with |- context [?a <? ?b] => rewrite (proj2 (Z.ltb_ge a b)) by lia end.
    done.
Qed.
