(* ===== verification/CanonicalJson.v ===== *)
(** The canonical JSON string form shared by manifests and release documents:
    [src/domain/CanonicalJson.cpp].  The hashes and signatures of the program cover
    exactly these bytes, so what matters is that they can be read back: the section
    on prefix codes is the toolkit every document's injectivity is built from. *)

From S2P Require Import Prelude.
From S2P Require Import Decimals.

(** ** Operations *)

Definition QUOTE : ascii := "034".

Definition BACKSLASH : ascii := "\".

Definition HEX : list ascii := chars "0123456789abcdef".

(** [HEX[n]] for [n] below 16. *)
Definition hexDigit (n : Z) : ascii := nth (Z.to_nat n) HEX "0"%char.

(** One turn of the [switch] in [appendCanonicalJsonString]. *)
Definition escapeChar (c : ascii) : list ascii :=
  if ceqb c QUOTE then [BACKSLASH; QUOTE]
  else if ceqb c BACKSLASH then [BACKSLASH; BACKSLASH]
  else if byte c =? 8 then [BACKSLASH; "b"%char]
  else if byte c =? 12 then [BACKSLASH; "f"%char]
  else if byte c =? 10 then [BACKSLASH; "n"%char]
  else if byte c =? 13 then [BACKSLASH; "r"%char]
  else if byte c =? 9 then [BACKSLASH; "t"%char]
  else if byte c <? 32 then
    [BACKSLASH; "u"%char; "0"%char; "0"%char;
     hexDigit (Z.land (Z.shiftr (byte c) 4) 15); hexDigit (Z.land (byte c) 15)]
  else [c].

(** What [appendCanonicalJsonString(out, value)] appends to [out]. *)
Definition canonicalJsonString (value : string) : list ascii :=
  QUOTE :: concat (map escapeChar (chars value)) ++ [QUOTE].

(** A literal of the source: the apostrophe stands for the double quote the
    C++ raw string holds. *)
Definition lit (s : string) : list ascii :=
  map (λ c, if ceqb c "'" then QUOTE else c) (chars s).

(** ** Reading a string back *)

Definition hexValue (c : ascii) : option Z :=
  if isdigit c then Some (byte c - 48)
  else if byteInRange 97 102 c then Some (byte c - 87)
  else None.

(** A JSON reader for what follows the opening quote: the decoded bytes and the
    text after the closing quote. *)
Fixpoint readString (l : list ascii) : option (list ascii * list ascii) :=
  let push c r := (λ p, (c :: p.1, p.2)) <$> r in
  match l with
  | [] => None
  | c :: l1 =>
      if ceqb c QUOTE then Some ([], l1)
      else if ceqb c BACKSLASH then
        match l1 with
        | [] => None
        | e :: l2 =>
            if ceqb e QUOTE then push QUOTE (readString l2)
            else if ceqb e BACKSLASH then push BACKSLASH (readString l2)
            else if ceqb e "b" then push (ascii_of_N 8) (readString l2)
            else if ceqb e "f" then push (ascii_of_N 12) (readString l2)
            else if ceqb e "n" then push (ascii_of_N 10) (readString l2)
            else if ceqb e "r" then push (ascii_of_N 13) (readString l2)
            else if ceqb e "t" then push (ascii_of_N 9) (readString l2)
            else if ceqb e "u" then
              match l2 with
              | a :: b :: h :: k :: l3 =>
                  match hexValue h, hexValue k with
                  | Some x, Some y => push (ascii_of_N (Z.to_N (16 * x + y))) (readString l3)
                  | _, _ => None
                  end
              | _ => None
              end
            else None
        end
      else push c (readString l1)
  end.

(** ** Lemmas *)

(** Decoding one escaped byte, for each of the 256 bytes. *)
Lemma readString_escapeChar c r :
  readString (escapeChar c ++ r) = (λ p, (c :: p.1, p.2)) <$> readString r.
Proof. destruct c as [[] [] [] [] [] [] [] []]; cbv -[readString fmap option_fmap]; reflexivity. Qed.

Lemma readString_canonical v r :
  readString (concat (map escapeChar (chars v)) ++ QUOTE :: r) = Some (chars v, r).
Proof.
  induction (chars v) as [|c l IH]; [done|].
  cbn [map concat]. rewrite <- app_assoc, readString_escapeChar, IH. done.
Qed.

(** A printer is a prefix code when what follows its output cannot be confused with
    it: printing two values in front of two texts gives the same text only when the
    values and the texts are the same. *)
Definition prefixCode {A} (p : A → list ascii) : Prop :=
  ∀ x y r s, p x ++ r = p y ++ s → x = y ∧ r = s.

Lemma prefixCode_inj {A} (p : A → list ascii) x y : prefixCode p → p x = p y → x = y.
Proof.
  intros Hp H. apply (Hp x y [] []). by rewrite !app_nil_r.
Qed.

Lemma prefixCode_string : prefixCode canonicalJsonString.
Proof.
  intros x y r s. unfold canonicalJsonString. cbn. rewrite <- !app_assoc. intros [= H].
  apply (f_equal readString) in H. cbn [app] in H. rewrite !readString_canonical in H.
  injection H as H ->. by apply chars_inj in H as ->.
Qed.

Lemma prefixCode_const_app {A} (p : A → list ascii) k :
  prefixCode p → prefixCode (λ x, k ++ p x).
Proof.
  intros Hp x y r s. rewrite <- !app_assoc. intros H%app_inv_head. by apply Hp.
Qed.

Lemma prefixCode_app_const {A} (p : A → list ascii) k :
  prefixCode p → prefixCode (λ x, p x ++ k).
Proof.
  intros Hp x y r s. rewrite <- !app_assoc. intros [-> H]%Hp.
  by apply app_inv_head in H.
Qed.

Lemma prefixCode_pair {A B} (p : A → list ascii) (q : B → list ascii) :
  prefixCode p → prefixCode q → prefixCode (λ xy, p xy.1 ++ q xy.2).
Proof.
  intros Hp Hq [x x'] [y y'] r s. cbn. rewrite <- !app_assoc.
  intros [-> [-> ->]%Hq]%Hp. done.
Qed.

(** A part of a record, when the record is determined by its parts. *)
Lemma prefixCode_comp {A B} (p : B → list ascii) (f : A → B) :
  (∀ x y, f x = f y → x = y) → prefixCode p → prefixCode (λ x, p (f x)).
Proof. intros Hf Hp x y r s [H ->]%Hp. by apply Hf in H. Qed.

(** Texts free of a terminator, followed by it. *)
Lemma prefixCode_terminated {A} (p : A → list ascii) c :
  (∀ x y, p x = p y → x = y) → (∀ x, c ∉ p x) → prefixCode (λ x, p x ++ [c]).
Proof.
  intros Hinj Hc x y r s. rewrite <- !app_assoc. cbn. intros H.
  pose proof (findChar_split c (p x) r (Hc x)) as H1.
  pose proof (findChar_split c (p y) s (Hc y)) as H2.
  rewrite H, H2 in H1. injection H1 as H1.
  apply app_inj_1 in H as [E [= ->]]; [|done]. by apply Hinj in E.
Qed.

Lemma toDecimal_chars z c : c ∈ chars (toDecimal z) → isdigit c = true ∨ c = "-"%char.
Proof.
  destruct (Z.le_gt_cases 0 z) as [Hz|Hz].
  - pose proof (toDecimal_digits z Hz) as H. rewrite forallb_forall in H.
    intros Hc%list_elem_of_In. left. by apply H.
  - destruct z as [|p|p]; [lia..|]. change (toDecimal (Z.neg p)) with ("-" +:+ toDecimal (Z.pos p)).
    rewrite chars_app. intros [Hc|Hc]%elem_of_app.
    + right. by apply list_elem_of_singleton in Hc.
    + left. pose proof (toDecimal_digits (Z.pos p) ltac:(lia)) as H.
      rewrite forallb_forall in H. by apply H, list_elem_of_In.
Qed.

(** An integer followed by anything that is neither a digit nor a minus sign. *)
Lemma prefixCode_decimal c :
  isdigit c = false → c ≠ "-"%char → prefixCode (λ z, chars (toDecimal z) ++ [c]).
Proof.
  intros Hd Hm. apply prefixCode_terminated.
  - intros x y H%chars_inj. by apply toDecimal_inj.
  - intros z [H|H]%toDecimal_chars; congruence.
Qed.

Definition boolText (b : bool) : list ascii := chars (if b then "true" else "false").

Lemma prefixCode_bool : prefixCode boolText.
Proof. intros [] [] r s; cbn; intros [=]; by subst. Qed.

(** A JSON array whose elements all open with a byte other than the closing
    bracket: [first] is the flag of the printing loop. *)
Fixpoint arrayTail {A} (p : A → list ascii) (first : bool) (xs : list A) : list ascii :=
  match xs with
  | [] => lit "]"
  | x :: rest => (if first then [] else lit ",") ++ p x ++ arrayTail p false rest
  end.

Lemma prefixCode_array {A} (p : A → list ascii) (o : ascii) (q : A → list ascii) first :
  prefixCode p → (∀ x, p x = o :: q x) → o ≠ "]"%char →
  prefixCode (arrayTail p first).
Proof.
  intros Hp Ho Hne xs. revert first.
  induction xs as [|x xs IH]; intros first [|y ys] r s.
  - cbn. by intros [= ->].
  - intros H. exfalso. destruct first; cbn in H; [rewrite Ho in H; cbn in H|]; congruence.
  - intros H. exfalso. destruct first; cbn in H; [rewrite Ho in H; cbn in H|]; congruence.
  - cbn [arrayTail]. rewrite <- !app_assoc. intros H%app_inv_head.
    apply Hp in H as [-> H]. apply IH in H as [-> ->]. done.
Qed.

(** A decimal number in front of a literal that does not open with a digit. *)
Lemma decimal_before k c k' x y r s :
  k = c :: k' → isdigit c = false → c ≠ "-"%char →
  chars (toDecimal x) ++ k ++ r = chars (toDecimal y) ++ k ++ s → x = y ∧ r = s.
Proof.
  intros -> Hd Hm H.
  destruct (prefixCode_decimal c Hd Hm x y (k' ++ r) (k' ++ s)) as [-> E].
  - rewrite <- !app_assoc. exact H.
  - by apply app_inv_head in E.
Qed.

(** Peel the next part of two equal documents. *)
Ltac code_step :=
  match goal with
  | H : lit ?k ++ _ = lit ?k ++ _ |- _ => apply app_inv_head in H
  | H : canonicalJsonString _ ++ _ = canonicalJsonString _ ++ _ |- _ =>
      let E := fresh "E" in apply prefixCode_string in H as [E H]
  | H : boolText _ ++ _ = boolText _ ++ _ |- _ =>
      let E := fresh "E" in apply prefixCode_bool in H as [E H]
  | H : chars (toDecimal _) ++ lit ?k ++ _ = chars (toDecimal _) ++ lit ?k ++ _ |- _ =>
      let E := fresh "E" in
      eapply decimal_before in H as [E H]; [|reflexivity|reflexivity|discriminate]
  end.
