(* ===== verification/Manifest.v ===== *)
(** Build manifests: [src/domain/Manifest.h] and [src/domain/Manifest.cpp].

    A manifest lists the files of one build.  Two questions matter: a path a
    publisher sends must stay inside the install directory of the player, and the
    bytes the manifest hash covers must identify the build's content. *)

From S2P Require Import Prelude.
From S2P Require Import Errors.
From S2P Require Import CanonicalJson.

(** ** Data *)

Record ManifestEntry := mkEntry {
  relativePath : string;
  blobSha256 : string;
  sizeBytes : Z;
  isExecutable : bool
}.

#[export] Instance ManifestEntry_eq_dec : EqDecision ManifestEntry.
Proof. solve_decision. Defined.

Definition SHA256_HEX_LENGTH : Z := 64.
Definition MAX_RELATIVE_PATH_LENGTH : Z := 1024.
Definition MAX_MANIFEST_ENTRIES : Z := 200000.

(** ** Operations *)

Definition isLowercaseHexDigit (c : ascii) : bool := byteInRange 48 57 c || byteInRange 97 102 c.

Definition isSha256Hex (value : string) : bool :=
  (size value =? SHA256_HEX_LENGTH) && forallb isLowercaseHexDigit (chars value).

(** One turn of the segment loop. *)
Definition validateSegment (path : string) (segment : list ascii) : VoidResult :=
  if bool_decide (segment = []) then
    failure InvalidInput ("file paths must not contain empty segments: " +:+ path)
  else if bool_decide (segment = chars ".") || bool_decide (segment = chars "..") then
    failure InvalidInput ("file paths must not contain '.' or '..' segments: " +:+ path)
  else if existsb (λ c, byte c <? 32) segment then
    failure InvalidInput "file paths must not contain control characters"
  else Success tt.

Fixpoint validateSegments (path : string) (segments : list (list ascii)) : VoidResult :=
  match segments with
  | [] => Success tt
  | segment :: rest =>
      let? _ := validateSegment path segment in validateSegments path rest
  end.

Definition hasDrivePrefix (l : list ascii) : bool :=
  match l with
  | a :: b :: _ => ceqb b ":" && isalpha a
  | _ => false
  end.

Definition validateRelativePath (path : string) : VoidResult :=
  if bool_decide (path = ""%stdpp) then
    failure InvalidInput "a file path must not be empty"
  else if MAX_RELATIVE_PATH_LENGTH <? size path then
    failure InvalidInput ("file path is longer than " +:+ toDecimal MAX_RELATIVE_PATH_LENGTH
                          +:+ " characters")
  else if charIs path 0 "/" then
    failure InvalidInput ("file paths must be relative to the install directory: " +:+ path)
  else if bool_decide (findChar BACKSLASH (chars path) ≠ None) then
    failure InvalidInput ("file paths must use '/' as the separator: " +:+ path)
  else if hasDrivePrefix (chars path) then
    failure InvalidInput ("file paths must not be absolute: " +:+ path)
  else validateSegments path (splitOn "/" (chars path)).

(** The loop over the entries, with the set of the paths seen so far; it answers
    the final set. *)
Fixpoint validateEntries (seen : gset string) (entries : list ManifestEntry)
    : Result (gset string) :=
  match entries with
  | [] => Success seen
  | entry :: rest =>
      let? _ := validateRelativePath (relativePath entry) in
      if negb (isSha256Hex (blobSha256 entry)) then
        failure InvalidInput ("sha256 must be 64 lowercase hex characters, for "
                              +:+ relativePath entry)
      else if sizeBytes entry <? 0 then
        failure InvalidInput ("size must not be negative, for " +:+ relativePath entry)
      else if decide (relativePath entry ∈ seen) then
        failure Conflict ("the manifest lists " +:+ relativePath entry +:+ " twice")
      else validateEntries ({[relativePath entry]} ∪ seen) rest
  end.

Definition validateManifest (entries : list ManifestEntry) (entrypoint : string) : VoidResult :=
  let count := Z.of_nat (length entries) in
  if count =? 0 then failure InvalidInput "a build must contain at least one file"
  else if MAX_MANIFEST_ENTRIES <? count then
    failure InvalidInput ("a build may contain at most " +:+ toDecimal MAX_MANIFEST_ENTRIES
                          +:+ " files")
  else
    let? _ := validateRelativePath entrypoint in
    let? seen := validateEntries ∅ entries in
    if decide (entrypoint ∈ seen) then Success tt
    else failure InvalidInput ("the entrypoint " +:+ entrypoint
                               +:+ " is not one of the files in the manifest").

(** [std::string::operator<] compares bytes as unsigned values. *)
Fixpoint bytesLe (k l : list ascii) : bool :=
  match k, l with
  | [], _ => true
  | _ :: _, [] => false
  | a :: k', b :: l' => (byte a <? byte b) || ((byte a =? byte b) && bytesLe k' l')
  end.

Definition textLe (s t : string) : bool := bytesLe (chars s) (chars t).

Definition entryLe (a b : ManifestEntry) : Prop := textLe (relativePath a) (relativePath b) = true.

#[export] Instance entryLe_dec : RelDecision entryLe.
Proof. intros a b. unfold entryLe. apply _. Defined.

(** [std::sort] on the entries.  The order of entries with the same path is not
    specified there; [validateManifest] refuses such lists. *)
Definition sortEntries (entries : list ManifestEntry) : list ManifestEntry :=
  merge_sort entryLe entries.

Definition entryDocument (entry : ManifestEntry) : list ascii :=
  lit "{'path':" ++ canonicalJsonString (relativePath entry)
  ++ lit ",'sha256':" ++ canonicalJsonString (blobSha256 entry)
  ++ lit ",'size':" ++ chars (toDecimal (sizeBytes entry))
  ++ lit ",'executable':" ++ boolText (isExecutable entry) ++ lit "}".

Definition canonicalManifestDocument (entries : list ManifestEntry)
    (entrypoint launchArgs : string) : string :=
  text (lit "{'schema':1,'entrypoint':" ++ canonicalJsonString entrypoint
        ++ lit ",'launchArgs':" ++ canonicalJsonString launchArgs
        ++ lit ",'files':[" ++ arrayTail entryDocument true (sortEntries entries)
        ++ lit "}").

(** ** Specification of a safe path *)

Definition SafeSegment (segment : list ascii) : Prop :=
  segment ≠ [] ∧ segment ≠ chars "." ∧ segment ≠ chars ".."
  ∧ Forall (λ c, 32 ≤ byte c) segment.

Definition SafePath (path : string) : Prop :=
  0 < size path ≤ MAX_RELATIVE_PATH_LENGTH
  ∧ BACKSLASH ∉ chars path
  ∧ hasDrivePrefix (chars path) = false
  ∧ Forall SafeSegment (splitOn "/" (chars path)).

(** How an operating system walks a path from a directory, a list of components
    (outermost first): empty and dot components stay, two dots climb. *)
Fixpoint walk (dir : list (list ascii)) (segments : list (list ascii)) : list (list ascii) :=
  match segments with
  | [] => dir
  | segment :: rest =>
      if bool_decide (segment = []) || bool_decide (segment = chars ".") then walk dir rest
      else if bool_decide (segment = chars "..") then walk (removelast dir) rest
      else walk (dir ++ [segment]) rest
  end.

(** A leading separator restarts at the root of the file system. *)
Definition resolvePosix (dir : list (list ascii)) (path : string) : list (list ascii) :=
  walk (if charIs path 0 "/" then [] else dir) (splitOn "/" (chars path)).

(** On Windows the backslash separates as well, and a drive prefix changes to the
    current directory of another drive, a parameter. *)
Definition resolveWindows (current : ascii → list (list ascii)) (dir : list (list ascii))
    (path : string) : list (list ascii) :=
  let segments := concat (map (splitOn BACKSLASH) (splitOn "/" (chars path))) in
  match chars path with
  | c :: rest =>
      if hasDrivePrefix (chars path) then walk (current c) (splitOn "/" (drop 1 rest))
      else if ceqb c "/" || ceqb c BACKSLASH then walk [] segments
      else walk dir segments
  | [] => dir
  end.

(** What a valid manifest is. *)
Definition ValidEntry (entry : ManifestEntry) : Prop :=
  SafePath (relativePath entry) ∧ isSha256Hex (blobSha256 entry) = true ∧ 0 ≤ sizeBytes entry.

Definition paths (entries : list ManifestEntry) : list string := relativePath <$> entries.

Definition ValidManifest (entries : list ManifestEntry) (entrypoint : string) : Prop :=
  0 < Z.of_nat (length entries) ≤ MAX_MANIFEST_ENTRIES
  ∧ Forall ValidEntry entries ∧ NoDup (paths entries) ∧ entrypoint ∈ paths entries.

(** ** Lemmas *)

Lemma validateSegment_spec path segment :
  validateSegment path segment = Success tt ↔ SafeSegment segment.
Proof.
  assert (existsb (λ c, byte c <? 32) segment = false ↔ Forall (λ c, 32 ≤ byte c) segment) as HE.
  { rewrite <- not_true_iff_false, existsb_exists, Forall_forall. split.
    - intros HX c Hc. apply Z.nlt_ge. intros Hlt. apply HX. exists c.
      split; [by apply list_elem_of_In|by apply Z.ltb_lt].
    - intros HF (c & Hc%list_elem_of_In & Hb). apply HF in Hc. bool_to_prop. lia. }
  unfold validateSegment, SafeSegment, failure.
  repeat case_bool_decide; cbn [orb]; try (split; [done|tauto]).
  rewrite <- HE. destruct (existsb _ _); [split; [done|intros (?&?&?&?); done]|tauto].
Qed.

Lemma validateSegments_spec path segments :
  validateSegments path segments = Success tt ↔ Forall SafeSegment segments.
Proof.
  induction segments as [|segment rest IH]; cbn; [done|].
  rewrite Forall_cons, <- (validateSegment_spec path). rewrite <- IH.
  destruct (validateSegment path segment) as [[]|e]; [tauto|]. split; [done|by intros []].
Qed.

Lemma validateRelativePath_spec path :
  validateRelativePath path = Success tt ↔ SafePath path.
Proof.
  unfold validateRelativePath, SafePath, failure.
  assert (path = ""%stdpp ↔ size path = 0) as Hsize.
  { split; [by intros ->|apply size_zero]. }
  assert (charIs path 0 "/" = true → ¬ Forall SafeSegment (splitOn "/" (chars path))) as Hslash.
  { unfold charIs. intros H%bool_decide_eq_true HF. destruct (chars path); [done|].
    injection H as ->. cbn in HF. apply Forall_cons in HF as [[? _] _]. done. }
  pose proof (size_nonneg path). rewrite <- validateSegments_spec with (path := path) in *.
  repeat case_match; bool_to_prop; split; intros HX; try done.
  1-5: exfalso; destruct HX as (Hp&Hb&Hd&Hv); rewrite <- findChar_None in Hb.
  - apply Hsize in H0. lia.
  - lia.
  - by apply Hslash.
  - done.
  - congruence.
  - apply dec_stable, findChar_None in H3. split; [|done].
    assert (size path ≠ 0) by (intros Hz; by apply H0, Hsize). lia.
  - by destruct HX as (_&_&_&?).
Qed.

Lemma validateEntries_spec seen entries seen' :
  validateEntries seen entries = Success seen' ↔
  Forall ValidEntry entries ∧ NoDup (paths entries) ∧ Forall (λ p, p ∉ seen) (paths entries)
  ∧ seen' = list_to_set (paths entries) ∪ seen.
Proof.
  revert seen seen'; induction entries as [|entry rest IH]; intros seen seen'.
  { cbn. rewrite (left_id_L ∅ (∪)). split; [|by intros (_&_&_&->)].
    intros [= ->]. repeat split; constructor. }
  cbn [validateEntries paths fmap list_fmap list_to_set]. rewrite !Forall_cons, NoDup_cons.
  unfold ValidEntry at 1. rewrite <- validateRelativePath_spec.
  destruct (validateRelativePath _) as [[]|e]; [|split; [done|by intros (((?&_)&_)&_)]].
  unfold failure. destruct (isSha256Hex _); cbn [negb]; [|split; [done|by intros (((?&?&?)&_)&_)]].
  destruct (Z.ltb_spec (sizeBytes entry) 0); [split; [done|intros (((?&?&?)&_)&_); lia]|].
  case_decide as Hin; [split; [done|by intros (_&_&[? _]&_)]|].
  rewrite IH. change (relativePath <$> rest) with (paths rest).
  rewrite !Forall_forall. setoid_rewrite elem_of_union. setoid_rewrite elem_of_singleton.
  rewrite (assoc_L (∪)), (comm_L (∪) (list_to_set _)). split.
  - intros (HF&HN&Hseen&->). split_and!; try done.
    + intros Hp. apply (Hseen _ Hp). by left.
    + intros p Hp Hs. apply (Hseen _ Hp). by right.
  - intros ((_&HF)&[Hp HN]&[_ Hseen]&->). split_and!; try done.
    intros p Hp' [->|Hs]; [done|]. by apply (Hseen p).
Qed.

Lemma validateRelativePath_error p e : validateRelativePath p = Failure e → code e = InvalidInput.
Proof.
  unfold validateRelativePath, failure. repeat case_match; try by intros [= <-].
  generalize (splitOn "/" (chars p)) as l. induction l as [|s l IH]; cbn; [done|].
  unfold validateSegment, failure. repeat case_match; simplify_eq; try done; by intros [= <-].
Qed.

Lemma validateEntries_conflict seen entries e :
  validateEntries seen entries = Failure e → code e = Conflict →
  ¬ (NoDup (paths entries) ∧ Forall (λ p, p ∉ seen) (paths entries)).
Proof.
  revert seen e. induction entries as [|entry rest IH]; intros seen e; cbn [validateEntries]; [done|].
  destruct (validateRelativePath _) as [[]|e'] eqn:E.
  2:{ intros [= <-] Hc. apply validateRelativePath_error in E. congruence. }
  unfold failure. repeat case_match; try by intros [= <-].
  - intros _ _ [_ HF]. cbn in HF. apply Forall_cons in HF as [? _]. done.
  - intros He Hc [HN HF]. cbn in HF, HN. apply NoDup_cons in HN as [Hn HN].
    apply Forall_cons in HF as [Hs HF]. destruct (IH _ _ He Hc). split; [done|].
    apply Forall_forall. intros p Hp [->%elem_of_singleton|Hin]%elem_of_union; [done|].
    rewrite Forall_forall in HF. by apply (HF p).
Qed.

(** A safe segment is walked as one step down. *)
Lemma walk_safe dir segments :
  Forall SafeSegment segments → walk dir segments = dir ++ segments.
Proof.
  intros HF. revert dir. induction HF as [|segment rest (H1&H2&H3&_) _ IH]; intros dir; cbn.
  - by rewrite app_nil_r.
  - rewrite !bool_decide_eq_false_2 by done. cbn. rewrite IH. by rewrite <- app_assoc.
Qed.

Lemma splitOn_mono c d l p : p ∈ splitOn c l → d ∉ l → d ∉ p.
Proof.
  intros Hp Hd Hin. apply Hd. rewrite <- (joinOn_splitOn c l).
  revert Hp. generalize (splitOn c l) as ps. induction ps as [|q ps IH]; [by intros ?%elem_of_nil|].
  intros [->|Hp]%elem_of_cons; destruct ps as [|q' ps]; cbn.
  - done.
  - apply elem_of_app. by left.
  - by apply elem_of_nil in Hp.
  - apply elem_of_app. right. right. by apply IH.
Qed.

Lemma splitOn_backslash_id l :
  BACKSLASH ∉ l → concat (map (splitOn BACKSLASH) (splitOn "/" l)) = splitOn "/" l.
Proof.
  intros Hl. assert (Forall (λ p, BACKSLASH ∉ p) (splitOn "/" l)) as HF.
  { apply Forall_forall. intros p Hp. by eapply splitOn_mono. }
  induction HF as [|p ps Hp _ IH]; [done|]. cbn. by rewrite splitOn_no_sep, IH.
Qed.

(** *** The order of the document *)

Lemma bytesLe_total k l : bytesLe k l = true ∨ bytesLe l k = true.
Proof.
  revert l; induction k as [|a k IH]; intros [|b l]; cbn; [by left..|by right|].
  rewrite !orb_true_iff, !andb_true_iff, !Z.ltb_lt, !Z.eqb_eq.
  destruct (Z.lt_trichotomy (byte a) (byte b)) as [?|[?|?]]; [tauto| |tauto].
  destruct (IH l); [left|right]; right; split; done.
Qed.

Lemma bytesLe_trans k l m : bytesLe k l = true → bytesLe l m = true → bytesLe k m = true.
Proof.
  revert l m; induction k as [|a k IH]; intros [|b l] [|c m]; cbn; try done.
  rewrite !orb_true_iff, !andb_true_iff, !Z.ltb_lt, !Z.eqb_eq.
  intros [?|[? ?]] [?|[? ?]]; [left; lia..|right; split; [lia|eauto]].
Qed.

Lemma bytesLe_antisymm k l : bytesLe k l = true → bytesLe l k = true → k = l.
Proof.
  revert l; induction k as [|a k IH]; intros [|b l]; cbn; try done.
  rewrite !orb_true_iff, !andb_true_iff, !Z.ltb_lt, !Z.eqb_eq.
  intros [?|[? ?]] [?|[? ?]]; try lia. f_equal; [by apply byte_inj|auto].
Qed.

#[export] Instance entryLe_total : Total entryLe.
Proof. intros a b. apply bytesLe_total. Qed.

#[export] Instance entryLe_trans : Transitive entryLe.
Proof. intros a b c. apply bytesLe_trans. Qed.

Lemma NoDup_fmap_inj {A B} (f : A → B) l x y :
  NoDup (f <$> l) → x ∈ l → y ∈ l → f x = f y → x = y.
Proof.
  induction l as [|z l IH]; cbn; [by intros _ ?%elem_of_nil|].
  rewrite NoDup_cons, !elem_of_cons. intros [Hz Hl] [->|Hx] [->|Hy] E; try done.
  - destruct Hz. rewrite E. by apply list_elem_of_fmap_2.
  - destruct Hz. rewrite <- E. by apply list_elem_of_fmap_2.
  - by apply IH.
Qed.

(** On distinct paths the sorted list depends on the set of entries only. *)
Lemma sortEntries_permutation k l :
  NoDup (paths k) → k ≡ₚ l → sortEntries k = sortEntries l.
Proof.
  intros Hk Hkl. unfold sortEntries.
  eapply StronglySorted_unique_strong with (R := entryLe).
  - intros x y. rewrite !merge_sort_Permutation, <- Hkl. intros Hx Hy Hxy Hyx.
    eapply (NoDup_fmap_inj relativePath); [exact Hk|done..|].
    apply chars_inj. by apply bytesLe_antisymm.
  - apply StronglySorted_merge_sort; apply _.
  - apply StronglySorted_merge_sort; apply _.
  - by rewrite !merge_sort_Permutation.
Qed.

Lemma prefixCode_entry : prefixCode entryDocument.
Proof.
  intros [p h n b] [p' h' n' b'] r s. unfold entryDocument.
  cbn [relativePath blobSha256 sizeBytes isExecutable]. rewrite <- !app_assoc. intros H.
  repeat code_step. by subst.
Qed.

Lemma prefixCode_entries first : prefixCode (arrayTail entryDocument first).
Proof.
  apply (prefixCode_array _ "{"%char
    (λ x, tail (entryDocument x))); [apply prefixCode_entry|reflexivity|discriminate].
Qed.

(** ** Properties *)

(** C38: a path is accepted exactly when it is safe, and then it names, from any
    install directory, the same place strictly inside that directory on POSIX
    and on Windows; two accepted paths that name the same place are the same
    path. *)
Theorem validateRelativePath_contained path path' current dir :
  (validateRelativePath path = Success tt ↔ SafePath path)
  ∧ (SafePath path →
      resolvePosix dir path = dir ++ splitOn "/" (chars path)
      ∧ resolveWindows current dir path = dir ++ splitOn "/" (chars path)
      ∧ splitOn "/" (chars path) ≠ []
      ∧ (SafePath path' → resolvePosix dir path = resolvePosix dir path' → path = path')).
Proof.
  split; [apply validateRelativePath_spec|].
  assert (∀ q, SafePath q → resolvePosix dir q = dir ++ splitOn "/" (chars q)) as Hposix.
  { intros q (Hn&_&_&HS). unfold resolvePosix, charIs. rewrite bool_decide_eq_false_2.
    - by apply walk_safe.
    - destruct (chars q) as [|c l]; [done|]. cbn. intros [= ->].
      cbn in HS. apply Forall_cons in HS as [[? _] _]. done. }
  intros HS. split_and!; [by apply Hposix| |apply splitOn_nonempty|].
  - destruct HS as (Hn&Hb&Hd&HS). unfold resolveWindows. rewrite splitOn_backslash_id by done.
    rewrite Hd. unfold size in Hn. destruct (chars path) as [|c l] eqn:E; [cbn in Hn; lia|].
    destruct (ceqb c "/") eqn:Ec.
    { apply ceqb_eq in Ec as ->. cbn in HS. apply Forall_cons in HS as [[? _] _]. done. }
    destruct (ceqb c BACKSLASH) eqn:Eb; [apply ceqb_eq in Eb as ->; set_solver|].
    by apply walk_safe.
  - intros HS'. rewrite !Hposix by done. intros H%app_inv_head.
    apply chars_inj. by rewrite <- (joinOn_splitOn "/" (chars path)), H, joinOn_splitOn.
Qed.

(** A file list is accepted exactly when it has between one and the
    maximum number of entries, every path is safe, every hash is 64 lowercase hex
    digits, no size is negative, no path is listed twice and the entrypoint is one
    of the files; a conflict is only ever reported for a path listed twice. *)
Theorem validateManifest_correct entries entrypoint :
  (validateManifest entries entrypoint = Success tt ↔ ValidManifest entries entrypoint)
  ∧ (∀ e, validateManifest entries entrypoint = Failure e → code e = Conflict →
      ¬ NoDup (paths entries)).
Proof.
  assert (Forall (λ p, p ∉ (∅ : gset string)) (paths entries)) as Hempty.
  { apply Forall_forall. intros p _. apply not_elem_of_empty. }
  unfold validateManifest, ValidManifest, failure. split.
  - destruct (Z.eqb_spec (Z.of_nat (length entries)) 0); [split; [done|intros; lia]|].
    destruct (Z.ltb_spec MAX_MANIFEST_ENTRIES (Z.of_nat (length entries))); [split; [done|intros; lia]|].
    pose proof (validateRelativePath_spec entrypoint) as Hp.
    destruct (validateRelativePath entrypoint) as [[]|e].
    2:{ split; [done|]. intros (_&HF&_&Hin). rewrite Forall_forall in HF.
        apply list_elem_of_fmap in Hin as (x & -> & Hx). apply HF in Hx as (Hx&_).
        by apply Hp in Hx. }
    destruct (validateEntries ∅ entries) as [seen|e] eqn:E.
    + apply validateEntries_spec in E as (?&?&_&->). rewrite (right_id_L ∅ (∪)).
      case_decide as Hd; rewrite elem_of_list_to_set in Hd; split; try done.
      * intros _. split_and!; try done. lia.
      * by intros (_&_&_&?).
    + split; [done|]. intros (_&HF&HN&_).
      assert (validateEntries ∅ entries = Success (list_to_set (paths entries) ∪ ∅)) as E'
        by (by apply validateEntries_spec).
      congruence.
  - intros e. case_match; [by intros [= <-]|]. case_match; [by intros [= <-]|].
    destruct (validateRelativePath entrypoint) as [[]|e1] eqn:E1.
    2:{ intros [= <-] Hc. apply validateRelativePath_error in E1. congruence. }
    destruct (validateEntries ∅ entries) as [seen|e2] eqn:E2.
    + case_decide; [done|by intros [= <-]].
    + intros [= <-] Hc HN. by apply (validateEntries_conflict _ _ _ E2 Hc).
Qed.

(** C39: the bytes the manifest hash covers identify the content of the
    build: two file lists without repeated paths serialise to the same document
    exactly when they hold the same entries, in whatever order, with the same
    entrypoint and launch arguments. *)
Theorem canonicalManifestDocument_identity entries entries' entry entry' args args' :
  NoDup (paths entries) →
  canonicalManifestDocument entries entry args = canonicalManifestDocument entries' entry' args' ↔
  entries ≡ₚ entries' ∧ entry = entry' ∧ args = args'.
Proof.
  intros HN. unfold canonicalManifestDocument. split.
  - intros H%text_inj. repeat code_step. apply prefixCode_entries in H as [H _].
    split_and!; try done.
    transitivity (sortEntries entries); [symmetry; apply merge_sort_Permutation|].
    rewrite H. apply merge_sort_Permutation.
  - intros (HP & -> & ->). by rewrite (sortEntries_permutation _ _ HN HP).
Qed.

Lemma canonicalManifestDocument_identity_witness :
  let a := mkEntry "bin/game" (text (replicate 64 "a"%char)) 10 true in
  let b := mkEntry "data.pak" (text (replicate 64 "b"%char)) 20 false in
  canonicalManifestDocument [b; a] "bin/game" "" = canonicalManifestDocument [a; b] "bin/game" "".
Proof.
  intros a b. apply canonicalManifestDocument_identity.
  - apply (bool_decide_unpack _). vm_compute. exact I.
  - split_and!; [apply perm_swap|reflexivity..].
Defined.
