(* ===== verification/Delta.v ===== *)
(** Moving an install from one build to another: [src/domain/Delta.h] and
    [src/domain/Delta.cpp].

    The plan is judged by what it does: executed step by step on an installed tree,
    in whatever order the client picks, it must produce exactly the target build. *)

From S2P Require Import Prelude.
From S2P Require Import Errors.
From S2P Require Import Manifest.

(** ** Data *)

Inductive DownloadKind := FullDownload | DeltaDownload.

#[export] Instance DownloadKind_eq_dec : EqDecision DownloadKind.
Proof. solve_decision. Defined.

Definition DownloadKind_toString (value : DownloadKind) : string :=
  match value with
  | FullDownload => "full"
  | DeltaDownload => "delta"
  end.

Record DeltaFile := mkDeltaFile {
  deltaEntry : ManifestEntry;
  copyFromRelativePath : string
}.

Record BuildDelta := mkDelta {
  kind : DownloadKind;
  fetch : list DeltaFile;
  unchanged : list ManifestEntry;
  remove : list string;
  downloadBytes : Z;
  totalBytes : Z
}.

(** ** Operations *)

(** [unordered_map::emplace]: an existing key is left alone. *)
Definition emplace {V} (key : string) (value : V) (m : gmap string V) : gmap string V :=
  match m !! key with
  | Some _ => m
  | None => <[key := value]> m
  end.

Definition PathIndex : Type := gmap string ManifestEntry.

Definition indexByPath (entries : list ManifestEntry) : PathIndex :=
  foldl (λ index entry, emplace (relativePath entry) entry index) ∅ entries.

(** [found != end() && found->second->blobSha256 == entry.blobSha256]. *)
Definition holdsSame (installed : PathIndex) (entry : ManifestEntry) : bool :=
  match installed !! relativePath entry with
  | Some found => bool_decide (blobSha256 found = blobSha256 entry)
  | None => false
  end.

Definition survivingContent (installed : PathIndex) (target : list ManifestEntry)
    : gmap string string :=
  foldl (λ byBlob entry,
           if holdsSame installed entry
           then emplace (blobSha256 entry) (relativePath entry) byBlob
           else byBlob) ∅ target.

Definition keyLe {A} (key : A → string) (a b : A) : Prop := textLe (key a) (key b) = true.

#[export] Instance keyLe_dec {A} (key : A → string) : RelDecision (keyLe key).
Proof. intros a b. unfold keyLe. apply _. Defined.

Definition sortPlan (delta : BuildDelta) : BuildDelta :=
  mkDelta (kind delta)
    (merge_sort (keyLe (λ file, relativePath (deltaEntry file))) (fetch delta))
    (merge_sort (keyLe relativePath) (unchanged delta))
    (merge_sort (keyLe (λ path, path)) (remove delta))
    (downloadBytes delta) (totalBytes delta).

Definition pathsToRemove (installed : list ManifestEntry) (target : PathIndex) : list string :=
  concat (map (λ entry, if target !! relativePath entry then [] else [relativePath entry]) installed).

(** The loop of [transferBytes], with the set of blobs already counted. *)
Fixpoint transferLoop (counted : gset string) (bytes : Z) (files : list DeltaFile) : Z :=
  match files with
  | [] => bytes
  | file :: rest =>
      if negb (bool_decide (copyFromRelativePath file = ""%stdpp)) then transferLoop counted bytes rest
      else
        let blob := blobSha256 (deltaEntry file) in
        if decide (blob ∈ counted) then transferLoop counted bytes rest
        else transferLoop ({[blob]} ∪ counted) (add64 bytes (sizeBytes (deltaEntry file))) rest
  end.

Definition transferBytes (files : list DeltaFile) : Z := transferLoop ∅ 0 files.

Definition installedSize (target : list ManifestEntry) : Z :=
  foldl (λ bytes entry, add64 bytes (sizeBytes entry)) 0 target.

Definition fullDownload (installed target : list ManifestEntry) : BuildDelta :=
  let files := map (λ entry, mkDeltaFile entry "") target in
  sortPlan (mkDelta FullDownload files [] (pathsToRemove installed (indexByPath target))
              (transferBytes files) (installedSize target)).

(** The entry the loop of [computeDelta] pushes to [fetch]. *)
Definition deltaFile (reusable : gmap string string) (entry : ManifestEntry) : DeltaFile :=
  mkDeltaFile entry
    match reusable !! blobSha256 entry with
    | Some source => source
    | None => ""%stdpp
    end.

Fixpoint deltaLoop (installed : PathIndex) (reusable : gmap string string)
    (target : list ManifestEntry) : list DeltaFile * list ManifestEntry :=
  match target with
  | [] => ([], [])
  | entry :: rest =>
      let '(files, kept) := deltaLoop installed reusable rest in
      if holdsSame installed entry then (files, entry :: kept)
      else (deltaFile reusable entry :: files, kept)
  end.

Definition computeDelta (installed target : list ManifestEntry) : BuildDelta :=
  let installedByPath := indexByPath installed in
  let reusable := survivingContent installedByPath target in
  let '(files, kept) := deltaLoop installedByPath reusable target in
  sortPlan (mkDelta DeltaDownload files kept (pathsToRemove installed (indexByPath target))
              (transferBytes files) (installedSize target)).

(** ** What a client does with a plan *)

(** An installed tree: the content address of the file at each path. *)
Notation Tree := (gmap string string) (only parsing).

Definition treeOf (entries : list ManifestEntry) : Tree :=
  list_to_map ((λ entry, (relativePath entry, blobSha256 entry)) <$> entries).

Inductive Action :=
| RemoveFile (path : string)
| WriteBlob (path blob : string)
| CopyFile (source path : string).

(** Copying reads the tree as it is at that moment, and fails when the source is gone. *)
Definition act (t : Tree) (a : Action) : option Tree :=
  match a with
  | RemoveFile path => Some (delete path t)
  | WriteBlob path blob => Some (<[path := blob]> t)
  | CopyFile source path => blob ← t !! source; Some (<[path := blob]> t)
  end.

Fixpoint runActions (actions : list Action) (t : Tree) : option Tree :=
  match actions with
  | [] => Some t
  | a :: rest => t' ← act t a; runActions rest t'
  end.

Definition fileAction (file : DeltaFile) : Action :=
  let entry := deltaEntry file in
  if bool_decide (copyFromRelativePath file = ""%stdpp)
  then WriteBlob (relativePath entry) (blobSha256 entry)
  else CopyFile (copyFromRelativePath file) (relativePath entry).

Definition planActions (delta : BuildDelta) : list Action :=
  map fileAction (fetch delta) ++ map RemoveFile (remove delta).

Definition sumSizes (entries : list ManifestEntry) : Z :=
  foldr (λ entry n, sizeBytes entry + n) 0 entries.

(** Two entries with the same blob have the same size, as rows joined with the
    blobs table do. *)
Definition consistentSizes (entries : list ManifestEntry) : Prop :=
  ∀ a b, a ∈ entries → b ∈ entries → blobSha256 a = blobSha256 b → sizeBytes a = sizeBytes b.

(** ** Lemmas *)

#[export] Instance keyLe_total {A} (key : A → string) : Total (keyLe key).
Proof. intros a b. apply bytesLe_total. Qed.

#[export] Instance keyLe_trans {A} (key : A → string) : Transitive (keyLe key).
Proof. intros a b c. apply bytesLe_trans. Qed.

Lemma emplace_lookup {V} key (value : V) m p :
  emplace key value m !! p =
  match m !! p with Some v => Some v | None => if decide (key = p) then Some value else None end.
Proof.
  unfold emplace. destruct (m !! key) eqn:E.
  - destruct (m !! p) eqn:Ep; [done|]. case_decide; congruence.
  - case_decide as Hp; [subst; by rewrite E, lookup_insert_eq|].
    rewrite lookup_insert_ne by done. by destruct (m !! p).
Qed.

Lemma foldl_emplace {A V} (k : A → string) (v : A → V) l m p :
  foldl (λ m x, emplace (k x) (v x) m) m l !! p =
  match m !! p with Some w => Some w | None => v <$> head (filter (λ x, k x = p) l) end.
Proof.
  revert m; induction l as [|x l IH]; intros m; [cbn; by destruct (m !! p)|].
  cbn [foldl]. rewrite IH, emplace_lookup, filter_cons.
  destruct (m !! p); [done|]. by case_decide.
Qed.

Lemma head_filter_Some {A} (P : A → Prop) `{∀ x, Decision (P x)} l x :
  head (filter P l) = Some x → x ∈ l ∧ P x.
Proof.
  intros E%head_Some_elem_of. by apply list_elem_of_filter in E as [? ?].
Qed.

Lemma head_filter_None {A} (P : A → Prop) `{∀ x, Decision (P x)} l x :
  head (filter P l) = None → x ∈ l → ¬ P x.
Proof.
  intros E%head_None Hx HP. apply (not_elem_of_nil x). rewrite <- E.
  by apply list_elem_of_filter.
Qed.

Lemma indexByPath_Some entries p e :
  NoDup (paths entries) →
  indexByPath entries !! p = Some e ↔ e ∈ entries ∧ relativePath e = p.
Proof.
  intros HN. unfold indexByPath. rewrite (foldl_emplace relativePath (λ e, e)), lookup_empty.
  rewrite option_fmap_id. split; [by intros E%(head_filter_Some (λ x, relativePath x = p))|].
  intros [He <-]. destruct (head _) as [e'|] eqn:E.
  - apply head_filter_Some in E as [He' Hp]. f_equal. by eapply NoDup_fmap_inj.
  - by apply (head_filter_None _ _ e) in E.
Qed.

Lemma treeOf_Some entries p h :
  NoDup (paths entries) →
  treeOf entries !! p = Some h ↔ ∃ e, e ∈ entries ∧ relativePath e = p ∧ blobSha256 e = h.
Proof.
  intros HN. unfold treeOf. rewrite <- elem_of_list_to_map.
  - rewrite list_elem_of_fmap. split; [intros (e&[= -> ->]&?)|intros (e&?&<-&<-)]; eauto.
  - by rewrite <- list_fmap_compose.
Qed.

Lemma treeOf_None entries p : treeOf entries !! p = None ↔ p ∉ paths entries.
Proof. unfold treeOf. rewrite <- not_elem_of_list_to_map. by rewrite <- list_fmap_compose. Qed.

Lemma indexByPath_None entries p : indexByPath entries !! p = None ↔ p ∉ paths entries.
Proof.
  unfold indexByPath. rewrite (foldl_emplace relativePath (λ e, e)), lookup_empty, option_fmap_id.
  unfold paths. rewrite list_elem_of_fmap. split.
  - intros E (e & -> & He). by apply (head_filter_None _ _ e) in E.
  - intros Hp. destruct (head _) as [e|] eqn:E; [|done].
    apply head_filter_Some in E as [He <-]. destruct Hp. eauto.
Qed.

Lemma holdsSame_spec installed e :
  NoDup (paths installed) →
  holdsSame (indexByPath installed) e = true ↔
  treeOf installed !! relativePath e = Some (blobSha256 e).
Proof.
  intros HN. rewrite treeOf_Some by done. unfold holdsSame. split.
  - destruct (indexByPath _ !! _) as [x|] eqn:E; [|done].
    apply indexByPath_Some in E as [? ?]; [|done]. intros ?%bool_decide_eq_true. eauto.
  - intros (x & Hx & Hp & Hh).
    rewrite (proj2 (indexByPath_Some _ _ x HN) (conj Hx Hp)). by apply bool_decide_eq_true.
Qed.

Lemma survivingContent_spec index target h :
  match survivingContent index target !! h with
  | Some p => ∃ e, e ∈ target ∧ holdsSame index e = true ∧ blobSha256 e = h ∧ relativePath e = p
  | None => ∀ e, e ∈ target → holdsSame index e = true → blobSha256 e ≠ h
  end.
Proof.
  assert (survivingContent index target =
    foldl (λ m e, emplace (blobSha256 e) (relativePath e) m) ∅
      (filter (λ e, holdsSame index e = true) target)) as ->.
  { unfold survivingContent. generalize (∅ : gmap string string) as m.
    induction target as [|e rest IH]; intros m; [done|]. cbn [foldl].
    rewrite filter_cons, IH. case_decide as Hd; [by rewrite Hd|].
    apply not_true_is_false in Hd. by rewrite Hd. }
  rewrite foldl_emplace, lookup_empty. destruct (head _) as [e|] eqn:E; cbn.
  - apply head_filter_Some in E as [[? ?]%list_elem_of_filter ?]. eauto.
  - intros e He Hs Hh. apply (head_filter_None _ _ e) in E; [done|].
    by apply list_elem_of_filter.
Qed.

Lemma deltaLoop_spec index reusable target :
  deltaLoop index reusable target =
  (map (deltaFile reusable) (filter (λ e, holdsSame index e = false) target),
   filter (λ e, holdsSame index e = true) target).
Proof.
  induction target as [|e rest IH]; [done|]. cbn [deltaLoop]. rewrite IH, !filter_cons.
  by destruct (holdsSame index e).
Qed.

(** *** Running a plan *)

Definition touched (a : Action) : string :=
  match a with
  | RemoveFile path => path
  | WriteBlob path _ => path
  | CopyFile _ path => path
  end.

Definition reads (a : Action) : option string :=
  match a with
  | CopyFile source _ => Some source
  | _ => None
  end.

Definition outcome (t : Tree) (a : Action) : option string :=
  match a with
  | RemoveFile _ => None
  | WriteBlob _ blob => Some blob
  | CopyFile source _ => t !! source
  end.

Lemma act_spec t a :
  (∀ s, reads a = Some s → is_Some (t !! s)) →
  ∃ t', act t a = Some t' ∧ t' !! touched a = outcome t a
        ∧ (∀ p, p ≠ touched a → t' !! p = t !! p).
Proof.
  intros Hr. destruct a as [p|p h|s p]; cbn in *.
  - eexists; split; [done|]. split; [apply lookup_delete_eq|]. intros. by apply lookup_delete_ne.
  - eexists; split; [done|]. split; [apply lookup_insert_eq|]. intros. by apply lookup_insert_ne.
  - destruct (Hr s eq_refl) as [h E]. rewrite E. cbn. eexists; split; [done|].
    split; [apply lookup_insert_eq|]. intros. by apply lookup_insert_ne.
Qed.

(** Actions on distinct paths whose sources nobody touches do not disturb one another. *)
Lemma runActions_spec acts t :
  NoDup (touched <$> acts) →
  (∀ a s, a ∈ acts → reads a = Some s → s ∉ touched <$> acts ∧ is_Some (t !! s)) →
  ∃ t', runActions acts t = Some t'
        ∧ (∀ p, p ∉ touched <$> acts → t' !! p = t !! p)
        ∧ (∀ a, a ∈ acts → t' !! touched a = outcome t a).
Proof.
  revert t. induction acts as [|a acts IH]; intros t HN Hr; cbn in *.
  { exists t. split_and!; try done. by intros a ?%elem_of_nil. }
  apply NoDup_cons in HN as [Ha HN].
  destruct (act_spec t a) as (t1 & E1 & Ho & Hrest); [intros s Hs; apply (Hr a s); [by left|done]|].
  rewrite E1. cbn. destruct (IH t1 HN) as (t' & E' & Hp & Hacts).
  { intros b s Hb Hs. destruct (Hr b s) as [Hns Hsome]; [by right|done|].
    apply not_elem_of_cons in Hns as [? ?]. split; [done|]. by rewrite Hrest. }
  exists t'. split_and!; [done|..].
  - intros p [? ?]%not_elem_of_cons. by rewrite Hp, Hrest.
  - intros b [->|Hb]%elem_of_cons; [by rewrite Hp|]. rewrite Hacts by done.
    destruct b as [| |s p]; try done. cbn. apply Hrest.
    destruct (Hr (CopyFile s p) s) as [Hns _]; [by right|done|].
    by apply not_elem_of_cons in Hns as [? _].
Qed.

Lemma pathsToRemove_spec installed target p :
  p ∈ pathsToRemove installed (indexByPath target) ↔ p ∈ paths installed ∧ p ∉ paths target.
Proof.
  induction installed as [|e rest IH]; cbn; [set_solver|].
  rewrite elem_of_app. change (concat _) with (pathsToRemove rest (indexByPath target)).
  rewrite IH, elem_of_cons. pose proof (indexByPath_None target (relativePath e)) as HN.
  destruct (indexByPath target !! relativePath e) eqn:E.
  - assert (relativePath e ∈ paths target) by (apply dec_stable; intros H; by apply HN in H).
    set_solver.
  - assert (relativePath e ∉ paths target) by by apply HN. set_solver.
Qed.

Lemma pathsToRemove_NoDup installed target :
  NoDup (paths installed) → NoDup (pathsToRemove installed (indexByPath target)).
Proof.
  induction installed as [|e rest IH]; cbn; [constructor|].
  intros [Hn HN]%NoDup_cons. change (concat _) with (pathsToRemove rest (indexByPath target)).
  destruct (indexByPath target !! relativePath e); cbn; [by apply IH|].
  apply NoDup_cons. split; [|by apply IH]. by intros [? _]%pathsToRemove_spec.
Qed.

Section PlannedActions.
  Context (installed target : list ManifestEntry).
  Context (P : ManifestEntry → Prop) `{∀ e, Decision (P e)}.
  Context (file : ManifestEntry → DeltaFile) (Hfile : ∀ e, deltaEntry (file e) = e).
  Context (acts : list Action).
  Context (HNi : NoDup (paths installed)) (HNt : NoDup (paths target)).
  Context (Hacts : acts ≡ₚ map fileAction (map file (filter P target))
                    ++ map RemoveFile (pathsToRemove installed (indexByPath target))).

Lemma planned_touched :
  touched <$> acts ≡ₚ paths (filter P target) ++ pathsToRemove installed (indexByPath target).
Proof.
  rewrite Hacts, fmap_app. f_equiv.
  - unfold paths. rewrite <- !list_fmap_compose. apply Permutation_refl', list_fmap_ext.
    intros i e _. cbn. unfold fileAction. rewrite Hfile. by case_bool_decide.
  - rewrite <- list_fmap_compose. apply Permutation_refl', list_fmap_id.
Qed.

Lemma planned_actions a :
  a ∈ acts ↔ (∃ e, e ∈ target ∧ P e ∧ a = fileAction (file e))
             ∨ (∃ p, (p ∈ paths installed ∧ p ∉ paths target) ∧ a = RemoveFile p).
Proof.
  setoid_rewrite <- pathsToRemove_spec. rewrite Hacts, elem_of_app, !list_elem_of_fmap.
  setoid_rewrite list_elem_of_fmap. setoid_rewrite list_elem_of_filter. naive_solver.
Qed.

Lemma planned_NoDup : NoDup (touched <$> acts).
Proof.
  rewrite planned_touched. apply NoDup_app. split_and!.
  - eapply sublist_NoDup; [exact HNt|]. apply fmap_sublist, sublist_filter.
  - intros p (e & -> & [_ He]%list_elem_of_filter)%list_elem_of_fmap [_ Hx]%pathsToRemove_spec.
    apply Hx. by apply list_elem_of_fmap_2.
  - by apply pathsToRemove_NoDup.
Qed.

(** A kept file is neither written nor removed. *)
Lemma planned_kept e : e ∈ target → ¬ P e → relativePath e ∉ touched <$> acts.
Proof.
  intros He HP. rewrite planned_touched. intros [Hx|Hx]%elem_of_app.
  - apply list_elem_of_fmap in Hx as (e' & E & [HPe He']%list_elem_of_filter).
    destruct HP. by rewrite (NoDup_fmap_inj relativePath target e e').
  - apply pathsToRemove_spec in Hx as [_ Hx]. apply Hx. by apply list_elem_of_fmap_2.
Qed.

(** Writing the entries that satisfy [P] and removing the stale paths produces the
    target, provided the others are already in place and every copy reads one of
    those. *)
Lemma plan_applies :
  (∀ e, e ∈ target → ¬ P e → treeOf installed !! relativePath e = Some (blobSha256 e)) →
  (∀ e, e ∈ target → P e → copyFromRelativePath (file e) = ""%stdpp ∨
     ∃ s, s ∈ target ∧ ¬ P s ∧ copyFromRelativePath (file e) = relativePath s
          ∧ blobSha256 s = blobSha256 e) →
  runActions acts (treeOf installed) = Some (treeOf target).
Proof.
  intros Hkept Hcopy.
  destruct (runActions_spec acts (treeOf installed) planned_NoDup) as (t' & E & Hrest & Hdone).
  { intros a src Ha Hr. apply planned_actions in Ha as [(e & He & HP & ->)|(p & _ & ->)]; [|done].
    unfold fileAction in Hr. case_bool_decide; [done|]. injection Hr as <-.
    destruct (Hcopy e He HP) as [?|(s & Hs & HPs & -> & Hh)]; [done|].
    split; [by apply planned_kept|]. rewrite Hkept by done. eauto. }
  rewrite E. f_equal. apply map_eq. intros p. destruct (treeOf target !! p) as [h|] eqn:Et.
  - apply treeOf_Some in Et as (e & He & <- & <-); [|done]. destruct (decide (P e)) as [HP|HP].
    2:{ rewrite Hrest by by apply planned_kept. by apply Hkept. }
    assert (fileAction (file e) ∈ acts) as Ha by (apply planned_actions; eauto).
    pose proof (Hdone _ Ha) as Hd. unfold fileAction in Hd. rewrite Hfile in Hd.
    case_bool_decide as Hc; [exact Hd|].
    destruct (Hcopy e He HP) as [?|(s & Hs & HPs & Ecopy & Hh)]; [done|].
    cbn in Hd. rewrite Hd, Ecopy, Hkept by done. by rewrite Hh.
  - apply treeOf_None in Et. destruct (decide (p ∈ paths installed)) as [Hi|Hi].
    + assert (RemoveFile p ∈ acts) as Ha by (apply planned_actions; right; by exists p).
      apply (Hdone _ Ha).
    + rewrite Hrest; [by apply treeOf_None|]. rewrite planned_touched. intros [Hx|Hx]%elem_of_app.
      * apply list_elem_of_fmap in Hx as (e & -> & [_ He]%list_elem_of_filter).
        apply Et. by apply list_elem_of_fmap_2.
      * by apply pathsToRemove_spec in Hx as [? _].
Qed.
End PlannedActions.

Lemma planActions_sort delta : planActions (sortPlan delta) ≡ₚ planActions delta.
Proof.
  unfold planActions, sortPlan. cbn.
  f_equiv; apply Permutation_map, merge_sort_Permutation.
Qed.

(** *** Counting bytes *)

(** The bytes of the distinct blobs of a list that are not counted yet. *)
Fixpoint distinctBytes (counted : gset string) (entries : list ManifestEntry) : Z :=
  match entries with
  | [] => 0
  | e :: rest =>
      if decide (blobSha256 e ∈ counted) then distinctBytes counted rest
      else sizeBytes e + distinctBytes ({[blobSha256 e]} ∪ counted) rest
  end.

Definition nonnegSizes (entries : list ManifestEntry) : Prop := Forall (λ e, 0 ≤ sizeBytes e) entries.

Lemma distinctBytes_bounds counted entries :
  nonnegSizes entries → 0 ≤ distinctBytes counted entries ≤ sumSizes entries.
Proof.
  intros HF. revert counted. induction HF as [|e rest He _ IH]; intros counted; cbn; [lia|].
  unfold sumSizes in *. case_decide; [specialize (IH counted)|specialize (IH ({[blobSha256 e]} ∪ counted))]; lia.
Qed.

(** Files whose blob travels. *)
Definition transferred (files : list DeltaFile) : list ManifestEntry :=
  deltaEntry <$> filter (λ file, copyFromRelativePath file = ""%stdpp) files.

Lemma transferred_cons file rest :
  transferred (file :: rest) =
  (if bool_decide (copyFromRelativePath file = ""%stdpp) then [deltaEntry file] else [])
  ++ transferred rest.
Proof.
  unfold transferred. rewrite filter_cons. by case_decide; case_bool_decide.
Qed.

Lemma sumSizes_cons e rest : sumSizes (e :: rest) = sizeBytes e + sumSizes rest.
Proof. done. Qed.

Lemma sumSizes_nonneg entries : nonnegSizes entries → 0 ≤ sumSizes entries.
Proof. intros HF. pose proof (distinctBytes_bounds ∅ _ HF). lia. Qed.

Lemma sumSizes_sublist k l : k `sublist_of` l → nonnegSizes l → sumSizes k ≤ sumSizes l.
Proof.
  induction 1; intros HF; [done|..]; apply Forall_cons in HF as [He HF];
    rewrite !sumSizes_cons; specialize (IHsublist HF); lia.
Qed.

Lemma transferLoop_exact counted bytes files :
  nonnegSizes (deltaEntry <$> files) → 0 ≤ bytes →
  bytes + sumSizes (deltaEntry <$> files) ≤ INT64_MAX →
  transferLoop counted bytes files = bytes + distinctBytes counted (transferred files).
Proof.
  revert counted bytes.
  induction files as [|file rest IH]; intros counted bytes HF Hb Hmax; [cbn; lia|].
  rewrite fmap_cons in *. rewrite sumSizes_cons in Hmax.
  apply Forall_cons in HF as [Hs HF]. cbn beta in Hs. fold (nonnegSizes (deltaEntry <$> rest)) in HF.
  pose proof (sumSizes_nonneg _ HF). rewrite transferred_cons. cbn [transferLoop].
  case_bool_decide; cbn [negb app distinctBytes]; [|apply IH; try done; lia].
  case_decide; [apply IH; try done; lia|].
  rewrite add64_exact by (unfold inInt64, INT64_MIN; lia).
  rewrite IH; [lia|done|lia|lia].
Qed.

Lemma installedSize_exact entries :
  nonnegSizes entries → sumSizes entries ≤ INT64_MAX → installedSize entries = sumSizes entries.
Proof.
  unfold installedSize. intros HF Hmax.
  enough (∀ b, 0 ≤ b → b + sumSizes entries ≤ INT64_MAX →
    foldl (λ bytes entry, add64 bytes (sizeBytes entry)) b entries = b + sumSizes entries) as HE.
  { rewrite HE; lia. }
  clear Hmax. induction HF as [|e rest He HF IH]; intros b Hb Hmax; [cbn in *; lia|].
  pose proof (sumSizes_nonneg _ HF). rewrite sumSizes_cons in *. cbn [foldl].
  rewrite add64_exact by (unfold inInt64, INT64_MIN; lia). rewrite IH; lia.
Qed.

(** Counting one blob as already there saves at most its size. *)
Lemma distinctBytes_count counted entries h w :
  nonnegSizes entries → 0 ≤ w →
  (∀ e, e ∈ entries → blobSha256 e = h → sizeBytes e ≤ w) →
  distinctBytes counted entries ≤ w + distinctBytes ({[h]} ∪ counted) entries.
Proof.
  intros HF Hw. revert counted. induction HF as [|e rest He HF IH]; intros counted Hsame; cbn; [lia|].
  assert (∀ e', e' ∈ rest → blobSha256 e' = h → sizeBytes e' ≤ w) as Hrest
    by (intros e' He'; apply Hsame; by right).
  destruct (decide (blobSha256 e ∈ counted)) as [Hc|Hc].
  - rewrite decide_True by (by apply elem_of_union_r). by apply IH.
  - destruct (decide (blobSha256 e = h)) as [<-|Hne].
    + rewrite decide_True by (by apply elem_of_union_l, elem_of_singleton).
      pose proof (Hsame e ltac:(by left) eq_refl). lia.
    + rewrite decide_False by (by intros [?%elem_of_singleton|?]%elem_of_union).
      replace ({[blobSha256 e]} ∪ ({[h]} ∪ counted)) with ({[h]} ∪ ({[blobSha256 e]} ∪ counted))
        by (rewrite !(assoc_L (∪)); f_equal; apply (comm_L (∪))).
      specialize (IH ({[blobSha256 e]} ∪ counted) Hrest). lia.
Qed.

(** Fetching part of a list, with more blobs already there, never costs more. *)
Lemma distinctBytes_sublist counted counted' k l :
  k `sublist_of` l → nonnegSizes l → consistentSizes l → counted ⊆ counted' →
  distinctBytes counted' k ≤ distinctBytes counted l.
Proof.
  intros Hsub. revert counted counted'.
  induction Hsub as [|e k l Hsub IH|e k l Hsub IH]; intros counted counted' HF Hc Hcc; cbn; [lia|..];
    apply Forall_cons in HF as [He HF];
    assert (consistentSizes l) as Hc' by (intros a b Ha Hb; apply Hc; by right).
  - destruct (decide (blobSha256 e ∈ counted)).
    + rewrite decide_True by (by apply Hcc). by apply IH.
    + case_decide; [|apply Z.add_le_mono_l, IH; [done..|by apply union_mono_l]].
      assert (distinctBytes counted' k ≤ distinctBytes ({[blobSha256 e]} ∪ counted) l); [|lia].
      apply IH; [done..|]. apply union_subseteq. split; [by apply singleton_subseteq_l|done].
  - case_decide; [by apply IH|].
    transitivity (distinctBytes counted l); [by apply IH|].
    apply distinctBytes_count; [done..|]. intros e' He' Hh.
    rewrite (Hc e e'); [lia|by left|by right|done].
Qed.

Lemma computeDelta_applies installed target acts :
  NoDup (paths installed) → NoDup (paths target) →
  acts ≡ₚ planActions (computeDelta installed target) →
  runActions acts (treeOf installed) = Some (treeOf target).
Proof.
  intros HNi HNt Hacts. unfold computeDelta in Hacts. rewrite deltaLoop_spec, planActions_sort in Hacts.
  set (reusable := survivingContent _ _) in *. unfold planActions in Hacts. cbn in Hacts.
  eapply (plan_applies _ _ _ (deltaFile reusable)); [done|done|done|exact Hacts|..].
  - intros e _ HP. apply not_false_is_true in HP. by apply holdsSame_spec in HP.
  - intros e _ _. unfold deltaFile. cbn.
    pose proof (survivingContent_spec (indexByPath installed) target (blobSha256 e)) as HS.
    fold reusable in HS. destruct (reusable !! blobSha256 e); [|by left].
    right. destruct HS as (src & Hs & HP & Hh & Hp). exists src. split_and!; congruence.
Qed.

Lemma fullDownload_applies installed target acts :
  NoDup (paths installed) → NoDup (paths target) →
  acts ≡ₚ planActions (fullDownload installed target) →
  runActions acts (treeOf installed) = Some (treeOf target).
Proof.
  intros HNi HNt Hacts. unfold fullDownload in Hacts. rewrite planActions_sort in Hacts.
  unfold planActions in Hacts. cbn in Hacts.
  eapply (plan_applies _ _ (λ _, True) (λ e, mkDeltaFile e "")); [done|done|done|..].
  - rewrite Hacts. f_equiv. rewrite filter_all; [done|]. by intros.
  - by intros e _ [].
  - intros e _ _. by left.
Qed.

(** ** Properties *)

(** Executed in any order whatever, the plan of [computeDelta] and the plan
    of [fullDownload] both succeed on the installed tree and leave exactly the
    files of the target build: no copy finds its source gone or overwritten, no
    stale file survives. *)
Theorem plan_reaches_target installed target acts :
  NoDup (paths installed) → NoDup (paths target) →
  acts ≡ₚ planActions (computeDelta installed target)
  ∨ acts ≡ₚ planActions (fullDownload installed target) →
  runActions acts (treeOf installed) = Some (treeOf target).
Proof.
  intros HNi HNt [Hacts|Hacts]; [by eapply computeDelta_applies|by eapply fullDownload_applies].
Qed.

(** For a target whose sizes fit [int64_t] together, [totalBytes] is
    their exact sum; a delta never announces a larger transfer than the full download,
    which never exceeds the total; and a file only travels when no file that the
    plan keeps has the same content. *)
Theorem delta_bytes installed target :
  NoDup (paths target) → ""%stdpp ∉ paths target →
  nonnegSizes target → consistentSizes target → sumSizes target ≤ INT64_MAX →
  let delta := computeDelta installed target in
  let full := fullDownload installed target in
  totalBytes delta = sumSizes target ∧ totalBytes full = sumSizes target
  ∧ 0 ≤ downloadBytes delta ≤ downloadBytes full ∧ downloadBytes full ≤ sumSizes target
  ∧ (∀ file e, file ∈ fetch delta → e ∈ unchanged delta →
       copyFromRelativePath file = ""%stdpp → blobSha256 e ≠ blobSha256 (deltaEntry file)).
Proof.
  intros HN Hempty HF Hc Hmax. unfold computeDelta, fullDownload. rewrite deltaLoop_spec. cbn.
  set (index := indexByPath installed). set (reusable := survivingContent index target).
  set (files := map (deltaFile reusable) (filter (λ e, holdsSame index e = false) target)).
  assert (deltaEntry <$> files = filter (λ e, holdsSame index e = false) target) as Efiles.
  { unfold files. rewrite <- list_fmap_compose. apply list_fmap_id. }
  set (all := map (λ e, mkDeltaFile e "") target).
  assert (deltaEntry <$> all = target) as Eall.
  { unfold all. rewrite <- list_fmap_compose. apply list_fmap_id. }
  assert (transferred all = target) as Etrans.
  { unfold transferred. rewrite filter_all; [done|].
    intros f Hf. apply list_elem_of_fmap in Hf as (e & -> & _). done. }
  assert (transferred files `sublist_of` target) as Hsub.
  { unfold transferred. etrans; [apply fmap_sublist, sublist_filter|].
    rewrite Efiles. apply sublist_filter. }
  assert (∀ k, k `sublist_of` target → nonnegSizes k) as Hnonneg.
  { intros k Hk. apply Forall_forall. intros e He. apply (proj1 (Forall_forall _ _) HF).
    by eapply elem_of_submseteq, sublist_submseteq. }
  assert (nonnegSizes (deltaEntry <$> files)) as HFf by (rewrite Efiles; apply Hnonneg, sublist_filter).
  pose proof (sumSizes_sublist _ _ (sublist_filter (λ e, holdsSame index e = false) target) HF).
  unfold transferBytes. rewrite installedSize_exact by done.
  rewrite (transferLoop_exact ∅ 0 all), (transferLoop_exact ∅ 0 files), Etrans;
    [|done || (rewrite ?Efiles, ?Eall; done || lia)..].
  pose proof (distinctBytes_bounds ∅ _ HF).
  pose proof (distinctBytes_sublist ∅ ∅ _ _ Hsub HF Hc ltac:(done)).
  pose proof (distinctBytes_bounds ∅ _ (Hnonneg _ Hsub)).
  split_and!; try done; try lia. intros file e. rewrite !merge_sort_Permutation.
  intros (e' & -> & He')%list_elem_of_fmap [Hs He]%list_elem_of_filter. unfold deltaFile. cbn.
  pose proof (survivingContent_spec index target (blobSha256 e')) as HS. fold reusable in HS.
  destruct (reusable !! blobSha256 e'); intros Hcopy; [|by apply HS].
  destruct HS as (x & Hx & _ & _ & E). exfalso. apply Hempty. rewrite <- Hcopy, <- E.
  by apply list_elem_of_fmap_2.
Qed.

(** ** The theorems at concrete builds *)

Definition sampleEntry (path blob : string) (bytes : Z) : ManifestEntry :=
  mkEntry path blob bytes false.

(** The new build keeps [a], drops [b] and has the bytes of [a] at [c] as well. *)
Definition sampleInstalled : list ManifestEntry := [sampleEntry "a" "h1" 10; sampleEntry "b" "h2" 20].

Definition sampleTarget : list ManifestEntry :=
  [sampleEntry "a" "h1" 10; sampleEntry "c" "h1" 10; sampleEntry "d" "h3" 5].

Lemma plan_reaches_target_witness :
  runActions (reverse (planActions (computeDelta sampleInstalled sampleTarget)))
    (treeOf sampleInstalled) = Some (treeOf sampleTarget).
Proof.
  apply plan_reaches_target.
  - apply (bool_decide_unpack _). vm_compute. exact I.
  - apply (bool_decide_unpack _). vm_compute. exact I.
  - left. apply reverse_Permutation.
Defined.

Lemma delta_bytes_witness :
  downloadBytes (computeDelta sampleInstalled sampleTarget) = 5
  ∧ totalBytes (computeDelta sampleInstalled sampleTarget) = sumSizes sampleTarget.
Proof.
  split; [reflexivity|]. apply (delta_bytes sampleInstalled sampleTarget).
  - apply (bool_decide_unpack _). vm_compute. exact I.
  - apply (bool_decide_unpack _). vm_compute. exact I.
  - apply (bool_decide_unpack _). vm_compute. exact I.
  - intros x y Hx Hy. unfold sampleTarget in *.
    repeat setoid_rewrite elem_of_cons in Hx. repeat setoid_rewrite elem_of_cons in Hy.
    destruct Hx as [->|[->|[->|[]%elem_of_nil]]], Hy as [->|[->|[->|[]%elem_of_nil]]];
      (reflexivity || discriminate).
  - vm_compute. discriminate.
Defined.
