(* ===== verification/Media.v ===== *)
(** Store media: [src/domain/Media.h] and [src/domain/Media.cpp].  The format of an
    upload is decided by its leading bytes, because the answer becomes the
    [Content-Type] of a public URL. *)

From S2P Require Import Prelude.
From S2P Require Import Errors.
From S2P Require Import Validation.
From S2P Require Import Catalog.

(** ** Data *)

Inductive MediaKind := Cover | Banner | Logo | Screenshot | Video.
Inductive ImageFormat := Png | Jpeg | WebP.
Inductive VideoFormat := Mp4 | WebM.

#[export] Instance MediaKind_eq_dec : EqDecision MediaKind.
Proof. solve_decision. Defined.
#[export] Instance ImageFormat_eq_dec : EqDecision ImageFormat.
Proof. solve_decision. Defined.
#[export] Instance VideoFormat_eq_dec : EqDecision VideoFormat.
Proof. solve_decision. Defined.

Record StoredFormat := mkFormat { contentType : string; extension : string }.

Definition MAX_ALT_TEXT_LENGTH : Z := 300.
Definition MAX_SCREENSHOTS_PER_GAME : Z := 12.
Definition MAX_VIDEOS_PER_GAME : Z := 3.

Record GameMedia := mkMedia {
  mediaId : string;
  mediaGameId : string;
  mediaKind : MediaKind;
  mediaStorageKey : string;
  mediaSha256 : string;
  mediaContentType : string;
  mediaSizeBytes : Z;
  mediaAltText : string;
  mediaSortOrder : Z;
  mediaCreatedAt : string
}.

Record NewGameMedia := mkNewMedia {
  newMediaGameId : string;
  newMediaKind : MediaKind;
  newMediaStorageKey : string;
  newMediaSha256 : string;
  newMediaContentType : string;
  newMediaSizeBytes : Z;
  newMediaAltText : string;
  newMediaSortOrder : Z
}.

Record GameMediaUpdate := mkMediaUpdate {
  changeAltText : option string;
  changeSortOrder : option Z
}.

Definition mediaUpdateEmpty (changes : GameMediaUpdate) : bool :=
  match changeAltText changes, changeSortOrder changes with
  | None, None => true
  | _, _ => false
  end.

(** ** Operations *)

Definition startsWith (bytes prefix : list ascii) : bool := prefixb prefix bytes.

Definition MediaKind_toString (value : MediaKind) : string :=
  match value with
  | Cover => "cover"
  | Banner => "banner"
  | Logo => "logo"
  | Video => "video"
  | Screenshot => "screenshot"
  end.

Definition parseMediaKind (value : string) : option MediaKind :=
  if sameText value "cover" then Some Cover
  else if sameText value "banner" then Some Banner
  else if sameText value "logo" then Some Logo
  else if sameText value "screenshot" then Some Screenshot
  else if sameText value "video" then Some Video
  else None.

Definition isSingletonKind (kind : MediaKind) : bool :=
  match kind with
  | Cover | Banner | Logo => true
  | _ => false
  end.

Definition isVideoKind (kind : MediaKind) : bool := bool_decide (kind = Video).

Definition contentTypeOfImage (format : ImageFormat) : string :=
  match format with
  | Jpeg => "image/jpeg"
  | WebP => "image/webp"
  | Png => "image/png"
  end.

Definition extensionOfImage (format : ImageFormat) : string :=
  match format with
  | Jpeg => "jpg"
  | WebP => "webp"
  | Png => "png"
  end.

Definition contentTypeOfVideo (format : VideoFormat) : string :=
  match format with
  | WebM => "video/webm"
  | Mp4 => "video/mp4"
  end.

Definition extensionOfVideo (format : VideoFormat) : string :=
  match format with
  | WebM => "webm"
  | Mp4 => "mp4"
  end.

Definition storedFormatOfImage (format : ImageFormat) : StoredFormat :=
  mkFormat (contentTypeOfImage format) (extensionOfImage format).

Definition storedFormatOfVideo (format : VideoFormat) : StoredFormat :=
  mkFormat (contentTypeOfVideo format) (extensionOfVideo format).

Definition bytesOf (values : list Z) : list ascii := map (λ z, ascii_of_N (Z.to_N z)) values.

Definition PNG_SIGNATURE : list ascii := bytesOf [137; 80; 78; 71; 13; 10; 26; 10].
Definition JPEG_SIGNATURE : list ascii := bytesOf [255; 216; 255].
Definition EBML_SIGNATURE : list ascii := bytesOf [26; 69; 223; 163].
Definition EBML_HEADER_WINDOW : nat := 64.

(** [bytes.substr(pos, count)] on bytes. *)
Definition window (bytes : list ascii) (pos count : nat) : list ascii := take count (drop pos bytes).

Definition sniffImageFormat (bytes : list ascii) : option ImageFormat :=
  if startsWith bytes PNG_SIGNATURE then Some Png
  else if startsWith bytes JPEG_SIGNATURE then Some Jpeg
  else if (12 <=? Z.of_nat (length bytes)) && startsWith bytes (chars "RIFF")
          && bool_decide (window bytes 8 4 = chars "WEBP") then Some WebP
  else None.

Definition MP4_BRANDS : list string :=
  ["isom"; "iso2"; "iso4"; "iso5"; "iso6"; "mp41"; "mp42"; "avc1"; "dash"; "M4V "].

Definition sniffVideoFormat (bytes : list ascii) : option VideoFormat :=
  if startsWith bytes EBML_SIGNATURE then
    match findSub (chars "webm") (window bytes 0 EBML_HEADER_WINDOW) with
    | Some _ => Some WebM
    | None => None
    end
  else if (Z.of_nat (length bytes) <? 12) || negb (bool_decide (window bytes 4 4 = chars "ftyp")) then None
  else
    let brand := window bytes 8 4 in
    if existsb (λ accepted, bool_decide (brand = chars accepted)) MP4_BRANDS then Some Mp4 else None.

Definition validateAltText (altText : string) : VoidResult :=
  if MAX_ALT_TEXT_LENGTH <? size altText then
    Failure (invalidInput ("altText must be at most " +:+ toDecimal MAX_ALT_TEXT_LENGTH +:+ " characters")
               rules.ALT_TEXT_TOO_LONG [toDecimal MAX_ALT_TEXT_LENGTH])
  else if existsb (λ c, (byte c <? 32) && negb (byte c =? 10) && negb (byte c =? 9)) (chars altText)
  then Failure (invalidInput "altText must not contain control characters" rules.ALT_TEXT_INVALID [])
  else Success tt.

(** ** Specification of the containers *)

Definition IsPng (b : list ascii) : Prop := ∃ r, b = PNG_SIGNATURE ++ r.
Definition IsJpeg (b : list ascii) : Prop := ∃ r, b = JPEG_SIGNATURE ++ r.
Definition IsWebP (b : list ascii) : Prop :=
  ∃ len r, length len = 4%nat ∧ b = chars "RIFF" ++ len ++ chars "WEBP" ++ r.

(** An EBML document whose first 64 bytes name the DocType. *)
Definition IsWebM (b : list ascii) : Prop :=
  ∃ k r, b = EBML_SIGNATURE ++ k ++ chars "webm" ++ r
         ∧ (length k + 8 <= EBML_HEADER_WINDOW)%nat.

(** An ISO base media file that opens with an [ftyp] box of an MP4 brand. *)
Definition IsMp4 (b : list ascii) : Prop :=
  ∃ len brand r, length len = 4%nat ∧ brand ∈ MP4_BRANDS
                 ∧ b = len ++ chars "ftyp" ++ chars brand ++ r.

(** ** Lemmas *)

Lemma findSub_Some needle l : (∃ i, findSub needle l = Some i) ↔ ∃ k r, l = k ++ needle ++ r.
Proof.
  assert (∀ k, prefixb needle k = true ↔ ∃ r, k = needle ++ r) as Hp by (intros; apply prefixb_spec).
  induction l as [|x l IH]; cbn [findSub]; destruct (prefixb needle _) eqn:E.
  - split; [|eauto]. intros _. apply Hp in E as [r E]. by exists [], r.
  - split; [by intros [? ?]|]. intros (k & r & H). symmetry in H.
    apply app_nil in H as [-> H]. symmetry in H.
    assert (prefixb needle [] = true) by (apply Hp; eauto). congruence.
  - split; [|eauto]. intros _. apply Hp in E as [r E]. by exists [], r.
  - assert ((∃ i, S <$> findSub needle l = Some i) ↔ ∃ i, findSub needle l = Some i) as ->.
    { destruct (findSub needle l); cbn; [|by split; intros [? ?]]. split; eauto. }
    rewrite IH. split.
    + intros (k & r & ->). by exists (x :: k), r.
    + intros ([|y k] & r & H).
      * assert (prefixb needle (x :: l) = true) by (apply Hp; eauto). congruence.
      * injection H as -> ->. eauto.
Qed.

(** A text of a known length at a position splits the bytes there. *)
Lemma window_split b pos k :
  window b pos (length k) = k → k ≠ [] → ∃ h r, length h = pos ∧ b = h ++ k ++ r.
Proof.
  unfold window. intros E Hk. exists (take pos b), (drop (length k) (drop pos b)). split.
  - rewrite length_take. enough (pos < length b)%nat by lia.
    apply Nat.nle_gt. intros Hle. rewrite (drop_ge b) in E by done.
    by rewrite take_nil in E.
  - rewrite <- E at 1. by rewrite !take_drop.
Qed.

Lemma window_app h k r n m :
  length h = n → length k = m → window (h ++ k ++ r) n m = k.
Proof. intros <- <-. unfold window. by rewrite drop_app_length, take_app_length. Qed.

Lemma prefixb_false_app k l r : length k = length l → k ≠ l → prefixb k (l ++ r) = false.
Proof.
  intros Hlen Hne. apply not_true_iff_false. intros [s E]%prefixb_spec.
  apply app_inj_1 in E as [? _]; congruence.
Qed.

Lemma IsWebP_sniff b :
  (12 <=? Z.of_nat (length b)) && startsWith b (chars "RIFF")
  && bool_decide (window b 8 4 = chars "WEBP") = true ↔ IsWebP b.
Proof.
  unfold startsWith, IsWebP. rewrite !andb_true_iff, prefixb_spec, bool_decide_eq_true. split.
  - intros [[_ [r ->]] Hw]. apply (window_split _ 8 (chars "WEBP")) in Hw as (h & s & Hh & E); [|done].
    exists (drop 4 h), s. split; [rewrite length_drop; lia|].
    assert (take 4 h = chars "RIFF") as H4.
    { apply (f_equal (take 4)) in E. rewrite (take_app_le h) in E by lia. exact (eq_sym E). }
    rewrite E. rewrite <- (take_drop 4 h) at 1. by rewrite H4, <- app_assoc.
  - intros (len & r & Hl & ->). split_and!.
    + apply Z.leb_le. rewrite !length_app. cbn. lia.
    + by eexists.
    + rewrite (app_assoc (chars "RIFF")). apply window_app; [rewrite length_app, Hl|]; done.
Qed.

Lemma IsMp4_sniff b :
  (Z.of_nat (length b) <? 12) || negb (bool_decide (window b 4 4 = chars "ftyp")) = false
  ∧ existsb (λ accepted, bool_decide (window b 8 4 = chars accepted)) MP4_BRANDS = true
  ↔ IsMp4 b.
Proof.
  assert (∀ brand, brand ∈ MP4_BRANDS → length (chars brand) = 4%nat) as Hlen.
  { apply Forall_forall. by repeat constructor. }
  unfold IsMp4. rewrite orb_false_iff, Z.ltb_ge, negb_false_iff, bool_decide_eq_true, existsb_exists.
  setoid_rewrite bool_decide_eq_true. setoid_rewrite <- list_elem_of_In. split.
  - intros [[Hl Hf] (brand & Hb & Hw)].
    apply (window_split _ 4 (chars "ftyp")) in Hf as (len & r & Hlen4 & ->); [|done].
    exists len, brand, (drop 4 r). split_and!; try done.
    do 2 f_equal. unfold window in Hw. rewrite (app_assoc len), drop_app_length' in Hw
      by (rewrite length_app; cbn; lia).
    by rewrite <- Hw, take_drop.
  - intros (len & brand & r & Hl & Hb & ->). split_and!.
    + rewrite !length_app, (Hlen brand) by done. cbn. lia.
    + by apply window_app.
    + exists brand. split; [done|]. rewrite (app_assoc len). apply window_app; [|by apply Hlen].
      rewrite length_app, Hl. done.
Qed.

Lemma IsWebM_sniff b :
  (startsWith b EBML_SIGNATURE = true
   ∧ ∃ i, findSub (chars "webm") (window b 0 EBML_HEADER_WINDOW) = Some i) ↔ IsWebM b.
Proof.
  unfold startsWith, IsWebM, window. rewrite prefixb_spec, findSub_Some. rewrite drop_0. split.
  - intros [[r ->] (k & s & E)].
    assert (take EBML_HEADER_WINDOW (EBML_SIGNATURE ++ r) = EBML_SIGNATURE ++ take 60 r) as E0 by done.
    rewrite E0 in E.
    assert (∃ k', k = EBML_SIGNATURE ++ k') as [k' ->].
    { destruct k as [|k0 [|k1 [|k2 [|k3 k']]]]; cbn in E; try discriminate E.
      injection E as <- <- <- <- _. by exists k'. }
    rewrite <- app_assoc in E. apply app_inv_head in E.
    assert (length (take 60 r) ≤ 60)%nat as Hle by (rewrite length_take; lia).
    rewrite E, !length_app in Hle. change (length (chars "webm")) with 4%nat in Hle.
    exists k', (s ++ drop 60 r). split; [|unfold EBML_HEADER_WINDOW; lia].
    f_equal. rewrite <- (take_drop 60 r) at 1. rewrite E. by rewrite <- !app_assoc.
  - intros (k & r & -> & Hle). split; [by eexists|].
    exists (EBML_SIGNATURE ++ k), (take (EBML_HEADER_WINDOW - (length k + 8)) r).
    rewrite <- !app_assoc. rewrite !take_app.
    change (length EBML_SIGNATURE) with 4%nat. change (length (chars "webm")) with 4%nat.
    unfold EBML_HEADER_WINDOW in *. rewrite (take_ge k) by lia.
    rewrite (take_ge (chars "webm")) by (change (length (chars "webm")) with 4%nat; lia).
    replace (64 - 4 - length k - 4)%nat with (64 - (length k + 8))%nat by lia. reflexivity.
Qed.

(** The tests of the sniffers see the first 64 bytes only. *)
Lemma startsWith_take p b : (length p ≤ 64)%nat → startsWith (take 64 b) p = startsWith b p.
Proof.
  unfold startsWith. intros Hp. apply Bool.eq_iff_eq_true. rewrite !prefixb_spec. split.
  - intros [r E]. exists (r ++ drop 64 b). by rewrite app_assoc, <- E, take_drop.
  - intros [r ->]. exists (take (64 - length p) r). rewrite take_app. by rewrite take_ge.
Qed.

Lemma window_take b pos k : (pos + k ≤ 64)%nat → window (take 64 b) pos k = window b pos k.
Proof.
  intros H. unfold window. replace 64%nat with (pos + (64 - pos))%nat by lia.
  rewrite <- take_drop_commute, take_take. f_equal. lia.
Qed.

Lemma length_take_12 (b : list ascii) : (12 <=? Z.of_nat (length (take 64 b))) = (12 <=? Z.of_nat (length b)).
Proof.
  rewrite length_take. destruct (Z.leb_spec 12 (Z.of_nat (length b)));
    [apply Z.leb_le|apply Z.leb_gt]; lia.
Qed.

(** ** Properties *)

(** The spelling of a media kind reads back, and nothing else is a kind. *)
Theorem MediaKind_roundtrip kind value :
  parseMediaKind value = Some kind ↔ value = MediaKind_toString kind.
Proof.
  unfold parseMediaKind. split; [|by intros ->; destruct kind].
  repeat case_match; intros [= <-]; by apply sameText_true.
Qed.

(** Each sniffer answers a format exactly for the byte sequences of that
    container: WebP needs the payload name inside the RIFF header, WebM the DocType
    within the first 64 bytes, MP4 an accepted brand and no EBML magic; and the
    answer depends on the first 64 bytes alone. *)
Theorem sniffers_correct b :
  (sniffImageFormat b = Some Png ↔ IsPng b)
  ∧ (sniffImageFormat b = Some Jpeg ↔ IsJpeg b)
  ∧ (sniffImageFormat b = Some WebP ↔ IsWebP b)
  ∧ (sniffVideoFormat b = Some WebM ↔ IsWebM b)
  ∧ (sniffVideoFormat b = Some Mp4 ↔ IsMp4 b ∧ ¬ (∃ r, b = EBML_SIGNATURE ++ r))
  ∧ sniffImageFormat b = sniffImageFormat (take 64 b)
  ∧ sniffVideoFormat b = sniffVideoFormat (take 64 b).
Proof.
  pose proof (IsWebP_sniff b) as HWebP. pose proof (IsMp4_sniff b) as HMp4.
  pose proof (IsWebM_sniff b) as HWebM.
  assert (startsWith b PNG_SIGNATURE = true ↔ IsPng b) as HPng by apply prefixb_spec.
  assert (startsWith b JPEG_SIGNATURE = true ↔ IsJpeg b) as HJpeg by apply prefixb_spec.
  assert (startsWith b EBML_SIGNATURE = true ↔ ∃ r, b = EBML_SIGNATURE ++ r) as HE by apply prefixb_spec.
  assert (IsPng b → ¬ IsJpeg b ∧ ¬ IsWebP b) as H1.
  { intros [r ->]. split; [intros [s [=]]|intros (?&?&_&[=])]. }
  assert (IsJpeg b → ¬ IsWebP b) as H2 by (intros [r ->] (?&?&_&[=])).
  split_and!.
  1-3: unfold sniffImageFormat; clear HWebM HMp4 HE;
    destruct (startsWith b PNG_SIGNATURE), (startsWith b JPEG_SIGNATURE), (_ && _ && _); intuition congruence.
  1-2: unfold sniffVideoFormat; clear HWebP HPng HJpeg H1 H2; rewrite <- HWebM || rewrite <- HMp4.
  - destruct (startsWith b EBML_SIGNATURE); [|split; [by repeat case_match|by intros [? _]]].
    destruct (findSub _ _) as [i|]; [split; [by eauto|done]|split; [done|by intros [_ [? ?]]]].
  - rewrite <- HE. destruct (startsWith b EBML_SIGNATURE).
    + split; [by destruct (findSub _ _)|by intros [_ []]].
    + destruct (_ || _); [split; [done|by intros [[? _] _]]|].
      destruct (existsb _ _); [split; [|done]|split; [done|by intros [[_ ?] _]]].
      intros _. split; [done|]. by intros ?.
  - unfold sniffImageFormat. by rewrite !startsWith_take, window_take, length_take_12 by (cbn; lia).
  - unfold sniffVideoFormat. rewrite startsWith_take by (cbn; lia).
    rewrite !window_take by (unfold EBML_HEADER_WINDOW; lia).
    by rewrite !Z.ltb_antisym, length_take_12.
Qed.
