(* ===== verification/LauncherRelease.v ===== *)
(** Releases of the launcher itself: [src/domain/LauncherRelease.h] and
    [src/domain/LauncherRelease.cpp].  A signature covers the canonical bytes of a
    release document, so those bytes must determine every field of it. *)

From S2P Require Import Prelude.
From S2P Require Import Errors.
From S2P Require Import Decimals.
From S2P Require Import Semver.
From S2P Require Import Catalog.
From S2P Require Import CanonicalJson.
From S2P Require Import Manifest.

(** ** Data *)

Inductive ReleaseChannel := StableChannel | BetaChannel.
Inductive ReleasePlatform := OnWindows | OnLinux | OnMacOS.
Inductive ReleaseArch := ArchX64 | ArchArm64.

#[export] Instance ReleaseChannel_eq_dec : EqDecision ReleaseChannel.
Proof. solve_decision. Defined.
#[export] Instance ReleasePlatform_eq_dec : EqDecision ReleasePlatform.
Proof. solve_decision. Defined.
#[export] Instance ReleaseArch_eq_dec : EqDecision ReleaseArch.
Proof. solve_decision. Defined.

Definition RELEASE_DOCUMENT_SCHEMA : Z := 1.
Definition MAX_RELEASE_ARTIFACT_BYTES : Z := 4 * 1024 * 1024 * 1024.
Definition MAX_LAUNCHER_RELEASE_NOTES_LENGTH : Z := 4096.
Definition TIMESTAMP_LENGTH : Z := 20.

Record ReleaseDocument := mkDocument {
  schema : Z;
  channel : ReleaseChannel;
  version : Semver;
  platform : ReleasePlatform;
  arch : ReleaseArch;
  artifactSha256 : string;
  artifactSize : Z;
  releasedAt : string;
  notes : string
}.

(** ** Operations *)

Definition TIMESTAMP_DIGITS : list nat := [0; 1; 2; 3; 5; 6; 8; 9; 11; 12; 14; 15; 17; 18]%nat.

Definition digitAt (l : list ascii) (i : nat) : bool :=
  match l !! i with
  | Some c => isdigit c
  | None => false
  end.

Definition isUtcTimestamp (value : string) : bool :=
  let number offset count := decimalValue (take count (drop offset (chars value))) in
  if negb (size value =? TIMESTAMP_LENGTH) then false
  else if negb (forallb (digitAt (chars value)) TIMESTAMP_DIGITS) then false
  else if negb (charIs value 4 "-") || negb (charIs value 7 "-") || negb (charIs value 10 "T")
          || negb (charIs value 13 ":") || negb (charIs value 16 ":") || negb (charIs value 19 "Z")
  then false
  else
    let month := number 5%nat 2%nat in
    let day := number 8%nat 2%nat in
    let hour := number 11%nat 2%nat in
    let minute := number 14%nat 2%nat in
    let second := number 17%nat 2%nat in
    (1 <=? month) && (month <=? 12) && (1 <=? day) && (day <=? 31) && (hour <=? 23)
    && (minute <=? 59) && (second <=? 60).

Definition parseReleaseChannel (value : string) : option ReleaseChannel :=
  if sameText value "stable" then Some StableChannel
  else if sameText value "beta" then Some BetaChannel
  else None.

Definition parseReleasePlatform (value : string) : option ReleasePlatform :=
  if sameText value "windows" then Some OnWindows
  else if sameText value "linux" then Some OnLinux
  else if sameText value "macos" then Some OnMacOS
  else None.

Definition parseReleaseArch (value : string) : option ReleaseArch :=
  if sameText value "x64" then Some ArchX64
  else if sameText value "arm64" then Some ArchArm64
  else None.

Definition nameForChannel (c : ReleaseChannel) : string :=
  match c with
  | StableChannel => "stable"
  | BetaChannel => "beta"
  end.

Definition nameForPlatform (p : ReleasePlatform) : string :=
  match p with
  | OnWindows => "windows"
  | OnLinux => "linux"
  | OnMacOS => "macos"
  end.

Definition nameForArch (a : ReleaseArch) : string :=
  match a with
  | ArchX64 => "x64"
  | ArchArm64 => "arm64"
  end.

Definition canonicalVersion (v : Semver) : string :=
  toDecimal (major v) +:+ "." +:+ toDecimal (minor v) +:+ "." +:+ toDecimal (patch v).

Definition validateReleaseDocument (document : ReleaseDocument) : VoidResult :=
  if negb (schema document =? RELEASE_DOCUMENT_SCHEMA) then
    failure InvalidInput ("release document schema must be " +:+ toDecimal RELEASE_DOCUMENT_SCHEMA)
  else if negb (sameText (semverText (version document)) (canonicalVersion (version document))) then
    failure InvalidInput ("version must be written as major.minor.patch, not '"
                          +:+ semverText (version document) +:+ "'")
  else if negb (isSha256Hex (artifactSha256 document)) then
    failure InvalidInput "sha256 must be 64 lowercase hexadecimal characters"
  else if (artifactSize document <=? 0) || (MAX_RELEASE_ARTIFACT_BYTES <? artifactSize document) then
    failure InvalidInput ("size must be between 1 and " +:+ toDecimal MAX_RELEASE_ARTIFACT_BYTES
                          +:+ " bytes")
  else if negb (isUtcTimestamp (releasedAt document)) then
    failure InvalidInput ("releasedAt must be an ISO 8601 UTC instant, "
                          +:+ "spelled YYYY-MM-DDTHH:MM:SSZ")
  else if MAX_LAUNCHER_RELEASE_NOTES_LENGTH <? size (notes document) then
    failure InvalidInput ("notes are longer than " +:+ toDecimal MAX_LAUNCHER_RELEASE_NOTES_LENGTH
                          +:+ " characters")
  else Success tt.

Definition canonicalReleaseDocument (document : ReleaseDocument) : string :=
  text (lit "{'schema':" ++ chars (toDecimal (schema document))
        ++ lit ",'channel':" ++ canonicalJsonString (nameForChannel (channel document))
        ++ lit ",'version':" ++ canonicalJsonString (semverText (version document))
        ++ lit ",'platform':" ++ canonicalJsonString (nameForPlatform (platform document))
        ++ lit ",'arch':" ++ canonicalJsonString (nameForArch (arch document))
        ++ lit ",'sha256':" ++ canonicalJsonString (artifactSha256 document)
        ++ lit ",'size':" ++ chars (toDecimal (artifactSize document))
        ++ lit ",'releasedAt':" ++ canonicalJsonString (releasedAt document)
        ++ lit ",'notes':" ++ canonicalJsonString (notes document)
        ++ lit "}").

(** [std::tie(...) > std::tie(...)]. *)
Definition isNewerRelease (candidate installed : Semver) : bool :=
  (major installed <? major candidate)
  || ((major installed =? major candidate)
      && ((minor installed <? minor candidate)
          || ((minor installed =? minor candidate) && (patch installed <? patch candidate)))).

(** ** Specification *)

(** [YYYY-MM-DDTHH:MM:SSZ] with the padded numerals of its fields. *)
Definition timestampText (y mo d h mi s : Z) : list ascii :=
  paddedDigits 4 y ++ "-"%char :: paddedDigits 2 mo ++ "-"%char :: paddedDigits 2 d
  ++ "T"%char :: paddedDigits 2 h ++ ":"%char :: paddedDigits 2 mi
  ++ ":"%char :: paddedDigits 2 s ++ ["Z"%char].

Definition IsTimestamp (l : list ascii) : Prop :=
  ∃ y mo d h mi s,
    0 ≤ y < 10000 ∧ 1 ≤ mo ≤ 12 ∧ 1 ≤ d ≤ 31 ∧ 0 ≤ h ≤ 23 ∧ 0 ≤ mi ≤ 59 ∧ 0 ≤ s ≤ 60
    ∧ l = timestampText y mo d h mi s.

Definition ValidRelease (document : ReleaseDocument) : Prop :=
  schema document = RELEASE_DOCUMENT_SCHEMA
  ∧ semverText (version document) = canonicalVersion (version document)
  ∧ isSha256Hex (artifactSha256 document) = true
  ∧ 1 ≤ artifactSize document ≤ MAX_RELEASE_ARTIFACT_BYTES
  ∧ IsTimestamp (chars (releasedAt document))
  ∧ size (notes document) ≤ MAX_LAUNCHER_RELEASE_NOTES_LENGTH.

(** ** Lemmas *)

#[export] Instance nameForChannel_inj : Inj (=) (=) nameForChannel.
Proof. by intros [] []. Qed.
#[export] Instance nameForPlatform_inj : Inj (=) (=) nameForPlatform.
Proof. by intros [] []. Qed.
#[export] Instance nameForArch_inj : Inj (=) (=) nameForArch.
Proof. by intros [] []. Qed.

(** The canonical text of a version determines its three numbers. *)
Lemma canonicalVersion_inj v w :
  canonicalVersion v = canonicalVersion w →
  major v = major w ∧ minor v = minor w ∧ patch v = patch w.
Proof.
  unfold canonicalVersion. intros H%(f_equal chars). rewrite !chars_app in H.
  eapply decimal_before in H as [E1 H]; [|reflexivity|reflexivity|discriminate].
  eapply decimal_before in H as [E2 H]; [|reflexivity|reflexivity|discriminate].
  apply chars_inj, toDecimal_inj in H. done.
Qed.

(** Runs of digits are the padded numerals of their values, and back. *)
Lemma padded_read l :
  forallb isdigit l = true →
  l = paddedDigits (length l) (decimalValue l) ∧ 0 ≤ decimalValue l < 10 ^ Z.of_nat (length l).
Proof.
  intros Hd. split; [by rewrite paddedDigits_of_value|]. by apply decimalValue_bound.
Qed.

Lemma padded_write k z :
  0 ≤ z < 10 ^ Z.of_nat k →
  ∃ l, paddedDigits k z = l ∧ length l = k ∧ forallb isdigit l = true ∧ decimalValue l = z.
Proof.
  intros Hz. eexists. split; [reflexivity|]. split; [apply length_paddedDigits|].
  split; [apply paddedDigits_digits|by apply paddedDigits_value].
Qed.

(** The tests of [isUtcTimestamp] on twenty bytes, field by field. *)
Lemma isUtcTimestamp_bytes y m d h i s e1 e2 e3 e4 e5 e6 :
  length y = 4%nat → length m = 2%nat → length d = 2%nat → length h = 2%nat →
  length i = 2%nat → length s = 2%nat →
  isUtcTimestamp (text (y ++ e1 :: m ++ e2 :: d ++ e3 :: h ++ e4 :: i ++ e5 :: s ++ [e6])) = true ↔
  (Forall (λ f, forallb isdigit f = true) [y; m; d; h; i; s]
   ∧ [e1; e2; e3; e4; e5; e6] = chars "--T::Z")
  ∧ 1 ≤ decimalValue m ≤ 12 ∧ 1 ≤ decimalValue d ≤ 31 ∧ decimalValue h ≤ 23
  ∧ decimalValue i ≤ 59 ∧ decimalValue s ≤ 60.
Proof.
  intros Hy Hm Hd Hh Hi Hs.
  destruct y as [|? [|? [|? [|? [|]]]]]; try discriminate Hy; clear Hy.
  destruct m as [|? [|? [|]]]; try discriminate Hm; clear Hm.
  destruct d as [|? [|? [|]]]; try discriminate Hd; clear Hd.
  destruct h as [|? [|? [|]]]; try discriminate Hh; clear Hh.
  destruct i as [|? [|? [|]]]; try discriminate Hi; clear Hi.
  destruct s as [|? [|? [|]]]; try discriminate Hs; clear Hs.
  unfold isUtcTimestamp, charIs, size. rewrite chars_text.
  cbn [app length lookup list_lookup take drop TIMESTAMP_DIGITS forallb digitAt Z.of_nat].
  rewrite !Forall_cons. change (Z.of_nat 20 =? TIMESTAMP_LENGTH) with true. cbn [negb forallb]. split.
  - intros H. destruct (negb (_ && _)) eqn:E1; [done|]. destruct (_ || _) eqn:E2; [done|].
    bool_to_prop. simplify_eq. repeat match goal with H : ?x = true |- _ => rewrite H; clear H end.
    split_and!; done || lia.
  - intros [[(Hy&Hm&Hd&Hh&Hi&Hs&_) [= -> -> -> -> -> ->]] (?&?&?&?&?)]. bool_to_prop.
    repeat match goal with H : ?x = true |- _ => rewrite H; clear H end. cbn [andb negb].
    rewrite !bool_decide_eq_true_2 by done. cbn [negb orb].
    rewrite !andb_true_iff, !Z.leb_le. lia.
Qed.

Lemma isUtcTimestamp_spec value : isUtcTimestamp value = true ↔ IsTimestamp (chars value).
Proof.
  rewrite <- (text_chars value) at 1. generalize (chars value) as l. intros l.
  unfold IsTimestamp, timestampText. split.
  - intros H. assert (length l = 20%nat) as Hl.
    { unfold isUtcTimestamp in H. rewrite size_text in H. case_match eqn:E; [done|].
      bool_to_prop. unfold TIMESTAMP_LENGTH in E. lia. }
    destruct l as [|c0 [|c1 [|c2 [|c3 [|c4 [|c5 [|c6 [|c7 [|c8 [|c9 [|c10 [|c11 [|c12 [|c13 [|c14 [|c15 [|c16 [|c17 [|c18 [|c19 [|]]]]]]]]]]]]]]]]]]]]]; try discriminate Hl.
    apply (isUtcTimestamp_bytes [c0; c1; c2; c3] [c5; c6] [c8; c9] [c11; c12] [c14; c15] [c17; c18])
      in H as [[HF [= -> -> -> -> -> ->]] Hr]; [|done..].
    repeat apply Forall_cons in HF as [?%padded_read HF]. cbn [length] in *.
    exists (decimalValue [c0; c1; c2; c3]), (decimalValue [c5; c6]), (decimalValue [c8; c9]),
      (decimalValue [c11; c12]), (decimalValue [c14; c15]), (decimalValue [c17; c18]).
    destruct_and!. split_and!; try lia.
    repeat match goal with H : ?k = paddedDigits _ _ |- _ => rewrite <- H; clear H end. done.
  - intros (y & mo & d & h & mi & s & Hy & Hmo & Hd & Hh & Hmi & Hs & ->).
    destruct (padded_write 4 y) as (ly & -> & ? & ? & _); [cbn; lia|].
    destruct (padded_write 2 mo) as (lm & -> & ? & ? & ?); [cbn; lia|].
    destruct (padded_write 2 d) as (ld & -> & ? & ? & ?); [cbn; lia|].
    destruct (padded_write 2 h) as (lh & -> & ? & ? & ?); [cbn; lia|].
    destruct (padded_write 2 mi) as (li & -> & ? & ? & ?); [cbn; lia|].
    destruct (padded_write 2 s) as (ls & -> & ? & ? & ?); [cbn; lia|].
    apply isUtcTimestamp_bytes; [done..|]. subst. split_and!; try lia; [|done].
    by repeat constructor.
Qed.

Lemma validateReleaseDocument_spec document :
  validateReleaseDocument document = Success tt ↔ ValidRelease document.
Proof.
  unfold validateReleaseDocument, ValidRelease, failure, sameText. rewrite <- isUtcTimestamp_spec.
  destruct (Z.eqb_spec (schema document) RELEASE_DOCUMENT_SCHEMA); [|split; [done|by intros [? _]]].
  case_bool_decide; [|split; [done|by intros (_&?&_)]]. cbn [negb].
  destruct (isSha256Hex _); [|split; [done|by intros (_&_&?&_)]].
  destruct (Z.leb_spec (artifactSize document) 0); [split; [done|intros (_&_&_&?&_); lia]|].
  destruct (Z.ltb_spec MAX_RELEASE_ARTIFACT_BYTES (artifactSize document)); [split; [done|intros (_&_&_&?&_); lia]|].
  destruct (isUtcTimestamp _); [|split; [done|by intros (_&_&_&_&?&_)]]. cbn [negb orb].
  destruct (Z.ltb_spec MAX_LAUNCHER_RELEASE_NOTES_LENGTH (size (notes document)));
    [split; [done|intros (_&_&_&_&_&?); lia]|].
  split; [|done]. intros _. split_and!; done || lia.
Qed.

(** ** Properties *)

(** The signed bytes of a release identify it.  A document is accepted
    exactly when its fields have the documented form, the timestamp being the padded
    numerals of a month, day, hour, minute and second in range; and two accepted
    documents with the same canonical bytes are the same document, channel, platform
    and version numbers included. *)
Theorem releaseDocument_identity d1 d2 :
  (validateReleaseDocument d1 = Success tt ↔ ValidRelease d1)
  ∧ (ValidRelease d1 → ValidRelease d2 →
      canonicalReleaseDocument d1 = canonicalReleaseDocument d2 → d1 = d2).
Proof.
  split; [apply validateReleaseDocument_spec|].
  destruct d1 as [s1 c1 [a1 b1 p1 t1] pl1 ar1 h1 n1 r1 nt1],
    d2 as [s2 c2 [a2 b2 p2 t2] pl2 ar2 h2 n2 r2 nt2].
  unfold ValidRelease, canonicalReleaseDocument.
  cbn [schema channel version platform arch artifactSha256 artifactSize releasedAt notes semverText].
  intros (_&->&_) (_&->&_) H%text_inj. repeat code_step.
  match goal with E : canonicalVersion _ = canonicalVersion _ |- _ =>
    apply canonicalVersion_inj in E as (?&?&?) end.
  cbn [major minor patch] in *. by simplify_eq.
Qed.

(** [isNewerRelease] orders the published versions strictly and totally: a
    release is never newer than itself or than one newer than it, the relation is
    transitive, and of two accepted releases neither of which is newer the versions are
    the same, text included. *)
Theorem isNewerRelease_order d1 d2 d3 :
  let newer a b := isNewerRelease (version a) (version b) in
  newer d1 d1 = false
  ∧ (newer d1 d2 = true → newer d2 d1 = false)
  ∧ (newer d1 d2 = true → newer d2 d3 = true → newer d1 d3 = true)
  ∧ (ValidRelease d1 → ValidRelease d2 → newer d1 d2 = false → newer d2 d1 = false →
      version d1 = version d2).
Proof.
  destruct d1 as [? ? [a1 b1 p1 t1] ? ? ? ? ? ?], d2 as [? ? [a2 b2 p2 t2] ? ? ? ? ? ?],
    d3 as [? ? [a3 b3 p3 t3] ? ? ? ? ? ?].
  unfold isNewerRelease, ValidRelease. cbn. split_and!.
  1-3: try rewrite <- !not_true_iff_false;
    rewrite ?orb_true_iff, ?andb_true_iff, ?orb_true_iff, ?andb_true_iff, ?Z.ltb_lt, ?Z.eqb_eq; lia.
  intros (_&->&_) (_&->&_) H1 H2. apply not_true_iff_false in H1, H2.
  rewrite !orb_true_iff, !andb_true_iff, !orb_true_iff, !andb_true_iff, !Z.ltb_lt, !Z.eqb_eq in H1, H2.
  assert (a1 = a2 ∧ b1 = b2 ∧ p1 = p2) as (-> & -> & ->) by lia. done.
Qed.
