(* ===== verification/Hash.v ===== *)
(** Content addresses: [src/common/Hash.h] and [src/common/Hash.cpp].  The SHA-256
    compression itself is OpenSSL's; its digest is a parameter, and what is modelled is
    the text the program makes of it and the comparison it makes of two texts. *)

From S2P Require Import Prelude.
From S2P Require Import CanonicalJson.
From S2P Require Import Manifest.

(** ** The digest OpenSSL computes *)

(** [EVP_sha256]: 32 bytes for every input.  [digestContext] is whether
    [makeDigestContext] succeeds, which allocation failure can prevent. *)
Class Evp := {
  digestContext : bool;
  sha256 : list ascii → list ascii;
  sha256_length : ∀ data, length (sha256 data) = 32%nat
}.

(** ** Operations *)

Definition toHex (digest : list ascii) : list ascii :=
  concat (map (λ c, [hexDigit (Z.shiftr (byte c) 4); hexDigit (Z.land (byte c) 15)]) digest).

Definition sha256Hex `{Evp} (data : string) : string :=
  if digestContext then text (toHex (sha256 (chars data))) else "".

(** [difference |= lhs[i] ^ rhs[i]] over the bytes, on an [unsigned char]. *)
Definition differenceOf (l r : list ascii) : Z :=
  foldl (λ difference p, Z.lor difference (Z.lxor (byte p.1) (byte p.2))) 0 (zip l r).

Definition constantTimeEquals (lhs rhs : string) : bool :=
  if negb (size lhs =? size rhs) then false
  else differenceOf (chars lhs) (chars rhs) =? 0.

(** ** Lemmas *)

Lemma toHex_inj k l : toHex k = toHex l → k = l.
Proof.
  revert l; induction k as [|a k IH]; intros [|b l]; try done.
  change (toHex (?x :: ?y)) with
    ([hexDigit (Z.shiftr (byte x) 4); hexDigit (Z.land (byte x) 15)] ++ toHex y).
  intros H. apply app_inj_1 in H as [H1 H2]; [|done]. rewrite (IH l H2). f_equal.
  apply byte_inj. revert H1.
  assert (∀ c, byte c = 16 * match hexValue (hexDigit (Z.shiftr (byte c) 4)) with Some z => z | None => 0 end
                        + match hexValue (hexDigit (Z.land (byte c) 15)) with Some z => z | None => 0 end) as HE.
  { intros c. by every_byte c. }
  intros [= E1 E2]. rewrite (HE a), (HE b). by rewrite E1, E2.
Qed.

Lemma toHex_digits l : forallb isLowercaseHexDigit (toHex l) = true.
Proof.
  induction l as [|c l IH]; [done|].
  change (toHex (c :: l)) with
    ([hexDigit (Z.shiftr (byte c) 4); hexDigit (Z.land (byte c) 15)] ++ toHex l).
  rewrite forallb_app, IH, andb_true_r. by every_byte c.
Qed.

Lemma toHex_length l : length (toHex l) = (2 * length l)%nat.
Proof.
  induction l as [|c l IH]; [done|].
  change (toHex (c :: l)) with
    ([hexDigit (Z.shiftr (byte c) 4); hexDigit (Z.land (byte c) 15)] ++ toHex l).
  rewrite length_app, IH. cbn. lia.
Qed.

(** Two different texts with one digest. *)
Definition Collision `{Evp} (a b : string) : Prop :=
  a ≠ b ∧ sha256 (chars a) = sha256 (chars b).

(** Hashes agree for equal texts and for collisions, and in no other case. *)
Lemma sha256Hex_eq `{Evp} a b :
  digestContext = true → sha256Hex a = sha256Hex b ↔ a = b ∨ Collision a b.
Proof.
  intros Hc. unfold sha256Hex, Collision. rewrite Hc. split.
  - intros E%text_inj%toHex_inj. destruct (decide (a = b)); tauto.
  - intros [->|[_ ->]]; done.
Qed.

(** What the server computes has the form it demands of what it is sent. *)
Lemma sha256Hex_form `{Evp} data : digestContext = true → isSha256Hex (sha256Hex data) = true.
Proof.
  intros Hc. unfold sha256Hex, isSha256Hex. rewrite Hc, size_text, chars_text.
  rewrite toHex_digits, toHex_length, sha256_length. done.
Qed.

Lemma lxor_byte_zero a b : Z.lxor (byte a) (byte b) = 0 → a = b.
Proof. intros H%Z.lxor_eq. by apply byte_inj. Qed.

(** The constant-time comparison is equality of texts: the accumulated
    difference is zero exactly when every byte agrees. *)
Theorem constantTimeEquals_correct lhs rhs :
  constantTimeEquals lhs rhs = true ↔ lhs = rhs.
Proof.
  unfold constantTimeEquals, differenceOf, size. split.
  2:{ intros ->. rewrite Z.eqb_refl. cbn. apply Z.eqb_eq.
      generalize (chars rhs) as l. induction l as [|c l IH]; [done|].
      cbn [zip zip_with foldl fst snd]. by rewrite Z.lxor_nilpotent. }
  destruct (Z.eqb_spec (Z.of_nat (length (chars lhs))) (Z.of_nat (length (chars rhs)))) as [Hl|]; [|done].
  cbn. intros H%Z.eqb_eq. apply chars_inj. apply Nat2Z.inj in Hl.
  assert (∀ l r d, length l = length r → 0 ≤ d →
    foldl (λ difference p, Z.lor difference (Z.lxor (byte p.1) (byte p.2))) d (zip l r) = 0 →
    d = 0 ∧ l = r) as Hfold.
  { clear. induction l as [|a l IH]; intros [|b r] d Hl Hd; try done.
    cbn [zip zip_with foldl fst snd]. intros H. injection Hl as Hl.
    pose proof (byte_range a). pose proof (byte_range b).
    apply IH in H as [H ->]; [|done|].
    - apply Z.lor_eq_0_iff in H as [-> H]. split; [done|]. f_equal. by apply lxor_byte_zero.
    - apply Z.lor_nonneg. split; [done|]. apply Z.lxor_nonneg. lia. }
  by apply (Hfold _ _ 0).
Qed.

(** A digest to evaluate examples with: the first 32 bytes, padded. *)
Definition sampleEvp : Evp.
Proof.
  refine {| digestContext := true; sha256 := λ data, take 32 (data ++ replicate 32 "0"%char) |}.
  intros data. rewrite length_take, length_app, length_replicate. lia.
Defined.
