(* ===== verification/CrashReport.v ===== *)
(** Crash reports: [src/domain/CrashReport.h] and [src/domain/CrashReport.cpp]. *)

From S2P Require Import Prelude.
From S2P Require Import Errors.
From S2P Require Import Decimals.
From S2P Require Import Validation.
From S2P Require Import Catalog.
From S2P Require Import Hash.

(** ** Data *)

Definition MAX_CRASH_KIND_LENGTH : Z := 40.
Definition MAX_CRASH_VERSION_LENGTH : Z := 40.
Definition MAX_CRASH_PLATFORM_LENGTH : Z := 120.
Definition MAX_CRASH_EXCEPTION_TYPE_LENGTH : Z := 200.
Definition MAX_CRASH_MESSAGE_LENGTH : Z := 2000.
Definition MAX_CRASH_STACK_LENGTH : Z := 16000.

Record NewCrashReport := mkCrashReport {
  crashKind : string;
  occurredAt : string;
  launcherVersion : string;
  crashPlatform : string;
  exceptionType : string;
  crashMessage : string;
  stackTrace : string
}.

(** ** Operations *)

Definition checkLength (value : string) (limit : Z) (field : string) : VoidResult :=
  if limit <? size value then
    failure InvalidInput (field +:+ " must be at most " +:+ toDecimal limit +:+ " characters")
  else Success tt.

Definition NAME_PUNCTUATION : list ascii := chars "._:<>+".

Definition isNameCharacter (c : ascii) : bool := isalpha c || existsb (ceqb c) NAME_PUNCTUATION.

Definition allDigits (l : list ascii) : bool := bool_decide (l ≠ []) && forallb isdigit l.

Definition validateOccurredAt (value : string) : VoidResult :=
  let malformed :=
    failure InvalidInput "occurredAt must be an ISO 8601 instant, e.g. 2026-08-05T12:00:00Z" in
  let field pos count := take count (drop pos (chars value)) in
  if (size value <? 20) || negb (charIs value 10 "T") || negb (charIs value 13 ":")
     || negb (charIs value 16 ":") then malformed
  else if negb (ok (validateReleaseDate (substr value 0 10))) then malformed
  else if negb (allDigits (field 11%nat 2%nat)) || negb (allDigits (field 14%nat 2%nat))
          || negb (allDigits (field 17%nat 2%nat)) then malformed
  else
    let zone := drop 19 (chars value) in
    let afterFraction :=
      match zone with
      | "."%char :: digits =>
          let rest := dropWhile isdigit digits in
          if bool_decide (digits ≠ []) && bool_decide (rest = digits) then None else Some rest
      | _ => Some zone
      end in
    match afterFraction with
    | None => malformed
    | Some zone =>
        if bool_decide (zone = chars "Z") then Success tt
        else
          match zone with
          | [s; a; b; c; d; e] =>
              if (ceqb s "+" || ceqb s "-") && ceqb c ":" && allDigits [a; b] && allDigits [d; e]
              then Success tt else malformed
          | _ => malformed
          end
    end.

Definition validateCrashReport (report : NewCrashReport) : VoidResult :=
  if bool_decide (trim (crashKind report) = ""%stdpp) then
    failure InvalidInput "kind must not be empty"
  else
    let? _ := checkLength (crashKind report) MAX_CRASH_KIND_LENGTH "kind" in
    let? _ := checkLength (launcherVersion report) MAX_CRASH_VERSION_LENGTH "version" in
    let? _ := checkLength (crashPlatform report) MAX_CRASH_PLATFORM_LENGTH "platform" in
    let? _ := checkLength (exceptionType report) MAX_CRASH_EXCEPTION_TYPE_LENGTH "exceptionType" in
    let? _ := checkLength (crashMessage report) MAX_CRASH_MESSAGE_LENGTH "message" in
    let? _ := checkLength (stackTrace report) MAX_CRASH_STACK_LENGTH "stackTrace" in
    let? _ := validateOccurredAt (occurredAt report) in
    Success tt.

(** One turn of the loop: [normalized] and [lastWasSeparator]. *)
Definition normalizeStep (state : list ascii * bool) (c : ascii) : list ascii * bool :=
  let '(normalized, lastWasSeparator) := state in
  if isNameCharacter c then (normalized ++ [tolower c], false)
  else if negb lastWasSeparator then (normalized ++ [" "%char], true)
  else (normalized, lastWasSeparator).

Definition normalizeStackForFingerprint (stack : string) : string :=
  text (dropWhileEnd (λ c, ceqb c " ") (foldl normalizeStep ([], true) (chars stack)).1).

Definition NEWLINE : ascii := "010".

Definition crashFingerprint `{Evp} (report : NewCrashReport) : string :=
  sha256Hex (text (chars (trim (exceptionType report)) ++ NEWLINE
                   :: chars (normalizeStackForFingerprint (stackTrace report)))).

(** ** What a fingerprint keeps *)

(** The maximal runs of name characters of a stack trace, lower cased. *)
Fixpoint names (current : list ascii) (l : list ascii) : list (list ascii) :=
  match l with
  | [] => if current then [] else [current]
  | c :: rest =>
      if isNameCharacter c then names (current ++ [tolower c]) rest
      else (if current then [] else [current]) ++ names [] rest
  end.

Definition stackNames (stack : string) : list (list ascii) := names [] (chars stack).

(** ** Lemmas *)

Lemma isNameCharacter_plain c : isNameCharacter c = true → ceqb (tolower c) " " = false ∧ tolower c ≠ NEWLINE.
Proof. every_byte c; done. Qed.

Lemma joinOn_cons sep x xs : joinOn sep (x :: xs) = x ++ concat (map (cons sep) xs).
Proof.
  revert x; induction xs as [|y xs IH]; intros x; [cbn; by rewrite app_nil_r|].
  change (joinOn sep (x :: y :: xs)) with (x ++ sep :: joinOn sep (y :: xs)). by rewrite IH.
Qed.

Lemma names_nonempty current l : current ≠ [] → names current l ≠ [].
Proof.
  revert current. induction l as [|c l IH]; intros current Hc; cbn.
  - by destruct current.
  - destruct (isNameCharacter c); [apply IH; by destruct current|by destruct current].
Qed.

Definition stripped (state : list ascii * bool) : list ascii :=
  dropWhileEnd (λ c, ceqb c " ") state.1.

(** The loop in the middle of a name, and right after the separator that ends one. *)
Lemma normalize_loop l :
  (∀ p k c, isNameCharacter c = true →
     stripped (foldl normalizeStep (p ++ k ++ [tolower c], false) l) =
     p ++ joinOn " " (names (k ++ [tolower c]) l))
  ∧ (∀ q c, isNameCharacter c = true →
     stripped (foldl normalizeStep ((q ++ [tolower c]) ++ [" "%char], true) l) =
     (q ++ [tolower c]) ++ concat (map (cons " "%char) (names [] l))).
Proof.
  unfold stripped. induction l as [|x l [IHname IHsep]]; split.
  - intros p k c Hc. cbn. destruct (k ++ [tolower c]) eqn:E; [by destruct k|]. rewrite <- E. cbn.
    rewrite app_assoc. apply dropWhileEnd_keep. by apply isNameCharacter_plain.
  - intros q c Hc. cbn [foldl names fst map concat]. rewrite app_nil_r, dropWhileEnd_drop by done.
    apply dropWhileEnd_keep. by apply isNameCharacter_plain.
  - intros p k c Hc. cbn [foldl names normalizeStep]. destruct (isNameCharacter x) eqn:Ex.
    + rewrite <- app_assoc. by apply IHname.
    + cbn [negb]. rewrite (app_assoc p k), IHsep by done.
      destruct (k ++ [tolower c]) eqn:E; [by destruct k|]. rewrite <- E. cbn [app].
      by rewrite joinOn_cons, <- !app_assoc.
  - intros q c Hc. cbn [foldl names normalizeStep]. destruct (isNameCharacter x) eqn:Ex.
    + pose proof (IHname ((q ++ [tolower c]) ++ [" "%char]) [] x Ex) as HX.
      cbn [app] in HX |- *. rewrite HX.
      pose proof (names_nonempty [tolower x] l ltac:(done)) as Hn.
      destruct (names [tolower x] l) as [|n ns]; [done|].
      rewrite joinOn_cons. cbn [map concat]. by rewrite <- !app_assoc.
    + cbn [negb app]. by apply IHsep.
Qed.

Lemma normalize_spec stack :
  normalizeStackForFingerprint stack = text (joinOn " " (stackNames stack)).
Proof.
  unfold normalizeStackForFingerprint, stackNames. f_equal. fold (stripped (foldl normalizeStep ([], true) (chars stack))).
  induction (chars stack) as [|c l IH]; [done|]. cbn [foldl normalizeStep names].
  destruct (isNameCharacter c) eqn:E; [|exact IH].
  apply (proj1 (normalize_loop l) [] [] c E).
Qed.

Lemma names_chars current l n c :
  n ∈ names current l → c ∈ n →
  (∀ c, c ∈ current → ceqb c " " = false ∧ c ≠ NEWLINE) → ceqb c " " = false ∧ c ≠ NEWLINE.
Proof.
  intros Hn Hc. revert current Hn. induction l as [|x l IH]; intros current; cbn.
  - destruct current; [by intros ?%elem_of_nil|].
    intros ->%list_elem_of_singleton Hcur. by apply Hcur.
  - destruct (isNameCharacter x) eqn:Ex.
    + intros Hn Hcur. apply (IH _ Hn). intros y [Hy| ->%list_elem_of_singleton]%elem_of_app; [by apply Hcur|].
      by apply isNameCharacter_plain.
    + intros [Hn|Hn]%elem_of_app Hcur.
      * destruct current; [by apply elem_of_nil in Hn|].
        apply list_elem_of_singleton in Hn as ->. by apply Hcur.
      * apply (IH [] Hn). by intros y ?%elem_of_nil.
Qed.

Lemma stackNames_chars stack n c : n ∈ stackNames stack → c ∈ n → ceqb c " " = false ∧ c ≠ NEWLINE.
Proof. intros Hn Hc. eapply names_chars; [done..|]. by intros y ?%elem_of_nil. Qed.

Lemma joinOn_elem sep ps c : c ∈ joinOn sep ps → c = sep ∨ ∃ p, p ∈ ps ∧ c ∈ p.
Proof.
  induction ps as [|p [|q ps] IH]; [by intros ?%elem_of_nil| |].
  - cbn. right. exists p. split; [by left|done].
  - change (joinOn sep (p :: q :: ps)) with (p ++ sep :: joinOn sep (q :: ps)).
    intros [Hc|[->|Hc]%elem_of_cons]%elem_of_app.
    + right. exists p. split; [by left|done].
    + by left.
    + destruct (IH Hc) as [?|(r & ? & ?)]; [by left|]. right. exists r. split; [by right|done].
Qed.

Lemma names_members current l n : n ∈ names current l → n ≠ [].
Proof.
  revert current. induction l as [|x l IH]; intros current; cbn.
  - destruct current; [by intros ?%elem_of_nil|]. by intros ->%list_elem_of_singleton.
  - destruct (isNameCharacter x); [apply IH|]. intros [Hn|Hn]%elem_of_app; [|by eapply IH].
    destruct current; [by apply elem_of_nil in Hn|]. by apply list_elem_of_singleton in Hn as ->.
Qed.

Lemma stackNames_joinOn_inj s1 s2 :
  joinOn " " (stackNames s1) = joinOn " " (stackNames s2) → stackNames s1 = stackNames s2.
Proof.
  assert (∀ s, Forall (λ p, " "%char ∉ p) (stackNames s)) as HF.
  { intros s. apply Forall_forall. intros p Hp Hin.
    by destruct (stackNames_chars _ _ _ Hp Hin). }
  assert (∀ s, joinOn " " (stackNames s) = [] → stackNames s = []) as Hnil.
  { intros s. pose proof (names_members [] (chars s)) as Hne. unfold stackNames.
    destruct (names [] (chars s)) as [|n ns]; [done|]. rewrite joinOn_cons.
    intros [-> _]%app_nil. by destruct (Hne [] ltac:(by left)). }
  intros E. destruct (decide (stackNames s1 = [])) as [E1|E1].
  - rewrite E1 in E |- *. symmetry in E |- *. by apply Hnil.
  - destruct (decide (stackNames s2 = [])) as [E2|E2].
    + rewrite E2 in E. by apply Hnil in E.
    + apply (f_equal (splitOn " ")) in E. by rewrite !splitOn_joinOn in E by done.
Qed.

(** ** Properties *)

(** What identifies a bug: the exception's type and the names its stack goes through. *)
Definition sameBug (r1 r2 : NewCrashReport) : Prop :=
  trim (exceptionType r1) = trim (exceptionType r2)
  ∧ stackNames (stackTrace r1) = stackNames (stackTrace r2).

(** The text the fingerprint hashes. *)
Definition fingerprintText (report : NewCrashReport) : string :=
  text (chars (trim (exceptionType report)) ++ NEWLINE
        :: chars (normalizeStackForFingerprint (stackTrace report))).

(** Two reports share a fingerprint exactly when they are the same bug, the
    same trimmed exception type and the same sequence of names in the stack whatever
    digits, addresses and punctuation stand between them, unless their hashed texts
    are a SHA-256 collision; in particular neither message, version nor platform
    matters. *)
Theorem crashFingerprint_identity `{Evp} r1 r2 :
  digestContext = true →
  crashFingerprint r1 = crashFingerprint r2 ↔
  sameBug r1 r2 ∨ Collision (fingerprintText r1) (fingerprintText r2).
Proof.
  intros Hc. unfold crashFingerprint. rewrite sha256Hex_eq by done.
  fold (fingerprintText r1) (fingerprintText r2).
  enough (fingerprintText r1 = fingerprintText r2 ↔ sameBug r1 r2) as -> by done.
  unfold fingerprintText, sameBug. rewrite !normalize_spec, !chars_text. split.
  - intros E%text_inj.
    assert (∀ r, NEWLINE ∉ joinOn " " (stackNames (stackTrace r))) as HN.
    { intros r [?|(n & Hn & Hin)]%joinOn_elem; [done|]. by destruct (stackNames_chars _ _ _ Hn Hin). }
    assert (∀ (k l k' l' : list ascii), NEWLINE ∉ l → NEWLINE ∉ l' →
      k ++ NEWLINE :: l = k' ++ NEWLINE :: l' → k = k' ∧ l = l') as Hsplit.
    { clear. intros k l k' l' Hl Hl' E. apply (f_equal reverse) in E.
      rewrite !reverse_app, !reverse_cons, <- !app_assoc in E. cbn [app] in E.
      assert (length (reverse l) = length (reverse l')) as Hlen.
      { pose proof (findChar_split NEWLINE (reverse l) (reverse k)) as F1.
        pose proof (findChar_split NEWLINE (reverse l') (reverse k')) as F2.
        rewrite elem_of_reverse in F1, F2. rewrite E, F2 in F1 by done. by injection (F1 Hl). }
      apply app_inj_1 in E as [E1 [= E2]]; [|done].
      split; [by apply (inj reverse)|by apply (inj reverse)]. }
    apply Hsplit in E as [E1 E2]; [|apply HN..].
    split; [by apply chars_inj|by apply stackNames_joinOn_inj].
  - by intros [-> ->].
Qed.

(** The occurrence time reaches a [::timestamptz] cast.  Its date is a calendar date,
    but its hour, minute and second are any two digits. *)
Lemma validateOccurredAt_impossible_time :
  validateOccurredAt "2026-08-05T99:99:99Z" = Success tt
  ∧ validateOccurredAt "2026-08-05T12:00:00+99:99" = Success tt.
Proof. split; reflexivity. Qed.

(** Two builds of one program crash at different lines. *)
Lemma crashFingerprint_identity_witness :
  let report stack message := mkCrashReport "crash" "" "1.0" "linux" "NullReference" message stack in
  crashFingerprint (H := sampleEvp) (report "at Game.Run() line 12" "a") =
  crashFingerprint (H := sampleEvp) (report "at  Game.Run() line 47!" "b").
Proof.
  intros report. apply crashFingerprint_identity; [reflexivity|]. left. split; vm_compute; reflexivity.
Defined.
