(* ===== verification/PatchNote.v ===== *)
(** Devlog entries: [src/domain/PatchNote.h] and [src/domain/PatchNote.cpp]. *)

From S2P Require Import Prelude.
From S2P Require Import Errors.
From S2P Require Import Validation.

Definition MAX_PATCH_NOTE_TITLE_LENGTH : Z := 200.
Definition MAX_PATCH_NOTE_BODY_LENGTH : Z := 40000.

Record PatchNote := mkPatchNote {
  noteId : string;
  noteGameId : string;
  noteGameVersionId : string;
  noteTitle : string;
  bodyMarkdown : string;
  authorUserId : string;
  authorDisplayName : string;
  notePublishedAt : string;
  noteCreatedAt : string;
  noteUpdatedAt : string
}.

Definition published (note : PatchNote) : bool := negb (bool_decide (notePublishedAt note = ""%stdpp)).

Record NewPatchNote := mkNewNote {
  newNoteGameId : string;
  newNoteGameVersionId : string;
  newNoteTitle : string;
  newNoteBody : string;
  newNoteAuthorUserId : string;
  newNotePublish : bool
}.

Record PatchNoteUpdate := mkNoteUpdate {
  changeNoteTitle : option string;
  changeNoteBody : option string;
  changeNoteVersionId : option string;
  changeNotePublished : option bool
}.

Definition noteUpdateEmpty (changes : PatchNoteUpdate) : bool :=
  match changeNoteTitle changes, changeNoteBody changes, changeNoteVersionId changes,
        changeNotePublished changes with
  | None, None, None, None => true
  | _, _, _, _ => false
  end.

Definition validatePatchNoteTitle (title : string) : VoidResult :=
  let trimmed := trim title in
  if bool_decide (trimmed = ""%stdpp) then
    Failure (invalidInput "title must not be empty" rules.PATCH_NOTE_TITLE_REQUIRED [])
  else if MAX_PATCH_NOTE_TITLE_LENGTH <? size trimmed then
    Failure (invalidInput ("title must be at most " +:+ toDecimal MAX_PATCH_NOTE_TITLE_LENGTH
                           +:+ " characters")
               rules.PATCH_NOTE_TITLE_TOO_LONG [toDecimal MAX_PATCH_NOTE_TITLE_LENGTH])
  else Success tt.

Definition validatePatchNoteBody (body : string) : VoidResult :=
  if MAX_PATCH_NOTE_BODY_LENGTH <? size body then
    Failure (invalidInput ("bodyMarkdown must be at most " +:+ toDecimal MAX_PATCH_NOTE_BODY_LENGTH
                           +:+ " characters")
               rules.PATCH_NOTE_BODY_TOO_LONG [toDecimal MAX_PATCH_NOTE_BODY_LENGTH])
  else Success tt.
