(* ===== verification/ClientAddress.v ===== *)
(** Whose request is it: [src/common/ClientAddress.h] and
    [src/common/ClientAddress.cpp].  A rate limit is charged to the address this
    answers, so a caller must not be able to choose it. *)

From S2P Require Import Prelude.
From S2P Require Import Decimals.

(** ** Operations *)

Definition IPV4_OCTETS : nat := 4.
Definition IPV4_BITS : Z := 32.

Definition isBlank (c : ascii) : bool := (byte c =? 32) || (byte c =? 9).

Definition trimBlank (l : list ascii) : list ascii := dropWhileEnd isBlank (dropWhile isBlank l).

(** [std::from_chars] into an [int], followed by the test that all was consumed: an
    optional minus sign, at least one digit, and a value in range. *)
Definition parseNumber (l : list ascii) : option Z :=
  let '(negative, digits) :=
    match l with
    | "-"%char :: rest => (true, rest)
    | _ => (false, l)
    end in
  if bool_decide (digits = []) || negb (forallb isdigit digits) then None
  else
    let value := if negative then - decimalValue digits else decimalValue digits in
    if (- INT32_MAX - 1 <=? value) && (value <=? INT32_MAX) then Some value else None.

(** The octet loop: [last] is whether the next octet is the last one.  [packed] is
    an unsigned 32-bit integer. *)
Fixpoint octetLoop (remaining : nat) (packed : Z) (address : list ascii) : option Z :=
  match remaining with
  | O => Some packed
  | S remaining' =>
      let last := Nat.eqb remaining' 0 in
      let dot := findChar "." address in
      if negb (Bool.eqb last (match dot with None => true | Some _ => false end)) then None
      else
        let octet := match dot with None => address | Some i => take i address end in
        match parseNumber octet with
        | None => None
        | Some value =>
            if (value <? 0) || (255 <? value) then None
            else
              let packed := Z.lor (wrapUnsigned 32 (Z.shiftl packed 8)) value in
              let rest := match dot with None => address | Some i => drop (S i) address end in
              octetLoop remaining' packed rest
        end
  end.

Definition parseIpv4 (address : list ascii) : option Z := octetLoop IPV4_OCTETS 0 address.

(** [~0U] for 32, otherwise [~((1U << (32 - prefix)) - 1U)]. *)
Definition maskOf (prefix : Z) : Z :=
  if prefix =? IPV4_BITS then wrapUnsigned 32 (Z.lnot 0)
  else wrapUnsigned 32 (Z.lnot (wrapUnsigned 32 (wrapUnsigned 32 (Z.shiftl 1 (IPV4_BITS - prefix)) - 1))).

Definition matchesEntry (address entry : list ascii) : bool :=
  match findChar "/" entry with
  | None => bool_decide (address = entry)
  | Some slash =>
      match parseIpv4 (take slash entry), parseNumber (drop (S slash) entry), parseIpv4 address with
      | Some network, Some prefix, Some candidate =>
          if (prefix <? 0) || (IPV4_BITS <? prefix) then false
          else if prefix =? 0 then true
          else Z.land network (maskOf prefix) =? Z.land candidate (maskOf prefix)
      | _, _, _ => false
      end
  end.

Definition isTrustedProxy (address : list ascii) (trustedProxies : list string) : bool :=
  existsb (λ entry, matchesEntry address (trimBlank (chars entry))) trustedProxies.

(** [rfind(',', end - 1)] on the first [end] bytes. *)
Definition rfindComma (l : list ascii) : option nat :=
  (λ i, (length l - 1 - i)%nat) <$> findChar "," (reverse l).

(** The loop over the hops, right to left: [l] is the header up to [end].  The fuel
    is the number of bytes left; every turn drops at least one. *)
Fixpoint hopLoop (fuel : nat) (trustedProxies : list string) (l : list ascii)
    : option (list ascii) :=
  match fuel with
  | O => None
  | S fuel' =>
      if bool_decide (l = []) then None
      else
        let comma := rfindComma l in
        let start := match comma with None => 0%nat | Some i => S i end in
        let hop := trimBlank (drop start l) in
        if bool_decide (hop ≠ []) && negb (isTrustedProxy hop trustedProxies) then Some hop
        else match comma with
             | None => None
             | Some i => hopLoop fuel' trustedProxies (take i l)
             end
  end.

Definition resolveClientAddress (peer forwardedFor : string) (trustedProxies : list string) : string :=
  if bool_decide (trustedProxies = []) || bool_decide (forwardedFor = ""%stdpp)
     || negb (isTrustedProxy (chars peer) trustedProxies) then peer
  else
    match hopLoop (length (chars forwardedFor)) trustedProxies (chars forwardedFor) with
    | Some hop => text hop
    | None => peer
    end.

(** ** Specification *)

(** The hops of a header, left to right. *)
Definition hops (header : list ascii) : list (list ascii) := trimBlank <$> splitOn "," header.

(** A hop that can be a client: not blank and not one of our proxies. *)
Definition ClientHop (trustedProxies : list string) (hop : list ascii) : Prop :=
  hop ≠ [] ∧ isTrustedProxy hop trustedProxies = false.

#[export] Instance ClientHop_dec trustedProxies hop : Decision (ClientHop trustedProxies hop).
Proof. unfold ClientHop. apply _. Defined.

(** The dotted text of an address and its value. *)
Definition dotted (a b c d : Z) : list ascii :=
  joinOn "." (chars ∘ toDecimal <$> [a; b; c; d]).

Definition isOctet (z : Z) : Prop := 0 ≤ z ≤ 255.

Definition addressValue (a b c d : Z) : Z := ((a * 256 + b) * 256 + c) * 256 + d.

(** ** Lemmas *)

Lemma splitOn_app_gen sep k l : splitOn sep (k ++ sep :: l) = splitOn sep k ++ splitOn sep l.
Proof.
  induction k as [|x k IH]; cbn; [by rewrite ceqb_refl|].
  destruct (ceqb x sep); [by rewrite IH|]. rewrite IH.
  by destruct (splitOn sep k) as [|p ps] eqn:E; [apply splitOn_nonempty in E|].
Qed.

(** The last comma splits off the last hop. *)
Lemma rfindComma_spec l :
  match rfindComma l with
  | Some i => ∃ k r, l = k ++ ","%char :: r ∧ length k = i ∧ ","%char ∉ r
  | None => ","%char ∉ l
  end.
Proof.
  unfold rfindComma. destruct (findChar "," (reverse l)) as [i|] eqn:E; cbn.
  - apply findChar_Some in E as [E Hn]. apply (f_equal reverse) in E.
    rewrite reverse_involutive, reverse_app, reverse_cons, <- app_assoc in E. cbn in E.
    assert (length (take i (reverse l)) = i) as Hi.
    { rewrite length_take. enough (i < length (reverse l))%nat by lia.
      apply Nat.nle_gt. intros Hle. rewrite drop_ge, take_ge in E by lia.
      rewrite reverse_nil, reverse_involutive in E. apply (f_equal length) in E. cbn in E. lia. }
    eexists _, _. split; [exact E|]. split; [|by rewrite elem_of_reverse].
    rewrite E at 2. rewrite length_app. cbn [length]. rewrite !length_reverse, Hi. lia.
  - apply findChar_None in E. by rewrite elem_of_reverse in E.
Qed.

Lemma hopLoop_spec fuel trustedProxies l :
  (length l <= fuel)%nat →
  hopLoop fuel trustedProxies l = last (filter (ClientHop trustedProxies) (hops l)).
Proof.
  unfold hops. revert l; induction fuel as [|fuel IH]; intros l Hf.
  { by destruct l; [|cbn in Hf; lia]. }
  cbn [hopLoop]. case_bool_decide as Hl; [by subst|].
  pose proof (rfindComma_spec l) as Hc. destruct (rfindComma l) as [i|].
  - destruct Hc as (k & r & -> & <- & Hr).
    replace (drop (S (length k)) (k ++ ","%char :: r)) with r
      by (rewrite cons_middle, app_assoc, drop_app_length'; [done|rewrite length_app; cbn; lia]).
    rewrite take_app_length, splitOn_app_gen, (splitOn_no_sep _ r) by done.
    rewrite fmap_app, filter_app. cbn [fmap list_fmap]. rewrite filter_cons, filter_nil.
    rewrite length_app in Hf. cbn in Hf.
    destruct (_ && _) eqn:Et; unfold ClientHop at 2.
    + bool_to_prop. rewrite decide_True by done. by rewrite last_snoc.
    + rewrite decide_False.
      * rewrite app_nil_r. apply IH. lia.
      * intros [H1 H2]. by rewrite bool_decide_eq_true_2, H2 in Et.
  - rewrite (splitOn_no_sep _ l) by done. change (drop 0 l) with l. cbn [fmap list_fmap].
    rewrite filter_cons, filter_nil. destruct (_ && _) eqn:Et; unfold ClientHop.
    + bool_to_prop. by rewrite decide_True.
    + rewrite decide_False; [done|]. intros [H1 H2]. by rewrite bool_decide_eq_true_2, H2 in Et.
Qed.

(** *** Addresses and networks *)

Lemma parseNumber_toDecimal z : 0 ≤ z ≤ INT32_MAX → parseNumber (chars (toDecimal z)) = Some z.
Proof.
  intros Hz. pose proof (toDecimal_digits z ltac:(lia)) as Hd.
  destruct (toDecimal_spec z ltac:(lia)) as [(Hne & _) Hv].
  unfold parseNumber. destruct (chars (toDecimal z)) as [|c l] eqn:E; [done|].
  assert (c ≠ "-"%char) as Hc by (intros ->; cbn in Hd; discriminate).
  replace (match c with "-"%char => (true, l) | _ => (false, c :: l) end) with (false, c :: l)
    by (destruct c as [[] [] [] [] [] [] [] []]; done).
  rewrite bool_decide_eq_false_2, Hd by done. cbn [orb negb]. rewrite Hv.
  unfold INT32_MAX in *. rewrite (proj2 (Z.leb_le _ _)), (proj2 (Z.leb_le _ _)) by lia. done.
Qed.

Lemma toDecimal_no c z : 0 ≤ z → isdigit c = false → c ∉ chars (toDecimal z).
Proof.
  intros Hz Hc Hin%list_elem_of_In. pose proof (toDecimal_digits z Hz) as Hd.
  rewrite forallb_forall in Hd. apply Hd in Hin. congruence.
Qed.

Lemma lor_octet packed z :
  0 ≤ packed < 2 ^ 24 → isOctet z →
  Z.lor (wrapUnsigned 32 (Z.shiftl packed 8)) z = packed * 256 + z.
Proof.
  unfold isOctet, wrapUnsigned. intros Hp Hz.
  rewrite Z.mod_small by (rewrite Z.shiftl_mul_pow2; lia). by rewrite lor_disjoint by lia.
Qed.

(** One octet that is followed by another, and the last one. *)
Lemma octetLoop_step k packed z rest :
  isOctet z → 0 ≤ packed < 2 ^ 24 →
  octetLoop (S (S k)) packed (chars (toDecimal z) ++ "."%char :: rest) =
  octetLoop (S k) (packed * 256 + z) rest.
Proof.
  intros Hz Hp. pose proof Hz as [? ?]. cbn [octetLoop Nat.eqb].
  rewrite findChar_split by (by apply toDecimal_no). cbn [Bool.eqb negb].
  rewrite take_app_length, parseNumber_toDecimal by (unfold INT32_MAX; lia).
  rewrite (proj2 (Z.ltb_ge z 0)), (proj2 (Z.ltb_ge 255 z)) by lia. cbn [orb].
  rewrite lor_octet by done. f_equal.
  rewrite cons_middle, app_assoc, drop_app_length'; [done|]. rewrite length_app. cbn. lia.
Qed.

Lemma octetLoop_last packed z :
  isOctet z → 0 ≤ packed < 2 ^ 24 →
  octetLoop 1 packed (chars (toDecimal z)) = Some (packed * 256 + z).
Proof.
  intros Hz Hp. pose proof Hz as [? ?]. cbn [octetLoop Nat.eqb].
  rewrite (proj2 (findChar_None _ _)) by (by apply toDecimal_no). cbn [Bool.eqb negb].
  rewrite parseNumber_toDecimal by (unfold INT32_MAX; lia).
  rewrite (proj2 (Z.ltb_ge z 0)), (proj2 (Z.ltb_ge 255 z)) by lia. cbn [orb].
  by rewrite lor_octet.
Qed.

Lemma parseIpv4_dotted a b c d :
  isOctet a → isOctet b → isOctet c → isOctet d →
  parseIpv4 (dotted a b c d) = Some (addressValue a b c d).
Proof.
  intros Ha Hb Hc Hd. pose proof Ha as [? ?]. pose proof Hb as [? ?]. pose proof Hc as [? ?].
  unfold parseIpv4, IPV4_OCTETS, dotted, addressValue. cbn [fmap list_fmap joinOn compose].
  rewrite !octetLoop_step by (done || lia). rewrite octetLoop_last by (done || lia). done.
Qed.

(** The mask keeps the bits above the host part. *)
Lemma land_mask x p :
  0 < p ≤ 32 → 0 ≤ x < 2 ^ 32 →
  Z.land x (maskOf p) = Z.shiftl (Z.shiftr x (32 - p)) (32 - p).
Proof.
  intros Hp Hx. assert (maskOf p = Z.land (Z.lnot (Z.ones (32 - p))) (Z.ones 32)) as ->.
  { unfold maskOf, IPV4_BITS, wrapUnsigned. rewrite Z.land_ones by lia.
    destruct (Z.eqb_spec p 32) as [->|]; [done|].
    rewrite (Z.shiftl_1_l (32 - p)). unfold Z.ones. rewrite Z.shiftl_1_l.
    assert (0 < 2 ^ (32 - p) < 2 ^ 32) by (split; [lia|apply Z.pow_lt_mono_r; lia]).
    rewrite (Z.mod_small (2 ^ (32 - p))) by lia. rewrite (Z.mod_small (_ - 1)) by lia. by rewrite Z.sub_1_r. }
  rewrite (Z.land_comm (Z.lnot _)), Z.land_assoc, Z.land_ones, Z.mod_small by lia.
  rewrite <- Z.ldiff_land. by rewrite Z.ldiff_ones_r by lia.
Qed.

Lemma masks_agree x y p :
  0 < p ≤ 32 → 0 ≤ x < 2 ^ 32 → 0 ≤ y < 2 ^ 32 →
  Z.land x (maskOf p) = Z.land y (maskOf p) ↔ x / 2 ^ (32 - p) = y / 2 ^ (32 - p).
Proof.
  intros Hp Hx Hy. rewrite !land_mask by done. rewrite !Z.shiftl_mul_pow2, !Z.shiftr_div_pow2 by lia.
  split; [|by intros ->]. apply Z.mul_reg_r. apply Z.pow_nonzero; lia.
Qed.

(** ** Properties *)

(** An address belongs to a trusted network exactly when their numbers agree
    on the leading bits: for [a.b.c.d] against [e.f.g.h/p] the quotients by
    [2 ^ (32 - p)] are the same, for every prefix length from 0 to 32, the shift of a
    32-bit word by its own width included. *)
Theorem matchesEntry_network a b c d e f g h p :
  isOctet a → isOctet b → isOctet c → isOctet d →
  isOctet e → isOctet f → isOctet g → isOctet h → 0 ≤ p ≤ 32 →
  matchesEntry (dotted a b c d) (dotted e f g h ++ "/"%char :: chars (toDecimal p)) = true ↔
  addressValue a b c d / 2 ^ (32 - p) = addressValue e f g h / 2 ^ (32 - p).
Proof.
  intros Ha Hb Hc Hd He Hf Hg Hh Hp. unfold matchesEntry.
  assert ("/"%char ∉ dotted e f g h) as Hslash.
  { unfold dotted. cbn [fmap list_fmap joinOn compose]. pose proof (toDecimal_no "/").
    unfold isOctet in *. rewrite !not_elem_of_app, !not_elem_of_cons, !not_elem_of_app, !not_elem_of_cons, !not_elem_of_app, !not_elem_of_cons.
    split_and!; try done; (apply toDecimal_no; [lia|done]). }
  rewrite findChar_split, take_app_length by done.
  rewrite cons_middle, app_assoc, drop_app_length' by (rewrite length_app; cbn; lia).
  rewrite !parseIpv4_dotted, parseNumber_toDecimal by (done || unfold INT32_MAX; lia).
  unfold IPV4_BITS. rewrite (proj2 (Z.ltb_ge p 0)), (proj2 (Z.ltb_ge 32 p)) by lia. cbn [orb].
  assert (0 ≤ addressValue a b c d < 2 ^ 32) as Hx by (unfold addressValue, isOctet in *; lia).
  assert (0 ≤ addressValue e f g h < 2 ^ 32) as Hy by (unfold addressValue, isOctet in *; lia).
  destruct (Z.eqb_spec p 0) as [->|Hne].
  - change (32 - 0) with 32. rewrite !Z.div_small by lia. done.
  - rewrite Z.eqb_eq, <- masks_agree by lia. split; by intros ->.
Qed.

(** A caller cannot choose the address it is charged under.  From a peer that is
    not a trusted proxy the header is ignored; from a trusted one the answer is the
    rightmost hop that is not a proxy, so that whatever text the caller put in front of
    the hop our own proxies recorded, the answer is that hop; and the loop over the hops
    always ends with its answer. *)
Theorem resolveClientAddress_unspoofable peer forged client proxies trustedProxies :
  let header := text (forged ++ ","%char :: joinOn "," (client :: proxies)) in
  (isTrustedProxy (chars peer) trustedProxies = false →
     resolveClientAddress peer header trustedProxies = peer)
  ∧ (isTrustedProxy (chars peer) trustedProxies = true →
     Forall (λ hop, ","%char ∉ hop) (client :: proxies) →
     ClientHop trustedProxies (trimBlank client) →
     Forall (λ hop, ¬ ClientHop trustedProxies (trimBlank hop)) proxies →
     resolveClientAddress peer header trustedProxies = text (trimBlank client))
  ∧ (∀ anyHeader, hopLoop (length anyHeader) trustedProxies anyHeader =
       last (filter (ClientHop trustedProxies) (hops anyHeader))).
Proof.
  cbn zeta. unfold resolveClientAddress. split_and!.
  - intros ->. by rewrite orb_true_r.
  - intros Hpeer Hcommas Hclient Hproxies. rewrite Hpeer.
    rewrite bool_decide_eq_false_2 by (by intros ->).
    rewrite bool_decide_eq_false_2.
    2:{ intros H%(f_equal chars). rewrite chars_text in H. by apply app_nil in H as [_ ?]. }
    cbn [orb negb]. rewrite chars_text, hopLoop_spec by done. unfold hops.
    rewrite splitOn_app_gen, splitOn_joinOn, fmap_app, filter_app by done.
    cbn [fmap list_fmap]. rewrite filter_cons, decide_True by done.
    assert (filter (ClientHop trustedProxies) (trimBlank <$> proxies) = []) as E.
    { clear -Hproxies. induction Hproxies as [|q qs Hq _ IH]; [done|]. cbn [fmap list_fmap].
      by rewrite filter_cons, decide_False. }
    change (list_fmap _ _ trimBlank proxies) with (trimBlank <$> proxies). rewrite E.
    by rewrite last_snoc.
  - intros anyHeader. by apply hopLoop_spec.
Qed.

Lemma matchesEntry_network_witness :
  matchesEntry (dotted 192 168 7 9) (dotted 192 168 0 1 ++ "/"%char :: chars (toDecimal 16)) = true.
Proof. apply matchesEntry_network; [unfold isOctet; lia..|lia|vm_compute; reflexivity]. Defined.
