(* ===== verification/EnvInterpolation.v ===== *)
(** Environment placeholders in the configuration file:
    [src/common/EnvInterpolation.h] and [src/common/EnvInterpolation.cpp]. *)

From S2P Require Import Prelude.
From S2P Require Import Errors.

(** ** Operations *)

(** [EnvLookup]: reading the process environment is the caller's. *)
Definition EnvLookup : Type := string → option string.

(** The text of one placeholder, [expression], resolved: the variable, else the
    default after [:-], else an error. *)
Definition expandExpression (lookup : EnvLookup) (expression : list ascii) : Result (list ascii) :=
  let separator := findSub (chars ":-") expression in
  let name := text (match separator with None => expression | Some i => take i expression end) in
  if bool_decide (name = ""%stdpp) then
    failure InvalidInput "empty variable name in ${...} placeholder"
  else
    match lookup name, separator with
    | Some value, _ => Success (chars value)
    | None, Some i => Success (drop (i + 2) expression)
    | None, None => failure InvalidInput ("required environment variable is not set: " +:+ name)
    end.

(** The scanning loop: [input] is what is left from the cursor, [output] what has
    been appended.  Every turn with a placeholder consumes at least three bytes, so
    the length of the input is fuel enough. *)
Fixpoint interpolateLoop (fuel : nat) (lookup : EnvLookup) (output input : list ascii)
    : option (Result (list ascii)) :=
  match fuel with
  | O => if bool_decide (input = []) then Some (Success output) else None
  | S fuel' =>
      if bool_decide (input = []) then Some (Success output)
      else
        match findSub (chars "${") input with
        | None => Some (Success (output ++ input))
        | Some start =>
            let output := output ++ take start input in
            let afterOpen := drop (start + 2) input in
            match findChar "}" afterOpen with
            | None => Some (failure InvalidInput "unterminated ${...} placeholder in configuration")
            | Some len =>
                match expandExpression lookup (take len afterOpen) with
                | Failure e => Some (Failure e)
                | Success value => interpolateLoop fuel' lookup (output ++ value) (drop (S len) afterOpen)
                end
            end
        end
  end.

Definition interpolateEnv (input : string) (lookup : EnvLookup) : option (Result (list ascii)) :=
  interpolateLoop (length (chars input)) lookup [] (chars input).

(** ** Specification: templates *)

(** A piece of a template: plain text, or a placeholder with an optional default. *)
Inductive Piece :=
| Plain (l : list ascii)
| Placeholder (name : list ascii) (fallback : option (list ascii)).

Definition writePiece (p : Piece) : list ascii :=
  match p with
  | Plain l => l
  | Placeholder name None => chars "${" ++ name ++ chars "}"
  | Placeholder name (Some d) => chars "${" ++ name ++ chars ":-" ++ d ++ chars "}"
  end.

Definition writeTemplate (ps : list Piece) : list ascii := concat (map writePiece ps).

(** Plain text holds no dollar sign, a name neither brace nor colon, a default no
    closing brace. *)
Definition WellFormed (p : Piece) : Prop :=
  match p with
  | Plain l => "$"%char ∉ l
  | Placeholder name fallback =>
      name ≠ [] ∧ ":"%char ∉ name ∧ "}"%char ∉ name
      ∧ match fallback with None => True | Some d => "}"%char ∉ d end
  end.

(** What a template means, piece by piece; substituted values are not read again. *)
Fixpoint evalTemplate (lookup : EnvLookup) (ps : list Piece) : Result (list ascii) :=
  match ps with
  | [] => Success []
  | Plain l :: rest => let? out := evalTemplate lookup rest in Success (l ++ out)
  | Placeholder name fallback :: rest =>
      match lookup (text name), fallback with
      | Some value, _ => let? out := evalTemplate lookup rest in Success (chars value ++ out)
      | None, Some d => let? out := evalTemplate lookup rest in Success (d ++ out)
      | None, None =>
          failure InvalidInput ("required environment variable is not set: " +:+ text name)
      end
  end.

(** ** Lemmas *)

Definition expressionOf (name : list ascii) (fallback : option (list ascii)) : list ascii :=
  name ++ match fallback with None => [] | Some d => chars ":-" ++ d end.

Lemma expandExpression_spec lookup name fallback :
  name ≠ [] → ":"%char ∉ name →
  expandExpression lookup (expressionOf name fallback) =
  match lookup (text name), fallback with
  | Some value, _ => Success (chars value)
  | None, Some d => Success d
  | None, None => failure InvalidInput ("required environment variable is not set: " +:+ text name)
  end.
Proof.
  intros Hn Hc. unfold expandExpression, expressionOf.
  assert (text name ≠ ""%stdpp) as Hne by (intros E; apply Hn, text_inj, E).
  destruct fallback as [d|].
  - change (chars ":-") with (":"%char :: ["-"%char]). rewrite findSub_split by done.
    rewrite take_app_length. rewrite bool_decide_eq_false_2 by done.
    destruct (lookup (text name)); [done|]. f_equal.
    rewrite app_assoc, drop_app_length' by (rewrite length_app; done). done.
  - rewrite app_nil_r. change (chars ":-") with (":"%char :: ["-"%char]).
    rewrite findSub_none_head by done. by rewrite bool_decide_eq_false_2.
Qed.

Lemma writePiece_placeholder name fallback :
  writePiece (Placeholder name fallback) = chars "${" ++ expressionOf name fallback ++ chars "}".
Proof. unfold expressionOf. destruct fallback; cbn; by rewrite <- ?app_assoc, ?app_nil_r. Qed.

Lemma expressionOf_no_brace name fallback :
  WellFormed (Placeholder name fallback) → "}"%char ∉ expressionOf name fallback.
Proof.
  intros (_&_&H1&H2). unfold expressionOf. rewrite not_elem_of_app. split; [done|].
  destruct fallback; [|apply not_elem_of_nil]. rewrite not_elem_of_app. split; [|done].
  change (chars ":-") with [":"%char; "-"%char]. rewrite !not_elem_of_cons. split_and!; try done.
  apply not_elem_of_nil.
Qed.

(** Leading plain text is copied to the output. *)
Lemma interpolateLoop_plain fuel lookup output k ps :
  "$"%char ∉ k → Forall WellFormed ps → (length (k ++ writeTemplate ps) <= fuel)%nat →
  interpolateLoop fuel lookup output (k ++ writeTemplate ps) =
  Some (let? out := evalTemplate lookup ps in Success (output ++ k ++ out)).
Proof.
  intros Hk HF. revert fuel output k Hk.
  induction HF as [|p ps Hp HF IH]; intros fuel output k Hk Hf.
  { cbn in *. rewrite app_nil_r in *. destruct fuel.
    - destruct k; [|cbn in Hf; lia]. cbn. by rewrite app_nil_r.
    - cbn [interpolateLoop]. case_bool_decide; [subst; by rewrite app_nil_r|].
      change (chars "${") with ("$"%char :: ["{"%char]). by rewrite findSub_none_head. }
  destruct p as [l|name fallback].
  { change (writeTemplate (Plain l :: ps)) with (l ++ writeTemplate ps) in *.
    rewrite app_assoc in *. rewrite IH; [|by rewrite not_elem_of_app|done].
    cbn [evalTemplate]. destruct (evalTemplate lookup ps); [|done]. by rewrite <- !app_assoc. }
  change (writeTemplate (Placeholder name fallback :: ps)) with
    (writePiece (Placeholder name fallback) ++ writeTemplate ps) in *.
  rewrite writePiece_placeholder in *. pose proof (expressionOf_no_brace _ _ Hp) as Hb.
  destruct Hp as (Hn & Hc & _ & _). rewrite !length_app in Hf. cbn [length] in Hf.
  destruct fuel as [|fuel]; [cbn in Hf; lia|]. cbn [interpolateLoop].
  rewrite bool_decide_eq_false_2 by (by destruct k).
  change (chars "${") with ("$"%char :: ["{"%char]). rewrite <- !app_assoc.
  rewrite findSub_split, take_app_length by done.
  rewrite (app_assoc k), drop_app_length' by (rewrite length_app; done).
  change (chars "}" ++ writeTemplate ps) with ("}"%char :: writeTemplate ps).
  rewrite findChar_split, take_app_length by done. rewrite expandExpression_spec by done.
  rewrite cons_middle, app_assoc, drop_app_length' by (rewrite length_app; cbn; lia).
  assert (∀ value, interpolateLoop fuel lookup ((output ++ k) ++ value) (writeTemplate ps) =
    Some (let? out := evalTemplate lookup ps in Success ((output ++ k) ++ value ++ out))) as HE.
  { intros value. pose proof (IH fuel ((output ++ k) ++ value) []) as HI. cbn [app] in HI.
    rewrite HI; [|apply not_elem_of_nil|cbn in Hf; lia].
    destruct (evalTemplate lookup ps); [|done]. by rewrite <- !app_assoc. }
  cbn [evalTemplate]. destruct (lookup (text name)); [|destruct fallback; [|done]];
    rewrite HE; destruct (evalTemplate lookup ps); try done; by rewrite <- !app_assoc.
Qed.

(** ** Properties *)

(** Interpolating the text of a template gives the template's meaning: plain
    text is copied, each placeholder is replaced by the variable, else by its default,
    else the first unset variable is reported; a substituted value is never expanded
    again; and the scan always ends within its fuel, on any input at all. *)
Theorem interpolateEnv_correct lookup ps :
  Forall WellFormed ps →
  interpolateEnv (text (writeTemplate ps)) lookup = Some (evalTemplate lookup ps)
  ∧ (∀ input, interpolateEnv input lookup ≠ None).
Proof.
  intros HF. unfold interpolateEnv. split.
  - rewrite chars_text. rewrite (interpolateLoop_plain _ _ [] [] ps); [|apply not_elem_of_nil|done|done].
    cbn [app]. by destruct (evalTemplate lookup ps).
  - intros input. assert (∀ fuel out l, (length l <= fuel)%nat → interpolateLoop fuel lookup out l ≠ None) as HT;
      [|by apply HT]. clear. induction fuel as [|fuel IH]; intros out l Hl; cbn [interpolateLoop].
    + by destruct l; [|cbn in Hl; lia].
    + case_bool_decide as Hne; [done|]. destruct (findSub _ l) as [start|]; [|done].
      destruct (findChar _ _) as [len|]; [|done]. destruct (expandExpression _ _); [|done].
      apply IH. rewrite !length_drop. destruct l; [done|]. cbn in *. lia.
Qed.

Definition samplePieces : list Piece :=
  [Plain (chars "db="); Placeholder (chars "HOST") (Some (chars "localhost")); Plain (chars ":");
   Placeholder (chars "PORT") None].

Definition sampleEnv : EnvLookup :=
  λ name, if bool_decide (name = "PORT"%stdpp) then Some "5432"%stdpp else None.

Lemma interpolateEnv_correct_witness :
  text (writeTemplate samplePieces) = "db=${HOST:-localhost}:${PORT}"%stdpp
  ∧ evalTemplate sampleEnv samplePieces = Success (chars "db=localhost:5432")
  ∧ interpolateEnv (text (writeTemplate samplePieces)) sampleEnv
    = Some (evalTemplate sampleEnv samplePieces).
Proof.
  split; [reflexivity|]. split; [reflexivity|].
  apply (interpolateEnv_correct sampleEnv samplePieces).
  repeat constructor; try (apply (bool_decide_unpack _); vm_compute; exact I).
Defined.
