(* ===== verification/Migrations.v ===== *)
(** Schema migrations: [src/migrations/MigrationRunner.h] and
    [src/migrations/MigrationRunner.cpp].

    What has been applied is immutable history; the runner extends it in file order,
    one transaction per file.  The database engine (what a script does to the schema,
    and when a statement fails) is a parameter. *)

From S2P Require Import Prelude.
From S2P Require Import Errors.
From S2P Require Import Manifest.
From S2P Require Import Delta.
From S2P Require Import Hash.

(** ** Data *)

Record MigrationFile := mkMigration {
  migrationVersion : string;
  migrationName : string;
  sql : string;
  checksum : string
}.

Record AppliedMigration := mkApplied {
  appliedVersion : string;
  appliedChecksum : string
}.

Record MigrationPlan := mkPlan {
  pending : list MigrationFile;
  alreadyApplied : nat
}.

(** An entry of the migrations directory, as [std::filesystem] reports it;
    [entryContent] is [None] when the file cannot be opened. *)
Record DirectoryEntry := mkEntryOf {
  isRegularFile : bool;
  entryStem : string;
  entryExtension : string;
  entryContent : option string
}.

(** ** Operations *)

Definition isAllDigits (l : list ascii) : bool := bool_decide (l ≠ []) && forallb isdigit l.

(** [parseFileName]: the two output parameters when it answers [true]. *)
Definition parseFileName (stem : string) : option (string * string) :=
  match findChar "_" (chars stem) with
  | None => None
  | Some separator =>
      let version := take separator (chars stem) in
      let name := drop (S separator) (chars stem) in
      if isAllDigits version && bool_decide (name ≠ []) then Some (text version, text name) else None
  end.

(** [lhs < rhs] on strings. *)
Definition textLt (s t : string) : bool := negb (textLe t s).

Section Discovery.
Context `{Evp}.

Fixpoint readMigrations (entries : list DirectoryEntry) : Result (list MigrationFile) :=
  match entries with
  | [] => Success []
  | entry :: rest =>
      if negb (isRegularFile entry) || negb (bool_decide (entryExtension entry = ".sql"%stdpp))
      then readMigrations rest
      else
        match parseFileName (entryStem entry) with
        | None =>
            failure InvalidInput ("migration file does not follow the NNNN_name.sql pattern: "
                                  +:+ entryStem entry +:+ entryExtension entry)
        | Some (version, name) =>
            match entryContent entry with
            | None => failure Internal ("cannot read migration: " +:+ entryStem entry)
            | Some content =>
                let? files := readMigrations rest in
                Success (mkMigration version name content (sha256Hex content) :: files)
            end
        end
  end.

Definition sortMigrations (files : list MigrationFile) : list MigrationFile :=
  merge_sort (keyLe migrationVersion) files.

(** The loop over neighbours. *)
Fixpoint firstDuplicate (files : list MigrationFile) : option string :=
  match files with
  | a :: ((b :: _) as rest) =>
      if bool_decide (migrationVersion a = migrationVersion b) then Some (migrationVersion b)
      else firstDuplicate rest
  | _ => None
  end.

Definition discoverMigrations (directory : option (list DirectoryEntry))
    : Result (list MigrationFile) :=
  match directory with
  | None => failure NotFound "migrations directory not found"
  | Some entries =>
      let? files := readMigrations entries in
      let sorted := sortMigrations files in
      match firstDuplicate sorted with
      | Some version => failure Conflict ("duplicate migration version: " +:+ version)
      | None => Success sorted
      end
  end.
End Discovery.

Definition appliedIndex (applied : list AppliedMigration) : gmap string string :=
  foldl (λ index row, emplace (appliedVersion row) (appliedChecksum row) index) ∅ applied.

Definition maxText (s t : string) : string := if textLt s t then t else s.

Definition highestOf (applied : list AppliedMigration) : string :=
  foldl (λ highest row, maxText highest (appliedVersion row)) ""%stdpp applied.

(** The loop of [planMigrations]: the pending files and the count of matched rows. *)
Fixpoint planLoop (index : gmap string string) (highest : string)
    (discovered : list MigrationFile) : Result (list MigrationFile * nat) :=
  match discovered with
  | [] => Success ([], 0%nat)
  | migration :: rest =>
      match index !! migrationVersion migration with
      | None =>
          if negb (bool_decide (highest = ""%stdpp)) && textLt (migrationVersion migration) highest then
            failure Conflict ("migration " +:+ migrationVersion migration
                              +:+ " was added behind already applied migration " +:+ highest
                              +:+ "; renumber it to run after the current head")
          else
            let? planned := planLoop index highest rest in
            Success (migration :: planned.1, planned.2)
      | Some found =>
          if negb (bool_decide (found = checksum migration)) then
            failure Conflict ("migration " +:+ migrationVersion migration +:+ " ("
                              +:+ migrationName migration
                              +:+ ") has changed since it was applied; migrations are immutable once "
                              +:+ "merged — add a new migration instead")
          else
            let? planned := planLoop index highest rest in
            Success (planned.1, S planned.2)
      end
  end.

Definition planMigrations (discovered : list MigrationFile) (applied : list AppliedMigration)
    : Result MigrationPlan :=
  let? planned := planLoop (appliedIndex applied) (highestOf applied) discovered in
  let '(pendingFiles, matched) := planned in
  if negb (Nat.eqb matched (length applied)) then
    failure Conflict "the database reports migrations that no longer exist on disk; refusing to run"
  else Success (mkPlan pendingFiles matched).

(** ** Running *)

Section Runner.
Context `{Evp} {Schema : Type}.

(** The database: what its scripts have built, and [schema_migrations]. *)
Record Database := mkDatabase {
  schemaState : Schema;
  history : list AppliedMigration
}.

(** The engine on the other side of the connection.  A script either transforms the
    schema or fails with a message; the other members are the messages of the
    statements that can fail for reasons of their own. *)
Record Engine := mkEngine {
  connectError : option string;
  historyTableError : option string;
  loadError : option string;
  beginError : MigrationFile → option string;
  runScript : string → Schema → Schema + string;
  duplicateKeyError : string → string;
  commitError : MigrationFile → option string
}.

Record Summary := mkSummary { appliedCount : nat; alreadyCount : nat }.

(** [INSERT INTO schema_migrations]: [version] is the primary key. *)
Definition insertHistory (engine : Engine) (migration : MigrationFile) (db : Database)
    : Database + string :=
  if bool_decide (migrationVersion migration ∈ appliedVersion <$> history db)
  then inr (duplicateKeyError engine (migrationVersion migration))
  else inl (mkDatabase (schemaState db)
              (history db ++ [mkApplied (migrationVersion migration) (checksum migration)])).

(** The script and its bookkeeping row, inside the transaction. *)
Definition applyInside (engine : Engine) (migration : MigrationFile) (db : Database)
    : Database + string :=
  match runScript engine (sql migration) (schemaState db) with
  | inr message => inr message
  | inl schema' => insertHistory engine migration (mkDatabase schema' (history db))
  end.

(** One turn of the loop: a failed script, a failed insert or a failed commit rolls
    back to the state before [BEGIN]. *)
Definition applyMigration (engine : Engine) (migration : MigrationFile) (db : Database)
    : VoidResult * Database :=
  match beginError engine migration with
  | Some message => (failure DependencyFailure message, db)
  | None =>
      match applyInside engine migration db with
      | inr message =>
          (failure DependencyFailure
             ("migration " +:+ migrationVersion migration +:+ "_" +:+ migrationName migration
              +:+ " failed and was rolled back: " +:+ message), db)
      | inl db' =>
          match commitError engine migration with
          | Some message => (failure DependencyFailure message, db)
          | None => (Success tt, db')
          end
      end
  end.

Fixpoint applyLoop (engine : Engine) (summary : Summary) (files : list MigrationFile) (db : Database)
    : Result Summary * Database :=
  match files with
  | [] => (Success summary, db)
  | migration :: rest =>
      match applyMigration engine migration db with
      | (Failure e, db') => (Failure e, db')
      | (Success _, db') =>
          applyLoop engine (mkSummary (S (appliedCount summary)) (alreadyCount summary)) rest db'
      end
  end.

Definition run (engine : Engine) (directory : option (list DirectoryEntry)) (db : Database)
    : Result Summary * Database :=
  match connectError engine with
  | Some message => (failure DependencyFailure ("cannot connect to the database: " +:+ message), db)
  | None =>
      match historyTableError engine with
      | Some message =>
          (failure DependencyFailure ("cannot create schema_migrations: " +:+ message), db)
      | None =>
          match discoverMigrations directory with
          | Failure e => (Failure e, db)
          | Success discovered =>
              match loadError engine with
              | Some message =>
                  (failure DependencyFailure ("cannot read schema_migrations: " +:+ message), db)
              | None =>
                  match planMigrations discovered (history db) with
                  | Failure e => (Failure e, db)
                  | Success plan => applyLoop engine (mkSummary 0 (alreadyApplied plan)) (pending plan) db
                  end
              end
          end
      end
  end.
End Runner.

Arguments Database : clear implicits.
Arguments Engine : clear implicits.

(** ** Specification *)

Definition versions (files : list MigrationFile) : list string := migrationVersion <$> files.

Definition appliedVersions (rows : list AppliedMigration) : list string := appliedVersion <$> rows.

Definition rowOf (migration : MigrationFile) : AppliedMigration :=
  mkApplied (migrationVersion migration) (checksum migration).

(** What is left to run: the files whose version has no row. *)
Definition unapplied (discovered : list MigrationFile) (applied : list AppliedMigration)
    : list MigrationFile :=
  filter (λ m, migrationVersion m ∉ appliedVersions applied) discovered.

(** History is intact and only grows at its end. *)
Definition HistoryIntact (discovered : list MigrationFile) (applied : list AppliedMigration) : Prop :=
  (∀ row, row ∈ applied → ∃ m, m ∈ discovered ∧ rowOf m = row)
  ∧ (∀ m row, m ∈ unapplied discovered applied → row ∈ applied →
       textLe (appliedVersion row) (migrationVersion m) = true).

(** The files applied one after the other, each with its row. *)
Inductive Applies {Schema} (engine : Engine Schema)
    : list MigrationFile → Database Schema → Database Schema → Prop :=
| applies_nil db : Applies engine [] db db
| applies_cons m ms db db1 db2 :
    applyInside engine m db = inl db1 → Applies engine ms db1 db2 → Applies engine (m :: ms) db db2.

(** ** Lemmas *)

Lemma textLt_false s t : textLt s t = false ↔ textLe t s = true.
Proof. unfold textLt. by rewrite negb_false_iff. Qed.

Lemma textLe_refl s : textLe s s = true.
Proof. unfold textLe. by destruct (bytesLe_total (chars s) (chars s)). Qed.

Lemma textLe_trans s t u : textLe s t = true → textLe t u = true → textLe s u = true.
Proof. apply bytesLe_trans. Qed.

Lemma maxText_spec s t : textLe s (maxText s t) = true ∧ textLe t (maxText s t) = true
                         ∧ (maxText s t = s ∨ maxText s t = t).
Proof.
  unfold maxText. destruct (textLt s t) eqn:E.
  - split_and!; [|apply textLe_refl|by right]. unfold textLt in E. bool_to_prop.
    destruct (bytesLe_total (chars s) (chars t)) as [|H]; [done|]. unfold textLe in *. congruence.
  - apply textLt_false in E. split_and!; [apply textLe_refl|done|by left].
Qed.

Lemma highestOf_spec applied :
  (∀ row, row ∈ applied → textLe (appliedVersion row) (highestOf applied) = true)
  ∧ (highestOf applied = ""%stdpp ∨ highestOf applied ∈ appliedVersions applied).
Proof.
  unfold highestOf, appliedVersions.
  assert (∀ h, textLe h (foldl (λ highest row, maxText highest (appliedVersion row)) h applied) = true
    ∧ (∀ row, row ∈ applied → textLe (appliedVersion row)
         (foldl (λ highest row, maxText highest (appliedVersion row)) h applied) = true)
    ∧ (foldl (λ highest row, maxText highest (appliedVersion row)) h applied = h
       ∨ foldl (λ highest row, maxText highest (appliedVersion row)) h applied
         ∈ appliedVersion <$> applied)) as HF; [|by destruct (HF ""%stdpp) as (_&?&?)].
  induction applied as [|row rest IH]; intros h; cbn [foldl fmap list_fmap].
  { split_and!; [apply textLe_refl|by intros row ?%elem_of_nil|by left]. }
  destruct (maxText_spec h (appliedVersion row)) as (H1&H2&H3).
  destruct (IH (maxText h (appliedVersion row))) as (IH1&IH2&IH3). split_and!.
  - by eapply textLe_trans.
  - intros r [->|Hr]%elem_of_cons; [by eapply textLe_trans|by apply IH2].
  - rewrite elem_of_cons. destruct IH3 as [->|?]; [destruct H3 as [->| ->]|]; tauto.
Qed.

Lemma appliedIndex_spec applied v :
  NoDup (appliedVersions applied) →
  match appliedIndex applied !! v with
  | Some c => mkApplied v c ∈ applied
  | None => v ∉ appliedVersions applied
  end.
Proof.
  intros HN. unfold appliedIndex. rewrite foldl_emplace, lookup_empty.
  destruct (head _) as [row|] eqn:E; cbn.
  - apply head_filter_Some in E as [Hr <-]. by destruct row.
  - intros (row & -> & Hr)%list_elem_of_fmap. by apply (head_filter_None _ _ row) in E.
Qed.

(** *** Planning *)

Section Planning.
Context (applied : list AppliedMigration).
Hypothesis HN : NoDup (appliedVersions applied).

(** What the loop demands of one file. *)
Definition fits (m : MigrationFile) : Prop :=
  (migrationVersion m ∈ appliedVersions applied → rowOf m ∈ applied)
  ∧ (migrationVersion m ∉ appliedVersions applied →
       ∀ row, row ∈ applied → textLe (appliedVersion row) (migrationVersion m) = true).

Lemma late_enough m :
  negb (bool_decide (highestOf applied = ""%stdpp)) && textLt (migrationVersion m) (highestOf applied) = false
  ↔ ∀ row, row ∈ applied → textLe (appliedVersion row) (migrationVersion m) = true.
Proof.
  destruct (highestOf_spec applied) as [Hub Hmem]. split.
  - intros H row Hr. eapply textLe_trans; [by apply Hub|].
    apply andb_false_iff in H as [H|H]; [|by apply textLt_false].
    apply negb_false_iff, bool_decide_eq_true in H. by rewrite H.
  - intros H. apply andb_false_iff. destruct Hmem as [->|Hin]; [by left|right].
    apply textLt_false. apply list_elem_of_fmap in Hin as (row & -> & Hr). by apply H.
Qed.

Lemma planLoop_spec discovered planned :
  planLoop (appliedIndex applied) (highestOf applied) discovered = Success planned ↔
  Forall fits discovered
  ∧ planned = (unapplied discovered applied,
               length (filter (λ m, migrationVersion m ∈ appliedVersions applied) discovered)).
Proof.
  revert planned. induction discovered as [|m rest IH]; intros planned; cbn [planLoop].
  { cbn. split; [intros [= <-]; by split|by intros [_ ->]]. }
  rewrite Forall_cons. unfold unapplied, fits at 1. rewrite !filter_cons.
  pose proof (appliedIndex_spec applied (migrationVersion m) HN) as Hidx.
  assert (∀ e, planLoop (appliedIndex applied) (highestOf applied) rest = Failure e → ¬ Forall fits rest) as Hfail.
  { intros e E HF. pose proof (proj2 (IH _) (conj HF eq_refl)). congruence. }
  destruct (appliedIndex applied !! migrationVersion m) as [c|].
  - assert (migrationVersion m ∈ appliedVersions applied) as Hin
      by (by apply (list_elem_of_fmap_2' appliedVersion _ _ _ Hidx)).
    rewrite (decide_True _ _ Hin), decide_False by (by intros ?).
    case_bool_decide as Hc; cbn [negb].
    + destruct (planLoop _ _ rest) as [pl|e] eqn:E.
      2:{ split; [done|]. intros [[_ HF] _]. by destruct (Hfail e eq_refl). }
      destruct (proj1 (IH pl) eq_refl) as [HF ->]. cbn [fst snd length]. split.
      * intros [= <-]. split_and!; try done. intros _. unfold rowOf. by rewrite <- Hc.
      * by intros [_ ->].
    + split; [done|]. intros [[[Hrow _] _] _]. destruct Hc. specialize (Hrow Hin).
      assert (mkApplied (migrationVersion m) c = rowOf m) as [= ->]; [|done].
      by apply (NoDup_fmap_inj appliedVersion applied).
  - rewrite (decide_False _ _ Hidx), decide_True by done.
    destruct (negb _ && _) eqn:Hlate.
    + split; [done|]. intros [[[_ Hrow] _] _]. specialize (Hrow Hidx).
      apply late_enough in Hrow. congruence.
    + rewrite late_enough in Hlate. destruct (planLoop _ _ rest) as [pl|e] eqn:E.
      2:{ split; [done|]. intros [[_ HF] _]. by destruct (Hfail e eq_refl). }
      destruct (proj1 (IH pl) eq_refl) as [HF ->]. cbn [fst snd]. split.
      * intros [= <-]. split_and!; try done.
      * by intros [_ ->].
Qed.

(** The matched files are all the rows exactly when every row has its file. *)
Lemma matched_all discovered :
  NoDup (versions discovered) → Forall fits discovered →
  length (filter (λ m, migrationVersion m ∈ appliedVersions applied) discovered) = length applied ↔
  ∀ row, row ∈ applied → ∃ m, m ∈ discovered ∧ rowOf m = row.
Proof.
  intros HD HF. set (k := filter _ discovered).
  assert (∀ m, m ∈ k ↔ m ∈ discovered ∧ rowOf m ∈ applied) as Hk.
  { intros m. unfold k. rewrite list_elem_of_filter. rewrite Forall_forall in HF. split.
    - intros [Hv Hm]. split; [done|]. by apply (HF m Hm).
    - intros [Hm Hr]. split; [|done]. by apply (list_elem_of_fmap_2' appliedVersion _ _ _ Hr). }
  assert (NoDup (rowOf <$> k)) as HNk.
  { apply NoDup_fmap_1 with appliedVersion. rewrite <- list_fmap_compose.
    eapply sublist_NoDup; [exact HD|]. apply fmap_sublist, sublist_filter. }
  assert (rowOf <$> k ⊆+ applied) as Hsub.
  { apply NoDup_submseteq; [done|]. intros row (m & -> & Hm)%list_elem_of_fmap. by apply Hk. }
  rewrite <- (length_fmap rowOf k). split.
  - intros Hlen row Hr. apply submseteq_length_Permutation in Hsub; [|lia].
    rewrite <- Hsub in Hr. apply list_elem_of_fmap in Hr as (m & -> & [Hm _]%Hk). eauto.
  - intros Hall. apply Nat.le_antisymm; [by apply submseteq_length|].
    apply submseteq_length, NoDup_submseteq; [by eapply NoDup_fmap_1|].
    intros row Hr. destruct (Hall row Hr) as (m & Hm & <-).
    by apply list_elem_of_fmap_2, Hk.
Qed.

Lemma planMigrations_spec discovered plan :
  NoDup (versions discovered) →
  planMigrations discovered applied = Success plan ↔
  HistoryIntact discovered applied
  ∧ plan = mkPlan (unapplied discovered applied) (length applied).
Proof.
  intros HD. unfold planMigrations, HistoryIntact.
  assert (Forall fits discovered ∧ (∀ row, row ∈ applied → ∃ m, m ∈ discovered ∧ rowOf m = row) ↔
    (∀ row, row ∈ applied → ∃ m, m ∈ discovered ∧ rowOf m = row)
    ∧ (∀ m row, m ∈ unapplied discovered applied → row ∈ applied →
         textLe (appliedVersion row) (migrationVersion m) = true)) as Hfits.
  { rewrite Forall_forall. unfold fits, unapplied. setoid_rewrite list_elem_of_filter. split.
    - intros [HF Hrow]. split; [done|]. intros m row [Hv Hm] Hr. by apply (HF m Hm).
    - intros [Hrow HF]. split; [|done]. intros m Hm. split; [|intros Hv row Hr; by apply HF].
      intros (row & Ev & Hr)%list_elem_of_fmap. destruct (Hrow row Hr) as (m' & Hm' & <-).
      by rewrite (NoDup_fmap_inj migrationVersion discovered m m'). }
  destruct (planLoop _ _ discovered) as [pl|e] eqn:E.
  - apply planLoop_spec in E as [HF ->]. cbn beta iota.
    pose proof (matched_all discovered HD HF) as Hm.
    destruct (Nat.eqb_spec (length (filter (λ m, migrationVersion m ∈ appliedVersions applied) discovered)) (length applied)) as [El|El]; cbn [negb].
    + rewrite <- Hfits. rewrite El. split.
      * intros [= <-]. split; [|done]. split; [done|]. by apply Hm.
      * by intros [_ ->].
    + split; [done|]. intros [[Hrow _] _]. destruct El. by apply Hm.
  - split; [done|]. intros [HI ->]. apply Hfits in HI as [HF _].
    pose proof (proj2 (planLoop_spec discovered _) (conj HF eq_refl)) as E'. congruence.
Qed.
End Planning.

(** *** Running *)

Lemma firstDuplicate_NoDup files :
  StronglySorted (keyLe migrationVersion) files → firstDuplicate files = None →
  NoDup (versions files).
Proof.
  induction 1 as [|a rest Hs IH Ha]; [by constructor|].
  destruct rest as [|b rest]; [intros _; apply NoDup_singleton|]. cbn [firstDuplicate].
  case_bool_decide as Hab; [done|]. intros E. specialize (IH E).
  change (versions (a :: b :: rest)) with (migrationVersion a :: versions (b :: rest)).
  apply NoDup_cons. split; [|done]. intros Hin. destruct Hab.
  apply Forall_cons in Ha as [Hab _]. apply StronglySorted_inv in Hs as [_ Hb].
  change (versions (b :: rest)) with (migrationVersion b :: versions rest) in Hin.
  apply elem_of_cons in Hin as [?|(c & Ec & Hc)%list_elem_of_fmap]; [done|].
  rewrite Forall_forall in Hb. specialize (Hb c Hc). unfold keyLe in Hab, Hb.
  apply chars_inj. apply bytesLe_antisymm; [done|]. by rewrite Ec.
Qed.

Lemma discoverMigrations_sorted `{Evp} directory files :
  discoverMigrations directory = Success files →
  StronglySorted (keyLe migrationVersion) files ∧ NoDup (versions files).
Proof.
  unfold discoverMigrations. destruct directory as [entries|]; [|done].
  destruct (readMigrations entries) as [read|]; [|done].
  assert (StronglySorted (keyLe migrationVersion) (sortMigrations read))
    by (apply StronglySorted_merge_sort; apply _).
  destruct (firstDuplicate (sortMigrations read)) eqn:E; [done|]. intros [= <-].
  split; [done|]. by apply firstDuplicate_NoDup.
Qed.

Lemma Applies_history {Schema} (engine : Engine Schema) k db db' :
  Applies engine k db db' →
  history db' = history db ++ (rowOf <$> k)
  ∧ (NoDup (appliedVersions (history db)) → NoDup (appliedVersions (history db'))).
Proof.
  induction 1 as [db|m ms db db1 db2 Happly _ [IHh IHn]]; [by rewrite app_nil_r|].
  unfold applyInside, insertHistory in Happly. destruct (runScript _ _ _) as [s|]; [|done].
  case_bool_decide as Hin; [done|]. injection Happly as <-. cbn in *. split.
  - rewrite IHh. by rewrite <- app_assoc.
  - intros HN. apply IHn. unfold appliedVersions in *. rewrite fmap_app. apply NoDup_app.
    split_and!; [done| |apply NoDup_singleton].
    intros v Hv ->%list_elem_of_singleton. done.
Qed.

Lemma applyLoop_spec {Schema} (engine : Engine Schema) summary files db r db' :
  applyLoop engine summary files db = (r, db') →
  ∃ k rest, files = k ++ rest ∧ Applies engine k db db'
    ∧ match r with
      | Success s => rest = [] ∧ s = mkSummary (appliedCount summary + length files) (alreadyCount summary)
      | Failure _ => rest ≠ []
      end.
Proof.
  revert summary db. induction files as [|m files IH]; intros summary db; cbn [applyLoop].
  { intros [= <- <-]. exists [], []. split_and!; [done|constructor|done|].
    destruct summary. cbn. f_equal. lia. }
  unfold applyMigration. destruct (beginError engine m).
  { intros [= <- <-]. exists [], (m :: files). split_and!; [done|constructor|done]. }
  destruct (applyInside engine m db) as [db1|] eqn:E.
  2:{ intros [= <- <-]. exists [], (m :: files). split_and!; [done|constructor|done]. }
  destruct (commitError engine m).
  { intros [= <- <-]. exists [], (m :: files). split_and!; [done|constructor|done]. }
  intros (k & rest & -> & Hk & Hr)%IH. exists (m :: k), rest.
  split_and!; [done|by econstructor|]. destruct r; [|done]. destruct Hr as [-> ->].
  split; [done|]. cbn. f_equal. lia.
Qed.

(** Planning again after a prefix of the plan has been applied leaves its rest. *)
Lemma plan_after discovered applied k rest :
  StronglySorted (keyLe migrationVersion) discovered → NoDup (versions discovered) →
  NoDup (appliedVersions (applied ++ (rowOf <$> k))) →
  HistoryIntact discovered applied → unapplied discovered applied = k ++ rest →
  HistoryIntact discovered (applied ++ (rowOf <$> k))
  ∧ unapplied discovered (applied ++ (rowOf <$> k)) = rest.
Proof.
  intros HS HD HN [Hrows Hlate] Hun.
  assert (∀ m, m ∈ k ++ rest ↔ m ∈ discovered ∧ migrationVersion m ∉ appliedVersions applied) as Hin.
  { intros m. rewrite <- Hun. unfold unapplied. rewrite list_elem_of_filter. tauto. }
  assert (StronglySorted (keyLe migrationVersion) (k ++ rest)) as HSkr.
  { rewrite <- Hun. unfold unapplied. clear -HS. induction HS as [|a l HS IH Ha]; [constructor|].
    rewrite filter_cons. case_decide; [|done]. constructor; [done|].
    apply Forall_forall. intros x [_ Hx]%list_elem_of_filter. rewrite Forall_forall in Ha. by apply Ha. }
  assert (NoDup (versions (k ++ rest))) as HNkr.
  { rewrite <- Hun. eapply sublist_NoDup; [exact HD|]. apply fmap_sublist, sublist_filter. }
  assert (∀ m, migrationVersion m ∉ appliedVersions (applied ++ (rowOf <$> k)) ↔
    migrationVersion m ∉ appliedVersions applied ∧ migrationVersion m ∉ versions k) as Hnot.
  { intros m. unfold appliedVersions. rewrite fmap_app, not_elem_of_app, <- list_fmap_compose. done. }
  assert (unapplied discovered (applied ++ (rowOf <$> k)) = filter (λ m, migrationVersion m ∉ versions k) (k ++ rest)) as Hun'.
  { rewrite <- Hun. unfold unapplied. rewrite list_filter_filter. apply list_filter_iff.
    intros m. rewrite Hnot. tauto. }
  assert (filter (λ m, migrationVersion m ∉ versions k) (k ++ rest) = rest) as Hrest.
  { rewrite filter_app, (filter_all _ rest).
    - rewrite (filter_none _ k); [done|].
      intros m Hm Hv. apply Hv. by apply list_elem_of_fmap_2.
    - intros m Hm Hv. unfold versions in HNkr. rewrite fmap_app in HNkr.
      apply NoDup_app in HNkr as (_&Hdis&_). apply (Hdis _ Hv). by apply list_elem_of_fmap_2. }
  rewrite Hun', Hrest. split; [|done]. split.
  - intros row [Hr|Hr]%elem_of_app; [by apply Hrows|].
    apply list_elem_of_fmap in Hr as (m & -> & Hm). exists m. split; [|done].
    apply Hin. apply elem_of_app. by left.
  - rewrite Hun', Hrest. intros m row Hm [Hr|Hr]%elem_of_app.
    + apply Hlate; [|done]. rewrite Hun. apply elem_of_app. by right.
    + apply list_elem_of_fmap in Hr as (m' & -> & Hm'). cbn.
      clear -HSkr Hm Hm'. induction k as [|a k IH]; [by apply elem_of_nil in Hm'|].
      apply StronglySorted_inv in HSkr as [HS Ha]. apply elem_of_cons in Hm' as [->|Hm'].
      * rewrite Forall_forall in Ha. apply Ha, elem_of_app. by right.
      * by apply IH.
Qed.

(** ** Properties *)

(** A plan exists exactly when history is intact: every applied row still has
    its file with the same checksum, and no file that is not applied sorts before one
    that is; it then consists of the unapplied files, in order. *)
Theorem planMigrations_correct discovered applied plan :
  NoDup (versions discovered) → NoDup (appliedVersions applied) →
  planMigrations discovered applied = Success plan ↔
  HistoryIntact discovered applied
  ∧ plan = mkPlan (unapplied discovered applied) (length applied).
Proof. intros HD HN. by apply planMigrations_spec. Qed.

(** C40: whatever fails along the way, a run leaves a database reached by applying
    whole files only, a prefix of the plan in order, each with its history row; planning
    again then gives exactly the files that are left, and after a successful run a second
    one finds nothing to do and changes nothing. *)
Theorem run_resumable `{Evp} {Schema} (engine : Engine Schema) directory db r db' :
  NoDup (appliedVersions (history db)) → run engine directory db = (r, db') →
  (db' = db ∧ ∃ e, r = Failure e)
  ∨ ∃ files k rest,
      discoverMigrations directory = Success files
      ∧ planMigrations files (history db) = Success (mkPlan (k ++ rest) (length (history db)))
      ∧ Applies engine k db db'
      ∧ history db' = history db ++ (rowOf <$> k) ∧ NoDup (appliedVersions (history db'))
      ∧ planMigrations files (history db') = Success (mkPlan rest (length (history db')))
      ∧ (∀ s, r = Success s →
           rest = [] ∧ s = mkSummary (length k) (length (history db))
           ∧ run engine directory db' = (Success (mkSummary 0 (length (history db'))), db')).
Proof.
  intros HN. unfold run.
  destruct (connectError engine); [intros [= <- <-]; by left; eauto|].
  destruct (historyTableError engine); [intros [= <- <-]; by left; eauto|].
  destruct (discoverMigrations directory) as [files|] eqn:Ed; [|intros [= <- <-]; by left; eauto].
  destruct (loadError engine); [intros [= <- <-]; by left; eauto|].
  destruct (planMigrations files (history db)) as [plan|] eqn:Ep; [|intros [= <- <-]; by left; eauto].
  destruct (discoverMigrations_sorted _ _ Ed) as [HS HD].
  apply planMigrations_spec in Ep as [HI ->]; [|done..]. cbn [pending alreadyApplied].
  intros (k & rest & Hkr & Hk & Hr)%applyLoop_spec. right. exists files, k, rest.
  destruct (Applies_history _ _ _ _ Hk) as [Hh HN']. specialize (HN' HN).
  pose proof HN' as HN2. rewrite Hh in HN2. destruct (plan_after files _ k rest HS HD HN2 HI Hkr) as [HI' Hun'].
  rewrite <- Hh in HI', Hun'.
  assert (planMigrations files (history db') = Success (mkPlan rest (length (history db')))) as Hplan'.
  { apply planMigrations_spec; [done..|]. by rewrite Hun'. }
  split_and!; try done.
  - apply planMigrations_spec; [done..|]. by rewrite Hkr.
  - intros s ->. destruct Hr as [-> ->]. rewrite app_nil_r in Hkr. rewrite Hkr. cbn.
    split_and!; [done..|]. by rewrite Hplan'.
Qed.

(** ** Concrete runs *)

Definition sampleDirectory : list DirectoryEntry :=
  [mkEntryOf true "0002_games" ".sql" (Some "create games"%stdpp);
   mkEntryOf true "README" ".md" None;
   mkEntryOf true "0001_users" ".sql" (Some "create users"%stdpp)].

(** An engine whose schema is the list of scripts it has run, and which refuses the
    second one. *)
Definition sampleEngine : Engine (list string) :=
  mkEngine None None None (λ _, None)
    (λ script schema, if bool_decide (script = "create games"%stdpp) then inr "syntax error"%stdpp
                      else inl (schema ++ [script]))
    (λ _, "duplicate key"%stdpp) (λ _, None).

Lemma planMigrations_correct_witness :
  let files := [mkMigration "0001" "users" "" "aa"; mkMigration "0002" "games" "" "bb"] in
  planMigrations files [mkApplied "0001" "aa"]
  = Success (mkPlan [mkMigration "0002" "games" "" "bb"] 1).
Proof.
  intros files. apply planMigrations_correct.
  - apply (bool_decide_unpack _). vm_compute. exact I.
  - apply (bool_decide_unpack _). vm_compute. exact I.
  - split; [split|reflexivity].
    + intros row ->%list_elem_of_singleton. exists (mkMigration "0001" "users" "" "aa").
      split; [by left|done].
    + intros m row Hm ->%list_elem_of_singleton. cbn in Hm.
      apply list_elem_of_singleton in Hm as ->. reflexivity.
Defined.

(** The first file is applied, the second fails and leaves no trace. *)
Lemma run_resumable_witness :
  let outcome := run (H := sampleEvp) sampleEngine (Some sampleDirectory) (mkDatabase [] []) in
  (outcome.2 = mkDatabase [] [] ∧ ∃ e, outcome.1 = Failure e)
  ∨ ∃ files k rest,
      discoverMigrations (H := sampleEvp) (Some sampleDirectory) = Success files
      ∧ planMigrations files [] = Success (mkPlan (k ++ rest) 0)
      ∧ Applies sampleEngine k (mkDatabase [] []) outcome.2
      ∧ history outcome.2 = rowOf <$> k.
Proof.
  intros outcome.
  destruct (run_resumable (H := sampleEvp) sampleEngine (Some sampleDirectory) (mkDatabase [] [])
    outcome.1 outcome.2) as [Hl|(files & k & rest & H1 & H2 & H3 & H4 & _)].
  - constructor.
  - apply surjective_pairing.
  - left. exact Hl.
  - right. by exists files, k, rest.
Defined.

(** Versions are ordered as texts, so a file numbered 10 runs before one numbered 9. *)
Lemma versions_sort_as_text :
  parseFileName "9_nine" = Some ("9"%stdpp, "nine"%stdpp)
  ∧ parseFileName "10_ten" = Some ("10"%stdpp, "ten"%stdpp)
  ∧ textLt "10" "9" = true.
Proof. split_and!; reflexivity. Qed.
