(* ===== verification/BlobStore.v ===== *)
(** Content-addressed storage: [src/storage/BlobStore.h], [src/storage/BlobStore.cpp]
    and [sha256File] of [src/common/Hash.cpp].

    The file system is a map from paths to contents; what may go wrong in a call
    to it is described by [Faults], which every operation takes. *)

From S2P Require Import Prelude.
From S2P Require Import Errors.
From S2P Require Import Manifest.
From S2P Require Import Hash.

(** ** The file system *)

(** The regular files under the storage root, by relative path.  Directories are
    created on demand and never removed, so they are not kept. *)
Notation Files := (gmap string (list ascii)) (only parsing).

(** The operations of one call that fail.  [writeStops] is how many bytes reach the
    file before a write fails. *)
Record Faults := mkFaults {
  mkdirFails : bool;
  createFails : bool;
  openFails : bool;
  seekFails : bool;
  writeStops : option nat;
  readFails : bool;
  renameFails : bool;
  removeFails : bool
}.

Definition noFaults : Faults := mkFaults false false false false None false false false.

(** Writing [data] at an offset; a gap past the end of the file reads as zero bytes. *)
Definition writeBytes (content : list ascii) (offset : nat) (data : list ascii) : list ascii :=
  match data with
  | [] => content
  | _ =>
      take offset (content ++ replicate (offset - length content) "000"%char)
      ++ data ++ drop (offset + length data) content
  end.

(** ** Operations *)

Definition STAGING_DIRECTORY : string := "staging".

Definition storageKeyFor (sha256 : string) : string :=
  if negb (isSha256Hex sha256) then ""
  else substr sha256 0 2 +:+ "/" +:+ substr sha256 2 2 +:+ "/" +:+ sha256.

(** [root_ / key], or no path for an invalid hash. *)
Definition pathFor (sha256 : string) : option string :=
  let key := storageKeyFor sha256 in
  if bool_decide (key = ""%stdpp) then None else Some key.

Definition contains (files : Files) (sha256 : string) : bool :=
  match pathFor sha256 with
  | None => false
  | Some path => if files !! path then true else false
  end.

Definition stagingPathFor (sessionId : string) : string :=
  STAGING_DIRECTORY +:+ "/" +:+ sessionId +:+ ".part".

Definition ensureDirectory (faults : Faults) : VoidResult :=
  if mkdirFails faults then failure DependencyFailure "cannot create the storage directory"
  else Success tt.

Definition writeAt (faults : Faults) (staging : string) (offset : Z) (data : list ascii)
    (files : Files) : VoidResult * gmap string (list ascii) :=
  if offset <? 0 then (failure InvalidInput "offset must not be negative", files)
  else
    match ensureDirectory faults with
    | Failure e => (Failure e, files)
    | Success _ =>
        let prepared : Result (gmap string (list ascii)) :=
          match files !! staging with
          | Some _ => Success files
          | None =>
              if negb (offset =? 0) then
                failure Conflict "this upload has no data yet; resume from offset 0"
              else if createFails faults then
                failure DependencyFailure "cannot create the staging file"
              else Success (<[staging := []]> files)
          end in
        match prepared with
        | Failure e => (Failure e, files)
        | Success files =>
            if openFails faults then (failure DependencyFailure "cannot open the staging file", files)
            else if seekFails faults then
              (failure DependencyFailure "cannot seek to the resume offset", files)
            else
              let content := default [] (files !! staging) in
              match writeStops faults with
              | Some n =>
                  (failure DependencyFailure "cannot write the uploaded bytes",
                   <[staging := writeBytes content (Z.to_nat offset) (take n data)]> files)
              | None =>
                  (Success tt, <[staging := writeBytes content (Z.to_nat offset) data]> files)
              end
        end
    end.

Definition sizeOf (files : Files) (path : string) : Z :=
  match files !! path with
  | None => 0
  | Some content => Z.of_nat (length content)
  end.

(** The error code of [remove] is dropped. *)
Definition discard (faults : Faults) (staging : string) (files : Files) : gmap string (list ascii) :=
  if removeFails faults then files else delete staging files.

Section Commit.
Context `{Evp}.

Definition sha256File (faults : Faults) (files : Files) (path : string) : Result string :=
  match files !! path with
  | None => failure NotFound ("cannot open file for hashing: " +:+ path)
  | Some content =>
      if openFails faults then failure NotFound ("cannot open file for hashing: " +:+ path)
      else if negb digestContext then failure Internal "failed to initialise SHA-256 context"
      else if readFails faults then failure Internal ("read error while hashing " +:+ path)
      else Success (text (toHex (sha256 content)))
  end.

Definition commit (faults : Faults) (staging hash : string) (files : Files)
    : VoidResult * gmap string (list ascii) :=
  match pathFor hash with
  | None => (failure InvalidInput "not a valid content address", files)
  | Some target =>
      match sha256File faults files staging with
      | Failure e => (Failure e, discard faults staging files)
      | Success actual =>
          if negb (bool_decide (actual = hash)) then
            (failure InvalidInput "the uploaded bytes do not hash to the declared sha256",
             discard faults staging files)
          else
            match ensureDirectory faults with
            | Failure e => (Failure e, discard faults staging files)
            | Success _ =>
                if files !! target then (Success tt, discard faults staging files)
                else if renameFails faults then
                  (failure DependencyFailure "cannot move the blob into storage",
                   discard faults staging files)
                else
                  (Success tt,
                   match files !! staging with
                   | Some content => <[target := content]> (delete staging files)
                   | None => files
                   end)
            end
      end
  end.
End Commit.

(** ** Specification *)

(** The store never holds bytes under an address they do not hash to. *)
Definition StoreSound `{Evp} (files : Files) : Prop :=
  ∀ hash path content,
    pathFor hash = Some path → files !! path = Some content → text (toHex (sha256 content)) = hash.

(** ** Lemmas *)

Lemma isSha256Hex_spec h :
  isSha256Hex h = true ↔ length (chars h) = 64%nat ∧ forallb isLowercaseHexDigit (chars h) = true.
Proof.
  unfold isSha256Hex, size, SHA256_HEX_LENGTH. rewrite andb_true_iff, Z.eqb_eq. split; intros [? ?]; (split; [lia|done]).
Qed.

Lemma pathFor_Some h p :
  pathFor h = Some p ↔
  isSha256Hex h = true ∧ p = substr h 0 2 +:+ "/" +:+ substr h 2 2 +:+ "/" +:+ h.
Proof.
  unfold pathFor, storageKeyFor. destruct (isSha256Hex h); cbn [negb].
  - rewrite bool_decide_eq_false_2.
    + split; [by intros [= <-]|by intros [_ ->]].
    + intros E%(f_equal chars). rewrite !chars_app in E. by apply app_nil in E as [_ E].
  - split; [done|by intros [? _]].
Qed.

Lemma key_chars h :
  isSha256Hex h = true →
  ∃ a b c d l, chars h = a :: b :: c :: d :: l
    ∧ chars (storageKeyFor h) = a :: b :: "/"%char :: c :: d :: "/"%char :: chars h
    ∧ forallb isLowercaseHexDigit [a; b; c; d] = true ∧ forallb isLowercaseHexDigit l = true
    ∧ length l = 60%nat.
Proof.
  intros Hh. unfold storageKeyFor. rewrite Hh. cbn [negb].
  apply isSha256Hex_spec in Hh as [Hl Hd]. unfold substr.
  rewrite !chars_app, !chars_text. destruct (chars h) as [|a [|b [|c [|d l]]]]; try discriminate.
  cbn [forallb] in Hd. bool_to_prop. exists a, b, c, d, l. cbn in *. split_and!; try done; [|lia].
  by repeat (apply andb_true_iff; split).
Qed.

(** Hex digits are neither separators nor dots. *)
Lemma hex_not c x : isLowercaseHexDigit x = true → isLowercaseHexDigit c = false → x ≠ c.
Proof. congruence. Qed.

Lemma pathFor_inj h k p : pathFor h = Some p → pathFor k = Some p → h = k.
Proof.
  intros [Hh ->]%pathFor_Some [Hk E]%pathFor_Some.
  destruct (key_chars h Hh) as (a&b&c&d&l&E1&E2&_). destruct (key_chars k Hk) as (a'&b'&c'&d'&l'&E1'&E2'&_).
  unfold storageKeyFor in E2, E2'. rewrite Hh in E2. rewrite Hk in E2'. cbn [negb] in *.
  apply (f_equal chars) in E. rewrite E2, E2' in E. apply chars_inj. congruence.
Qed.

(** No blob lives in the staging area. *)
Lemma pathFor_not_staging h p s : pathFor h = Some p → p ≠ stagingPathFor s.
Proof.
  intros [Hh ->]%pathFor_Some E. destruct (key_chars h Hh) as (a&b&c&d&l&E1&E2&_).
  unfold storageKeyFor in E2. rewrite Hh in E2. cbn [negb] in E2.
  apply (f_equal chars) in E. rewrite E2 in E. unfold stagingPathFor in E.
  rewrite !chars_app in E. cbn in E. by simplify_eq.
Qed.

Lemma sha256File_Success `{Evp} faults files path actual :
  sha256File faults files path = Success actual →
  ∃ content, files !! path = Some content ∧ actual = text (toHex (sha256 content)).
Proof. unfold sha256File. repeat case_match; try done. intros [= <-]. eauto. Qed.

(** Only the staging file changes in [writeAt]. *)
Lemma writeAt_other faults staging offset data files p :
  p ≠ staging → (writeAt faults staging offset data files).2 !! p = files !! p.
Proof.
  intros Hp. unfold writeAt.
  repeat (case_match; simplify_eq/=; rewrite ?lookup_insert_ne by done; try done).
Qed.

Lemma StoreSound_staging `{Evp} files files' s :
  StoreSound files → (∀ p, p ≠ stagingPathFor s → files' !! p = files !! p) → StoreSound files'.
Proof.
  intros HS Hp h p content Hpath. rewrite Hp by (by eapply pathFor_not_staging). by apply HS.
Qed.

Lemma discard_other faults s files p : p ≠ s → discard faults s files !! p = files !! p.
Proof. intros. unfold discard. destruct (removeFails faults); [done|]. by apply lookup_delete_ne. Qed.

Lemma discard_gone faults s files : removeFails faults = false → discard faults s files !! s = None.
Proof. unfold discard. intros ->. apply lookup_delete_eq. Qed.

(** A blob is found, with its bytes. *)
Definition blobAt (files : Files) (hash : string) : option (list ascii) :=
  path ← pathFor hash; files !! path.

Lemma commit_spec `{Evp} faults s h files r files' :
  commit faults (stagingPathFor s) h files = (r, files') →
  (r = Success tt ∧ ∃ path content,
     pathFor h = Some path ∧ files !! stagingPathFor s = Some content
     ∧ text (toHex (sha256 content)) = h
     ∧ files' = match files !! path with
                | Some _ => discard faults (stagingPathFor s) files
                | None => <[path := content]> (delete (stagingPathFor s) files)
                end)
  ∨ ((∃ e, r = Failure e) ∧ (files' = files ∧ pathFor h = None ∨ files' = discard faults (stagingPathFor s) files)).
Proof.
  unfold commit. destruct (pathFor h) as [path|]; [|intros [= <- <-]; by right; eauto].
  destruct (sha256File faults files (stagingPathFor s)) as [actual|] eqn:E;
    [|intros [= <- <-]; right; eauto].
  apply sha256File_Success in E as (content & Ec & ->).
  case_bool_decide as Hh; cbn [negb]; [|intros [= <- <-]; right; unfold failure; eauto].
  unfold ensureDirectory. destruct (mkdirFails faults); [intros [= <- <-]; right; unfold failure; eauto|].
  rewrite Ec. destruct (files !! path) as [old|] eqn:Et.
  - intros [= <- <-]. left. split; [done|]. exists path, content. rewrite Et. by split_and!.
  - destruct (renameFails faults); [intros [= <- <-]; right; unfold failure; eauto|].
    intros [= <- <-]. left. split; [done|]. exists path, content. rewrite Et. by split_and!.
Qed.

(** One call of the upload path, whatever fails in it. *)
Inductive storeStep `{Evp} (files : Files) : gmap string (list ascii) → Prop :=
| step_write faults s offset data :
    storeStep files (writeAt faults (stagingPathFor s) offset data files).2
| step_commit faults s h : storeStep files (commit faults (stagingPathFor s) h files).2
| step_discard faults s : storeStep files (discard faults (stagingPathFor s) files).

Lemma storeStep_sound `{Evp} files files' :
  StoreSound files → storeStep files files' → StoreSound files'.
Proof.
  intros HS [faults s offset data|faults s h|faults s].
  - eapply StoreSound_staging; [done|]. intros p Hp. by apply writeAt_other.
  - destruct (commit faults (stagingPathFor s) h files) as [r files1] eqn:E. cbn.
    apply commit_spec in E as [(_ & path & content & Hp & Hs & Hh & ->)|(_ & [[-> _]| ->])]; [|done|].
    + destruct (files !! path).
      * eapply StoreSound_staging; [done|]. intros p' Hp'. by apply discard_other.
      * intros k q c Hk. destruct (decide (q = path)) as [->|Hq].
        -- rewrite lookup_insert_eq. intros [= <-]. rewrite (pathFor_inj k h path) by done. done.
        -- rewrite lookup_insert_ne by done. intros [_ ?]%lookup_delete_Some. by apply (HS k q).
    + eapply StoreSound_staging; [done|]. intros p' Hp'. by apply discard_other.
  - eapply StoreSound_staging; [done|]. intros p' Hp'. by apply discard_other.
Qed.

(** ** Properties *)

(** In every state the store can reach, by writes at any offset, commits under
    any claimed address and discards, each of them failing anywhere or not at all, a
    file found at the path of a content address hashes to that address. *)
Theorem store_sound `{Evp} files :
  reachable storeStep ∅ files → StoreSound files.
Proof.
  apply reachable_invariant; [intros a b; apply storeStep_sound|].
  intros h p c _. by rewrite lookup_empty.
Qed.

(** [commit] publishes exactly what it verified: when it succeeds the blob is
    in the store, and if it was not there before it has the staged bytes, which hash to
    the address; when it fails no blob appears; in both cases no blob is lost or
    changed, and for a well-formed address nothing is left in staging unless it cannot
    be removed. *)
Theorem commit_correct `{Evp} faults s h files r files' :
  commit faults (stagingPathFor s) h files = (r, files') →
  (r = Success tt → blobAt files' h ≠ None)
  ∧ (∀ content, r = Success tt → blobAt files h = None → blobAt files' h = Some content →
       files !! stagingPathFor s = Some content ∧ text (toHex (sha256 content)) = h)
  ∧ (∀ k, blobAt files k ≠ None → blobAt files' k = blobAt files k)
  ∧ (r ≠ Success tt → ∀ k, blobAt files' k = blobAt files k)
  ∧ (isSha256Hex h = true → removeFails faults = false → files' !! stagingPathFor s = None).
Proof.
  intros E.
  assert (∀ k p, pathFor k = Some p → discard faults (stagingPathFor s) files !! p = files !! p) as Hdel.
  { intros k p Hk. apply discard_other. by eapply pathFor_not_staging. }
  assert (∀ k, blobAt (discard faults (stagingPathFor s) files) k = blobAt files k) as Hblob.
  { intros k. unfold blobAt. destruct (pathFor k) eqn:Ek; [|done]. cbn. by eapply Hdel. }
  apply commit_spec in E as [(-> & path & content & Hp & Hs & Hh & ->)|((e & ->) & Hfiles)].
  - destruct (files !! path) as [old|] eqn:Et.
    + assert (blobAt files h = Some old) as Eb by (unfold blobAt; rewrite Hp; done).
      split_and!.
      * intros _. by rewrite Hblob, Eb.
      * intros c _ Hn. by rewrite Eb in Hn.
      * intros k _. apply Hblob.
      * by intros [].
      * intros _. apply discard_gone.
    + split_and!.
      * intros _. unfold blobAt. rewrite Hp. cbn. by rewrite lookup_insert_eq.
      * intros c _ _. unfold blobAt. rewrite Hp. cbn. rewrite lookup_insert_eq. by intros [= <-].
      * intros k Hk. unfold blobAt in *.
        destruct (pathFor k) as [q|] eqn:Ek; [|done]. cbn in *.
        rewrite lookup_insert_ne by congruence. apply lookup_delete_ne. intros E.
        by apply (pathFor_not_staging k q s).
      * by intros [].
      * intros _ _. rewrite lookup_insert_ne by (by eapply pathFor_not_staging). apply lookup_delete_eq.
  - split_and!; try done.
    + intros k _. destruct Hfiles as [[-> _]| ->]; [done|apply Hblob].
    + intros _ k. destruct Hfiles as [[-> _]| ->]; [done|apply Hblob].
    + intros Hh. destruct Hfiles as [[_ Hn]| ->]; [|apply discard_gone].
      destruct (pathFor h) eqn:Ep; [done|].
      assert (pathFor h = Some (substr h 0 2 +:+ "/" +:+ substr h 2 2 +:+ "/" +:+ h))
        by (by apply pathFor_Some). congruence.
Qed.

(** Chunks written one after the other, each at the size of what is there,
    make the file the concatenation of the chunks, so that resuming at the file's size
    loses and repeats nothing. *)
Theorem writeAt_appends faults s chunks files :
  mkdirFails faults = false → createFails faults = false → openFails faults = false →
  seekFails faults = false → writeStops faults = None →
  files !! stagingPathFor s = None → chunks ≠ [] →
  let step acc chunk := (writeAt faults (stagingPathFor s) (sizeOf acc (stagingPathFor s)) chunk acc).2 in
  foldl step files chunks = <[stagingPathFor s := concat chunks]> files.
Proof.
  intros F1 F2 F3 F4 F5 Hnone Hne. cbn zeta.
  assert (∀ content data, writeBytes content (length content) data = content ++ data) as Hw.
  { intros content [|a data]; [by rewrite app_nil_r|]. unfold writeBytes.
    rewrite Nat.sub_diag. cbn [replicate]. rewrite app_nil_r, firstn_all, drop_ge by lia.
    by rewrite app_nil_r. }
  assert (∀ acc content chunk, acc !! stagingPathFor s = Some content →
    (writeAt faults (stagingPathFor s) (sizeOf acc (stagingPathFor s)) chunk acc).2 =
    <[stagingPathFor s := content ++ chunk]> acc) as Hsome.
  { intros acc content chunk E. unfold writeAt, sizeOf, ensureDirectory. rewrite E, F1, F3, F4, F5.
    rewrite (proj2 (Z.ltb_ge _ _)) by lia. cbn [snd]. rewrite E. cbn [default from_option id].
    by rewrite Nat2Z.id, Hw. }
  assert (∀ chunks acc content, acc !! stagingPathFor s = Some content →
    foldl (λ acc chunk, (writeAt faults (stagingPathFor s) (sizeOf acc (stagingPathFor s)) chunk acc).2) acc chunks
    = <[stagingPathFor s := content ++ concat chunks]> acc) as Hfold.
  { clear chunks Hne. induction chunks as [|c chunks IH]; intros acc content E; cbn [foldl concat].
    - rewrite app_nil_r. by rewrite insert_id.
    - rewrite (Hsome acc content c E). rewrite (IH _ (content ++ c)) by apply lookup_insert_eq.
      by rewrite insert_insert_eq, <- app_assoc. }
  destruct chunks as [|c chunks]; [done|]. cbn [foldl concat].
  assert ((writeAt faults (stagingPathFor s) (sizeOf files (stagingPathFor s)) c files).2 =
    <[stagingPathFor s := c]> files) as ->.
  { unfold writeAt, sizeOf, ensureDirectory. rewrite Hnone, F1, F2, F3, F4, F5. cbn [Z.ltb Z.eqb negb Z.compare snd].
    rewrite lookup_insert_eq. cbn [default from_option id]. rewrite insert_insert_eq.
    change (Z.to_nat 0) with (length (@nil ascii)). by rewrite Hw. }
  rewrite (Hfold chunks _ c) by apply lookup_insert_eq. by rewrite insert_insert_eq.
Qed.

(** ** The theorems at a concrete upload *)

Definition sampleHash : string := sha256Hex (H := sampleEvp) "hello world".

Definition sampleStaged : gmap string (list ascii) :=
  (writeAt noFaults (stagingPathFor "s1") 0 (chars "hello world") ∅).2.

Definition sampleCommit : VoidResult * gmap string (list ascii) :=
  commit (H := sampleEvp) noFaults (stagingPathFor "s1") sampleHash sampleStaged.

Lemma store_sound_witness : StoreSound (H := sampleEvp) sampleCommit.2.
Proof.
  apply (store_sound (H := sampleEvp)). eapply reachable_step.
  - eapply reachable_step; [apply reachable_refl|apply step_write].
  - apply step_commit.
Defined.

Lemma commit_correct_witness :
  sampleCommit.1 = Success tt ∧ blobAt sampleCommit.2 sampleHash ≠ None
  ∧ sampleCommit.2 !! stagingPathFor "s1" = None.
Proof.
  assert (sampleCommit.1 = Success tt) as Hr by (vm_compute; reflexivity).
  split; [exact Hr|].
  split; apply (commit_correct (H := sampleEvp) noFaults "s1" sampleHash sampleStaged
    sampleCommit.1 sampleCommit.2); [apply surjective_pairing|exact Hr|apply surjective_pairing|..];
    vm_compute; reflexivity.
Defined.

Lemma writeAt_appends_witness :
  let step acc chunk := (writeAt noFaults (stagingPathFor "s1") (sizeOf acc (stagingPathFor "s1")) chunk acc).2 in
  foldl step ∅ [chars "hello "; chars "world"] = <[stagingPathFor "s1" := chars "hello world"]> ∅.
Proof.
  apply (writeAt_appends noFaults "s1" [chars "hello "; chars "world"] ∅); (reflexivity || discriminate).
Defined.
