(* ===== verification/Signer.v ===== *)
(** Signed download links: [src/storage/DownloadUrlSigner.h] and
    [src/storage/DownloadUrlSigner.cpp].  The file server recomputes the token from the
    path of the request, so what is signed must be the path it will see, and the
    text of a digest must not lose any of it. *)

From S2P Require Import Prelude.

(** [EVP_md5]: no digest when the context cannot be set up. *)
Class Md5 := { md5 : list ascii → option (list ascii) }.

Record SignedUrlSettings := mkSettings {
  publicBaseUrl : string;
  secret : string;
  ttlSeconds : Z
}.

(** ** Operations *)

Definition MD5_DIGEST_LENGTH : Z := 16.

Definition ALPHABET : list ascii :=
  chars "ABCDEFGHIJKLMNOPQRSTUVWXYZabcdefghijklmnopqrstuvwxyz0123456789-_".

(** [ALPHABET[(triple >> k) & 0x3F]]. *)
Definition sextet (triple k : Z) : ascii :=
  nth (Z.to_nat (Z.land (Z.shiftr triple k) 63)) ALPHABET "A"%char.

Definition tripleOf (a b c : Z) : Z := Z.lor (Z.lor (Z.shiftl a 16) (Z.shiftl b 8)) c.

Fixpoint base64Url (data : list ascii) : list ascii :=
  match data with
  | a :: b :: c :: rest =>
      let triple := tripleOf (byte a) (byte b) (byte c) in
      [sextet triple 18; sextet triple 12; sextet triple 6; sextet triple 0] ++ base64Url rest
  | [a] =>
      let triple := Z.shiftl (byte a) 16 in
      [sextet triple 18; sextet triple 12]
  | [a; b] =>
      let triple := Z.lor (Z.shiftl (byte a) 16) (Z.shiftl (byte b) 8) in
      [sextet triple 18; sextet triple 12; sextet triple 6]
  | [] => []
  end.

Definition md5Base64Url `{Md5} (payload : string) : string :=
  match md5 (chars payload) with
  | None => ""
  | Some digest =>
      if negb (Z.of_nat (length digest) =? MD5_DIGEST_LENGTH) then ""
      else text (base64Url digest)
  end.

Definition withoutTrailingSlash (value : string) : string :=
  text (dropWhileEnd (λ c, ceqb c "/") (chars value)).

Definition pathComponentOf (url : string) : string :=
  let searchFrom :=
    match findSub (chars "://") (chars url) with
    | None => 0%nat
    | Some scheme => (scheme + 3)%nat
    end in
  match findChar "/" (drop searchFrom (chars url)) with
  | None => ""
  | Some i => withoutTrailingSlash (text (drop (searchFrom + i) (chars url)))
  end.

Definition basePath (settings : SignedUrlSettings) : string := pathComponentOf (publicBaseUrl settings).

Definition baseUrl (settings : SignedUrlSettings) : string := withoutTrailingSlash (publicBaseUrl settings).

(** [now] in whole seconds since the epoch. *)
Definition expiryFor (settings : SignedUrlSettings) (now : Z) : Z := add64 now (ttlSeconds settings).

Definition sign `{Md5} (settings : SignedUrlSettings) (storageKey : string) (expiresAt : Z) : string :=
  let expires := toDecimal expiresAt in
  let uri := basePath settings +:+ "/" +:+ storageKey in
  let token := md5Base64Url (expires +:+ uri +:+ " " +:+ secret settings) in
  baseUrl settings +:+ "/" +:+ storageKey +:+ "?token=" +:+ token +:+ "&expires=" +:+ expires.

(** ** The file server's side *)

Definition sextetValue (c : ascii) : option Z := Z.of_nat <$> findChar c ALPHABET.

(** The base64url decoder of the file server. *)
Fixpoint base64UrlDecode (l : list ascii) : option (list ascii) :=
  match l with
  | a :: b :: c :: d :: rest =>
      x ← sextetValue a; y ← sextetValue b; z ← sextetValue c; w ← sextetValue d;
      tail ← base64UrlDecode rest;
      let triple := ((x * 64 + y) * 64 + z) * 64 + w in
      Some (ascii_of_N (Z.to_N (triple / 65536)) :: ascii_of_N (Z.to_N (triple / 256 mod 256))
            :: ascii_of_N (Z.to_N (triple mod 256)) :: tail)
  | [a; b; c] =>
      x ← sextetValue a; y ← sextetValue b; z ← sextetValue c;
      let triple := ((x * 64 + y) * 64 + z) * 64 in
      Some [ascii_of_N (Z.to_N (triple / 65536)); ascii_of_N (Z.to_N (triple / 256 mod 256))]
  | [a; b] =>
      x ← sextetValue a; y ← sextetValue b;
      Some [ascii_of_N (Z.to_N ((x * 64 + y) / 16))]
  | [a] => None
  | [] => Some []
  end.

(** [secure_link]: the token a request must carry for a path and an expiry. *)
Definition expectedToken `{Md5} (settings : SignedUrlSettings) (path expires : string) : string :=
  md5Base64Url (expires +:+ path +:+ " " +:+ secret settings).

(** The parts of a link the file server sees: the path, up to the question mark. *)
Definition requestPath (url : string) : string :=
  let beforeQuery :=
    match findChar "?" (chars url) with
    | None => chars url
    | Some i => take i (chars url)
    end in
  let searchFrom :=
    match findSub (chars "://") beforeQuery with
    | None => 0%nat
    | Some scheme => (scheme + 3)%nat
    end in
  match findChar "/" (drop searchFrom beforeQuery) with
  | None => ""
  | Some i => text (drop (searchFrom + i) beforeQuery)
  end.

(** ** Lemmas *)

Lemma byte_ascii z : 0 ≤ z < 256 → byte (ascii_of_N (Z.to_N z)) = z.
Proof. intros Hz. unfold byte. rewrite N_ascii_embedding by lia. lia. Qed.

Lemma ascii_byte c : ascii_of_N (Z.to_N (byte c)) = c.
Proof. unfold byte. by rewrite N2Z.id, ascii_N_embedding. Qed.

Lemma sextetValue_sextet triple k :
  0 ≤ triple → 0 ≤ k → sextetValue (sextet triple k) = Some (triple / 2 ^ k mod 64).
Proof.
  intros Ht Hk. unfold sextet. rewrite Z.shiftr_div_pow2 by done.
  change 63 with (Z.ones 6). rewrite Z.land_ones by lia. change (2 ^ 6) with 64.
  set (z := triple / 2 ^ k mod 64). assert (0 ≤ z < 64) as Hz by (apply Z.mod_pos_bound; lia).
  clearbody z. clear -Hz. unfold sextetValue.
  assert (Forall (λ n, Z.of_nat <$> findChar (nth n ALPHABET "A"%char) ALPHABET = Some (Z.of_nat n)) (seq 0 64)) as HF.
  { apply (bool_decide_unpack _). vm_compute. exact I. }
  rewrite Forall_forall in HF. specialize (HF (Z.to_nat z)).
  rewrite Z2Nat.id in HF by lia. apply HF. apply elem_of_seq. lia.
Qed.

Lemma tripleOf_sum a b c :
  0 ≤ a < 256 → 0 ≤ b < 256 → 0 ≤ c < 256 → tripleOf a b c = a * 65536 + b * 256 + c.
Proof.
  intros Ha Hb Hc. unfold tripleOf. rewrite <- Z.lor_assoc, (lor_disjoint b c 8) by lia.
  rewrite (lor_disjoint a _ 16) by lia. lia.
Qed.

(** The four sextets of a 24-bit number put it back together. *)
Lemma sextets_sum t :
  0 ≤ t < 2 ^ 24 →
  ((t / 2 ^ 18 mod 64 * 64 + t / 2 ^ 12 mod 64) * 64 + t / 2 ^ 6 mod 64) * 64 + t / 2 ^ 0 mod 64 = t.
Proof.
  intros Ht. change (2 ^ 18) with 262144. change (2 ^ 12) with 4096. change (2 ^ 6) with 64.
  change (2 ^ 0) with 1. rewrite Z.div_1_r.
  pose proof (Z.div_mod t 64). pose proof (Z.div_mod (t / 64) 64). pose proof (Z.div_mod (t / 4096) 64).
  rewrite (Z.mod_small (t / 262144)) by (split; [apply Z.div_pos; lia|apply Z.div_lt_upper_bound; lia]).
  assert (t / 64 / 64 = t / 4096) as E1 by (by rewrite Z.div_div by lia).
  assert (t / 4096 / 64 = t / 262144) as E2 by (by rewrite Z.div_div by lia).
  lia.
Qed.

Lemma base64_triple a b c :
  0 ≤ a < 256 → 0 ≤ b < 256 → 0 ≤ c < 256 →
  let t := tripleOf a b c in
  t / 65536 = a ∧ t / 256 mod 256 = b ∧ t mod 256 = c ∧ 0 ≤ t < 2 ^ 24.
Proof.
  intros Ha Hb Hc. cbn zeta. rewrite tripleOf_sum by done.
  assert ((a * 65536 + b * 256 + c) / 256 = a * 256 + b) as E.
  { symmetry. apply (Z.div_unique _ _ _ c); lia. }
  split_and!; [| | |lia|lia].
  - symmetry. apply (Z.div_unique _ _ _ (b * 256 + c)); lia.
  - rewrite E. symmetry. apply (Z.mod_unique _ _ a); lia.
  - symmetry. apply (Z.mod_unique _ _ (a * 256 + b)); lia.
Qed.

Lemma base64Url_decode data : base64UrlDecode (base64Url data) = Some data.
Proof.
  assert (∀ n data, (length data <= n)%nat → base64UrlDecode (base64Url data) = Some data) as HI;
    [|by eapply HI].
  clear data. induction n as [|n IH]; intros [|a [|b [|c rest]]] Hl; try done; cbn in Hl; try lia.
  - by every_byte a.
  - pose proof (byte_range a). pose proof (byte_range b). cbn [base64Url base64UrlDecode].
    destruct (base64_triple (byte a) (byte b) 0 ltac:(lia) ltac:(lia) ltac:(lia)) as (E1&E2&E3&Ht).
    assert (tripleOf (byte a) (byte b) 0 = Z.lor (Z.shiftl (byte a) 16) (Z.shiftl (byte b) 8)) as Et
      by (unfold tripleOf; by rewrite Z.lor_0_r).
    rewrite <- Et. set (t := tripleOf (byte a) (byte b) 0) in *.
    assert (t / 2 ^ 0 mod 64 = 0) as Ez.
    { change (2 ^ 0) with 1. rewrite Z.div_1_r.
      assert (t = (byte a * 1024 + byte b * 4) * 64) as -> by (unfold t; rewrite tripleOf_sum by lia; lia).
      apply Z.mod_mul. lia. }
    pose proof (sextets_sum t Ht) as HS. rewrite Ez, Z.add_0_r in HS.
    rewrite !sextetValue_sextet by lia. cbn [mbind option_bind].
    by rewrite HS, E1, E2, !ascii_byte.
  - pose proof (byte_range a). pose proof (byte_range b). pose proof (byte_range c).
    cbn [base64Url base64UrlDecode app].
    destruct (base64_triple (byte a) (byte b) (byte c) ltac:(lia) ltac:(lia) ltac:(lia)) as (E1&E2&E3&Ht).
    rewrite !sextetValue_sextet by lia. cbn [mbind option_bind]. rewrite IH by lia.
    by rewrite (sextets_sum _ Ht), E1, E2, E3, !ascii_byte.
Qed.

(** ** Properties *)

(** The text of a digest decodes back to it, so two digests never share a
    token, and it uses no character a URL would have to escape. *)
Theorem base64Url_roundtrip data :
  base64UrlDecode (base64Url data) = Some data
  ∧ Forall (λ c, c ∈ ALPHABET) (base64Url data).
Proof.
  split; [apply base64Url_decode|].
  assert (∀ t k, sextet t k ∈ ALPHABET) as Hs.
  { intros t k. unfold sextet. apply list_elem_of_In, nth_In.
    assert (0 ≤ Z.land (Z.shiftr t k) 63 < 64).
    { change 63 with (Z.ones 6). rewrite Z.land_ones by lia. apply Z.mod_pos_bound. lia. }
    change (length ALPHABET) with 64%nat. lia. }
  assert (∀ n data, (length data <= n)%nat → Forall (λ c, c ∈ ALPHABET) (base64Url data)) as HI;
    [|by eapply HI].
  clear data. induction n as [|n IH]; intros [|a [|b [|c rest]]] Hl; cbn in Hl; try lia; try apply Forall_nil_2.
  all: cbn [base64Url app]; repeat (apply Forall_cons; split; [apply Hs|]); try apply Forall_nil_2.
  apply IH. lia.
Qed.

(** A base URL as a deployment writes it. *)
Definition BaseUrl (settings : SignedUrlSettings) (scheme host path : list ascii) : Prop :=
  publicBaseUrl settings = text (scheme ++ chars "://" ++ host ++ path)
  ∧ ":"%char ∉ scheme ∧ host ≠ [] ∧ "/"%char ∉ host
  ∧ (path = [] ∨ ∃ rest, path = "/"%char :: rest)
  ∧ "?"%char ∉ scheme ++ host ++ path.

Definition trimmedPath (path : list ascii) : list ascii := dropWhileEnd (λ c, ceqb c "/") path.

Lemma baseUrl_spec settings scheme host path :
  BaseUrl settings scheme host path →
  chars (baseUrl settings) = scheme ++ chars "://" ++ host ++ trimmedPath path
  ∧ chars (basePath settings) = trimmedPath path.
Proof.
  intros (E&Hs&Hh&Hslash&Hpath&_). unfold baseUrl, basePath, withoutTrailingSlash, pathComponentOf.
  rewrite E, !chars_text. split.
  - destruct (exists_last Hh) as (host' & x & ->). rewrite !app_assoc.
    rewrite (dropWhileEnd_app_stop _ _ path x); [done|by rewrite last_snoc|].
    apply ceqb_neq. intros ->. apply Hslash, elem_of_app. right. by left.
  - change (chars "://") with (":"%char :: chars "//"). rewrite findSub_split by done.
    rewrite app_assoc, drop_app_length' by (rewrite length_app; done).
    destruct Hpath as [->|(rest & ->)].
    + rewrite app_nil_r, (proj2 (findChar_None _ _)) by done. done.
    + rewrite findChar_split by done. unfold withoutTrailingSlash. rewrite !chars_text.
      rewrite drop_add, drop_app_length' by (rewrite length_app; done).
      by rewrite drop_app_length.
Qed.

(** Whatever host and path prefix the deployment is reached under, the token in
    a signed link is the one the file server computes from the path it sees in that very
    link and from the expiry the link carries. *)
Theorem sign_verifies `{Md5} settings scheme host path storageKey expiresAt :
  BaseUrl settings scheme host path → "?"%char ∉ chars storageKey →
  let link := sign settings storageKey expiresAt in
  let expires := toDecimal expiresAt in
  requestPath link = basePath settings +:+ "/" +:+ storageKey
  ∧ link = baseUrl settings +:+ "/" +:+ storageKey +:+ "?token="
           +:+ expectedToken settings (requestPath link) expires +:+ "&expires=" +:+ expires.
Proof.
  intros HB Hq. cbn zeta.
  assert (requestPath (sign settings storageKey expiresAt) = basePath settings +:+ "/" +:+ storageKey) as Hpath.
  2:{ split; [done|]. rewrite Hpath. done. }
  destruct (baseUrl_spec _ _ _ _ HB) as [Hurl Hbase].
  destruct HB as (_&Hs&Hh&Hslash&Hp&Hnoq). rewrite !not_elem_of_app in Hnoq.
  destruct Hnoq as (Hq1&Hq2&Hq3). unfold requestPath, sign.
  apply chars_inj. rewrite !chars_app, Hurl, Hbase.
  destruct (dropWhileEnd_prefix (λ c, ceqb c "/") path) as [k Hk]. fold (trimmedPath path) in Hk.
  change (chars "?token=") with ("?"%char :: chars "token=").
  set (front := (scheme ++ chars "://" ++ host ++ trimmedPath path) ++ chars "/" ++ chars storageKey).
  assert ("?"%char ∉ front) as Hf.
  { unfold front. rewrite Hk in Hq3. rewrite !not_elem_of_app in *.
    destruct Hq3 as [? _]. split_and!; try done; by (apply (bool_decide_unpack _); vm_compute; exact I). }
  assert (∀ tail, (scheme ++ chars "://" ++ host ++ trimmedPath path) ++ chars "/" ++ chars storageKey
    ++ ("?"%char :: chars "token=") ++ tail = front ++ "?"%char :: (chars "token=" ++ tail)) as HE.
  { intros tail. unfold front. by rewrite <- !app_assoc. }
  rewrite HE, findChar_split, take_app_length by done. unfold front.
  change (chars "://") with (":"%char :: chars "//"). rewrite <- !app_assoc.
  rewrite findSub_split by done. rewrite (app_assoc scheme), drop_app_length' by (rewrite length_app; done).
  assert (∃ rest, trimmedPath path ++ chars "/" ++ chars storageKey = "/"%char :: rest) as [rest Hrest].
  { destruct (trimmedPath path) as [|c l] eqn:Et; [by eexists|].
    destruct Hp as [->|(r & ->)]; [done|]. injection Hk as <- _. by eexists. }
  rewrite Hrest, findChar_split by done. rewrite chars_text.
  rewrite drop_add, drop_app_length' by (rewrite length_app; done).
  by rewrite drop_app_length.
Qed.

Lemma sign_verifies_witness :
  let settings := mkSettings "https://cdn.example.org:8443/files//" "s3cret" 300 in
  requestPath (sign (H := {| md5 := λ _, Some (replicate 16 "x"%char) |}) settings "ab/cd/abcd" 1700000000)
  = "/files/ab/cd/abcd"%stdpp.
Proof.
  intros settings.
  apply (sign_verifies (H := {| md5 := λ _, Some (replicate 16 "x"%char) |}) settings
    (chars "https") (chars "cdn.example.org:8443") (chars "/files//")).
  - split_and!; [reflexivity|..]; try (apply (bool_decide_unpack _); vm_compute; exact I).
    right. by eexists.
  - apply (bool_decide_unpack _); vm_compute; exact I.
Defined.
