(* ===== verification/RateLimiter.v ===== *)
(** Token buckets: [src/common/RateLimiter.h] and [src/common/RateLimiter.cpp].

    A limiter is a map of buckets behind a mutex; a call is one step.  Instants are nanoseconds
    of the steady clock, and an instant is read before the mutex is taken. *)

From Stdlib Require Import QArith Qround Qminmax Lqa.
From S2P Require Import Prelude.
From S2P Require Import Doubles.

#[local] Open Scope Z_scope.

(** ** The limiter *)

Record Bucket := mkBucket { tokens : Q; lastRefill : Z }.

Record RateLimiter := mkLimiter {
  limitCapacity : Q;
  tokensPerSecond : Q;
  refillWindow : Z;
  buckets : gmap string Bucket
}.

Definition MINIMUM_CAPACITY : Z := 1.

(** [RateLimiter::applyLimits]. *)
Definition applyLimits (capacity window : Z) (kept : gmap string Bucket) : RateLimiter :=
  let full := ofInt (Z.max capacity MINIMUM_CAPACITY) in
  let seconds := if 0 <? window then window else 1 in
  mkLimiter full (fdiv full (ofInt seconds)) seconds kept.

(** The constructor, and [reconfigure]. *)
Definition newLimiter (capacity window : Z) : RateLimiter := applyLimits capacity window ∅.

Definition reconfigure (capacity window : Z) (_ : RateLimiter) : RateLimiter := applyLimits capacity window ∅.

Definition NANOSECONDS : Z := 1000000000.

(** [duration<double>(now - last).count()]. *)
Definition secondsOf (nanoseconds : Z) : Q := fdiv (ofInt nanoseconds) (ofInt NANOSECONDS).

Definition refill (l : RateLimiter) (now : Z) (b : Bucket) : Bucket :=
  let elapsed := secondsOf (now - lastRefill b) in
  if flt 0 elapsed then
    mkBucket (fmin (limitCapacity l) (fadd (tokens b) (fmul elapsed (tokensPerSecond l)))) now
  else b.

Definition setBuckets (x : gmap string Bucket) (l : RateLimiter) : RateLimiter :=
  mkLimiter (limitCapacity l) (tokensPerSecond l) (refillWindow l) x.

Definition tryAcquire (key : string) (now : Z) (l : RateLimiter) : bool * RateLimiter :=
  let entry := match buckets l !! key with
               | None => mkBucket (limitCapacity l) now
               | Some b => refill l now b
               end in
  if flt (tokens entry) 1 then (false, setBuckets (<[key := entry]> (buckets l)) l)
  else (true, setBuckets (<[key := mkBucket (fsub (tokens entry) 1) (lastRefill entry)]> (buckets l)) l).

Definition retryAfter (key : string) (now : Z) (l : RateLimiter) : Z * RateLimiter :=
  match buckets l !! key with
  | None => (0, l)
  | Some b =>
      let entry := refill l now b in
      let l := setBuckets (<[key := entry]> (buckets l)) l in
      if negb (flt (tokens entry) 1) then (0, l)
      else (Qceiling (fdiv (fsub 1 (tokens entry)) (tokensPerSecond l)), l)
  end.

Definition prune (now : Z) (l : RateLimiter) : RateLimiter :=
  setBuckets (omap (λ b, let entry := refill l now b in
                         if flt (tokens entry) (limitCapacity l) then Some entry else None) (buckets l)) l.

Definition reset (l : RateLimiter) : RateLimiter := setBuckets ∅ l.

Definition trackedKeys (l : RateLimiter) : nat := base.size (buckets l).

(** ** Specification *)

Inductive Call := Acquire (key : string) (now : Z) | AskRetry (key : string) (now : Z) | PruneAt (now : Z).

Definition callTime (c : Call) : Z := match c with Acquire _ t | AskRetry _ t | PruneAt t => t end.

Definition afterCall (c : Call) (l : RateLimiter) : RateLimiter :=
  match c with
  | Acquire key now => (tryAcquire key now l).2
  | AskRetry key now => (retryAfter key now l).2
  | PruneAt now => prune now l
  end.

Definition grants (key : string) (c : Call) (l : RateLimiter) : bool :=
  match c with Acquire other now => bool_decide (other = key) && (tryAcquire other now l).1 | _ => false end.

(** How many requests under a key a run of calls lets through. *)
Fixpoint granted (key : string) (calls : list Call) (l : RateLimiter) : Z :=
  match calls with
  | [] => 0
  | c :: rest => (if grants key c l then 1 else 0) + granted key rest (afterCall c l)
  end.

(** The calls are served in the order of their instants, from a first one on. *)
Fixpoint inOrder (from : Z) (calls : list Call) : Prop :=
  match calls with
  | [] => True
  | c :: rest => from ≤ callTime c ∧ inOrder (callTime c) rest
  end.

Fixpoint lastTime (from : Z) (calls : list Call) : Z :=
  match calls with [] => from | c :: rest => lastTime (callTime c) rest end.

(** ** What a call does to one bucket *)

(** Two limiters that look the same to a key. *)
Definition sameFor (key : string) (l l' : RateLimiter) : Prop :=
  limitCapacity l = limitCapacity l' ∧ tokensPerSecond l = tokensPerSecond l' ∧ buckets l !! key = buckets l' !! key.

(** The calls that can matter to a key. *)
Definition concerns (key : string) (c : Call) : bool :=
  match c with Acquire other _ | AskRetry other _ => bool_decide (other = key) | PruneAt _ => true end.

(** How many calls ask for a token of a key. *)
Fixpoint requests (key : string) (calls : list Call) : Z :=
  match calls with
  | [] => 0
  | c :: rest => (match c with Acquire other _ => if bool_decide (other = key) then 1 else 0 | _ => 0 end) + requests key rest
  end.

Lemma refill_same l l' now b :
  limitCapacity l = limitCapacity l' → tokensPerSecond l = tokensPerSecond l' → refill l now b = refill l' now b.
Proof. intros EC ET. unfold refill. by rewrite EC, ET. Qed.

Lemma limits_kept c l : limitCapacity (afterCall c l) = limitCapacity l ∧ tokensPerSecond (afterCall c l) = tokensPerSecond l.
Proof. destruct c; cbn; unfold tryAcquire, retryAfter, prune; by repeat case_match. Qed.

Lemma unconcerned_kept key c l : concerns key c = false → buckets (afterCall c l) !! key = buckets l !! key.
Proof.
  destruct c as [other now|other now|now]; cbn; [| |done]; intros E%bool_decide_eq_false; unfold tryAcquire, retryAfter;
    repeat case_match; cbn; by rewrite ?lookup_insert_ne.
Qed.

Lemma unconcerned_same key c l : concerns key c = false → sameFor key (afterCall c l) l.
Proof.
  intros E. destruct (limits_kept c l) as [E1 E2]. by split_and!; [| |apply unconcerned_kept].
Qed.

Lemma grants_same key c l l' : sameFor key l l' → grants key c l = grants key c l'.
Proof.
  intros (EC & ET & EB). destruct c as [other now| |]; [|done..]. cbn. case_bool_decide as Ek; [subst other|done]. cbn.
  unfold tryAcquire. rewrite EB, EC. destruct (buckets l' !! key) as [b|]; [rewrite (refill_same l l' now b EC ET)|]; by case_match.
Qed.

Lemma afterCall_same key c l l' : sameFor key l l' → sameFor key (afterCall c l) (afterCall c l').
Proof.
  intros (EC & ET & EB). destruct (limits_kept c l) as [C1 T1], (limits_kept c l') as [C2 T2].
  split_and!; [by rewrite C1, C2|by rewrite T1, T2|]. destruct (concerns key c) eqn:Ec.
  2: { by rewrite !unconcerned_kept. }
  destruct c as [other now|other now|now]; cbn in *; [apply bool_decide_eq_true in Ec; subst other..|].
  - unfold tryAcquire. rewrite EB, EC. destruct (buckets l' !! key) as [b|];
      [rewrite (refill_same l l' now b EC ET)|]; case_match; cbn; by rewrite !lookup_insert_eq.
  - unfold retryAfter. rewrite EB. destruct (buckets l' !! key) as [b|] eqn:E'; [|cbn; by rewrite E', EB].
    rewrite (refill_same l l' now b EC ET). case_match; cbn; by rewrite !lookup_insert_eq.
  - rewrite !lookup_omap, EB, EC. destruct (buckets l' !! key) as [b|]; [|done]. cbn. by rewrite (refill_same l l' now b EC ET).
Qed.

Lemma granted_same key calls : ∀ l l', sameFor key l l' → granted key calls l = granted key calls l'.
Proof.
  induction calls as [|c rest IH]; intros l l' E; [done|]. cbn. rewrite (grants_same key c l l' E).
  by rewrite (IH _ _ (afterCall_same key c l l' E)).
Qed.

Lemma granted_own key calls : ∀ l, granted key calls l = granted key (List.filter (concerns key) calls) l.
Proof.
  induction calls as [|c rest IH]; intros l; [done|]. cbn. destruct (concerns key c) eqn:Ec; cbn; [by rewrite IH|].
  assert (grants key c l = false) as -> by (destruct c; cbn in *; by rewrite ?Ec).
  rewrite Z.add_0_l, IH. apply granted_same. by apply unconcerned_same.
Qed.

(** ** Requests of one instant *)

Lemma secondsOf_0 : secondsOf 0 = 0%Q.
Proof. by vm_compute. Qed.

Lemma refill_now l now b : lastRefill b = now → refill l now b = b.
Proof. intros <-. unfold refill. by rewrite Z.sub_diag, secondsOf_0. Qed.

Lemma fsub_1 n : 1 <= n <= 2 ^ 53 → fsub (inject_Z n) 1 = inject_Z (n - 1).
Proof.
  intros Hn. unfold fsub. replace (inject_Z n - 1)%Q with (inject_Z (n - 1)); [apply rnd_int_eq; lia|].
  unfold inject_Z, Qminus, Qplus, Qopp. cbn. f_equal; lia.
Qed.

Lemma flt_int n k : flt (inject_Z n) (inject_Z k) = (n <? k).
Proof.
  destruct (Z.ltb_spec n k); [apply flt_true; by rewrite <- Zlt_Qlt|apply flt_false; by rewrite <- Zle_Qle].
Qed.

(** A bucket that holds [left] tokens at an instant; a full one may be absent. *)
Definition holds (key : string) (now full remaining : Z) (l : RateLimiter) : Prop :=
  limitCapacity l = inject_Z full ∧
  (buckets l !! key = Some (mkBucket (inject_Z remaining) now) ∨ buckets l !! key = None ∧ remaining = full).

Lemma holds_acquire key now full remaining l :
  1 <= full < 2 ^ 53 → 0 <= remaining <= full → holds key now full remaining l →
  (tryAcquire key now l).1 = (1 <=? remaining) ∧
  holds key now full (if 1 <=? remaining then remaining - 1 else remaining) (tryAcquire key now l).2.
Proof.
  intros Hf Hr [HC HB]. unfold tryAcquire.
  assert (match buckets l !! key with None => mkBucket (limitCapacity l) now | Some b => refill l now b end
          = mkBucket (inject_Z remaining) now) as ->.
  { destruct HB as [->|[-> ->]]; [by apply refill_now|by rewrite HC]. }
  cbn [tokens lastRefill]. change 1%Q with (inject_Z 1) at 1 3. rewrite flt_int.
  destruct (Z.ltb_spec remaining 1), (Z.leb_spec 1 remaining); try lia; cbn; (split; [done|]); (split; [done|left]);
    cbn; rewrite lookup_insert_eq; [done|]. by rewrite fsub_1 by lia.
Qed.

Lemma holds_step key now full remaining c l :
  1 <= full < 2 ^ 53 → 0 <= remaining <= full → callTime c = now → requests key [c] = 0 →
  holds key now full remaining l → holds key now full remaining (afterCall c l) ∧ grants key c l = false.
Proof.
  intros Hf Hr Ht Hn [HC HB]. destruct (limits_kept c l) as [EC _]. destruct (concerns key c) eqn:Ec.
  2: { split; [split; [by rewrite EC|by rewrite unconcerned_kept]|]. destruct c; cbn in *; by rewrite ?Ec. }
  destruct c as [other t|other t|t]; cbn in *; subst t; [by rewrite Ec in Hn|apply bool_decide_eq_true in Ec; subst other|];
    (split; [|done]).
  - unfold retryAfter. destruct HB as [HB|[HB ->]]; rewrite HB; [|split; [done|by right]].
    rewrite refill_now by done. case_match; (split; [done|left]); cbn; by rewrite lookup_insert_eq.
  - split; [done|]. cbn. rewrite lookup_omap. destruct HB as [HB|[HB ->]]; rewrite HB; [|by right]. cbn.
    rewrite refill_now by done. cbn [tokens]. rewrite HC, flt_int. destruct (Z.ltb_spec remaining full); [by left|].
    right. split; [done|lia].
Qed.

Lemma granted_burst key now full calls :
  1 <= full < 2 ^ 53 → Forall (λ c, callTime c = now) calls → ∀ remaining l,
  0 <= remaining <= full → holds key now full remaining l → granted key calls l = Z.min remaining (requests key calls).
Proof.
  intros Hf. induction 1 as [|c rest Ht _ IH]; intros remaining l Hr Hh; [cbn; lia|]. cbn [granted requests].
  assert (Hreq : 0 <= requests key rest).
  { clear. induction rest as [|c rest IH]; [done|]. cbn. destruct c; [case_bool_decide|..]; lia. }
  destruct (decide (requests key [c] = 0)) as [E0|E0].
  - destruct (holds_step key now full remaining c l Hf Hr Ht E0 Hh) as [Hk ->]. rewrite (IH remaining) by done.
    cbn in E0. lia.
  - destruct c as [other t| |]; [|done..]. cbn in Ht, E0. subst t. case_bool_decide as Ek; [subst other|done].
    destruct (holds_acquire key now full remaining l Hf Hr Hh) as [Ea Hk]. cbn [grants afterCall].
    rewrite bool_decide_true, Ea by done. cbn [andb]. destruct (Z.leb_spec 1 remaining); rewrite IH with (2 := Hk); lia.
Qed.

(** ** The rate *)

Section Rate.
Context (full window : Z) (C : Q).
Hypothesis C_full : C = inject_Z full.
Hypothesis full_bounds : 1 <= full <= 2 ^ 50.
Hypothesis window_bounds : 1 <= window < 2 ^ 53.

Local Open Scope Q_scope.

(** Half a unit in the last place of a full bucket; a call rounds eight times. *)
Let slack : Q := 8 * (C * ulp).

(** What an amount of time is worth, in tokens. *)
Definition accrued (nanoseconds : Z) : Q := inject_Z nanoseconds / inject_Z NANOSECONDS * (C / inject_Z window).

Definition limited (l : RateLimiter) : Prop := limitCapacity l = C ∧ tokensPerSecond l = fdiv C (inject_Z window).

(** What a bucket would hold at an instant if nothing was rounded. *)
Definition available (now : Z) (ob : option Bucket) : Q :=
  match ob with None => C | Some b => Qmin C (tokens b + accrued (now - lastRefill b)) end.

Definition sane (now : Z) (ob : option Bucket) : Prop :=
  ∀ b, ob = Some b → 0 <= tokens b ∧ tokens b <= C ∧ (lastRefill b <= now)%Z.

Lemma C_ge1 : 1 <= C.
Proof. rewrite C_full. change 1 with (inject_Z 1). rewrite <- Zle_Qle. lia. Qed.

Lemma C_ulp : 0 <= C * ulp ∧ 8 * (C * ulp) <= 1.
Proof.
  pose proof C_ge1. split; [apply Qmult_le_0_compat; [lra|by apply Qlt_le_weak, ulp_pos]|].
  apply (Qle_trans _ (8 * (inject_Z (2 ^ 50) * ulp))); [|by vm_compute].
  rewrite Qmult_comm, (Qmult_comm 8). apply Qmult_le_compat_r; [|by vm_compute]. apply Qmult_le_compat_r; [|by apply Qlt_le_weak, ulp_pos].
  rewrite C_full, <- Zle_Qle. lia.
Qed.

Lemma window_pos : 0 < inject_Z window.
Proof. change 0 with (inject_Z 0). rewrite <- Zlt_Qlt. lia. Qed.

Lemma accrued_nonneg d : (0 <= d)%Z → 0 <= accrued d.
Proof.
  intros Hd. pose proof C_ge1. unfold accrued. apply Qmult_le_0_compat.
  - apply Qle_shift_div_l; [done|]. rewrite Qmult_0_l. change 0 with (inject_Z 0). by rewrite <- Zle_Qle.
  - apply Qle_shift_div_l; [apply window_pos|]. rewrite Qmult_0_l. lra.
Qed.

Lemma accrued_0 : accrued 0 == 0.
Proof. unfold accrued. assert (inject_Z 0 / inject_Z NANOSECONDS == 0) as -> by done. apply Qmult_0_l. Qed.

Lemma accrued_plus a b : accrued (a + b) == accrued a + accrued b.
Proof. unfold accrued. rewrite inject_Z_plus. unfold Qdiv. ring. Qed.

(** The elapsed time is worth what it is, up to five roundings. *)
Lemma refilled_amount d t :
  (0 < d)%Z → 0 <= t →
  fadd t (fmul (secondsOf d) (fdiv C (inject_Z window))) <= (t + accrued d) * (1 + 6 * ulp).
Proof.
  intros Hd Ht. pose proof window_pos as Hw. pose proof C_ge1 as HC. pose proof ulp_pos as Hu.
  assert (H0 : 0 <= inject_Z d) by (change 0 with (inject_Z 0); rewrite <- Zle_Qle; lia).
  set (u := 1 + ulp). assert (Hu1 : 1 <= u) by (unfold u; lra).
  assert (E1 : 0 <= ofInt d ∧ ofInt d <= inject_Z d * u) by (split; [apply rnd_nonneg|apply rnd_le; lra]).
  assert (E2 : 0 <= secondsOf d ∧ secondsOf d <= inject_Z d / inject_Z NANOSECONDS * u * u).
  { split; [apply rnd_nonneg|]. unfold secondsOf, fdiv. replace (ofInt NANOSECONDS) with (inject_Z NANOSECONDS) by (by rewrite ofInt_eq).
    apply rnd_le.
    - apply Qle_shift_div_l; [done|]. rewrite Qmult_0_l. tauto.
    - apply Qle_shift_div_r; [done|]. assert (inject_Z d / inject_Z NANOSECONDS * u * inject_Z NANOSECONDS == inject_Z d * u) as ->; [|tauto].
      field. done. }
  assert (E3 : 0 <= fdiv C (inject_Z window) ∧ fdiv C (inject_Z window) <= C / inject_Z window * u).
  { split; [apply rnd_nonneg|]. apply rnd_le; [|lra]. apply Qle_shift_div_l; [done|]. lra. }
  set (s := secondsOf d) in *. set (r := fdiv C (inject_Z window)) in *.
  assert (E4 : 0 <= fmul s r ∧ fmul s r <= accrued d * (u * u * u * u)).
  { split; [apply rnd_nonneg|]. unfold fmul.
    apply (Qle_trans _ ((inject_Z d / inject_Z NANOSECONDS * u * u) * (C / inject_Z window * u) * u));
      [|unfold accrued; lra]. apply rnd_le; [apply Qmult_le_0_compat; tauto|].
    apply Qmult_le_compat_nonneg; tauto. }
  assert (Hacc : 0 <= accrued d) by (apply accrued_nonneg; lia).
  assert (Hpow : 1 <= u * u * u * u ∧ u * u * u * u * u <= 1 + 6 * ulp) by (unfold u, ulp; split; by vm_compute).
  unfold fadd. apply (Qle_trans _ ((t + accrued d) * (u * u * u * u) * u)).
  - apply rnd_le; [lra|]. rewrite Qmult_plus_distr_l. apply Qplus_le_compat; [|tauto].
    rewrite <- (Qmult_1_r t) at 1. rewrite (Qmult_comm t 1), (Qmult_comm t). apply Qmult_le_compat_r; tauto.
  - rewrite <- Qmult_assoc, (Qmult_comm (t + accrued d)), (Qmult_comm (t + accrued d)). apply Qmult_le_compat_r; [tauto|lra].
Qed.

Lemma min_le_l x y : Qmin x y <= x.
Proof. apply Q.le_min_l. Qed.

Lemma min_cases x y : Qmin x y == x ∧ x <= y ∨ Qmin x y == y ∧ y < x.
Proof. destruct (Q.min_spec x y) as [[? ?]|[? ?]]; destruct (Qlt_le_dec y x); [exfalso; lra| |right; done|]; left; split; lra. Qed.

Lemma slack_bound x : x <= C → x * (1 + 6 * ulp) <= x + 6 * (C * ulp).
Proof.
  intros Hx. assert (x * ulp <= C * ulp) by (apply Qmult_le_compat_r; [done|apply Qlt_le_weak, ulp_pos]).
  assert (x * (1 + 6 * ulp) == x + 6 * (x * ulp)) as -> by ring. lra.
Qed.

Lemma not_elapsed d : (0 <= d)%Z → flt 0 (secondsOf d) = false → d = 0%Z.
Proof.
  intros Hd E%flt_false. destruct (decide (d = 0%Z)) as [|Hne]; [done|]. exfalso.
  assert (0 < secondsOf d); [|lra]. apply rnd_gt0. apply Qlt_shift_div_l; [apply rnd_gt0; by vm_compute|].
  rewrite Qmult_0_l. apply rnd_gt0. change 0 with (inject_Z 0). rewrite <- Zlt_Qlt. lia.
Qed.

Lemma refill_available l now b :
  limited l → sane now (Some b) →
  let b' := refill l now b in
  lastRefill b' = now ∧ 0 <= tokens b' ∧ tokens b' <= C ∧ tokens b' <= available now (Some b) + 6 * (C * ulp).
Proof.
  intros [HC HR] Hs. destruct (Hs b eq_refl) as (H0 & Hle & Hlast). pose proof C_ge1 as H1. destruct C_ulp as [Hu _].
  unfold refill. rewrite HC, HR. cbn [available]. set (d := (now - lastRefill b)%Z).
  destruct (flt 0 (secondsOf d)) eqn:E; cbn [tokens lastRefill].
  - assert (Hd : (0 < d)%Z).
    { destruct (decide (d = 0%Z)) as [Hz|]; [|lia]. rewrite Hz, secondsOf_0 in E. done. }
    pose proof (refilled_amount d (tokens b) Hd H0) as Hr. set (y := fadd _ _) in *.
    assert (0 <= y) by apply rnd_nonneg. pose proof (slack_bound (tokens b + accrued d)) as Hsl.
    split; [done|]. destruct (fmin_cases C y) as [[-> Hc]|[-> Hc]], (min_cases C (tokens b + accrued d)) as [[-> Hm]|[-> Hm]];
      split_and!; try lra; specialize (Hsl ltac:(lra)); lra.
  - assert (Hz : d = 0%Z) by (apply not_elapsed; [lia|done]). split; [lia|]. split; [done|]. split; [done|].
    rewrite Hz. destruct (min_cases C (tokens b + accrued 0)) as [[-> Hm]|[-> Hm]]; pose proof accrued_0; lra.
Qed.

Lemma available_later now later ob :
  (now <= later)%Z → available later ob <= available now ob + accrued (later - now).
Proof.
  intros Hl. pose proof (accrued_nonneg (later - now) ltac:(lia)). destruct ob as [b|]; cbn; [|lra].
  replace (later - lastRefill b)%Z with (now - lastRefill b + (later - now))%Z by lia.
  pose proof (accrued_plus (now - lastRefill b) (later - now)).
  destruct (min_cases C (tokens b + accrued (now - lastRefill b + (later - now)))) as [[-> ?]|[-> ?]],
    (min_cases C (tokens b + accrued (now - lastRefill b))) as [[-> ?]|[-> ?]]; lra.
Qed.

Lemma sane_later now later ob : (now <= later)%Z → sane now ob → sane later ob.
Proof. intros Hl Hs b E. destruct (Hs b E) as (? & ? & ?). split_and!; [done..|lia]. Qed.

(** A bucket that has just been refilled. *)
Lemma available_fresh now t : t <= C → available now (Some (mkBucket t now)) == t.
Proof.
  intros Ht. cbn. rewrite Z.sub_diag. pose proof accrued_0. destruct (min_cases C (t + accrued 0)) as [[-> ?]|[-> ?]]; lra.
Qed.

Lemma fsub_bound t : 1 <= t → t <= C → fsub t 1 <= t - 1 + C * ulp ∧ fsub t 1 <= C.
Proof.
  intros H1 Ht. destruct C_ulp as [Hu Hu8]. destruct (rnd_error (t - 1)) as [_ U]; [lra|].
  assert ((t - 1) * ulp <= C * ulp) by (apply Qmult_le_compat_r; [lra|apply Qlt_le_weak, ulp_pos]).
  assert ((t - 1) * (1 + ulp) == t - 1 + (t - 1) * ulp) as E by ring. unfold fsub. lra.
Qed.

(** A call pays for what it grants. *)
Lemma call_pays key c l :
  limited l → sane (callTime c) (buckets l !! key) →
  sane (callTime c) (buckets (afterCall c l) !! key) ∧
  (if grants key c l then 1 else 0) + available (callTime c) (buckets (afterCall c l) !! key)
    <= available (callTime c) (buckets l !! key) + slack.
Proof.
  intros Hl Hs. pose proof C_ge1 as H1. destruct C_ulp as [Hu _]. destruct (concerns key c) eqn:Ec.
  2: { rewrite unconcerned_kept by done. split; [done|]. unfold slack.
       assert (grants key c l = false) as -> by (destruct c; cbn in *; by rewrite ?Ec). lra. }
  destruct c as [other now|other now|now]; cbn [callTime] in *; [apply bool_decide_eq_true in Ec; subst other..|].
  - cbn [grants afterCall]. rewrite bool_decide_true by done. cbn [andb]. unfold tryAcquire.
    set (entry := match buckets l !! key with None => _ | Some b => _ end).
    assert (He : lastRefill entry = now ∧ 0 <= tokens entry ∧ tokens entry <= C ∧
                 tokens entry <= available now (buckets l !! key) + 6 * (C * ulp)).
    { unfold entry. destruct (buckets l !! key) as [b|]; [by apply refill_available|]. destruct Hl as [-> _].
      cbn [tokens lastRefill available]. split_and!; [done|lra..]. }
    clearbody entry. destruct entry as [t r]. cbn in He. destruct He as (-> & He0 & HeC & Hea). cbn [tokens lastRefill].
    destruct (flt t 1) eqn:Et; cbn; rewrite lookup_insert_eq.
    + split; [by intros ? [= <-]|]. pose proof (available_fresh now t HeC) as Hf. cbn in Hf. rewrite Hf. unfold slack. lra.
    + apply flt_false in Et. destruct (fsub_bound t Et HeC) as [Hb HbC]. split.
      * intros ? [= <-]. cbn. split_and!; [apply rnd_nonneg|done|done].
      * pose proof (available_fresh now _ HbC) as Hf. cbn in Hf. rewrite Hf. unfold slack. lra.
  - cbn [grants afterCall]. unfold retryAfter. destruct (buckets l !! key) as [b|] eqn:Eb; [|cbn; rewrite Eb; split; [done|unfold slack; cbn; lra]].
    destruct (refill_available l now b Hl Hs) as (Er & E0 & EC & Ea). destruct (refill l now b) as [t r]. cbn in Er, E0, EC, Ea. subst r.
    assert (∀ n : Z, buckets (if negb (flt t 1) then (0%Z, setBuckets (<[key:=mkBucket t now]> (buckets l)) l)
              else (n, setBuckets (<[key:=mkBucket t now]> (buckets l)) l)).2 !! key = Some (mkBucket t now)) as Hb
      by (intros n; case_match; cbn; by rewrite lookup_insert_eq).
    cbn [tokens]. rewrite Hb. split; [by intros ? [= <-]|]. pose proof (available_fresh now t EC) as Hf. rewrite Hf. unfold slack. cbn. lra.
  - cbn [grants afterCall prune setBuckets buckets]. rewrite lookup_omap. destruct (buckets l !! key) as [b|] eqn:Eb; cbn [mbind option_bind].
    2: { split; [done|]. unfold slack. cbn. lra. }
    destruct (refill_available l now b Hl Hs) as (Er & E0 & EC & Ea). destruct Hl as [-> _].
    destruct (refill l now b) as [t r]. cbn in Er, E0, EC, Ea. subst r. cbn [tokens]. unfold slack.
    destruct (flt t C) eqn:Et.
    + split; [by intros ? [= <-]|]. pose proof (available_fresh now t EC) as Hf. rewrite Hf. cbn. lra.
    + apply flt_false in Et. split; [done|]. cbn. lra.
Qed.

Lemma granted_bound key calls : ∀ from l,
  limited l → sane from (buckets l !! key) → inOrder from calls →
  inject_Z (granted key calls l)
    <= available from (buckets l !! key) + accrued (lastTime from calls - from) + inject_Z (Z.of_nat (length calls)) * slack.
Proof.
  induction calls as [|c rest IH]; intros from l Hl Hs Ho.
  - cbn [granted lastTime length]. rewrite Z.sub_diag. pose proof accrued_0. pose proof C_ge1.
    assert (inject_Z (Z.of_nat 0) * slack == 0) as -> by (change (inject_Z (Z.of_nat 0)) with 0; apply Qmult_0_l).
    change (inject_Z 0) with 0. destruct (buckets l !! key) as [b|] eqn:Eb; cbn [available]; [|lra]. destruct (Hs b eq_refl) as (? & ? & Hle).
    pose proof (accrued_nonneg (from - lastRefill b) ltac:(lia)).
    destruct (min_cases C (tokens b + accrued (from - lastRefill b))) as [[-> ?]|[-> ?]]; lra.
  - destruct Ho as [Hle Ho]. pose proof (sane_later _ _ _ Hle Hs) as Hs'. destruct (call_pays key c l Hl Hs') as [Hs2 Hp].
    pose proof (available_later _ _ (buckets l !! key) Hle) as Ha. destruct (limits_kept c l) as [E1 E2].
    specialize (IH (callTime c) (afterCall c l)). cbn [granted lastTime length].
    assert (limited (afterCall c l)) as Hl' by (destruct Hl; split; by rewrite ?E1, ?E2).
    specialize (IH Hl' Hs2 Ho). rewrite inject_Z_plus, Nat2Z.inj_succ, <- Z.add_1_r, inject_Z_plus, Qmult_plus_distr_l.
    replace (lastTime (callTime c) rest - from)%Z with (callTime c - from + (lastTime (callTime c) rest - callTime c))%Z by lia.
    rewrite accrued_plus. assert (inject_Z (if grants key c l then 1 else 0) == (if grants key c l then 1 else 0)) as -> by (by case_match).
    change (inject_Z 1) with 1. lra.
Qed.

End Rate.

Fixpoint runCalls (calls : list Call) (l : RateLimiter) : RateLimiter :=
  match calls with [] => l | c :: rest => runCalls rest (afterCall c l) end.

Lemma reached_sane key full window C calls (Hf : 1 ≤ full ≤ 2 ^ 50) (Hw : 1 ≤ window < 2 ^ 53) (HC : C = inject_Z full) :
  ∀ from l, limited window C l → sane C from (buckets l !! key) → inOrder from calls →
  limited window C (runCalls calls l) ∧ sane C (lastTime from calls) (buckets (runCalls calls l) !! key).
Proof.
  induction calls as [|c rest IH]; intros from l Hl Hs Ho; [done|]. destruct Ho as [Hle Ho].
  destruct (limits_kept c l) as [E1 E2]. cbn [runCalls lastTime]. apply IH; [destruct Hl; split; by rewrite ?E1, ?E2| |done].
  apply (call_pays full window C HC Hf Hw key c l Hl). by apply (sane_later C from).
Qed.

Lemma inOrder_app from before rest : inOrder from (before ++ rest) → inOrder from before ∧ inOrder (lastTime from before) rest.
Proof.
  revert from. induction before as [|c before IH]; intros from Ho; [done|]. destruct Ho as [Hle Ho].
  destruct (IH _ Ho). done.
Qed.

Lemma inOrder_le from calls : inOrder from calls → from ≤ lastTime from calls.
Proof. revert from. induction calls as [|c rest IH]; intros from; [done|]. cbn. intros [Hle Ho%IH]. lia. Qed.

Lemma available_full window C now ob : (available window C now ob <= C)%Q.
Proof. destruct ob; cbn; [apply min_le_l|apply Qle_refl]. Qed.

(** The bound, without the fractions. *)
Lemma bound_integers full seconds g n t :
  1 ≤ seconds → n * full ≤ 2 ^ 50 →
  (inject_Z g <= inject_Z full + accrued seconds (inject_Z full) t + inject_Z n * (8 * (inject_Z full * ulp)))%Q →
  g * (seconds * NANOSECONDS) ≤ (full + 1) * (seconds * NANOSECONDS) + t * full.
Proof.
  intros Hs Hn Hb. rewrite Zle_Qle, inject_Z_plus, !inject_Z_mult, inject_Z_plus.
  assert (Hu : (inject_Z n * (8 * (inject_Z full * ulp)) <= 1)%Q).
  { assert (inject_Z n * (8 * (inject_Z full * ulp)) == inject_Z (n * full) * (8 * ulp))%Q as -> by (rewrite inject_Z_mult; ring).
    apply (Qle_trans _ (inject_Z (2 ^ 50) * (8 * ulp))); [|by vm_compute].
    apply Qmult_le_compat_r; [by rewrite <- Zle_Qle|by vm_compute]. }
  assert (Hpos : (0 < inject_Z seconds)%Q) by (change 0%Q with (inject_Z 0); rewrite <- Zlt_Qlt; lia).
  assert (Ht : (accrued seconds (inject_Z full) t * (inject_Z seconds * inject_Z NANOSECONDS) == inject_Z t * inject_Z full)%Q).
  { unfold accrued. field. split; [lra|done]. }
  set (unit := (inject_Z seconds * inject_Z NANOSECONDS)%Q) in *. assert (0 <= unit)%Q by (apply Qmult_le_0_compat; [lra|done]).
  rewrite <- Ht, <- Qmult_plus_distr_l. apply Qmult_le_compat_r; [|done]. change (inject_Z 1) with 1%Q. lra.
Qed.

(** [MINIMUM_CAPACITY], and a window of a second at least. *)
Definition effectiveCapacity (capacity : Z) : Z := Z.max capacity MINIMUM_CAPACITY.
Definition effectiveWindow (window : Z) : Z := if 0 <? window then window else 1.

(** C33: the limit of a token bucket, with the roundings of the doubles it counts in.  Of a
    run of calls in the order of their instants, whatever keys they name and wherever pruning
    and questions about the waiting time fall between them, and of any stretch of it: the
    requests let through under a key are at most the capacity, what the time of the stretch is
    worth, and one. *)
Theorem rate_bound key capacity window before calls from :
  capacity ≤ 2 ^ 50 → window < 2 ^ 53 → Z.of_nat (length calls) * effectiveCapacity capacity ≤ 2 ^ 50 →
  inOrder from (before ++ calls) →
  let full := effectiveCapacity capacity in
  let seconds := effectiveWindow window in
  granted key calls (runCalls before (newLimiter capacity window)) * (seconds * NANOSECONDS)
    ≤ (full + 1) * (seconds * NANOSECONDS) + (lastTime from (before ++ calls) - lastTime from before) * full.
Proof.
  intros Hc Hw Hn Ho full seconds. destruct (inOrder_app _ _ _ Ho) as [Ho1 Ho2].
  assert (Hf : 1 ≤ full ≤ 2 ^ 50) by (unfold full, effectiveCapacity, MINIMUM_CAPACITY; lia).
  assert (Hs : 1 ≤ seconds < 2 ^ 53) by (unfold seconds, effectiveWindow; destruct (Z.ltb_spec 0 window); lia).
  assert (HC : limited seconds (inject_Z full) (newLimiter capacity window)).
  { split; cbn; fold (effectiveCapacity capacity) (effectiveWindow window); fold full seconds; by rewrite !ofInt_eq by lia. }
  destruct (reached_sane key full seconds (inject_Z full) before Hf Hs eq_refl from (newLimiter capacity window) HC) as [Hl Hsane];
    [done|done|].
  set (start := lastTime from before) in *.
  replace (lastTime from (before ++ calls)) with (lastTime start calls)
    by (unfold start; clear; revert from; induction before; intros; [done|]; apply IHbefore).
  pose proof (granted_bound full seconds (inject_Z full) eq_refl Hf Hs key calls start _ Hl Hsane Ho2) as Hb.
  pose proof (available_full seconds (inject_Z full) start (buckets (runCalls before (newLimiter capacity window)) !! key)) as Ha.
  apply (bound_integers full seconds _ (Z.of_nat (length calls))); [lia|done|]. lra.
Qed.

Lemma runCalls_limits calls : ∀ l,
  limitCapacity (runCalls calls l) = limitCapacity l ∧ tokensPerSecond (runCalls calls l) = tokensPerSecond l.
Proof.
  induction calls as [|c rest IH]; intros l; [done|]. cbn. destruct (IH (afterCall c l)) as [-> ->]. apply limits_kept.
Qed.

(** Requests of one instant, the test a token bucket is bought for.  Under a key the limiter has
    not seen, or has forgotten when it was reset or reconfigured, as many are let through as
    the capacity and no more, never fewer than one, whatever is asked under other keys or
    pruned in between; and at all times the calls under other keys do not matter to a key. *)
Theorem burst_correct key capacity window now before calls (l : RateLimiter) :
  capacity < 2 ^ 53 → Forall (λ c, callTime c = now) calls →
  let passed := Z.min (effectiveCapacity capacity) (requests key calls) in
  granted key calls (newLimiter capacity window) = passed ∧
  granted key calls (reset (runCalls before (newLimiter capacity window))) = passed ∧
  granted key calls (reconfigure capacity window l) = passed ∧
  granted key calls l = granted key (List.filter (concerns key) calls) l.
Proof.
  intros Hc Hall passed.
  assert (Hfirst : granted key calls (newLimiter capacity window) = passed).
  { apply (granted_burst key now (effectiveCapacity capacity)); [unfold effectiveCapacity, MINIMUM_CAPACITY; lia|done| |].
    - unfold effectiveCapacity, MINIMUM_CAPACITY. lia.
    - split; [|by right]. cbn. apply ofInt_eq. unfold effectiveCapacity, MINIMUM_CAPACITY. lia. }
  destruct (runCalls_limits before (newLimiter capacity window)) as [E1 E2].
  split; [done|split; [|split; [done|apply granted_own]]].
  rewrite <- Hfirst. apply granted_same. by split_and!.
Qed.

(** ** Examples *)

(** Three requests an hour, asked for by two clients. *)
Definition sampleCalls : list Call :=
  [Acquire "198.51.100.7" 0; Acquire "203.0.113.9" 0; Acquire "198.51.100.7" 0; PruneAt 0; Acquire "198.51.100.7" 0;
   AskRetry "198.51.100.7" 0; Acquire "198.51.100.7" 0].

(** Half an hour later, one and a half have come back. *)
Definition laterCalls : list Call :=
  [Acquire "198.51.100.7" 1800000000000; Acquire "198.51.100.7" 1800000000000; PruneAt 3600000000000;
   Acquire "203.0.113.9" 3600000000000].

Example sample_waits : (retryAfter "198.51.100.7" 0 (runCalls sampleCalls (newLimiter 3 3600))).1 = 1200.
Proof. by vm_compute. Qed.

Lemma rate_bound_witness :
  granted "198.51.100.7" laterCalls (runCalls sampleCalls (newLimiter 3 3600)) = 1 ∧
  granted "198.51.100.7" laterCalls (runCalls sampleCalls (newLimiter 3 3600)) * (3600 * NANOSECONDS)
    ≤ 4 * (3600 * NANOSECONDS) + 3600000000000 * 3.
Proof.
  split; [by vm_compute|].
  apply (rate_bound "198.51.100.7" 3 3600 sampleCalls laterCalls 0); [lia|lia|by vm_compute|cbn; lia].
Defined.

Lemma burst_correct_witness :
  granted "198.51.100.7" sampleCalls (newLimiter 3 3600) = 3 ∧
  granted "203.0.113.9" sampleCalls (newLimiter 0 0) = 1.
Proof.
  split.
  - assert (Hall : Forall (λ c, callTime c = 0) sampleCalls) by (repeat constructor).
    destruct (burst_correct "198.51.100.7" 3 3600 0 laterCalls sampleCalls (newLimiter 3 3600)) as [E _]; [lia|exact Hall|].
    exact (eq_trans E eq_refl).
  - assert (Hall : Forall (λ c, callTime c = 0) sampleCalls) by (repeat constructor).
    destruct (burst_correct "203.0.113.9" 0 0 0 laterCalls sampleCalls (newLimiter 3 3600)) as [E _]; [lia|exact Hall|].
    exact (eq_trans E eq_refl).
Defined.
