(* ===== verification/Signature.v ===== *)
(** Detached signatures: [src/common/Signature.h] and [src/common/Signature.cpp].

    Base64 is libsodium's and the curve is OpenSSL's: both are the class [Openssl].  What is
    modelled is what the code asks of them, in which order, and what it refuses. *)

From S2P Require Import Prelude.
From S2P Require Import Errors.

(** ** The libraries *)

Class Openssl := {
  (** [sodium_base642bin] of the original variant, white space ignored: the bytes, and how
      many characters were read before the first that is no base64. *)
  base642bin : string → option (list ascii * nat);
  Pkey : Type;
  (** [d2i_PUBKEY] *)
  d2i_PUBKEY : list ascii → option Pkey;
  (** [EVP_PKEY_is_a(key, 'EC')], [EVP_PKEY_get_bits] and the group name. *)
  keyIsEc : Pkey → bool;
  keyBits : Pkey → Z;
  groupName : Pkey → option string;
  (** [EVP_DigestVerifyInit] with SHA-256, and [EVP_DigestVerify]. *)
  digestVerifyInit : Pkey → bool;
  digestVerify : Pkey → list ascii → list ascii → Z
}.

(** ** Operations *)

Section Signature.
Context `{Openssl}.

Definition MAX_ENCODED_LENGTH : Z := 4096.
Definition P256_KEY_BITS : Z := 256.

Definition isP256GroupName (name : string) : bool :=
  bool_decide (name = "prime256v1"%stdpp) || bool_decide (name = "P-256"%stdpp) || bool_decide (name = "secp256r1"%stdpp).

Definition decodeBase64 (encoded : string) : Result (list ascii) :=
  if MAX_ENCODED_LENGTH <? size encoded then failure InvalidInput "the value is too long"
  else
    match base642bin encoded with
    | None => failure InvalidInput "the value is not valid base64"
    | Some (decoded, read) =>
        if negb (Z.of_nat read =? size encoded) then
          failure InvalidInput "the value has trailing characters that are not base64"
        else Success decoded
    end.

Definition loadP256PublicKey (base64PublicKey : string) : Result Pkey :=
  if bool_decide (base64PublicKey = ""%stdpp) then failure InvalidInput "the public key is empty"
  else
    match decodeBase64 base64PublicKey with
    | Failure e =>
        failure InvalidInput ("the public key is not base64: " +:+ detail e
          +:+ " (expected the body of a PEM 'BEGIN PUBLIC KEY' block, without its two delimiter lines)")
    | Success keyBytes =>
        match d2i_PUBKEY keyBytes with
        | None => failure InvalidInput "the public key is not a DER SubjectPublicKeyInfo document"
        | Some key =>
            if negb (keyIsEc key) || negb (keyBits key =? P256_KEY_BITS) then
              failure InvalidInput ("the public key is not an elliptic-curve P-256 key; generate one with "
                +:+ "'openssl ecparam -name prime256v1 -genkey -noout -out release-signing.key'")
            else if negb (from_option isP256GroupName false (groupName key)) then
              failure InvalidInput "the public key is on a curve other than P-256"
            else Success key
        end
    end.

Definition validateP256PublicKey (base64PublicKey : string) : VoidResult :=
  match loadP256PublicKey base64PublicKey with Failure e => Failure e | Success _ => Success tt end.

Definition verifyP256Signature (base64PublicKey base64Signature message : string) : VoidResult :=
  match loadP256PublicKey base64PublicKey with Failure e => Failure e | Success key =>
  match decodeBase64 base64Signature with
  | Failure e => failure InvalidInput ("the signature is not base64: " +:+ detail e)
  | Success signature =>
      match signature with
      | [] => failure InvalidInput "the signature is empty"
      | _ =>
          if negb (digestVerifyInit key) then
            failure Internal "the signature could not be checked: OpenSSL refused to start a verification"
          else if negb (digestVerify key signature (chars message) =? 1) then
            failure InvalidInput "the signature does not match this document and key"
          else Success tt
      end
  end end.

(** ** Specification *)

(** A text that is the key of a P-256 curve, and a signature of the message under it. *)
Definition IsP256Key (text : string) (key : Pkey) : Prop :=
  text ≠ ""%stdpp ∧ ∃ bytes, decodeBase64 text = Success bytes ∧ d2i_PUBKEY bytes = Some key
    ∧ keyIsEc key = true ∧ keyBits key = P256_KEY_BITS
    ∧ ∃ name, groupName key = Some name ∧ name ∈ ["prime256v1"; "P-256"; "secp256r1"]%stdpp.

Definition Signed (publicKey signature message : string) : Prop :=
  ∃ key bytes, IsP256Key publicKey key ∧ decodeBase64 signature = Success bytes ∧ bytes ≠ []
    ∧ digestVerifyInit key = true ∧ digestVerify key bytes (chars message) = 1.

Lemma isP256GroupName_spec name : isP256GroupName name = true ↔ name ∈ ["prime256v1"; "P-256"; "secp256r1"]%stdpp.
Proof.
  unfold isP256GroupName. rewrite !orb_true_iff, !bool_decide_eq_true, !elem_of_cons.
  pose proof (not_elem_of_nil name). tauto.
Qed.

Lemma loadP256PublicKey_spec text key : loadP256PublicKey text = Success key ↔ IsP256Key text key.
Proof.
  unfold loadP256PublicKey, IsP256Key. case_bool_decide as E; [split; [done|by intros [? _]]|].
  destruct (decodeBase64 text) as [bytes|e]; [|split; [done|by intros (_ & ? & ? & _)]].
  destruct (d2i_PUBKEY bytes) as [k|] eqn:Ek; [|split; [done|intros (_ & ? & [= <-] & ? & _); congruence]].
  destruct (keyIsEc k) eqn:Ee; [|split; [done|intros (_ & ? & [= <-] & ? & ? & _); congruence]].
  destruct (Z.eqb_spec (keyBits k) P256_KEY_BITS) as [Eb|Eb]; [|split; [done|intros (_ & ? & [= <-] & ? & ? & ? & _); congruence]].
  cbn [negb orb]. destruct (groupName k) as [name|] eqn:Eg; cbn [from_option].
  - destruct (isP256GroupName name) eqn:En; cbn [negb].
    + apply isP256GroupName_spec in En. split; [intros [= <-]; eauto 10|]. intros (_ & ? & [= <-] & ? & _). congruence.
    + split; [done|]. intros (_ & ? & [= <-] & ? & _ & _ & name' & Eg' & Hn). apply isP256GroupName_spec in Hn. congruence.
  - split; [done|]. intros (_ & ? & [= <-] & ? & _ & _ & name' & Eg' & Hn). congruence.
Qed.

Lemma verifyP256Signature_spec publicKey signature message :
  verifyP256Signature publicKey signature message = Success tt ↔ Signed publicKey signature message.
Proof.
  unfold verifyP256Signature, Signed. setoid_rewrite <- loadP256PublicKey_spec.
  destruct (loadP256PublicKey publicKey) as [key|]; [|split; [done|by intros (? & ? & ? & _)]].
  destruct (decodeBase64 signature) as [bytes|]; [|split; [done|by intros (? & ? & _ & ? & _)]].
  destruct bytes as [|b bytes]; [split; [done|by intros (? & ? & _ & [= <-] & ? & _)]|].
  destruct (digestVerifyInit key) eqn:Ei; [|split; [done|intros (? & ? & [= <-] & _ & _ & ? & _); congruence]]. cbn [negb].
  destruct (Z.eqb_spec (digestVerify key (b :: bytes) (chars message)) 1) as [E|E]; cbn [negb].
  - split; [|done]. intros _. by exists key, (b :: bytes).
  - split; [done|]. by intros (? & ? & [= <-] & [= <-] & _ & _ & ?).
Qed.
End Signature.
