(* ===== verification/Config.v ===== *)
(** The configuration: [src/app/Config.h] and [src/app/Config.cpp]. *)

From Stdlib Require Import SpecFloat.
From S2P Require Import Prelude.
From S2P Require Import Errors.
From S2P Require Import Json.
From S2P Require Import EnvInterpolation.
From S2P Require Import Signature.

(** ** Data *)

Record ServerConfig := mkServerConfig {
  listenAddress : string;
  serverPort : Z;
  adminListenAddress : string;
  adminPort : Z;
  adminEnabled : bool;
  threadCount : Z;
  maxDocumentBytes : Z;
  maxAnonymousBodyBytes : Z;
  trustedProxies : list string
}.

Record SecurityConfig := mkSecurityConfig { hsts : bool; hstsMaxAgeSeconds : Z }.

Record DatabaseConfig := mkDatabaseConfig {
  databaseHost : string;
  databasePort : Z;
  databaseName : string;
  databaseUser : string;
  databasePassword : string;
  connectionCount : Z
}.

Record LoggingConfig := mkLoggingConfig { logLevel : string; logDirectory : string; logJson : bool }.

Record StorageConfig := mkStorageConfig {
  blobRoot : string;
  storageBaseUrl : string;
  secureLinkSecret : string;
  signedUrlTtlSeconds : Z
}.

Record MediaConfig := mkMediaConfig {
  mediaRoot : string;
  mediaBaseUrl : string;
  mediaMaxBytes : Z;
  mediaMaxVideoBytes : Z
}.

Record LauncherReleaseConfig := mkLauncherReleaseConfig {
  releaseRoot : string;
  releasesBaseUrl : string;
  publicKey : string
}.

Record AuthConfig := mkAuthConfig {
  jwtSecret : string;
  jwtIssuer : string;
  accessTokenTtlSeconds : Z;
  refreshTokenTtlSeconds : Z;
  emailVerificationTtlSeconds : Z;
  passwordResetTtlSeconds : Z;
  configRequireVerifiedEmail : bool;
  argon2OperationsLimit : Z;
  argon2MemoryLimitBytes : Z
}.

Inductive MailTransport := TransportSmtp | TransportLog | TransportNone.
Inductive MailSecurity := SecurityNone | SecurityStartTls | SecurityTls.

#[export] Instance MailTransport_eq_dec : EqDecision MailTransport.
Proof. solve_decision. Defined.

Record MailConfig := mkMailConfig {
  transport : MailTransport;
  smtpHost : string;
  smtpPort : Z;
  smtpUsername : string;
  smtpPassword : string;
  mailSecurity : MailSecurity;
  fromAddress : string;
  fromName : string;
  configLinkBaseUrl : string;
  configProductName : string;
  timeoutSeconds : Z;
  sendAttempts : Z;
  sendWindowSeconds : Z
}.

Record RateLimitConfig := mkRateLimitConfig {
  authAttempts : Z;
  authWindowSeconds : Z;
  accountRequests : Z;
  accountWindowSeconds : Z
}.

Record UpdateConfig := mkUpdateConfig { thresholdRatio : double }.

Record UploadConfig := mkUploadConfig {
  defaultQuotaBytes : Z;
  uploadMaxBlobBytes : Z;
  uploadMaxChunkBytes : Z;
  sessionTtlSeconds : Z;
  uploadMaxOpenSessions : Z;
  uploadSweepSeconds : Z
}.

Record CrashReportConfig := mkCrashReportConfig {
  crashReportsEnabled : bool;
  submitAttempts : Z;
  submitWindowSeconds : Z;
  crashRetentionSeconds : Z;
  crashSweepSeconds : Z
}.

Record RetentionConfig := mkRetentionConfig {
  configBlobGraceSeconds : Z;
  retentionSweepSeconds : Z;
  sweepBatchSize : Z
}.

Record AppConfig := mkAppConfig {
  environment : string;
  migrationsDirectory : string;
  serverConfig : ServerConfig;
  securityConfig : SecurityConfig;
  databaseConfig : DatabaseConfig;
  loggingConfig : LoggingConfig;
  storageConfig : StorageConfig;
  mediaConfig : MediaConfig;
  launcherReleaseConfig : LauncherReleaseConfig;
  authConfig : AuthConfig;
  mailConfig : MailConfig;
  rateLimitConfig : RateLimitConfig;
  updateConfig : UpdateConfig;
  uploadConfig : UploadConfig;
  retentionConfig : RetentionConfig;
  crashReportConfig : CrashReportConfig
}.

(** What a document that says nothing gets. *)
Definition defaultServer : ServerConfig :=
  mkServerConfig "0.0.0.0" 8080 "127.0.0.1" 9090 false 0 (16 * 1024 * 1024) (64 * 1024) [].
Definition defaultSecurity : SecurityConfig := mkSecurityConfig false 15552000.
Definition defaultDatabase : DatabaseConfig := mkDatabaseConfig "localhost" 5432 "launcher" "launcher" "" 4.
Definition defaultLogging : LoggingConfig := mkLoggingConfig "info" "" true.
Definition defaultStorage : StorageConfig := mkStorageConfig "/data/blobs" "http://localhost:8081/files" "" 3600.
Definition defaultMedia : MediaConfig :=
  mkMediaConfig "/data/media" "http://localhost:8081/media" (5 * 1024 * 1024) (64 * 1024 * 1024).
Definition defaultLauncherReleases : LauncherReleaseConfig :=
  mkLauncherReleaseConfig "/data/launcher" "http://localhost:8081/launcher" "".
Definition defaultAuth : AuthConfig := mkAuthConfig "" "custom-game-launcher" 900 2592000 86400 3600 true 0 0.
Definition defaultMail : MailConfig :=
  mkMailConfig TransportLog "" 587 "" "" SecurityStartTls "" "Custom Game Launcher" "http://localhost:8080"
    "Custom Game Launcher" 10 3 900.
Definition defaultRateLimit : RateLimitConfig := mkRateLimitConfig 10 60 600 60.
(** 0.7, as the double nearest to it. *)
Definition defaultUpdates : UpdateConfig := mkUpdateConfig (S754_finite false 6305039478318694 (-53)).
Definition defaultUploads : UploadConfig :=
  mkUploadConfig (5 * 1024 * 1024 * 1024) (2 * 1024 * 1024 * 1024) (8 * 1024 * 1024) 86400 16 600.
Definition defaultCrashReports : CrashReportConfig := mkCrashReportConfig true 20 600 (30 * 24 * 3600) 3600.
Definition defaultRetention : RetentionConfig := mkRetentionConfig 86400 3600 500.

Definition mailConfigured (m : MailConfig) : bool := negb (bool_decide (transport m = TransportNone)).

Definition releasesConfigured (r : LauncherReleaseConfig) : bool := negb (bool_decide (publicKey r = ""%stdpp)).

Definition isProduction (c : AppConfig) : bool := bool_decide (environment c = "production"%stdpp).

Definition connectionString (d : DatabaseConfig) : string :=
  "host=" +:+ databaseHost d +:+ " port=" +:+ toDecimal (databasePort d) +:+ " dbname=" +:+ databaseName d
  +:+ " user=" +:+ databaseUser d +:+ " password=" +:+ databasePassword d.

Definition parseMailTransport (value : string) : option MailTransport :=
  if bool_decide (value = "smtp"%stdpp) then Some TransportSmtp
  else if bool_decide (value = "log"%stdpp) then Some TransportLog
  else if bool_decide (value = "none"%stdpp) then Some TransportNone
  else None.

Definition parseMailSecurity (value : string) : option MailSecurity :=
  if bool_decide (value = "none"%stdpp) then Some SecurityNone
  else if bool_decide (value = "starttls"%stdpp) then Some SecurityStartTls
  else if bool_decide (value = "tls"%stdpp) then Some SecurityTls
  else None.

Definition isDevelopmentPlaceholder (secret : string) : bool :=
  match findSub (chars "dev-insecure") (chars secret) with Some _ => true | None => false end.

(** The double quote. *)
Definition DOUBLE_QUOTE : ascii := "034"%char.

(** A value between quotes, as the messages show it. *)
Definition quoted (s : string) : string := text (DOUBLE_QUOTE :: chars s ++ [DOUBLE_QUOTE]).

(** ** Reading *)

Section Reading.
Context `{Jsoncpp}.

(** A field, where it is there and of the right kind; nothing at all is an exception. *)
Definition readField {A} (node : Value) (key : string) (kind : Value → bool) (convert : Value → option A) (fallback : A)
    : option A :=
  present ← isMember node key;
  if present && kind (member node key) then convert (member node key) else Some fallback.

Definition readText (node : Value) (key fallback : string) : option string :=
  readField node key isString asString fallback.

Definition readBool (node : Value) (key : string) (fallback : bool) : option bool :=
  readField node key isBool asBool fallback.

Definition readDouble (node : Value) (key : string) (fallback : double) : option double :=
  readField node key isNumeric asDouble fallback.

(** [static_cast<T>] keeps the low bits. *)
Definition readUnsigned (width : Z) (node : Value) (key : string) (fallback : Z) : option Z :=
  readField node key isNumeric (λ v, wrapUnsigned width <$> asInt64 v) fallback.

Definition readSigned (width : Z) (node : Value) (key : string) (fallback : Z) : option Z :=
  readField node key isNumeric (λ v, wrapSigned width <$> asInt64 v) fallback.

(** The texts of a list that are not empty. *)
Definition stringsOf (l : list Value) : option (list string) :=
  foldr (λ v rest, s ← (if isString v then asString v else Some ""%stdpp); values ← rest;
    Some (if bool_decide (s = ""%stdpp) then values else s :: values)) (Some []) l.

Definition readStrings (node : Value) (key : string) (fallback : list string) : option (list string) :=
  readField node key isArray (λ v, stringsOf (elements v)) fallback.

Definition parseServer (node : Value) : option ServerConfig :=
  let d := defaultServer in
  address ← readText node "listenAddress" (listenAddress d);
  port ← readUnsigned 16 node "port" (serverPort d);
  adminAddress ← readText node "adminListenAddress" (adminListenAddress d);
  admin ← readUnsigned 16 node "adminPort" (adminPort d);
  enabled ← readBool node "adminEnabled" (adminEnabled d);
  threads ← readUnsigned 64 node "threadCount" (threadCount d);
  document ← readSigned 64 node "maxDocumentBytes" (maxDocumentBytes d);
  anonymous ← readSigned 64 node "maxAnonymousBodyBytes" (maxAnonymousBodyBytes d);
  proxies ← readStrings node "trustedProxies" (trustedProxies d);
  Some (mkServerConfig address port adminAddress admin enabled threads document anonymous proxies).

Definition parseSecurity (node : Value) : option SecurityConfig :=
  on ← readBool node "hsts" (hsts defaultSecurity);
  age ← readUnsigned 32 node "hstsMaxAgeSeconds" (hstsMaxAgeSeconds defaultSecurity);
  Some (mkSecurityConfig on age).

Definition parseDatabase (node : Value) : option DatabaseConfig :=
  let d := defaultDatabase in
  host ← readText node "host" (databaseHost d);
  port ← readUnsigned 16 node "port" (databasePort d);
  name ← readText node "name" (databaseName d);
  user ← readText node "user" (databaseUser d);
  password ← readText node "password" (databasePassword d);
  connections ← readUnsigned 64 node "connectionCount" (connectionCount d);
  Some (mkDatabaseConfig host port name user password connections).

Definition parseLogging (node : Value) : option LoggingConfig :=
  level ← readText node "level" (logLevel defaultLogging);
  directory ← readText node "directory" (logDirectory defaultLogging);
  json ← readBool node "json" (logJson defaultLogging);
  Some (mkLoggingConfig level directory json).

Definition parseStorage (node : Value) : option StorageConfig :=
  let d := defaultStorage in
  root ← readText node "blobRoot" (blobRoot d);
  base ← readText node "publicBaseUrl" (storageBaseUrl d);
  secret ← readText node "secureLinkSecret" (secureLinkSecret d);
  ttl ← readUnsigned 32 node "signedUrlTtlSeconds" (signedUrlTtlSeconds d);
  Some (mkStorageConfig root base secret ttl).

Definition parseMedia (node : Value) : option MediaConfig :=
  let d := defaultMedia in
  root ← readText node "root" (mediaRoot d);
  base ← readText node "publicBaseUrl" (mediaBaseUrl d);
  image ← readSigned 64 node "maxBytes" (mediaMaxBytes d);
  video ← readSigned 64 node "maxVideoBytes" (mediaMaxVideoBytes d);
  Some (mkMediaConfig root base image video).

Definition parseLauncherReleases (node : Value) : option LauncherReleaseConfig :=
  let d := defaultLauncherReleases in
  root ← readText node "root" (releaseRoot d);
  base ← readText node "publicBaseUrl" (releasesBaseUrl d);
  key ← readText node "publicKey" (publicKey d);
  Some (mkLauncherReleaseConfig root base key).

Definition parseRetention (node : Value) : option RetentionConfig :=
  let d := defaultRetention in
  grace ← readUnsigned 32 node "blobGraceSeconds" (configBlobGraceSeconds d);
  interval ← readUnsigned 32 node "sweepIntervalSeconds" (retentionSweepSeconds d);
  batch ← readSigned 32 node "sweepBatchSize" (sweepBatchSize d);
  Some (mkRetentionConfig grace interval batch).

Definition parseCrashReports (node : Value) : option CrashReportConfig :=
  let d := defaultCrashReports in
  enabled ← readBool node "enabled" (crashReportsEnabled d);
  attempts ← readUnsigned 32 node "submitAttempts" (submitAttempts d);
  window ← readUnsigned 32 node "submitWindowSeconds" (submitWindowSeconds d);
  retention ← readUnsigned 32 node "retentionSeconds" (crashRetentionSeconds d);
  interval ← readUnsigned 32 node "sweepIntervalSeconds" (crashSweepSeconds d);
  Some (mkCrashReportConfig enabled attempts window retention interval).

Definition parseAuth (node : Value) : option AuthConfig :=
  let d := defaultAuth in
  secret ← readText node "jwtSecret" (jwtSecret d);
  issuer ← readText node "issuer" (jwtIssuer d);
  access ← readUnsigned 32 node "accessTokenTtlSeconds" (accessTokenTtlSeconds d);
  refreshing ← readUnsigned 32 node "refreshTokenTtlSeconds" (refreshTokenTtlSeconds d);
  verification ← readUnsigned 32 node "emailVerificationTtlSeconds" (emailVerificationTtlSeconds d);
  reset ← readUnsigned 32 node "passwordResetTtlSeconds" (passwordResetTtlSeconds d);
  verified ← readBool node "requireVerifiedEmail" (configRequireVerifiedEmail d);
  operations ← readUnsigned 64 node "argon2OperationsLimit" (argon2OperationsLimit d);
  memory ← readUnsigned 64 node "argon2MemoryLimitBytes" (argon2MemoryLimitBytes d);
  Some (mkAuthConfig secret issuer access refreshing verification reset verified operations memory).

(** The two names are refused where they are read; a key is read after them. *)
Definition parseMail (node : Value) : option (Result MailConfig) :=
  let d := defaultMail in
  transportName ← readText node "transport" "log";
  match parseMailTransport transportName with
  | None => Some (failure InvalidInput ("mail.transport must be one of smtp, log or none, not " +:+ quoted transportName))
  | Some transport =>
      securityName ← readText node "security" "starttls";
      match parseMailSecurity securityName with
      | None => Some (failure InvalidInput ("mail.security must be one of none, starttls or tls, not " +:+ quoted securityName))
      | Some security =>
          host ← readText node "host" (smtpHost d);
          port ← readUnsigned 16 node "port" (smtpPort d);
          username ← readText node "username" (smtpUsername d);
          password ← readText node "password" (smtpPassword d);
          address ← readText node "fromAddress" (fromAddress d);
          name ← readText node "fromName" (fromName d);
          link ← readText node "linkBaseUrl" (configLinkBaseUrl d);
          product ← readText node "productName" (configProductName d);
          timeout ← readUnsigned 32 node "timeoutSeconds" (timeoutSeconds d);
          attempts ← readUnsigned 32 node "sendAttempts" (sendAttempts d);
          window ← readUnsigned 32 node "sendWindowSeconds" (sendWindowSeconds d);
          Some (Success (mkMailConfig transport host port username password security address name link product
            timeout attempts window))
      end
  end.

Definition parseRateLimit (node : Value) : option RateLimitConfig :=
  let d := defaultRateLimit in
  attempts ← readUnsigned 32 node "authAttempts" (authAttempts d);
  window ← readUnsigned 32 node "authWindowSeconds" (authWindowSeconds d);
  requests ← readUnsigned 32 node "accountRequests" (accountRequests d);
  accountWindow ← readUnsigned 32 node "accountWindowSeconds" (accountWindowSeconds d);
  Some (mkRateLimitConfig attempts window requests accountWindow).

Definition parseUpdates (node : Value) : option UpdateConfig :=
  mkUpdateConfig <$> readDouble node "fullDownloadThresholdRatio" (thresholdRatio defaultUpdates).

Definition parseUploads (node : Value) : option UploadConfig :=
  let d := defaultUploads in
  quota ← readSigned 64 node "defaultQuotaBytes" (defaultQuotaBytes d);
  blob ← readSigned 64 node "maxBlobBytes" (uploadMaxBlobBytes d);
  chunk ← readSigned 64 node "maxChunkBytes" (uploadMaxChunkBytes d);
  ttl ← readUnsigned 32 node "sessionTtlSeconds" (sessionTtlSeconds d);
  open ← readSigned 64 node "maxOpenSessionsPerUser" (uploadMaxOpenSessions d);
  interval ← readUnsigned 32 node "sweepIntervalSeconds" (uploadSweepSeconds d);
  Some (mkUploadConfig quota blob chunk ttl open interval).
End Reading.

(** ** Validation *)

Section Config.
Context `{Jsoncpp, Openssl}.

(** A [double] that is not within (0, 1]. *)
Definition ratioOutside (x : double) : bool := SFleb x (S754_zero false) || SFltb (S754_finite false 4503599627370496 (-52)) x.

Definition refused (message : string) : VoidResult := failure InvalidInput message.

(** The rules that hold outside development. *)
Definition validateDeployed (c : AppConfig) : VoidResult :=
  if size (jwtSecret (authConfig c)) <? 32 then refused "auth.jwtSecret must be at least 32 characters outside development"
  else if bool_decide (secureLinkSecret (storageConfig c) = ""%stdpp) then
    refused "storage.secureLinkSecret is required outside development"
  else if isDevelopmentPlaceholder (jwtSecret (authConfig c)) || isDevelopmentPlaceholder (secureLinkSecret (storageConfig c)) then
    refused "auth.jwtSecret and storage.secureLinkSecret still hold the development placeholders this repository ships: set JWT_SECRET and FILE_SECURE_LINK_SECRET to secrets of your own outside development"
  else if bool_decide (databasePassword (databaseConfig c) = ""%stdpp) then
    refused "database.password is required outside development"
  else if bool_decide (transport (mailConfig c) = TransportLog) then
    refused ("mail.transport " +:+ quoted "log" +:+ " is a development affordance and writes reset links into the log: set MAIL_TRANSPORT to smtp, or to none if this deployment sends no mail at all")
  else if negb (mailConfigured (mailConfig c)) && configRequireVerifiedEmail (authConfig c) then
    refused ("auth.requireVerifiedEmail cannot be true while mail.transport is " +:+ quoted "none" +:+ ": nothing would ever deliver the verification link, so no account could sign in")
  else Success tt.

(** A signing key that is there is a key, and has somewhere to serve from. *)
Definition validateReleases (c : AppConfig) : VoidResult :=
  let releases := launcherReleaseConfig c in
  if bool_decide (publicKey releases = ""%stdpp) then Success tt
  else
    match validateP256PublicKey (publicKey releases) with
    | Failure e => refused ("launcherReleases.publicKey is not usable: " +:+ detail e)
    | Success _ =>
        if bool_decide (releaseRoot releases = ""%stdpp) || bool_decide (releasesBaseUrl releases = ""%stdpp) then
          refused "launcherReleases.root and launcherReleases.publicBaseUrl are required when a release signing key is configured"
        else Success tt
    end.

Definition validateMail (m : MailConfig) : VoidResult :=
  if mailConfigured m && bool_decide (configLinkBaseUrl m = ""%stdpp) then
    refused "mail.linkBaseUrl is required when mail is enabled: a verification link with no origin is not a link"
  else if mailConfigured m && ((sendAttempts m =? 0) || (sendWindowSeconds m =? 0) || (timeoutSeconds m =? 0)) then
    refused "mail.sendAttempts, mail.sendWindowSeconds and mail.timeoutSeconds must be positive"
  else if bool_decide (transport m = TransportSmtp) && (bool_decide (smtpHost m = ""%stdpp) || bool_decide (fromAddress m = ""%stdpp)) then
    refused "mail.host and mail.fromAddress are required when mail.transport is smtp: set SMTP_HOST and MAIL_FROM_ADDRESS"
  else Success tt.

Definition validate (c : AppConfig) : VoidResult :=
  let s := serverConfig c in
  let u := uploadConfig c in
  let r := rateLimitConfig c in
  if serverPort s =? 0 then refused "server.port must be non-zero"
  else if adminEnabled s && (adminPort s =? serverPort s) then
    refused "server.adminPort must differ from server.port: the admin surface is separated by the listener a request arrives on"
  else if adminEnabled s && (adminPort s =? 0) then
    refused "server.adminPort must be non-zero when the admin surface is enabled"
  else if bool_decide (databaseName (databaseConfig c) = ""%stdpp) || bool_decide (databaseUser (databaseConfig c) = ""%stdpp) then
    refused "database.name and database.user are required"
  else if ratioOutside (thresholdRatio (updateConfig c)) then
    refused "updates.fullDownloadThresholdRatio must be within (0, 1]"
  else if defaultQuotaBytes u <=? 0 then refused "uploads.defaultQuotaBytes must be positive"
  else if (uploadMaxBlobBytes u <=? 0) || (uploadMaxChunkBytes u <=? 0) then
    refused "uploads.maxBlobBytes and uploads.maxChunkBytes must be positive"
  else if uploadMaxBlobBytes u <? uploadMaxChunkBytes u then
    refused "uploads.maxChunkBytes cannot exceed uploads.maxBlobBytes: a chunk is part of a file"
  else if (maxDocumentBytes s <=? 0) || (maxAnonymousBodyBytes s <=? 0) then
    refused "server.maxDocumentBytes and server.maxAnonymousBodyBytes must be positive"
  else if maxDocumentBytes s <? maxAnonymousBodyBytes s then
    refused "server.maxAnonymousBodyBytes cannot exceed server.maxDocumentBytes: it is the tighter of the two"
  else if (authAttempts r =? 0) || (authWindowSeconds r =? 0) || (accountRequests r =? 0) || (accountWindowSeconds r =? 0) then
    refused "every rateLimit value must be positive"
  else
    let? _ := validateMail (mailConfig c) in
    let? _ := validateReleases c in
    if (sessionTtlSeconds u =? 0) || (uploadMaxOpenSessions u <=? 0) then
      refused "uploads.sessionTtlSeconds and uploads.maxOpenSessionsPerUser must be positive"
    else if bool_decide (environment c ≠ "development"%stdpp) then validateDeployed c
    else Success tt.

(** ** Loading *)

(** The sections in the order they are read; what the parser has to say is left off. *)
Definition parse (json : string) (lookup : EnvLookup) : option (Result AppConfig) :=
  match interpolateEnv json lookup with
  | None => None
  | Some (Failure e) => Some (Failure e)
  | Some (Success expanded) =>
      match readJson (text expanded) with
      | None => Some (failure InvalidInput "invalid configuration JSON: ")
      | Some root =>
          if negb (isObject root) then Some (failure InvalidInput "configuration root must be a JSON object")
          else
            name ← readText root "environment" "development";
            migrations ← readText root "migrationsDirectory" "migrations";
            server ← parseServer (member root "server");
            security ← parseSecurity (member root "security");
            database ← parseDatabase (member root "database");
            logging ← parseLogging (member root "logging");
            storage ← parseStorage (member root "storage");
            media ← parseMedia (member root "media");
            releases ← parseLauncherReleases (member root "launcherReleases");
            retention ← parseRetention (member root "retention");
            crashes ← parseCrashReports (member root "crashReports");
            auth ← parseAuth (member root "auth");
            mailRead ← parseMail (member root "mail");
            match mailRead with
            | Failure e => Some (Failure e)
            | Success mail =>
                limits ← parseRateLimit (member root "rateLimit");
                updates ← parseUpdates (member root "updates");
                uploads ← parseUploads (member root "uploads");
                let config := mkAppConfig name migrations server security database logging storage media releases
                  auth mail limits updates uploads retention crashes in
                Some (let? _ := validate config in Success config)
            end
      end
  end.

(** [content] is what the path leads to, if it can be opened. *)
Definition loadFromFile (path : string) (content : option string) (lookup : EnvLookup) : option (Result AppConfig) :=
  match content with
  | None => Some (failure NotFound ("configuration file not found: " +:+ path))
  | Some json => parse json lookup
  end.

Definition resolveConfigPath (explicitPath : string) (lookup : EnvLookup) : string :=
  if bool_decide (explicitPath ≠ ""%stdpp) then explicitPath
  else
    match lookup "LAUNCHER_CONFIG"%stdpp with
    | Some fromEnv =>
        if bool_decide (fromEnv ≠ ""%stdpp) then fromEnv
        else "config/config." +:+ default "development"%stdpp (lookup "LAUNCHER_ENV"%stdpp) +:+ ".json"
    | None => "config/config." +:+ default "development"%stdpp (lookup "LAUNCHER_ENV"%stdpp) +:+ ".json"
    end.
End Config.

(** ** Specification *)

Section Spec.
Context `{Openssl}.

(** What a deployment outside development does not run without: secrets of its own, a password
    to its database, and a way for a new account to confirm its address, or no need to. *)
Record Deployed (c : AppConfig) : Prop := {
  deployed_jwtSecret : 32 ≤ size (jwtSecret (authConfig c));
  deployed_linkSecret : secureLinkSecret (storageConfig c) ≠ ""%stdpp;
  deployed_own_secrets : isDevelopmentPlaceholder (jwtSecret (authConfig c)) = false
    ∧ isDevelopmentPlaceholder (secureLinkSecret (storageConfig c)) = false;
  deployed_database : databasePassword (databaseConfig c) ≠ ""%stdpp;
  deployed_no_log : transport (mailConfig c) ≠ TransportLog;
  deployed_can_verify : configRequireVerifiedEmail (authConfig c) = true → transport (mailConfig c) ≠ TransportNone
}.

(** A configuration that is safe to run. *)
Record SafeToRun (c : AppConfig) : Prop := {
  safe_port : serverPort (serverConfig c) ≠ 0;
  safe_admin : adminEnabled (serverConfig c) = true →
    adminPort (serverConfig c) ≠ serverPort (serverConfig c) ∧ adminPort (serverConfig c) ≠ 0;
  safe_database : databaseName (databaseConfig c) ≠ ""%stdpp ∧ databaseUser (databaseConfig c) ≠ ""%stdpp;
  safe_ratio : ratioOutside (thresholdRatio (updateConfig c)) = false;
  safe_uploads : 0 < defaultQuotaBytes (uploadConfig c)
    ∧ 0 < uploadMaxChunkBytes (uploadConfig c) ≤ uploadMaxBlobBytes (uploadConfig c)
    ∧ sessionTtlSeconds (uploadConfig c) ≠ 0 ∧ 0 < uploadMaxOpenSessions (uploadConfig c);
  safe_bodies : 0 < maxAnonymousBodyBytes (serverConfig c) ≤ maxDocumentBytes (serverConfig c);
  safe_limits : authAttempts (rateLimitConfig c) ≠ 0 ∧ authWindowSeconds (rateLimitConfig c) ≠ 0
    ∧ accountRequests (rateLimitConfig c) ≠ 0 ∧ accountWindowSeconds (rateLimitConfig c) ≠ 0;
  safe_mail : transport (mailConfig c) ≠ TransportNone →
    configLinkBaseUrl (mailConfig c) ≠ ""%stdpp ∧ sendAttempts (mailConfig c) ≠ 0
    ∧ sendWindowSeconds (mailConfig c) ≠ 0 ∧ timeoutSeconds (mailConfig c) ≠ 0;
  safe_smtp : transport (mailConfig c) = TransportSmtp →
    smtpHost (mailConfig c) ≠ ""%stdpp ∧ fromAddress (mailConfig c) ≠ ""%stdpp;
  safe_releases : publicKey (launcherReleaseConfig c) ≠ ""%stdpp →
    validateP256PublicKey (publicKey (launcherReleaseConfig c)) = Success tt
    ∧ releaseRoot (launcherReleaseConfig c) ≠ ""%stdpp ∧ releasesBaseUrl (launcherReleaseConfig c) ≠ ""%stdpp;
  safe_deployed : environment c ≠ "development"%stdpp → Deployed c
}.

(** A guard of a list of guards. *)
Lemma guard_success (b : bool) message (rest : VoidResult) :
  (if b then refused message else rest) = Success tt ↔ b = false ∧ rest = Success tt.
Proof. destruct b; [split; [done|intros [? _]; done]|tauto]. Qed.

Lemma let_success (r rest : VoidResult) : (let? _ := r in rest) = Success tt ↔ r = Success tt ∧ rest = Success tt.
Proof. destruct r as [[]|e]; [tauto|split; [done|intros [? _]; done]]. Qed.

Lemma mailConfigured_spec m : mailConfigured m = true ↔ transport m ≠ TransportNone.
Proof. unfold mailConfigured. rewrite negb_true_iff, bool_decide_eq_false. tauto. Qed.

Ltac guards := repeat (rewrite guard_success); rewrite ?orb_false_iff, ?andb_false_iff, ?orb_false_iff, ?bool_decide_eq_false,
  ?Z.eqb_neq, ?Z.leb_gt, ?Z.ltb_ge.

Lemma validateDeployed_spec c : validateDeployed c = Success tt ↔ Deployed c.
Proof.
  unfold validateDeployed. guards. rewrite negb_false_iff, mailConfigured_spec. split.
  - intros (H1 & H2 & [H3 H3'] & H4 & H5 & H6 & _). split; try tauto. intros Hv. destruct H6 as [H6|H6]; [done|congruence].
  - intros []. split_and!; try tauto.
    destruct (configRequireVerifiedEmail (authConfig c)) eqn:Ev; tauto.
Qed.

Lemma validateMail_spec m :
  validateMail m = Success tt ↔
  (transport m ≠ TransportNone → configLinkBaseUrl m ≠ ""%stdpp ∧ sendAttempts m ≠ 0 ∧ sendWindowSeconds m ≠ 0 ∧ timeoutSeconds m ≠ 0)
  ∧ (transport m = TransportSmtp → smtpHost m ≠ ""%stdpp ∧ fromAddress m ≠ ""%stdpp).
Proof.
  unfold validateMail. guards. rewrite <- not_true_iff_false, mailConfigured_spec.
  destruct (decide (transport m = TransportNone)), (decide (transport m = TransportSmtp)); tauto.
Qed.

Lemma validateReleases_spec c :
  validateReleases c = Success tt ↔
  (publicKey (launcherReleaseConfig c) ≠ ""%stdpp →
    validateP256PublicKey (publicKey (launcherReleaseConfig c)) = Success tt
    ∧ releaseRoot (launcherReleaseConfig c) ≠ ""%stdpp ∧ releasesBaseUrl (launcherReleaseConfig c) ≠ ""%stdpp).
Proof.
  unfold validateReleases. case_bool_decide as E; [tauto|].
  destruct (validateP256PublicKey _) as [[]|e]; [guards; tauto|]. split; [done|]. intros Hr. by destruct (Hr E).
Qed.

Lemma validate_spec c : validate c = Success tt ↔ SafeToRun c.
Proof.
  unfold validate. guards. rewrite !let_success. guards. rewrite validateMail_spec, validateReleases_spec.
  assert (Hd : (if bool_decide (environment c ≠ "development"%stdpp) then validateDeployed c else Success tt) = Success tt
    ↔ (environment c ≠ "development"%stdpp → Deployed c)).
  { case_bool_decide; [rewrite validateDeployed_spec|]; tauto. }
  rewrite Hd. split.
  - intros (H1 & H2 & H3 & H4 & H5 & H6 & [H7 H7'] & H8 & [H9 H9'] & H10 & H11 & [H12 H12'] & H13 & H14 & H15).
    split; try tauto; try lia. intros Ha. destruct H2, H3; try congruence. done.
  - intros []. destruct (adminEnabled (serverConfig c)); split_and!; try tauto; try lia.
Qed.
End Spec.

(** ** What reading gives *)

Section Accepted.
Context `{Jsoncpp, Openssl}.

Lemma readField_post {A} (P : A → Prop) node key kind (convert : Value → option A) fallback x :
  readField node key kind convert fallback = Some x → P fallback → (∀ v y, convert v = Some y → P y) → P x.
Proof.
  unfold readField. destruct (isMember node key) as [b|]; [|done]. cbn.
  destruct (b && _); [eauto|]. by intros [= <-].
Qed.

Lemma readUnsigned_range width node key fallback x :
  readUnsigned width node key fallback = Some x → 0 < width → 0 ≤ fallback < 2 ^ width → 0 ≤ x < 2 ^ width.
Proof.
  intros E Hw Hf. apply (readField_post (λ x, 0 ≤ x < 2 ^ width) _ _ _ _ _ _ E Hf).
  intros v y. destruct (asInt64 v) as [z|]; [|done]. intros [= <-]. apply Z.mod_pos_bound. lia.
Qed.

Lemma bind_some {A B} (m : option A) (k : A → option B) b : (m ≫= k) = Some b → ∃ a, m = Some a ∧ k a = Some b.
Proof. destruct m as [a|]; [by exists a|done]. Qed.

(** The quantities are of the widths their types have. *)
Definition InRange (c : AppConfig) : Prop :=
  0 ≤ serverPort (serverConfig c) < 2 ^ 16 ∧ 0 ≤ adminPort (serverConfig c) < 2 ^ 16
  ∧ 0 ≤ accessTokenTtlSeconds (authConfig c) < 2 ^ 32 ∧ 0 ≤ signedUrlTtlSeconds (storageConfig c) < 2 ^ 32
  ∧ 0 ≤ authAttempts (rateLimitConfig c) < 2 ^ 32 ∧ 0 ≤ authWindowSeconds (rateLimitConfig c) < 2 ^ 32
  ∧ 0 ≤ accountRequests (rateLimitConfig c) < 2 ^ 32 ∧ 0 ≤ accountWindowSeconds (rateLimitConfig c) < 2 ^ 32.

Lemma parseServer_range node s :
  parseServer node = Some s → 0 ≤ serverPort s < 2 ^ 16 ∧ 0 ≤ adminPort s < 2 ^ 16.
Proof.
  unfold parseServer. intros E. repeat (apply bind_some in E as (? & ? & E)). injection E as <-. cbn.
  split; eapply readUnsigned_range; try done.
Qed.

Lemma parseStorage_range node s : parseStorage node = Some s → 0 ≤ signedUrlTtlSeconds s < 2 ^ 32.
Proof.
  unfold parseStorage. intros E. repeat (apply bind_some in E as (? & ? & E)). injection E as <-. cbn.
  eapply readUnsigned_range; try done.
Qed.

Lemma parseAuth_range node s : parseAuth node = Some s → 0 ≤ accessTokenTtlSeconds s < 2 ^ 32.
Proof.
  unfold parseAuth. intros E. repeat (apply bind_some in E as (? & ? & E)). injection E as <-. cbn.
  eapply readUnsigned_range; try done.
Qed.

Lemma parseRateLimit_range node s :
  parseRateLimit node = Some s → 0 ≤ authAttempts s < 2 ^ 32 ∧ 0 ≤ authWindowSeconds s < 2 ^ 32
    ∧ 0 ≤ accountRequests s < 2 ^ 32 ∧ 0 ≤ accountWindowSeconds s < 2 ^ 32.
Proof.
  unfold parseRateLimit. intros E. repeat (apply bind_some in E as (? & ? & E)). injection E as <-. cbn.
  split_and!; try (eapply readUnsigned_range; done).
Qed.

End Accepted.

(** ** A configuration *)

(** A document that says what a deployment must, read as one value. *)
Definition sampleDocument : string := "{ environment: production, ... }".

Definition sampleRoot : PlainValue := PlainObject
  [("environment"%stdpp, PlainText "production");
   ("server"%stdpp, PlainObject [("adminEnabled"%stdpp, PlainBool true); ("port"%stdpp, PlainNumber 8000)]);
   ("database"%stdpp, PlainObject [("password"%stdpp, PlainText "hunter2hunter2")]);
   ("storage"%stdpp, PlainObject [("secureLinkSecret"%stdpp, PlainText "a secret for links")]);
   ("auth"%stdpp, PlainObject [("jwtSecret"%stdpp, PlainText "thirty-two characters, or a few more")]);
   ("mail"%stdpp, PlainObject [("transport"%stdpp, PlainText "smtp"); ("host"%stdpp, PlainText "relay.example.org");
     ("fromAddress"%stdpp, PlainText "launcher@example.org")])].

Definition sampleReader : Jsoncpp := plainJson (λ s, if bool_decide (s = sampleDocument) then Some sampleRoot else None).

(** No key is a key: the sample publishes no releases. *)
Definition keyless : Openssl := {|
  base642bin _ := None;
  Pkey := unit;
  d2i_PUBKEY _ := None;
  keyIsEc _ := false;
  keyBits _ := 0;
  groupName _ := None;
  digestVerifyInit _ := false;
  digestVerify _ _ _ := 0
|}.

#[local] Existing Instances sampleReader keyless.

Definition accepted : option AppConfig :=
  match parse sampleDocument (λ _, None) with Some (Success c) => Some c | _ => None end.

