(* ===== verification/Programs.v ===== *)
(** Coroutines.  A handler of the program is a [drogon::Task]: straight code between
    [co_await] points, each of them one SQL statement or one call that touches shared
    state.  A statement is atomic; between two statements of a handler any statement of
    any other handler may run.  A [Prog] is such a handler, [perform] runs it alone, and
    [poolStep] runs any number of them interleaved. *)

From S2P Require Import Prelude.
From S2P Require Import Errors.

(** ** Handlers *)

(** A statement reads and changes the world and may be refused ([None]: a constraint
    violation or a malformed value, which the driver throws and no service catches). *)
Inductive Prog (W A : Type) : Type :=
| Done (answer : A)
| Raise
| Step (B : Type) (statement : W → option (B * W)) (next : B → Prog W A).
Arguments Done {W A} _.
Arguments Raise {W A}.
Arguments Step {W A B} _ _.

#[export] Instance Prog_ret W : MRet (Prog W) := λ A a, Done a.

#[export] Instance Prog_bind W : MBind (Prog W) :=
  λ A B k, fix bind p :=
    match p with
    | Done a => k a
    | Raise => Raise
    | Step statement next => Step statement (λ b, bind (next b))
    end.

Definition statement {W B} (f : W → option (B * W)) : Prog W B := Step f Done.

(** A statement that only reads, and one that cannot be refused. *)
Definition query {W B} (f : W → B) : Prog W B := statement (λ w, Some (f w, w)).

Definition exec {W B} (f : W → B * W) : Prog W B := statement (λ w, Some (f w)).

(** [if (auto x = co_await p; !x.ok()) co_return failure(x.error());] *)
Notation "'try?' x := p 'in' k" :=
  (mbind (M := Prog _) (λ r, match r with Success x => k | Failure e => Done (Failure e) end) p)
  (at level 200, x pattern, p at level 100, k at level 200) : launcher_scope.

(** Running a handler with nobody else around: its answer, if no statement was refused,
    and the world it leaves. *)
Fixpoint perform {W A} (p : Prog W A) (w : W) : option A * W :=
  match p with
  | Done a => (Some a, w)
  | Raise => (None, w)
  | Step f next =>
      match f w with
      | Some (b, w') => perform (next b) w'
      | None => (None, w)
      end
  end.

Lemma perform_bind {W A B} (p : Prog W A) (k : A → Prog W B) w :
  perform (p ≫= k) w =
  match perform p w with
  | (Some a, w') => perform (k a) w'
  | (None, w') => (None, w')
  end.
Proof.
  revert w. induction p as [a| |C f next IH]; intros w; cbn; [done|done|].
  destruct (f w) as [[b w']|]; [apply IH|done].
Qed.

Lemma perform_ret {W A} (a : A) (w : W) : perform (mret a) w = (Some a, w).
Proof. done. Qed.

Lemma perform_done {W A} (a : A) (w : W) : perform (Done a) w = (Some a, w).
Proof. done. Qed.

Lemma perform_query {W A B} (f : W → B) (k : B → Prog W A) w :
  perform (query f ≫= k) w = perform (k (f w)) w.
Proof. done. Qed.

Lemma perform_exec {W A B} (f : W → B * W) (k : B → Prog W A) w :
  perform (exec f ≫= k) w = perform (k (f w).1) (f w).2.
Proof. cbn. by destruct (f w). Qed.

Lemma perform_statement {W A B} (f : W → option (B * W)) (k : B → Prog W A) w :
  perform (statement f ≫= k) w =
  match f w with
  | Some (b, w') => perform (k b) w'
  | None => (None, w)
  end.
Proof. done. Qed.

Lemma perform_ret_bind {W A B} (a : A) (k : A → Prog W B) w :
  perform (mret a ≫= k) w = perform (k a) w.
Proof. done. Qed.

Lemma perform_assoc {W A B C} (p : Prog W A) (k : A → Prog W B) (h : B → Prog W C) w :
  perform ((p ≫= k) ≫= h) w = perform (p ≫= λ a, k a ≫= h) w.
Proof. rewrite !perform_bind. destruct (perform p w) as [[a|] w']; [by rewrite perform_bind|done]. Qed.

(** Runs the statements at the head of a handler. *)
Ltac run_statements :=
  repeat (first [rewrite perform_ret | rewrite perform_done | rewrite perform_ret_bind
                |rewrite perform_query | rewrite perform_exec | rewrite perform_statement
                |rewrite perform_assoc];
          cbv beta; cbn [fst snd]).

(** Every answer a handler gives satisfies a predicate, whatever it finds. *)
Definition Answers {W A} (P : A → Prop) (p : Prog W A) : Prop :=
  ∀ w a, (perform p w).1 = Some a → P a.

Lemma Answers_ret {W A} (P : A → Prop) (a : A) : P a → Answers (W := W) P (mret a).
Proof. by intros Ha w b [= <-]. Qed.

Lemma Answers_bind {W A B} (P : B → Prop) (p : Prog W A) k :
  (∀ a, Answers P (k a)) → Answers P (p ≫= k).
Proof.
  intros Hk w b. rewrite perform_bind. destruct (perform p w) as [[a|] w']; [apply Hk|done].
Qed.

#[export] Hint Resolve Answers_ret Answers_bind : launcher.

(** A request whose answer has gone to its client. *)
Definition answered {W A} (p : Prog W A) : Prog W unit := p ≫= λ _, Done tt.

(** ** Interleaving *)

Section Pool.
Context {W : Type}.
(** The requests clients may send, and what the environment does by itself (time). *)
Variable admits : Prog W unit → Prop.
Variable drift : W → W → Prop.

Definition Pool : Type := W * list (Prog W unit).

(** A handler that never advances again is one whose server process has died. *)
Inductive poolStep : Pool → Pool → Prop :=
| pool_arrive w ps p : admits p → poolStep (w, ps) (w, p :: ps)
| pool_advance w w' ps1 ps2 B (f : W → option (B * W)) next b :
    f w = Some (b, w') →
    poolStep (w, ps1 ++ Step f next :: ps2) (w', ps1 ++ next b :: ps2)
| pool_refused w ps1 ps2 B (f : W → option (B * W)) next :
    f w = None →
    poolStep (w, ps1 ++ Step f next :: ps2) (w, ps1 ++ ps2)
| pool_drift w w' ps : drift w w' → poolStep (w, ps) (w', ps).

(** A schedule, run: each number advances the handler in that place by one statement. *)
Definition advance (c : Pool) (i : nat) : Pool :=
  match c.2 !! i with
  | Some (Step f next) =>
      match f c.1 with
      | Some (b, w') => (w', take i c.2 ++ next b :: drop (S i) c.2)
      | None => (c.1, take i c.2 ++ drop (S i) c.2)
      end
  | _ => c
  end.

Definition schedule (order : list nat) (c : Pool) : Pool := foldl advance c order.

Lemma advance_reachable c i : reachable poolStep c (advance c i).
Proof.
  destruct c as [w ps]. unfold advance. cbn [fst snd].
  destruct (ps !! i) as [[a| |B f next]|] eqn:E; try apply reachable_refl.
  apply list_elem_of_split_length in E as (ps1 & ps2 & -> & ->).
  rewrite take_app_length, drop_app_ge, Nat.sub_succ_l, Nat.sub_diag by lia. cbn [drop].
  destruct (f w) as [[b w']|] eqn:Ef; (eapply reachable_step; [apply reachable_refl|]);
    [by apply pool_advance|by eapply pool_refused].
Qed.

Lemma schedule_reachable order c : reachable poolStep c (schedule order c).
Proof.
  revert c. induction order as [|i order IH]; intros c; [apply reachable_refl|].
  eapply reachable_trans; [apply advance_reachable|apply IH].
Qed.

Lemma arrive_more w ps qs : Forall admits ps → reachable poolStep (w, qs) (w, ps ++ qs).
Proof.
  induction 1 as [|p ps Hp _ IH]; [apply reachable_refl|].
  eapply reachable_step; [exact IH|by apply pool_arrive].
Qed.

Lemma arrive_reachable w ps : Forall admits ps → reachable poolStep (w, []) (w, ps).
Proof. rewrite <- (app_nil_r ps) at 2. apply arrive_more. Qed.

(** A request served alone, whoever else is waiting. *)
Lemma served_reachable {A} (p : Prog W A) w a w' ps :
  perform p w = (Some a, w') → reachable poolStep (w, answered p :: ps) (w', Done tt :: ps).
Proof.
  revert w. induction p as [b| |B f next IH]; intros w E; cbn in E.
  - injection E as <- <-. apply reachable_refl.
  - done.
  - destruct (f w) as [[b w1]|] eqn:Ef; [|done]. eapply reachable_trans; [|by apply (IH b w1)].
    eapply reachable_step; [apply reachable_refl|].
    exact (pool_advance w w1 [] ps B f (λ b, answered (next b)) b Ef).
Qed.

Lemma request_reachable {A} (p : Prog W A) w c a w' ps :
  admits (answered p) → reachable poolStep c (w, ps) → perform p w = (Some a, w') →
  reachable poolStep c (w', Done tt :: ps).
Proof.
  intros Hp Hc E. eapply reachable_trans; [eapply reachable_step; [exact Hc|by apply pool_arrive]|].
  by eapply served_reachable.
Qed.
End Pool.

(** ** Rely and guarantee

    [Inv] holds of every world; every statement of every handler makes a change that [R]
    allows.  What a handler has learned, [P], may be kept across an interruption when
    every change that [R] allows preserves it. *)

Section RelyGuarantee.
Context {W : Type}.
Variable Inv : W → Prop.
Variable R : W → W → Prop.

Definition Stable (P : W → Prop) : Prop := ∀ w w', Inv w → P w → R w w' → P w'.

Fixpoint Safe {A} (P : W → Prop) (p : Prog W A) (Q : A → W → Prop) : Prop :=
  match p with
  | Done a => ∀ w, Inv w → P w → Q a w
  | Raise => True
  | Step f next =>
      ∀ w b w', Inv w → P w → f w = Some (b, w') →
        Inv w' ∧ R w w' ∧ ∃ P', Stable P' ∧ P' w' ∧ Safe P' (next b) Q
  end.

Lemma Safe_weaken {A} (P P' : W → Prop) (p : Prog W A) Q :
  Safe P p Q → (∀ w, Inv w → P' w → P w) → Safe P' p Q.
Proof. intros H HP. destruct p as [a| |B f next]; cbn in *; eauto. Qed.

Lemma Safe_post {A} (p : Prog W A) (P : W → Prop) (Q Q' : A → W → Prop) :
  Safe P p Q → (∀ a w, Q a w → Q' a w) → Safe P p Q'.
Proof.
  revert P. induction p as [a| |B f next IH]; intros P H HQ; cbn in *; [eauto|done|].
  intros w b w' HI HP E. destruct (H w b w' HI HP E) as (HI' & HR & P' & HS & HP' & Hn). eauto 8.
Qed.

Lemma Safe_bind {A B} (p : Prog W A) (k : A → Prog W B) P Q Q' :
  Safe P p Q → (∀ a, Safe (Q a) (k a) Q') → Safe P (p ≫= k) Q'.
Proof.
  revert P. induction p as [a| |C f next IH]; intros P H Hk; cbn in *; [|done|].
  - eapply Safe_weaken; [apply Hk|]. cbn in H. eauto.
  - intros w b w' HI HP E. destruct (H w b w' HI HP E) as (HI' & HR & P' & HS & HP' & Hn).
    split_and!; [done..|]. exists P'. split_and!; [done..|]. by apply IH.
Qed.

(** A pool whose handlers are all safe in what they know. *)
Definition SafePool (c : Pool) : Prop :=
  Inv c.1 ∧ Forall (λ p, ∃ P, Stable P ∧ P c.1 ∧ Safe P p (λ _ _, True)) c.2.

Lemma Forall_stable w w' (ps : list (Prog W unit)) :
  Inv w → R w w' →
  Forall (λ p, ∃ P, Stable P ∧ P w ∧ Safe P p (λ _ _, True)) ps →
  Forall (λ p, ∃ P, Stable P ∧ P w' ∧ Safe P p (λ _ _, True)) ps.
Proof.
  intros HI HR HF. eapply Forall_impl; [exact HF|]. intros p (P & HS & HP & Hp). exists P. split_and!; [done| |done].
  by eapply HS.
Qed.

(** Safe requests stay safe together, however they interleave, whichever of them die. *)
Lemma poolStep_safe admits drift :
  (∀ p, admits p → Safe (λ _, True) p (λ _ _, True)) →
  (∀ w w', Inv w → drift w w' → Inv w' ∧ R w w') →
  ∀ c c', SafePool c → poolStep admits drift c c' → SafePool c' ∧ (c'.1 = c.1 ∨ R c.1 c'.1).
Proof.
  intros Hadmits Hdrift c c' [HI HF] Hstep.
  destruct Hstep as [w ps p Hp|w w' ps1 ps2 B f next b E|w ps1 ps2 B f next E|w w' ps Hd]; cbn in *.
  - split; [|by left]. split; [done|]. constructor; [|done]. exists (λ _, True).
    split; [by intros ?|]. split; [done|]. auto.
  - apply Forall_app in HF as [HF1 HF2]. inversion HF2 as [|? ? Hp HF3]; subst.
    destruct Hp as (P & HS & HP & Hp). cbn in Hp.
    destruct (Hp w b w' HI HP E) as (HI' & HR & P' & HS' & HP' & Hn).
    split; [|by right]. split; [done|]. cbn. apply Forall_app. split; [by apply (Forall_stable w w')|].
    constructor; [by exists P'|by apply (Forall_stable w w')].
  - split; [|by left]. split; [done|]. cbn. apply Forall_app in HF as [HF1 HF2].
    inversion HF2; subst. by apply Forall_app.
  - destruct (Hdrift w w' HI Hd) as [HI' HR]. split; [|by right]. split; [done|]. by apply (Forall_stable w w').
Qed.

Lemma pool_safe admits drift w c :
  (∀ p, admits p → Safe (λ _, True) p (λ _ _, True)) →
  (∀ w w', Inv w → drift w w' → Inv w' ∧ R w w') →
  Inv w → reachable (poolStep admits drift) (w, []) c → SafePool c.
Proof.
  intros Ha Hd HI. apply reachable_invariant; [|by split].
  intros c1 c2 H1 H2. by destruct (poolStep_safe admits drift Ha Hd c1 c2 H1 H2).
Qed.

(** Along any interleaving the worlds are related by [R], when [R] is a preorder. *)
Lemma pool_guarantee admits drift c c' :
  (∀ p, admits p → Safe (λ _, True) p (λ _ _, True)) →
  (∀ w w', Inv w → drift w w' → Inv w' ∧ R w w') →
  (∀ w, R w w) → (∀ w1 w2 w3, R w1 w2 → R w2 w3 → R w1 w3) →
  SafePool c → reachable (poolStep admits drift) c c' → SafePool c' ∧ R c.1 c'.1.
Proof.
  intros Ha Hd Hrefl Htrans Hc. induction 1 as [|c1 c2 H1 [HS1 HR1] H2]; [by split|].
  destruct (poolStep_safe admits drift Ha Hd c1 c2 HS1 H2) as [HS2 [E|HR2]]; split; try done.
  - by rewrite E.
  - by eapply Htrans.
Qed.

(** Running alone is one interleaving. *)
Lemma perform_safe {A} (p : Prog W A) P Q w r w' :
  (∀ w, R w w) → (∀ w1 w2 w3, R w1 w2 → R w2 w3 → R w1 w3) →
  Safe P p Q → Inv w → P w → perform p w = (r, w') →
  Inv w' ∧ R w w' ∧ (∀ a, r = Some a → Q a w').
Proof.
  intros Hrefl Htrans. revert P w. induction p as [a| |B f next IH]; intros P w Hp HI HP E; cbn in *.
  - injection E as <- <-. split_and!; [done..|]. intros a' [= <-]. eauto.
  - injection E as <- <-. by split_and!.
  - destruct (f w) as [[b w1]|] eqn:Ef; [|injection E as <- <-; by split_and!].
    destruct (Hp w b w1 HI HP Ef) as (HI1 & HR1 & P' & _ & HP' & Hn).
    destruct (IH b P' w1 Hn HI1 HP' E) as (HI' & HR' & HQ). split_and!; eauto.
Qed.
End RelyGuarantee.

(** The common case: nothing is carried across an interruption but facts about values. *)
Section Keeps.
Context {W : Type}.
Implicit Types (Inv : W → Prop) (R : W → W → Prop).

Fixpoint Keeps {A} Inv R (p : Prog W A) (Q : A → Prop) : Prop :=
  match p with
  | Done a => Q a
  | Raise => True
  | Step f next =>
      ∀ w b w', Inv w → f w = Some (b, w') → R w w' ∧ Keeps Inv R (next b) Q
  end.

Lemma Keeps_ret {A} Inv R (a : A) (Q : A → Prop) : Q a → Keeps Inv R (mret a) Q.
Proof. done. Qed.

Lemma Keeps_statement {A} Inv R (f : W → option (A * W)) (Q : A → Prop) :
  (∀ w b w', Inv w → f w = Some (b, w') → R w w' ∧ Q b) → Keeps Inv R (statement f) Q.
Proof. intros Hf w b w' HI E. by destruct (Hf w b w' HI E). Qed.

Lemma Keeps_bind {A B} Inv R (p : Prog W A) (k : A → Prog W B) (Q : A → Prop) (Q' : B → Prop) :
  Keeps Inv R p Q → (∀ a, Q a → Keeps Inv R (k a) Q') → Keeps Inv R (p ≫= k) Q'.
Proof.
  intros Hp Hk. induction p as [a| |C f next IH]; cbn in *; [auto|done|].
  intros w b w' HI E. destruct (Hp w b w' HI E). auto.
Qed.

Lemma Keeps_weaken {A} Inv Inv' R R' (p : Prog W A) (Q Q' : A → Prop) :
  (∀ w, Inv' w → Inv w) → (∀ w w', Inv' w → R w w' → R' w w') → (∀ a, Q a → Q' a) →
  Keeps Inv R p Q → Keeps Inv' R' p Q'.
Proof.
  intros HInv HR HQ. induction p as [a| |C f next IH]; cbn; [auto|done|].
  intros Hp w b w' HI E. destruct (Hp w b w' (HInv w HI) E). eauto.
Qed.

Lemma Keeps_any {A} Inv R (p : Prog W A) (Q : A → Prop) :
  Keeps Inv R p Q → Keeps Inv R p (λ _, True).
Proof. intros Hp. eapply Keeps_weaken; [..|exact Hp]; auto. Qed.

Lemma Keeps_safe {A} Inv R (p : Prog W A) (Q : A → Prop) :
  (∀ w w', Inv w → R w w' → Inv w') →
  Keeps Inv R p Q → Safe Inv R (λ _, True) p (λ a _, Q a).
Proof.
  intros HR. induction p as [a| |C f next IH]; cbn; [done|done|].
  intros Hp w b w' HI _ E. destruct (Hp w b w' HI E) as [HRw Hn].
  split; [by eapply HR|]. split; [done|]. exists (λ _, True). split; [by intros ?|]. auto.
Qed.

(** Running alone from a world where the invariant holds. *)
Lemma perform_keeps {A} Inv R (p : Prog W A) (Q : A → Prop) w r w' :
  (∀ w w', Inv w → R w w' → Inv w') → (∀ w, Inv w → R w w) →
  (∀ w1 w2 w3, R w1 w2 → R w2 w3 → R w1 w3) →
  Keeps Inv R p Q → Inv w → perform p w = (r, w') → R w w' ∧ ∀ a, r = Some a → Q a.
Proof.
  intros HInv Hrefl Htrans. revert w. induction p as [a| |C f next IH]; intros w Hp HI E; cbn in *.
  - injection E as <- <-. split; [auto|]. by intros a' [= <-].
  - injection E as <- <-. split; [auto|done].
  - destruct (f w) as [[b w1]|] eqn:Ef; [|injection E as <- <-; split; [auto|done]].
    destruct (Hp w b w1 HI Ef) as [HR1 Hn].
    destruct (IH b w1 Hn (HInv _ _ HI HR1) E) as [HR2 HQ]. eauto.
Qed.
End Keeps.

(** Handlers are safe when their statements are: the statements are in the database
    [keeps], and a handler is taken apart at its binds and its branches. *)
Create HintDb keeps.

Ltac keeps_handler :=
  repeat first
    [ apply Keeps_ret; done
    | exact I
    | solve [eauto with keeps nocore]
    | eapply Keeps_bind; [solve [eauto with keeps nocore]|]; intros ? ?
    | eapply (Keeps_bind _ _ _ _ (λ _, True)); [|intros ? _]
    | case_match ].
