(* ===== verification/Random.v ===== *)
(** Randomness and password hashing: [src/common/Random.h], [src/common/Random.cpp],
    [src/services/PasswordHasher.h] and [src/services/Argon2idPasswordHasher.cpp].

    The generator and Argon2id are libsodium's: [Sodium] is what the code relies on of
    them.  A draw is numbered, so that a run of the program is a function of the numbers. *)

From S2P Require Import Prelude.
From S2P Require Import Errors.
From S2P Require Import CanonicalJson.
From S2P Require Import Validation.

(** ** libsodium *)

(** [crypto_pwhash_STRBYTES]. *)
Definition STRBYTES : Z := 128.

Class Sodium := {
  (** [sodium_init] *)
  sodium_init : Z;
  randombytes_buf : nat → nat → list ascii;
  randombytes_uniform : nat → Z → Z;
  bin2base64 : list ascii → list ascii;
  (** [crypto_pwhash_str_alg], [_str_verify] and [_str_needs_rehash] at the configured
      limits; the salt is a draw, and memory may run out. *)
  pwhash_str : nat → string → option string;
  pwhash_str_verify : string → string → Z;
  pwhash_str_needs_rehash : string → Z;
  randombytes_buf_length : ∀ draw count, length (randombytes_buf draw count) = count;
  randombytes_uniform_range : ∀ draw bound, 0 < bound → 0 ≤ randombytes_uniform draw bound < bound;
  pwhash_str_size : ∀ draw password encoded,
    pwhash_str draw password = Some encoded → 0 < size encoded < STRBYTES;
  pwhash_str_verifies : ∀ draw password encoded,
    pwhash_str draw password = Some encoded → pwhash_str_verify encoded password = 0
}.

(** ** Random values *)

Section Random.
Context `{Sodium}.

Definition initCrypto : bool := 0 <=? sodium_init.

Definition randomUrlSafeToken (draw : nat) : string :=
  if negb initCrypto then "" else text (bin2base64 (randombytes_buf draw 32)).

Definition PASSWORD_ALPHABET : list ascii := chars "abcdefghijkmnpqrstuvwxyz23456789".
Definition GROUPS : nat := 3.
Definition GROUP_SIZE : nat := 5.

(** One group: [GROUP_SIZE] symbols from the draws that follow [draw]. *)
Definition passwordGroup (draw : nat) : list ascii :=
  map (λ i, nth (Z.to_nat (randombytes_uniform (draw + i) (Z.of_nat (length PASSWORD_ALPHABET))))
                PASSWORD_ALPHABET "000"%char)
      (seq 0 GROUP_SIZE).

Definition randomTemporaryPassword (draw : nat) : string :=
  if negb initCrypto then ""
  else text (joinOn "-" (map (λ group, passwordGroup (draw + group * GROUP_SIZE)) (seq 0 GROUPS))).

(** [bytes[6] = (bytes[6] & 0x0F) | 0x40; bytes[8] = (bytes[8] & 0x3F) | 0x80;] *)
Definition stampVersion (i : nat) (b : Z) : Z :=
  if (i =? 6)%nat then Z.lor (Z.land b 15) 64
  else if (i =? 8)%nat then Z.lor (Z.land b 63) 128
  else b.

Definition hyphenBefore (i : nat) : bool := existsb (Nat.eqb i) [4; 6; 8; 10]%nat.

Definition uuidByte (i : nat) (c : ascii) : list ascii :=
  let b := stampVersion i (byte c) in
  (if hyphenBefore i then ["-"%char] else []) ++ [hexDigit (Z.shiftr b 4); hexDigit (Z.land b 15)].

Definition randomUuid (draw : nat) : string :=
  if negb initCrypto then ""
  else text (concat (imap uuidByte (randombytes_buf draw 16))).
End Random.

(** ** Password hashing *)

(** [IPasswordHasher]: what the services need of one. *)
Class PasswordHasher := {
  hash : nat → string → Result string;
  verify : string → string → bool;
  needsRehash : string → bool;
  verify_hash : ∀ draw password encoded,
    hash draw password = Success encoded → verify password encoded = true
}.

Section Argon2id.
Context `{Sodium}.

Definition argon2idHash (draw : nat) (password : string) : Result string :=
  if negb initCrypto then failure Internal "libsodium is not available"
  else match pwhash_str draw password with
       | None => failure Internal "password hashing failed (out of memory?)"
       | Some encoded => Success encoded
       end.

Definition unusableEncoding (encodedHash : string) : bool :=
  negb initCrypto || (size encodedHash =? 0) || (STRBYTES <=? size encodedHash).

Definition argon2idVerify (password encodedHash : string) : bool :=
  if unusableEncoding encodedHash then false
  else pwhash_str_verify encodedHash password =? 0.

Definition argon2idNeedsRehash (encodedHash : string) : bool :=
  if unusableEncoding encodedHash then true
  else negb (pwhash_str_needs_rehash encodedHash =? 0).

Lemma argon2id_verify_hash draw password encoded :
  argon2idHash draw password = Success encoded → argon2idVerify password encoded = true.
Proof.
  unfold argon2idHash, argon2idVerify, unusableEncoding.
  destruct initCrypto; cbn [negb orb]; [|done].
  destruct (pwhash_str draw password) as [e|] eqn:E; [|done]. intros [= <-].
  pose proof (pwhash_str_size _ _ _ E). pose proof (pwhash_str_verifies _ _ _ E) as ->.
  rewrite (proj2 (Z.eqb_neq _ _)) by lia. by rewrite (proj2 (Z.leb_gt _ _)) by lia.
Qed.

(** [Argon2idPasswordHasher] implements the interface. *)
#[export] Instance Argon2idPasswordHasher : PasswordHasher := {
  hash := argon2idHash;
  verify := argon2idVerify;
  needsRehash := argon2idNeedsRehash;
  verify_hash := argon2id_verify_hash
}.
End Argon2id.

(** ** Properties *)

Lemma stamped_digits i c :
  isxdigit (hexDigit (Z.shiftr (stampVersion i (byte c)) 4)) = true
  ∧ isxdigit (hexDigit (Z.land (stampVersion i (byte c)) 15)) = true.
Proof.
  unfold stampVersion. destruct (i =? 6)%nat; [by every_byte c|].
  destruct (i =? 8)%nat; by every_byte c.
Qed.

Lemma version_digit c : hexDigit (Z.shiftr (stampVersion 6 (byte c)) 4) = "4"%char.
Proof. by every_byte c. Qed.

Lemma variant_digit c :
  hexDigit (Z.shiftr (stampVersion 8 (byte c)) 4) ∈ chars "89ab".
Proof. apply (bool_decide_eq_true_1 _). by every_byte c. Qed.

Lemma forallb_indices (p : nat → bool) n :
  (∀ i, (i < n)%nat → p i = true) → forallb p (seq 0 n) = true.
Proof. intros Hp. apply forallb_forall. intros i Hi%in_seq. apply Hp. lia. Qed.

(** The text of sixteen bytes, digit by digit. *)
Lemma uuid_text_form (bs : list ascii) :
  length bs = 16%nat →
  let l := concat (imap uuidByte bs) in
  isUuid (text l) = true ∧ l !! 14%nat = Some "4"%char
  ∧ ∃ variant, l !! 19%nat = Some variant ∧ variant ∈ chars "89ab".
Proof.
  intros Hl. do 16 (destruct bs as [|? bs]; [discriminate|]). destruct bs; [|discriminate].
  cbn zeta. unfold uuidByte. cbn -[hexDigit stampVersion isUuid Z.shiftr Z.land text].
  split; [|split; [by rewrite version_digit|eexists; split; [done|apply variant_digit]]].
  unfold isUuid. rewrite size_text, chars_text.
  cbn [length Z.of_nat Pos.of_succ_nat Pos.succ Z.eqb Pos.eqb negb].
  unfold charIs. rewrite chars_text. cbn [forallb UUID_HYPHENS].
  rewrite !(bool_decide_eq_true_2 (_ !! _ = _)) by reflexivity. cbn [andb negb].
  apply forallb_indices. intros i Hi.
  do 36 (destruct i as [|i];
    [cbn [lookup list_lookup from_option];
     first [reflexivity
           |apply orb_true_iff; right; first [exact (proj1 (stamped_digits _ _))
                                             |exact (proj2 (stamped_digits _ _))]]|]).
  lia.
Qed.

Lemma PASSWORD_ALPHABET_nth (n : Z) :
  0 ≤ n < Z.of_nat (length PASSWORD_ALPHABET) →
  nth (Z.to_nat n) PASSWORD_ALPHABET "000"%char ∈ PASSWORD_ALPHABET.
Proof.
  intros Hn. apply list_elem_of_In, nth_In. lia.
Qed.

Lemma passwordGroup_form `{Sodium} draw :
  length (passwordGroup draw) = GROUP_SIZE ∧ Forall (.∈ PASSWORD_ALPHABET) (passwordGroup draw).
Proof.
  unfold passwordGroup. rewrite length_map. split; [done|].
  apply Forall_map, Forall_forall. intros i _. cbn. apply PASSWORD_ALPHABET_nth.
  by apply randombytes_uniform_range.
Qed.

(** Every identifier the server draws is a version 4 UUID of the form its own
    routes accept, and every temporary password is three groups of five symbols from the
    alphabet without the look-alikes, so it is long enough for the password rule; without
    libsodium both are empty. *)
Theorem random_forms `{Sodium} draw :
  if initCrypto then
    isUuid (randomUuid draw) = true
    ∧ chars (randomUuid draw) !! 14%nat = Some "4"%char
    ∧ (∃ variant, chars (randomUuid draw) !! 19%nat = Some variant ∧ variant ∈ chars "89ab")
    ∧ (∃ a b c, randomTemporaryPassword draw = text (joinOn "-" [a; b; c])
        ∧ Forall (λ g, length g = GROUP_SIZE ∧ Forall (.∈ PASSWORD_ALPHABET) g) [a; b; c])
    ∧ Forall (.∉ PASSWORD_ALPHABET) (chars "l1o0")
    ∧ validatePassword (randomTemporaryPassword draw) = Success tt
  else randomUuid draw = ""%stdpp ∧ randomTemporaryPassword draw = ""%stdpp.
Proof.
  unfold randomUuid, randomTemporaryPassword. destruct initCrypto; cbn [negb]; [|done].
  rewrite chars_text.
  destruct (uuid_text_form (randombytes_buf draw 16) (randombytes_buf_length _ _)) as (H1 & H2 & H3).
  pose proof (passwordGroup_form (draw + 0 * GROUP_SIZE)) as G1.
  pose proof (passwordGroup_form (draw + 1 * GROUP_SIZE)) as G2.
  pose proof (passwordGroup_form (draw + 2 * GROUP_SIZE)) as G3.
  cbn [GROUPS seq map].
  set (a := passwordGroup (draw + 0 * GROUP_SIZE)) in *.
  set (b := passwordGroup (draw + 1 * GROUP_SIZE)) in *.
  set (c := passwordGroup (draw + 2 * GROUP_SIZE)) in *.
  split_and!; try done.
  - exists a, b, c. split; [done|]. by repeat (apply Forall_cons; split; [done|]).
  - apply (bool_decide_eq_true_1 _). by vm_compute.
  - destruct G1 as [L1 A1], G2 as [L2 _], G3 as [L3 _]. unfold GROUP_SIZE in *.
    destruct a as [|x a']; [discriminate|]. apply Forall_cons in A1 as [Hx _].
    apply (validatePassword_accepts _ x).
    + rewrite size_text. cbn [joinOn]. rewrite length_app. cbn [length]. rewrite length_app.
      cbn [length] in *. unfold MIN_PASSWORD_LENGTH, MAX_PASSWORD_LENGTH. lia.
    + rewrite chars_text. cbn [joinOn app]. apply elem_of_cons. by left.
    + apply (proj1 (Forall_forall (λ y, isspace y = false) PASSWORD_ALPHABET)); [|done].
      apply (bool_decide_eq_true_1 _). by vm_compute.
Qed.

(** ** A concrete library *)

Definition SAMPLE_PREFIX : string := "$argon2id$".

Lemma sample_size draw password encoded :
  (λ (_ : nat) p, if size p <? 100 then Some (SAMPLE_PREFIX +:+ p) else None) draw password = Some encoded →
  0 < size encoded < STRBYTES.
Proof.
  cbn beta. destruct (size password <? 100) eqn:E; [|done]. intros [= <-].
  rewrite size_app. apply Z.ltb_lt in E. pose proof (size_nonneg password).
  change (size SAMPLE_PREFIX) with 10. unfold STRBYTES. lia.
Qed.

Lemma sample_verifies draw password encoded :
  (λ (_ : nat) p, if size p <? 100 then Some (SAMPLE_PREFIX +:+ p) else None) draw password = Some encoded →
  (λ e p, if bool_decide (e = SAMPLE_PREFIX +:+ p) then 0 else -1) encoded password = 0.
Proof.
  cbn beta. destruct (size password <? 100); [|done]. intros [= <-]. by rewrite bool_decide_eq_true_2.
Qed.

Definition sampleSodium : Sodium := {|
  sodium_init := 0;
  randombytes_buf draw count := replicate count (ascii_of_nat draw);
  randombytes_uniform draw bound := Z.of_nat draw mod bound;
  bin2base64 bytes := concat (map (λ c, [hexDigit (Z.shiftr (byte c) 4); hexDigit (Z.land (byte c) 15)]) bytes);
  pwhash_str _ password := if size password <? 100 then Some (SAMPLE_PREFIX +:+ password) else None;
  pwhash_str_verify encoded password := if bool_decide (encoded = SAMPLE_PREFIX +:+ password) then 0 else -1;
  pwhash_str_needs_rehash _ := 0;
  randombytes_buf_length draw count := length_replicate count _;
  randombytes_uniform_range draw bound H := Z.mod_pos_bound _ bound H;
  pwhash_str_size := sample_size;
  pwhash_str_verifies := sample_verifies
|}.

Lemma random_forms_witness :
  isUuid (randomUuid (H := sampleSodium) 7) = true
  ∧ validatePassword (randomTemporaryPassword (H := sampleSodium) 7) = Success tt.
Proof.
  pose proof (random_forms (H := sampleSodium) 7) as (H1 & _ & _ & _ & _ & H2). by split.
Defined.
