(* ===== verification/World.v ===== *)
(** The world a handler sees: the tables of the database ([migrations/*.sql]), the files
    of the blob store, the mail handed to the relay, the clock and the generator.

    A table is the list of its rows in insertion order; a [WHERE] clause is a predicate
    on rows.  An [uuid] column compares by value, a [citext] column ignores case. *)

From S2P Require Import Prelude.
From S2P Require Import Errors.
From S2P Require Import Validation.
From S2P Require Import Actors.
From S2P Require Import Catalog.
From S2P Require Import Delta.
From S2P Require Import Media.
From S2P Require Import CrashReport.
From S2P Require Import PatchNote.
From S2P Require Import Hash.
From S2P Require Import BlobStore.
From S2P Require Import Programs.

(** ** Queries on a table *)

Section Table.
Context {Row : Type}.
Implicit Types (p : Row → bool) (t : list Row).

Definition selectWhere p t : list Row := List.filter p t.
Definition selectFirst p t : option Row := List.find p t.
Definition anyWhere p t : bool := existsb p t.
Definition updateWhere p (f : Row → Row) t : list Row := map (λ r, if p r then f r else r) t.
Definition deleteWhere p t : list Row := List.filter (λ r, negb (p r)) t.
Definition insertRow (r : Row) t : list Row := t ++ [r].
End Table.

(** [ORDER BY]: the first key that tells two rows apart decides. *)
Definition thenBy (c d : comparison) : comparison := match c with Eq => d | _ => c end.

Definition ordered {Row} (cmp : Row → Row → comparison) (a b : Row) : Prop := cmp a b ≠ Gt.

#[export] Instance ordered_dec {Row} (cmp : Row → Row → comparison) : RelDecision (ordered cmp).
Proof. intros a b. unfold ordered. destruct (cmp a b); [left|left|right]; congruence. Defined.

Definition orderBy {Row} (cmp : Row → Row → comparison) (t : list Row) : list Row := merge_sort (ordered cmp) t.

(** [LIMIT n OFFSET k]. *)
Definition page {Row} (limit offset : Z) (t : list Row) : list Row :=
  take (Z.to_nat limit) (drop (Z.to_nat offset) t).

(** Text by its bytes, and what sorts before everything else when descending. *)
Definition compareText (a b : string) : comparison := String.compare a b.

(** [lower(text)] on ASCII. *)
Definition lowerText (s : string) : string := text (map tolower (chars s)).

(** [a = b] on [citext], and on two [uuid]s, whose text form has no fixed case. *)
Definition citextEq (a b : string) : bool := bool_decide (lowerText a = lowerText b).
Definition compareUuid (a b : string) : comparison := compareText (lowerText a) (lowerText b).
Definition uuidEq (a b : string) : bool := bool_decide (lowerText a = lowerText b).

(** [char_length]: the code points of a UTF-8 text, the bytes that do not continue one. *)
Definition charLength (s : string) : Z :=
  Z.of_nat (length (List.filter (λ c, negb (byteInRange 128 191 c)) (chars s))).

(** [NULLIF(x, '')]. *)
Definition nullIfEmpty (s : string) : option string :=
  if bool_decide (s = ""%stdpp) then None else Some s.

(** [bigint] arithmetic is refused outside 64 bits. *)
Definition bigint (z : Z) : option Z :=
  if (INT64_MIN <=? z) && (z <=? INT64_MAX) then Some z else None.

(** ** Rows *)

Record UserRow := mkUserRow {
  userId : string;
  userEmail : string;
  emailVerifiedAt : option Z;
  passwordHash : string;
  displayName : string;
  uploadQuotaBytes : Z;
  uploadUsedBytes : Z;
  isActive : bool;
  lastLoginAt : option Z;
  passwordChangeRequired : bool;
  userCreatedAt : Z
}.

Record RefreshRow := mkRefreshRow {
  refreshId : string;
  refreshUserId : string;
  refreshFamilyId : string;
  refreshTokenHash : string;
  refreshExpiresAt : Z;
  refreshRevokedAt : option Z;
  replacedBy : option string;
  refreshUserAgent : option string;
  refreshIpAddress : option string
}.

Inductive UserTokenPurpose := EmailVerification | PasswordReset.

#[export] Instance UserTokenPurpose_eq_dec : EqDecision UserTokenPurpose.
Proof. solve_decision. Defined.

Record UserTokenRow := mkUserTokenRow {
  tokenUserId : string;
  tokenPurpose : UserTokenPurpose;
  tokenHash : string;
  tokenExpiresAt : Z;
  consumedAt : option Z
}.

Record BlobRow := mkBlobRow {
  blobSha : string;
  blobSize : Z;
  blobStorageKey : string;
  uploadedBy : option string;
  blobCreatedAt : Z
}.

Inductive UploadSessionStatus := Pending | Completed | Aborted.

#[export] Instance UploadSessionStatus_eq_dec : EqDecision UploadSessionStatus.
Proof. solve_decision. Defined.

Record SessionRow := mkSessionRow {
  sessionId : string;
  sessionBuildId : string;
  sessionUserId : string;
  sessionSha : string;
  declaredSizeBytes : Z;
  receivedBytes : Z;
  sessionStatus_ : UploadSessionStatus;
  sessionExpiresAt : Z
}.

Record BuildFileRow := mkBuildFileRow {
  fileBuildId : string;
  filePath : string;
  fileSha : string;
  fileExecutable : bool
}.

(** A row of [download_events]; [eventAt] is set by the table. *)
Record DownloadEvent := mkDownloadEvent {
  eventGameId : string;
  eventBuildId : string;
  eventUserId : string;
  fromVersionId : string;
  eventKind : DownloadKind;
  bytesPlanned : Z;
  eventAt : Z
}.

(** A row of [user_games]. *)
Record LibraryRow := mkLibraryRow { libraryUserId : string; libraryGameId : string; libraryAddedAt : Z }.

(** A row of [audit_log]; no actor is the empty text. *)
Record AuditRow := mkAuditRow {
  auditActorUserId : string;
  auditAction : string;
  auditEntityType : string;
  auditEntityId : string;
  auditMetadata : list (string * string);
  auditCreatedAt : Z
}.

(** A row of [account_deletion_requests]; only completed ones are ever written. *)
Record ErasureRow := mkErasureRow { erasedUserId : string; erasureReason : string; erasureProcessedAt : Z }.

(** A row of [crash_reports]. *)
Record CrashRow := mkCrashRow {
  crashRowId : string;
  crashRowReport : NewCrashReport;
  crashRowFingerprint : string;
  crashReceivedAt : Z
}.

Record MailMessage := mkMailMessage { mailTo : string; mailSubject : string; mailBody : string }.

(** ** The world *)

Record World := mkWorld {
  users : list UserRow;
  roleGrants : list (string * string);
  roleRows : list Role;
  rolePermissions : list (string * string);
  refreshTokens : list RefreshRow;
  userTokens : list UserTokenRow;
  games : list Game;
  versions : list GameVersion;
  builds : list Build;
  buildFiles : list BuildFileRow;
  blobs : list BlobRow;
  sessions : list SessionRow;
  downloadEvents : list DownloadEvent;
  gameMedia : list GameMedia;
  patchNotes : list PatchNote;
  userGames : list LibraryRow;
  auditLog : list AuditRow;
  erasures : list ErasureRow;
  crashReports : list CrashRow;
  files : gmap string (list ascii);
  mediaFiles : gmap string (list ascii);
  outbox : list MailMessage;
  clock : Z;
  draws : nat
}.

Definition roleKeys (w : World) : list string := map roleKey (roleRows w).

Definition setUsers (x : list UserRow) (w : World) : World :=
  mkWorld x (roleGrants w) (roleRows w) (rolePermissions w) (refreshTokens w) (userTokens w)
    (games w) (versions w) (builds w) (buildFiles w) (blobs w) (sessions w) (downloadEvents
    w) (gameMedia w) (patchNotes w) (userGames w) (auditLog w) (erasures w) (crashReports w)
    (files w) (mediaFiles w) (outbox w) (clock w) (draws w).

Definition setRoleGrants (x : list (string * string)) (w : World) : World :=
  mkWorld (users w) x (roleRows w) (rolePermissions w) (refreshTokens w) (userTokens w)
    (games w) (versions w) (builds w) (buildFiles w) (blobs w) (sessions w) (downloadEvents
    w) (gameMedia w) (patchNotes w) (userGames w) (auditLog w) (erasures w) (crashReports w)
    (files w) (mediaFiles w) (outbox w) (clock w) (draws w).

Definition setRefreshTokens (x : list RefreshRow) (w : World) : World :=
  mkWorld (users w) (roleGrants w) (roleRows w) (rolePermissions w) x (userTokens w) (games
    w) (versions w) (builds w) (buildFiles w) (blobs w) (sessions w) (downloadEvents w)
    (gameMedia w) (patchNotes w) (userGames w) (auditLog w) (erasures w) (crashReports w)
    (files w) (mediaFiles w) (outbox w) (clock w) (draws w).

Definition setUserTokens (x : list UserTokenRow) (w : World) : World :=
  mkWorld (users w) (roleGrants w) (roleRows w) (rolePermissions w) (refreshTokens w) x
    (games w) (versions w) (builds w) (buildFiles w) (blobs w) (sessions w) (downloadEvents
    w) (gameMedia w) (patchNotes w) (userGames w) (auditLog w) (erasures w) (crashReports w)
    (files w) (mediaFiles w) (outbox w) (clock w) (draws w).

Definition setGames (x : list Game) (w : World) : World :=
  mkWorld (users w) (roleGrants w) (roleRows w) (rolePermissions w) (refreshTokens w)
    (userTokens w) x (versions w) (builds w) (buildFiles w) (blobs w) (sessions w)
    (downloadEvents w) (gameMedia w) (patchNotes w) (userGames w) (auditLog w) (erasures w)
    (crashReports w) (files w) (mediaFiles w) (outbox w) (clock w) (draws w).

Definition setVersions (x : list GameVersion) (w : World) : World :=
  mkWorld (users w) (roleGrants w) (roleRows w) (rolePermissions w) (refreshTokens w)
    (userTokens w) (games w) x (builds w) (buildFiles w) (blobs w) (sessions w)
    (downloadEvents w) (gameMedia w) (patchNotes w) (userGames w) (auditLog w) (erasures w)
    (crashReports w) (files w) (mediaFiles w) (outbox w) (clock w) (draws w).

Definition setBuilds (x : list Build) (w : World) : World :=
  mkWorld (users w) (roleGrants w) (roleRows w) (rolePermissions w) (refreshTokens w)
    (userTokens w) (games w) (versions w) x (buildFiles w) (blobs w) (sessions w)
    (downloadEvents w) (gameMedia w) (patchNotes w) (userGames w) (auditLog w) (erasures w)
    (crashReports w) (files w) (mediaFiles w) (outbox w) (clock w) (draws w).

Definition setBuildFiles (x : list BuildFileRow) (w : World) : World :=
  mkWorld (users w) (roleGrants w) (roleRows w) (rolePermissions w) (refreshTokens w)
    (userTokens w) (games w) (versions w) (builds w) x (blobs w) (sessions w)
    (downloadEvents w) (gameMedia w) (patchNotes w) (userGames w) (auditLog w) (erasures w)
    (crashReports w) (files w) (mediaFiles w) (outbox w) (clock w) (draws w).

Definition setBlobs (x : list BlobRow) (w : World) : World :=
  mkWorld (users w) (roleGrants w) (roleRows w) (rolePermissions w) (refreshTokens w)
    (userTokens w) (games w) (versions w) (builds w) (buildFiles w) x (sessions w)
    (downloadEvents w) (gameMedia w) (patchNotes w) (userGames w) (auditLog w) (erasures w)
    (crashReports w) (files w) (mediaFiles w) (outbox w) (clock w) (draws w).

Definition setSessions (x : list SessionRow) (w : World) : World :=
  mkWorld (users w) (roleGrants w) (roleRows w) (rolePermissions w) (refreshTokens w)
    (userTokens w) (games w) (versions w) (builds w) (buildFiles w) (blobs w) x
    (downloadEvents w) (gameMedia w) (patchNotes w) (userGames w) (auditLog w) (erasures w)
    (crashReports w) (files w) (mediaFiles w) (outbox w) (clock w) (draws w).

Definition setDownloadEvents (x : list DownloadEvent) (w : World) : World :=
  mkWorld (users w) (roleGrants w) (roleRows w) (rolePermissions w) (refreshTokens w)
    (userTokens w) (games w) (versions w) (builds w) (buildFiles w) (blobs w) (sessions w) x
    (gameMedia w) (patchNotes w) (userGames w) (auditLog w) (erasures w) (crashReports w)
    (files w) (mediaFiles w) (outbox w) (clock w) (draws w).

Definition setGameMedia (x : list GameMedia) (w : World) : World :=
  mkWorld (users w) (roleGrants w) (roleRows w) (rolePermissions w) (refreshTokens w)
    (userTokens w) (games w) (versions w) (builds w) (buildFiles w) (blobs w) (sessions w)
    (downloadEvents w) x (patchNotes w) (userGames w) (auditLog w) (erasures w)
    (crashReports w) (files w) (mediaFiles w) (outbox w) (clock w) (draws w).

Definition setPatchNotes (x : list PatchNote) (w : World) : World :=
  mkWorld (users w) (roleGrants w) (roleRows w) (rolePermissions w) (refreshTokens w)
    (userTokens w) (games w) (versions w) (builds w) (buildFiles w) (blobs w) (sessions w)
    (downloadEvents w) (gameMedia w) x (userGames w) (auditLog w) (erasures w) (crashReports
    w) (files w) (mediaFiles w) (outbox w) (clock w) (draws w).

Definition setUserGames (x : list LibraryRow) (w : World) : World :=
  mkWorld (users w) (roleGrants w) (roleRows w) (rolePermissions w) (refreshTokens w)
    (userTokens w) (games w) (versions w) (builds w) (buildFiles w) (blobs w) (sessions w)
    (downloadEvents w) (gameMedia w) (patchNotes w) x (auditLog w) (erasures w)
    (crashReports w) (files w) (mediaFiles w) (outbox w) (clock w) (draws w).

Definition setAuditLog (x : list AuditRow) (w : World) : World :=
  mkWorld (users w) (roleGrants w) (roleRows w) (rolePermissions w) (refreshTokens w)
    (userTokens w) (games w) (versions w) (builds w) (buildFiles w) (blobs w) (sessions w)
    (downloadEvents w) (gameMedia w) (patchNotes w) (userGames w) x (erasures w)
    (crashReports w) (files w) (mediaFiles w) (outbox w) (clock w) (draws w).

Definition setErasures (x : list ErasureRow) (w : World) : World :=
  mkWorld (users w) (roleGrants w) (roleRows w) (rolePermissions w) (refreshTokens w)
    (userTokens w) (games w) (versions w) (builds w) (buildFiles w) (blobs w) (sessions w)
    (downloadEvents w) (gameMedia w) (patchNotes w) (userGames w) (auditLog w) x
    (crashReports w) (files w) (mediaFiles w) (outbox w) (clock w) (draws w).

Definition setCrashReports (x : list CrashRow) (w : World) : World :=
  mkWorld (users w) (roleGrants w) (roleRows w) (rolePermissions w) (refreshTokens w)
    (userTokens w) (games w) (versions w) (builds w) (buildFiles w) (blobs w) (sessions w)
    (downloadEvents w) (gameMedia w) (patchNotes w) (userGames w) (auditLog w) (erasures w)
    x (files w) (mediaFiles w) (outbox w) (clock w) (draws w).

Definition setFiles (x : gmap string (list ascii)) (w : World) : World :=
  mkWorld (users w) (roleGrants w) (roleRows w) (rolePermissions w) (refreshTokens w)
    (userTokens w) (games w) (versions w) (builds w) (buildFiles w) (blobs w) (sessions w)
    (downloadEvents w) (gameMedia w) (patchNotes w) (userGames w) (auditLog w) (erasures w)
    (crashReports w) x (mediaFiles w) (outbox w) (clock w) (draws w).

Definition setMediaFiles (x : gmap string (list ascii)) (w : World) : World :=
  mkWorld (users w) (roleGrants w) (roleRows w) (rolePermissions w) (refreshTokens w)
    (userTokens w) (games w) (versions w) (builds w) (buildFiles w) (blobs w) (sessions w)
    (downloadEvents w) (gameMedia w) (patchNotes w) (userGames w) (auditLog w) (erasures w)
    (crashReports w) (files w) x (outbox w) (clock w) (draws w).

Definition setOutbox (x : list MailMessage) (w : World) : World :=
  mkWorld (users w) (roleGrants w) (roleRows w) (rolePermissions w) (refreshTokens w)
    (userTokens w) (games w) (versions w) (builds w) (buildFiles w) (blobs w) (sessions w)
    (downloadEvents w) (gameMedia w) (patchNotes w) (userGames w) (auditLog w) (erasures w)
    (crashReports w) (files w) (mediaFiles w) x (clock w) (draws w).

Definition setClock (x : Z) (w : World) : World :=
  mkWorld (users w) (roleGrants w) (roleRows w) (rolePermissions w) (refreshTokens w)
    (userTokens w) (games w) (versions w) (builds w) (buildFiles w) (blobs w) (sessions w)
    (downloadEvents w) (gameMedia w) (patchNotes w) (userGames w) (auditLog w) (erasures w)
    (crashReports w) (files w) (mediaFiles w) (outbox w) x (draws w).

Definition setDraws (x : nat) (w : World) : World :=
  mkWorld (users w) (roleGrants w) (roleRows w) (rolePermissions w) (refreshTokens w)
    (userTokens w) (games w) (versions w) (builds w) (buildFiles w) (blobs w) (sessions w)
    (downloadEvents w) (gameMedia w) (patchNotes w) (userGames w) (auditLog w) (erasures w)
    (crashReports w) (files w) (mediaFiles w) (outbox w) (clock w) x.

(** One draw of the generator. *)
Definition draw {A} (f : nat → A) : Prog World A :=
  exec (λ w, (f (draws w), setDraws (S (draws w)) w)).

(** A call into the blob store; which of its operations fail is the file system's choice. *)
Class Disk := { faultsAt : nat → Faults }.

Definition onDisk `{Disk} {A} (f : Faults → gmap string (list ascii) → A * gmap string (list ascii))
    : Prog World A :=
  exec (λ w, let r := f (faultsAt (draws w)) (files w) in
             (r.1, setFiles r.2 (setDraws (S (draws w)) w))).

(** Time passes. *)
Inductive clockTick (w : World) : World → Prop :=
| clock_tick t : clock w ≤ t → clockTick w (setClock t w).

(** ** Lemmas on tables *)

Section TableLemmas.
Context {Row : Type}.
Implicit Types (p : Row → bool) (t : list Row) (r : Row).

Lemma selectFirst_Some p t r : selectFirst p t = Some r → r ∈ t ∧ p r = true.
Proof. intros H%List.find_some. by rewrite list_elem_of_In. Qed.

Lemma selectFirst_None p t : selectFirst p t = None ↔ ∀ r, r ∈ t → p r = false.
Proof.
  unfold selectFirst. split.
  - intros H r Hr%list_elem_of_In. by eapply List.find_none.
  - intros H. induction t as [|r t IH]; cbn; [done|].
    rewrite (H r) by (apply elem_of_cons; by left). apply IH. intros r' Hr'. apply H.
    apply elem_of_cons. by right.
Qed.

Lemma anyWhere_true p t : anyWhere p t = true ↔ ∃ r, r ∈ t ∧ p r = true.
Proof.
  unfold anyWhere. rewrite existsb_exists. setoid_rewrite <- list_elem_of_In. done.
Qed.

Lemma anyWhere_false p t : anyWhere p t = false ↔ ∀ r, r ∈ t → p r = false.
Proof.
  rewrite <- not_true_iff_false, anyWhere_true. split.
  - intros H r Hr. destruct (p r) eqn:E; [|done]. exfalso. eauto.
  - intros H (r & Hr & E). by rewrite (H r Hr) in E.
Qed.

Lemma selectWhere_none p t : (∀ r, r ∈ t → p r = false) → selectWhere p t = [].
Proof.
  intros Hp. unfold selectWhere. induction t as [|r t IH]; cbn; [done|].
  rewrite Hp by (apply elem_of_cons; by left). apply IH. intros r' Hr'. apply Hp.
  apply elem_of_cons. by right.
Qed.

Lemma elem_of_selectWhere p t r : r ∈ selectWhere p t ↔ r ∈ t ∧ p r = true.
Proof. unfold selectWhere. by rewrite !list_elem_of_In, filter_In. Qed.

Lemma elem_of_deleteWhere p t r : r ∈ deleteWhere p t ↔ r ∈ t ∧ p r = false.
Proof. unfold deleteWhere. by rewrite !list_elem_of_In, filter_In, negb_true_iff. Qed.

Lemma elem_of_insertRow r r' t : r ∈ insertRow r' t ↔ r ∈ t ∨ r = r'.
Proof. unfold insertRow. by rewrite elem_of_app, list_elem_of_singleton. Qed.

Lemma elem_of_updateWhere p f t r :
  r ∈ updateWhere p f t ↔ ∃ r0, r0 ∈ t ∧ r = if p r0 then f r0 else r0.
Proof. unfold updateWhere. rewrite list_elem_of_fmap. naive_solver. Qed.

Lemma updateWhere_keys {K} (key : Row → K) p f t :
  (∀ r, r ∈ t → p r = true → key (f r) = key r) → map key (updateWhere p f t) = map key t.
Proof.
  unfold updateWhere. intros H. rewrite map_map. apply map_ext_in. intros r Hr%list_elem_of_In.
  destruct (p r) eqn:E; auto.
Qed.

Lemma updateWhere_none p f t : (∀ r, r ∈ t → p r = false) → updateWhere p f t = t.
Proof.
  unfold updateWhere. intros H. rewrite <- (map_id t) at 2. apply map_ext_in.
  intros r Hr%list_elem_of_In. by rewrite H.
Qed.

(** An update leaves the answer to a question it does not touch. *)
Lemma anyWhere_updated q p f t : (∀ r, q (f r) = q r) → anyWhere q (updateWhere p f t) = anyWhere q t.
Proof.
  intros Hq. unfold anyWhere, updateWhere. induction t as [|r t IH]; cbn; [done|]. rewrite IH. f_equal.
  destruct (p r); by rewrite ?Hq.
Qed.

Lemma Forall_updateWhere (P : Row → Prop) p f t :
  Forall P t → (∀ r, r ∈ t → p r = true → P r → P (f r)) → Forall P (updateWhere p f t).
Proof.
  rewrite !Forall_forall. intros H Hf r (r0 & Hr0 & ->)%elem_of_updateWhere.
  destruct (p r0) eqn:E; auto.
Qed.

Lemma Forall_insertRow (P : Row → Prop) r t : Forall P t → P r → Forall P (insertRow r t).
Proof. intros. apply Forall_app. auto. Qed.

Lemma Forall_deleteWhere (P : Row → Prop) p t : Forall P t → Forall P (deleteWhere p t).
Proof. rewrite !Forall_forall. intros H r [Hr _]%elem_of_deleteWhere. auto. Qed.

(** Rows with one key are one row. *)
Lemma key_inj {K} (key : Row → K) t r r' :
  NoDup (map key t) → r ∈ t → r' ∈ t → key r = key r' → r = r'.
Proof.
  induction t as [|x t IH]; cbn; [by intros _ ?%not_elem_of_nil|].
  intros [Hx Ht]%NoDup_cons Hr Hr' E.
  apply elem_of_cons in Hr as [->|Hr], Hr' as [->|Hr']; [done|..].
  - exfalso. apply Hx. rewrite E. apply list_elem_of_fmap. eauto.
  - exfalso. apply Hx. rewrite <- E. apply list_elem_of_fmap. eauto.
  - by apply IH.
Qed.

Lemma selectFirst_unique {K} (key : Row → K) p t r :
  NoDup (map key t) → (∀ a b, p a = true → p b = true → key a = key b) →
  r ∈ t → p r = true → selectFirst p t = Some r.
Proof.
  intros HN Hkey Hr Hp. destruct (selectFirst p t) as [r'|] eqn:E.
  - apply selectFirst_Some in E as [Hr' Hp']. f_equal. by apply (key_inj key t); auto.
  - by rewrite (proj1 (selectFirst_None p t) E r Hr) in Hp.
Qed.

Lemma NoDup_insertRow {K} (key : Row → K) t r :
  NoDup (map key t) → (∀ r', r' ∈ t → key r' ≠ key r) → NoDup (map key (insertRow r t)).
Proof.
  intros HN Hr. unfold insertRow. rewrite map_app. apply NoDup_app. split; [done|]. split.
  - intros k (r' & -> & Hr')%list_elem_of_fmap Hk%list_elem_of_singleton. by eapply Hr.
  - cbn. apply NoDup_singleton.
Qed.

Lemma NoDup_insert_keys {K} (key : Row → K) t t0 r :
  NoDup (map key t) → map key t = map key t0 → (∀ r', r' ∈ t0 → key r' ≠ key r) →
  NoDup (map key (insertRow r t)).
Proof.
  intros HN E Hr. apply NoDup_insertRow; [done|]. intros r' Hr' Ek.
  assert (key r' ∈ map key t0) as (r0 & E0 & Hr0)%list_elem_of_fmap.
  { rewrite <- E. apply list_elem_of_fmap. eauto. }
  apply (Hr r0 Hr0). congruence.
Qed.

Lemma NoDup_deleteWhere {K} (key : Row → K) p t :
  NoDup (map key t) → NoDup (map key (deleteWhere p t)).
Proof.
  induction t as [|x t IH]; cbn; [done|]. intros [Hx Ht]%NoDup_cons.
  destruct (negb (p x)); cbn; [|auto]. apply NoDup_cons. split; [|auto].
  intros (r & E & Hr)%list_elem_of_fmap. apply elem_of_deleteWhere in Hr as [Hr _].
  apply Hx. rewrite E. apply list_elem_of_fmap. eauto.
Qed.
Lemma NoDup_selectWhere {K} (key : Row → K) p t :
  NoDup (map key t) → NoDup (map key (selectWhere p t)).
Proof.
  intros HN. replace (selectWhere p t) with (deleteWhere (λ r, negb (p r)) t); [by apply NoDup_deleteWhere|].
  unfold selectWhere, deleteWhere. apply filter_ext. intros r. apply negb_involutive.
Qed.
End TableLemmas.

Lemma uuidEq_refl a : uuidEq a a = true.
Proof. by apply bool_decide_eq_true. Qed.

Lemma uuidEq_true a b : uuidEq a b = true ↔ lowerText a = lowerText b.
Proof. apply bool_decide_eq_true. Qed.

Lemma citextEq_true a b : citextEq a b = true ↔ lowerText a = lowerText b.
Proof. apply bool_decide_eq_true. Qed.

Lemma bigint_Some z z' : bigint z = Some z' ↔ z' = z ∧ INT64_MIN ≤ z ≤ INT64_MAX.
Proof.
  unfold bigint. destruct ((INT64_MIN <=? z) && (z <=? INT64_MAX)) eqn:E; bool_to_prop.
  - split; [intros [= <-]; auto|by intros [-> _]].
  - split; [done|]. intros [_ ?]. apply andb_false_iff in E as [?|?]; bool_to_prop; lia.
Qed.

(** Distinct keys, decided by running. *)
Fixpoint distinctTexts (l : list string) : bool :=
  match l with
  | [] => true
  | x :: l' => negb (existsb (λ y, bool_decide (y = x)) l') && distinctTexts l'
  end.

Lemma distinctTexts_sound l : distinctTexts l = true → NoDup l.
Proof.
  induction l as [|x l IH]; cbn; [constructor|]. rewrite andb_true_iff, negb_true_iff.
  intros [Hx Hl]. constructor; [|auto]. intros Hin.
  assert (existsb (λ y, bool_decide (y = x)) l = true); [|congruence].
  apply existsb_exists. exists x. split; [by apply list_elem_of_In|by apply bool_decide_eq_true].
Qed.
