(* ===== verification/Ordering.v ===== *)
(** Tables in order and in numbers: the comparisons of the [ORDER BY] clauses, by which a query
    that sorts by several keys in turn, each up or down, sorts by a total preorder, so what it
    returns is sorted; and the counts of the rows of a table by a key of theirs. *)

From S2P Require Import Prelude.
From S2P Require Import Programs.
From S2P Require Import World.

(** What a comparison must satisfy to be sorted by. *)
Class Comparison {A} (cmp : A → A → comparison) : Prop := {
  cmp_opp a b : cmp b a = CompOpp (cmp a b);
  cmp_lt a b c : cmp a b = Lt → cmp b c = Lt → cmp a c = Lt;
  cmp_eq a b c : cmp a b = Eq → cmp a c = cmp b c
}.
Arguments cmp_opp {A} cmp {_} _ _.
Arguments cmp_lt {A} cmp {_} _ _ _.
Arguments cmp_eq {A} cmp {_} _ _ _.

Section Laws.
Context {A} (cmp : A → A → comparison) `{!Comparison cmp}.

Lemma cmp_eq_right a b c : cmp b c = Eq → cmp a c = cmp a b.
Proof. intros E. rewrite (cmp_opp cmp c a), (cmp_opp cmp b a). f_equal. symmetry. by apply (cmp_eq cmp). Qed.

#[export] Instance ordered_total : Total (ordered cmp).
Proof. intros a b. unfold ordered. rewrite (cmp_opp cmp a b). destruct (cmp a b); cbn; auto. Qed.

#[export] Instance ordered_trans : Transitive (ordered cmp).
Proof.
  intros a b c. unfold ordered. destruct (cmp a b) eqn:Eab; [|intros _|done].
  - by rewrite (cmp_eq cmp a b c Eab).
  - destruct (cmp b c) eqn:Ebc; intros ?; [|by rewrite (cmp_lt cmp a b c)|done].
    by rewrite (cmp_eq_right a b c Ebc), Eab.
Qed.

(** A sorted query. *)
Lemma orderBy_sorted t : StronglySorted (ordered cmp) (orderBy cmp t).
Proof. apply (StronglySorted_merge_sort (ordered cmp)). Qed.
End Laws.

Lemma orderBy_Permutation {A} (cmp : A → A → comparison) t : orderBy cmp t ≡ₚ t.
Proof. apply merge_sort_Permutation. Qed.

(** The first row of an [ORDER BY ... LIMIT 1]. *)
Lemma orderBy_head {A} (cmp : A → A → comparison) `{!Comparison cmp} t a :
  head (orderBy cmp t) = Some a → a ∈ t ∧ ∀ b, b ∈ t → ordered cmp a b.
Proof.
  pose proof (orderBy_sorted cmp t) as Hs. pose proof (orderBy_Permutation cmp t) as Hp.
  destruct (orderBy cmp t) as [|c l]; [done|]. intros [= ->]. apply StronglySorted_inv in Hs as [_ Hl].
  split; [rewrite <- Hp; by left|]. intros b. rewrite <- Hp. intros [->|Hb]%elem_of_cons.
  - by destruct (ordered_total cmp a a).
  - rewrite Forall_forall in Hl. by apply Hl.
Qed.

Lemma orderBy_head_None {A} (cmp : A → A → comparison) t : head (orderBy cmp t) = None ↔ t = [].
Proof.
  pose proof (orderBy_Permutation cmp t) as Hp. destruct (orderBy cmp t) as [|c l] eqn:E.
  - split; [|done]. intros _. by apply Permutation_nil in Hp.
  - split; [done|]. intros ->. symmetry in Hp. by apply Permutation_nil in Hp.
Qed.

(** ** Instances *)

#[export] Instance Z_comparison : Comparison Z.compare.
Proof.
  split; intros *; [apply Z.compare_antisym| |by intros ->%Z.compare_eq].
  rewrite !Z.compare_lt_iff. lia.
Qed.

Lemma ascii_compare_lt a b c :
  Ascii.compare a b = Lt → Ascii.compare b c = Lt → Ascii.compare a c = Lt.
Proof. unfold Ascii.compare. rewrite !N.compare_lt_iff. lia. Qed.

#[export] Instance compareText_comparison : Comparison compareText.
Proof.
  split; unfold compareText.
  - intros a b. apply String.compare_antisym.
  - intros a. induction a as [|x a IH]; intros [|y b] [|z c]; try done. cbn [String.compare].
    destruct (Ascii.compare x y) eqn:Exy; [|intros _|done].
    + apply Ascii.compare_eq_iff in Exy as ->. destruct (Ascii.compare y z); [apply IH|done|done].
    + destruct (Ascii.compare y z) eqn:Eyz; [|intros _|done].
      * apply Ascii.compare_eq_iff in Eyz as ->. by rewrite Exy.
      * by rewrite (ascii_compare_lt x y z).
  - intros a b c E. apply String.compare_eq_iff in E. by subst.
Qed.

Section Combinators.
Context {A : Type}.
Implicit Types c d : A → A → comparison.

(** By a key, downwards, and by one comparison and then another. *)
#[export] Instance comparison_on {B} (key : A → B) (cmp : B → B → comparison) :
  Comparison cmp → Comparison (λ a b, cmp (key a) (key b)).
Proof. intros []. split; eauto. Qed.

#[export] Instance comparison_down c : Comparison c → Comparison (λ a b, CompOpp (c a b)).
Proof.
  intros HC. split.
  - intros a b. by rewrite (cmp_opp c a b).
  - intros x y z. destruct (c x y) eqn:E1; [done|done|]. destruct (c y z) eqn:E2; [done|done|]. intros _ _.
    rewrite (cmp_opp c z x), (cmp_lt c z y x); [done|by rewrite (cmp_opp c y z), E2|by rewrite (cmp_opp c x y), E1].
  - intros x y z. destruct (c x y) eqn:E; [|done|done]. intros _. by rewrite (cmp_eq c x y z E).
Qed.

#[export] Instance comparison_then c d : Comparison c → Comparison d → Comparison (λ a b, thenBy (c a b) (d a b)).
Proof.
  intros HC HD. split.
  - intros a b. rewrite (cmp_opp c a b), (cmp_opp d a b). by destruct (c a b).
  - intros x y z. destruct (c x y) eqn:E1; cbn; [|intros _|done].
    + rewrite (cmp_eq c x y z E1). destruct (c y z); cbn; [|done|done]. apply (cmp_lt d).
    + destruct (c y z) eqn:E2; cbn; [|intros _|done].
      * by rewrite (cmp_eq_right c x y z E2), E1.
      * by rewrite (cmp_lt c x y z E1 E2).
  - intros x y z. destruct (c x y) eqn:E1; cbn; [|done|done]. intros E2.
    rewrite (cmp_eq c x y z E1). by rewrite (cmp_eq d x y z E2).
Qed.
End Combinators.

(** Uuids compare by their lower-case text. *)
#[export] Instance compareUuid_comparison : Comparison compareUuid.
Proof. apply (comparison_on lowerText compareText), _. Qed.

(** ** Pages *)

(** Pages of one size, one after another, are the list they are cut from. *)
Lemma pages_take {A} (limit : nat) (l : list A) n :
  mjoin (map (λ k, take limit (drop (k * limit) l)) (seq 0 n)) = take (n * limit) l.
Proof.
  induction n as [|n IH]; [done|]. rewrite seq_S, map_app, join_app, IH. cbn [map mjoin list_join].
  rewrite app_nil_r. replace (S n * limit)%nat with (n * limit + limit)%nat by lia.
  by rewrite Nat.add_0_l, take_take_drop.
Qed.

Definition sumZ (l : list Z) : Z := foldr Z.add 0 l.

Definition count {Row} (t : list Row) : Z := Z.of_nat (length t).

Lemma sumZ_perm l l' : l ≡ₚ l' → sumZ l = sumZ l'.
Proof. unfold sumZ. induction 1; cbn; lia. Qed.

Lemma sumZ_add {X} (f g : X → Z) l : sumZ (map (λ x, f x + g x) l) = sumZ (map f l) + sumZ (map g l).
Proof. induction l as [|x l IH]; cbn; [done|]. unfold sumZ in *. lia. Qed.

Lemma sumZ_zero {X} (l : list X) : sumZ (map (λ _, 0) l) = 0.
Proof. by induction l. Qed.

Lemma sumZ_const {X} (l : list X) : sumZ (map (λ _, 1) l) = Z.of_nat (length l).
Proof. induction l as [|x l IH]; [done|]. cbn in *. unfold sumZ in *. lia. Qed.

Lemma sumZ_le {X} (f g : X → Z) l : (∀ x, x ∈ l → f x ≤ g x) → sumZ (map f l) ≤ sumZ (map g l).
Proof.
  induction l as [|x l IH]; intros Hl; [done|]. cbn. unfold sumZ in *.
  specialize (Hl x) as Hx. specialize (IH (λ y Hy, Hl y (list_elem_of_further _ _ _ Hy))). specialize (Hx ltac:(by left)). lia.
Qed.

Lemma sumZ_nonneg {X} (f : X → Z) l : (∀ x, x ∈ l → 0 ≤ f x) → 0 ≤ sumZ (map f l).
Proof. intros Hf. rewrite <- (sumZ_zero l). by apply sumZ_le. Qed.

Lemma sumZ_sublist l l' : l `sublist_of` l' → Forall (λ z, 0 ≤ z) l' → sumZ l ≤ sumZ l'.
Proof.
  induction 1 as [|x l l' _ IH|x l l' _ IH]; intros HF; cbn; [done| |];
    inversion HF as [|? ? H1 H2]; subst; specialize (IH H2); unfold sumZ in *; lia.
Qed.

Lemma count_mono {Row} (p q : Row → bool) t :
  (∀ r, r ∈ t → p r = true → q r = true) → count (selectWhere p t) ≤ count (selectWhere q t).
Proof.
  unfold count, selectWhere. induction t as [|r t IH]; intros Hpq; [done|]. cbn [List.filter].
  specialize (IH (λ x Hx, Hpq x (list_elem_of_further _ _ _ Hx))). specialize (Hpq r ltac:(by left)).
  destruct (p r); [rewrite Hpq by done; cbn [length]; lia|]. destruct (q r); cbn [length]; lia.
Qed.

Section Key.
Context {X K : Type} `{EqDecision K} (key : X → K) (weight : X → Z).

(** The rows of a key. *)
Definition having (k : K) (t : list X) : list X := selectWhere (λ x, bool_decide (key x = k)) t.

Lemma indicator_sum (k : K) z ks :
  NoDup ks → sumZ (map (λ k', if bool_decide (k = k') then z else 0) ks) = if bool_decide (k ∈ ks) then z else 0.
Proof.
  induction 1 as [|k' ks Hk _ IH]; [by rewrite bool_decide_eq_false_2 by apply not_elem_of_nil|].
  cbn [map sumZ foldr]. fold (sumZ (map (λ k', if bool_decide (k = k') then z else 0) ks)). rewrite IH.
  destruct (decide (k = k')) as [->|Hne].
  - rewrite (bool_decide_eq_true_2 (k' = k')), (bool_decide_eq_false_2 _ Hk), bool_decide_eq_true_2 by (done || by left). lia.
  - rewrite (bool_decide_eq_false_2 _ Hne), (bool_decide_ext (k ∈ k' :: ks) (k ∈ ks)); [done|].
    rewrite elem_of_cons. naive_solver.
Qed.

(** Summed key by key, everything is counted once. *)
Lemma weights_total ks t :
  NoDup ks → (∀ x, x ∈ t → key x ∈ ks) →
  sumZ (map (λ k, sumZ (map weight (having k t))) ks) = sumZ (map weight t).
Proof.
  intros Hnd. induction t as [|x t IH]; intros Hin; [apply sumZ_zero|].
  rewrite (map_ext _ (λ k, (if bool_decide (key x = k) then weight x else 0) + sumZ (map weight (having k t)))).
  2: { intros k. unfold having, selectWhere. cbn. case_bool_decide; cbn; unfold sumZ; lia. }
  rewrite sumZ_add, indicator_sum by done. rewrite bool_decide_eq_true_2 by (apply Hin; by left).
  rewrite IH by (intros; apply Hin; by right). done.
Qed.
End Key.

Lemma counts_total {X K} `{EqDecision K} (key : X → K) ks t :
  NoDup ks → (∀ x, x ∈ t → key x ∈ ks) → sumZ (map (λ k, Z.of_nat (length (having key k t))) ks) = Z.of_nat (length t).
Proof.
  intros Hnd Hin. rewrite <- sumZ_const, <- (weights_total key (λ _, 1) ks t Hnd Hin). f_equal. apply map_ext.
  intros k. by rewrite sumZ_const.
Qed.
