(* ===== verification/Accounts.v ===== *)
(** Accounts, roles and tokens in the database: [src/domain/User.h] and
    [src/repositories/postgres/PgRepositories.cpp], one definition per statement, with the
    constraints of [migrations/0001_initial_schema.sql] it can run into. *)

From S2P Require Import Prelude.
From S2P Require Import Errors.
From S2P Require Import Manifest.
From S2P Require Import Delta.
From S2P Require Import Programs.
From S2P Require Import World.

(** What PostgreSQL computes for a statement: [gen_random_uuid()], [to_char(... 'UTC')],
    the text of a flat [jsonb] object, and the cast of a text to [timestamptz]. *)
Class Postgres := {
  gen_random_uuid : nat → string;
  to_char_utc : Z → string;
  jsonb_text : list (string * string) → string;
  timestamptz : string → option Z
}.

(** ** Accounts as the services see them *)

Record User := mkUser {
  accountId : string;
  accountEmail : string;
  accountDisplayName : string;
  accountPasswordHash : string;
  emailVerified : bool;
  accountActive : bool;
  mustChangePassword : bool;
  quotaBytes : Z;
  usedBytes : Z
}.

Record NewUser := mkNewUser {
  newEmail : string;
  newDisplayName : string;
  newPasswordHash : string
}.

Definition remainingUploadBytes (user : User) : Z :=
  let remaining := quotaBytes user - usedBytes user in
  if 0 <? remaining then remaining else 0.

Definition ERASED_DISPLAY_NAME : string := "Deleted account".
Definition ERASED_PASSWORD_HASH : string := "erased".

Definition erasedEmailFor (id : string) : string := "erased+" +:+ id +:+ "@deleted.invalid".

Definition mapUser (row : UserRow) : User :=
  mkUser (userId row) (userEmail row) (displayName row) (passwordHash row)
    (if emailVerifiedAt row then true else false) (isActive row) (passwordChangeRequired row)
    (uploadQuotaBytes row) (uploadUsedBytes row).

(** ** Users *)

Definition userIs (id : string) (row : UserRow) : bool := uuidEq (userId row) id.

Definition emailIs (email : string) (row : UserRow) : bool := citextEq (userEmail row) email.

Definition users_findById (id : string) : Prog World (option User) :=
  query (λ w, fmap (M := option) mapUser (selectFirst (userIs id) (users w))).

Definition users_findByEmail (email : string) : Prog World (option User) :=
  query (λ w, fmap (M := option) mapUser (selectFirst (emailIs email) (users w))).

(** The columns an [INSERT] leaves to their defaults. *)
Definition DEFAULT_UPLOAD_QUOTA : Z := 5368709120.

Definition newUserRow (now : Z) (id : string) (user : NewUser) : UserRow :=
  mkUserRow id (newEmail user) None (newPasswordHash user) (newDisplayName user)
    DEFAULT_UPLOAD_QUOTA 0 true None false now.

(** [users_display_name_length]. *)
Definition displayNameFits (name : string) : bool := (2 <=? charLength name) && (charLength name <=? 64).

Section Statements.
Context `{Postgres}.

Definition users_create (user : NewUser) : Prog World (Result User) :=
  statement (λ w,
    let id := gen_random_uuid (draws w) in
    let w := setDraws (S (draws w)) w in
    if negb (displayNameFits (newDisplayName user)) then None
    else if anyWhere (emailIs (newEmail user)) (users w) then
      Some (failure Conflict "that email address is already registered", w)
    else if anyWhere (userIs id) (users w) then None
    else let row := newUserRow (clock w) id user in
         Some (Success (mapUser row), setUsers (insertRow row (users w)) w)).
End Statements.

Definition updateUser (id : string) (f : UserRow → UserRow) (w : World) : World :=
  setUsers (updateWhere (userIs id) f (users w)) w.

Definition withEmailVerified (now : Z) (r : UserRow) : UserRow :=
  mkUserRow (userId r) (userEmail r)
    (match emailVerifiedAt r with Some t => Some t | None => Some now end)
    (passwordHash r) (displayName r) (uploadQuotaBytes r) (uploadUsedBytes r) (isActive r)
    (lastLoginAt r) (passwordChangeRequired r) (userCreatedAt r).

Definition withPasswordHash (hash : string) (changeRequired : bool) (r : UserRow) : UserRow :=
  mkUserRow (userId r) (userEmail r) (emailVerifiedAt r) hash (displayName r)
    (uploadQuotaBytes r) (uploadUsedBytes r) (isActive r) (lastLoginAt r) changeRequired (userCreatedAt r).

Definition withLastLogin (now : Z) (r : UserRow) : UserRow :=
  mkUserRow (userId r) (userEmail r) (emailVerifiedAt r) (passwordHash r) (displayName r)
    (uploadQuotaBytes r) (uploadUsedBytes r) (isActive r) (Some now) (passwordChangeRequired r)
    (userCreatedAt r).

Definition withUsedBytes (used : Z) (r : UserRow) : UserRow :=
  mkUserRow (userId r) (userEmail r) (emailVerifiedAt r) (passwordHash r) (displayName r)
    (uploadQuotaBytes r) used (isActive r) (lastLoginAt r) (passwordChangeRequired r) (userCreatedAt r).

Definition users_markEmailVerified (id : string) : Prog World unit :=
  exec (λ w, (tt, updateUser id (withEmailVerified (clock w)) w)).

Definition users_updatePasswordHash (id hash : string) : Prog World unit :=
  exec (λ w, (tt, updateUser id (withPasswordHash hash false) w)).

Definition users_rehashPassword (id hash : string) : Prog World unit :=
  exec (λ w, (tt, updateUser id (λ r, withPasswordHash hash (passwordChangeRequired r) r) w)).

Definition users_recordSuccessfulLogin (id : string) : Prog World unit :=
  exec (λ w, (tt, updateUser id (withLastLogin (clock w)) w)).

(** Whether the row has room, or [None] when the sum leaves [bigint]. *)
Definition hasRoom (bytes : Z) (r : UserRow) : option bool :=
  total ← bigint (uploadUsedBytes r + bytes); Some (total <=? uploadQuotaBytes r).

(** [users_used_non_negative] refuses a charge that would go below zero. *)
Definition users_chargeUpload (id : string) (bytes : Z) : Prog World bool :=
  statement (λ w,
    match selectFirst (userIs id) (users w) with
    | None => Some (false, w)
    | Some r =>
        match hasRoom bytes r with
        | None => None
        | Some false => Some (false, w)
        | Some true =>
            if uploadUsedBytes r + bytes <? 0 then None
            else Some (true, updateUser id (λ r, withUsedBytes (uploadUsedBytes r + bytes) r) w)
        end
    end).

Definition users_releaseUpload (id : string) (bytes : Z) : Prog World unit :=
  statement (λ w,
    match selectFirst (userIs id) (users w) with
    | None => Some (tt, w)
    | Some r =>
        match bigint (uploadUsedBytes r - bytes) with
        | None => None
        | Some _ =>
            Some (tt, updateUser id (λ r, withUsedBytes (Z.max 0 (uploadUsedBytes r - bytes)) r) w)
        end
    end).

(** ** Roles and permissions *)

(** [SELECT DISTINCT p.key ... ORDER BY p.key]. *)
Definition permissionsOf (id : string) (w : World) : list string :=
  merge_sort (keyLe (λ key : string, key))
    (remove_dups
       (snd <$> List.filter
          (λ grant : string * string, anyWhere (λ held, uuidEq held.1 id && bool_decide (held.2 = grant.1)) (roleGrants w))
          (rolePermissions w))).

Definition roles_permissionsForUser (id : string) : Prog World (list string) :=
  query (permissionsOf id).

Definition holdsRole (id role : string) (grant : string * string) : bool :=
  uuidEq grant.1 id && bool_decide (grant.2 = role).

(** The insert selects from [roles], so an unknown role inserts nothing; the second
    statement reports what is held. *)
Definition roles_assignRole (id role : string) : Prog World bool :=
  _ ← statement (λ w,
        if negb (bool_decide (role ∈ roleKeys w)) then Some (tt, w)
        else if anyWhere (holdsRole id role) (roleGrants w) then Some (tt, w)
        else if negb (anyWhere (userIs id) (users w)) then None
        else Some (tt, setRoleGrants (insertRow (id, role) (roleGrants w)) w));
  query (λ w, anyWhere (holdsRole id role) (roleGrants w)).

(** ** Refresh tokens *)

Record RefreshTokenRecord := mkRefreshRecord {
  recordId : string;
  recordUserId : string;
  recordFamilyId : string;
  recordRevoked : bool;
  recordExpired : bool
}.

Record NewRefreshToken := mkNewRefresh {
  nextUserId : string;
  nextFamilyId : string;
  nextTokenHash : string;
  nextTtl : Z;
  nextUserAgent : string;
  nextIpAddress : string
}.

Definition refreshHashIs (hash : string) (row : RefreshRow) : bool :=
  bool_decide (refreshTokenHash row = hash).

Definition refreshIs (id : string) (row : RefreshRow) : bool := uuidEq (refreshId row) id.

Definition familyIs (family : string) (row : RefreshRow) : bool := uuidEq (refreshFamilyId row) family.

Definition refreshOwnerIs (id : string) (row : RefreshRow) : bool := uuidEq (refreshUserId row) id.

Definition unrevoked (row : RefreshRow) : bool := if refreshRevokedAt row then false else true.

Definition refreshRecordOf (now : Z) (row : RefreshRow) : RefreshTokenRecord :=
  mkRefreshRecord (refreshId row) (refreshUserId row) (refreshFamilyId row)
    (negb (unrevoked row)) (refreshExpiresAt row <=? now).

Definition refreshTokens_findByHash (hash : string) : Prog World (option RefreshTokenRecord) :=
  query (λ w, fmap (M := option) (refreshRecordOf (clock w))
                (selectFirst (refreshHashIs hash) (refreshTokens w))).

Definition revokedAs (now : Z) (successor : option string) (r : RefreshRow) : RefreshRow :=
  mkRefreshRow (refreshId r) (refreshUserId r) (refreshFamilyId r) (refreshTokenHash r)
    (refreshExpiresAt r) (Some now)
    (match successor with Some id => Some id | None => replacedBy r end)
    (refreshUserAgent r) (refreshIpAddress r).

(** [UPDATE refresh_tokens SET revoked_at = now() WHERE ... AND revoked_at IS NULL]. *)
Definition revokeWhere (p : RefreshRow → bool) (w : World) : World :=
  setRefreshTokens
    (updateWhere (λ r, p r && unrevoked r) (revokedAs (clock w) None) (refreshTokens w)) w.

Definition refreshTokens_revokeById (id : string) : Prog World unit :=
  exec (λ w, (tt, revokeWhere (refreshIs id) w)).

Definition refreshTokens_revokeFamily (family : string) : Prog World unit :=
  exec (λ w, (tt, revokeWhere (familyIs family) w)).

Definition refreshTokens_revokeAllForUser (id : string) : Prog World unit :=
  exec (λ w, (tt, revokeWhere (refreshOwnerIs id) w)).

Definition refreshTokens_deleteExpired : Prog World nat :=
  exec (λ w,
    let gone r := refreshExpiresAt r <=? clock w in
    (length (selectWhere gone (refreshTokens w)),
     setRefreshTokens (deleteWhere gone (refreshTokens w)) w)).

Section Tokens.
Context `{Postgres}.

Definition newRefreshRow (now : Z) (id : string) (token : NewRefreshToken) : RefreshRow :=
  mkRefreshRow id (nextUserId token) (nextFamilyId token) (nextTokenHash token)
    (now + nextTtl token) None None (nullIfEmpty (nextUserAgent token))
    (nullIfEmpty (nextIpAddress token)).

(** [INSERT_REFRESH_TOKEN], refused by the primary key, the unique hash, the foreign key
    to [users] and [refresh_tokens_expiry_after_issue]. *)
Definition insertRefreshToken (token : NewRefreshToken) (w : World) : option (string * World) :=
  let id := gen_random_uuid (draws w) in
  let w := setDraws (S (draws w)) w in
  if anyWhere (refreshIs id) (refreshTokens w) then None
  else if anyWhere (refreshHashIs (nextTokenHash token)) (refreshTokens w) then None
  else if negb (anyWhere (userIs (nextUserId token)) (users w)) then None
  else if nextTtl token <=? 0 then None
  else Some (id, setRefreshTokens
                   (insertRow (newRefreshRow (clock w) id token) (refreshTokens w)) w).

Definition refreshTokens_issue (token : NewRefreshToken) : Prog World string :=
  statement (insertRefreshToken token).

(** [ROTATE_REFRESH_TOKEN]: both arms read the table as it was before the statement, so
    the row just inserted is not itself revoked; the revocation may match nothing. *)
Definition refreshTokens_rotate (previousId : string) (next : NewRefreshToken) : Prog World string :=
  statement (λ w,
    '(id, inserted) ← insertRefreshToken next w;
    Some (id,
      setRefreshTokens
        (insertRow (newRefreshRow (clock w) id next)
           (updateWhere (λ r, refreshIs previousId r && unrevoked r)
              (revokedAs (clock w) (Some id)) (refreshTokens w)))
        inserted)).
End Tokens.

(** ** Single-use tokens *)

Definition purposeIs (purpose : UserTokenPurpose) (row : UserTokenRow) : bool :=
  bool_decide (tokenPurpose row = purpose).

Definition unconsumed (row : UserTokenRow) : bool := if consumedAt row then false else true.

Definition consumedAs (now : Z) (r : UserTokenRow) : UserTokenRow :=
  mkUserTokenRow (tokenUserId r) (tokenPurpose r) (tokenHash r) (tokenExpiresAt r) (Some now).

(** Refused by the unique hash and by the foreign key to [users]. *)
Definition userTokens_issue (id : string) (purpose : UserTokenPurpose) (hash : string) (ttl : Z)
    : Prog World unit :=
  statement (λ w,
    if anyWhere (λ r, bool_decide (tokenHash r = hash)) (userTokens w) then None
    else if negb (anyWhere (userIs id) (users w)) then None
    else Some (tt, setUserTokens
                     (insertRow (mkUserTokenRow id purpose hash (clock w + ttl) None) (userTokens w)) w)).

Definition redeemable (now : Z) (hash : string) (purpose : UserTokenPurpose) (r : UserTokenRow) : bool :=
  bool_decide (tokenHash r = hash) && purposeIs purpose r && unconsumed r && (now <? tokenExpiresAt r).

Definition userTokens_consume (hash : string) (purpose : UserTokenPurpose) : Prog World (option string) :=
  exec (λ w,
    let p := redeemable (clock w) hash purpose in
    (fmap (M := option) tokenUserId (selectFirst p (userTokens w)),
     setUserTokens (updateWhere p (consumedAs (clock w)) (userTokens w)) w)).

Definition userTokens_invalidateAll (id : string) (purpose : UserTokenPurpose) : Prog World unit :=
  exec (λ w,
    (tt, setUserTokens
           (updateWhere (λ r, uuidEq (tokenUserId r) id && purposeIs purpose r && unconsumed r)
              (consumedAs (clock w)) (userTokens w)) w)).
