(* ===== verification/AuditLog.v ===== *)
(** The audit log: [src/domain/AuditEntry.h] and the arm of [PgAdminRepositories.cpp] and
    [PgRepositories.cpp] that writes it, in the statement of the change it describes. *)

From S2P Require Import Prelude.
From S2P Require Import Errors.
From S2P Require Import Validation.
From S2P Require Import Programs.
From S2P Require Import World.
From S2P Require Import Accounts.

(** ** Data *)

Module auditActions.
Definition USER_QUOTA_CHANGED : string := "user.quota.changed".
Definition USER_ACTIVATED : string := "user.activated".
Definition USER_DEACTIVATED : string := "user.deactivated".
Definition USER_TEMPORARY_PASSWORD_SET : string := "user.password.temporary_set".
Definition ROLE_GRANTED : string := "user.role.granted".
Definition ROLE_REVOKED : string := "user.role.revoked".
Definition USER_ERASED : string := "user.erased".
End auditActions.

Module auditEntities.
Definition USER : string := "user".
End auditEntities.

Definition AuditField : Type := string * string.

Record NewAuditEntry := mkNewAudit {
  newAuditActor : string;
  newAuditAction : string;
  newAuditEntityType : string;
  newAuditEntityId : string;
  newAuditMetadata : list AuditField
}.

Record AuditEntry := mkAuditEntry {
  auditId : Z;
  entryActorUserId : string;
  entryActorEmail : string;
  entryAction : string;
  entryEntityType : string;
  entryEntityId : string;
  entryMetadataJson : string;
  entryCreatedAt : string
}.

(** ** Writing *)

(** [NULLIF($n, '')::uuid], and the foreign key to [users]. *)
Definition auditActorFits (actor : string) (w : World) : bool :=
  bool_decide (actor = ""%stdpp) || (isUuid actor && anyWhere (userIs actor) (users w)).

Definition auditRow (now : Z) (audit : NewAuditEntry) : AuditRow :=
  mkAuditRow (newAuditActor audit) (newAuditAction audit) (newAuditEntityType audit)
    (newAuditEntityId audit) (newAuditMetadata audit) now.

(** The arm every mutation carries, where the change it describes applied. *)
Definition insertAudit (audit : NewAuditEntry) (w : World) : World :=
  setAuditLog (insertRow (auditRow (clock w) audit) (auditLog w)) w.

(** ** What the log says *)

(** Some of the entries record an action on an account. *)
Definition logged (action id : string) (entries : list AuditRow) : Prop :=
  ∃ e, e ∈ entries ∧ auditAction e = action ∧ auditEntityType e = auditEntities.USER
       ∧ lowerText (auditEntityId e) = lowerText id.

Lemma logged_app action id l1 l2 : logged action id (l1 ++ l2) ↔ logged action id l1 ∨ logged action id l2.
Proof. unfold logged. setoid_rewrite elem_of_app. naive_solver. Qed.

Lemma logged_l action id l1 l2 : logged action id l1 → logged action id (l1 ++ l2).
Proof. rewrite logged_app. by left. Qed.

Lemma logged_r action id l1 l2 : logged action id l2 → logged action id (l1 ++ l2).
Proof. rewrite logged_app. by right. Qed.

Lemma not_logged action id : ¬ logged action id [].
Proof. by intros (e & He%not_elem_of_nil & _). Qed.

Lemma logged_same action id id' l : lowerText id = lowerText id' → logged action id l → logged action id' l.
Proof. intros E (e & ? & ? & ? & ?). exists e. split_and!; [done..|congruence]. Qed.

Lemma logged_row now audit id :
  newAuditEntityType audit = auditEntities.USER → lowerText (newAuditEntityId audit) = lowerText id →
  logged (newAuditAction audit) id [auditRow now audit].
Proof. intros. exists (auditRow now audit). split_and!; [by left|done..]. Qed.

#[export] Hint Resolve logged_l logged_r : launcher.
