(* ===== verification/MailTemplates.v ===== *)
(** The two messages the server sends: [src/services/MailTemplates.h],
    [src/services/MailTemplates.cpp] and the interface of [src/services/IMailSender.h]. *)

From S2P Require Import Prelude.
From S2P Require Import Errors.
From S2P Require Import Programs.
From S2P Require Import World.

(** [IMailSender::send]: the transport, an implementation of which may fail. *)
Class MailSender := { deliver : nat → MailMessage → VoidResult }.

Record MailContext := mkMailContext { linkBaseUrl : string; productName : string }.

Definition LF : ascii := "010"%char.
Definition CR : ascii := "013"%char.

Definition newline : string := text [LF].

(** ** Templates *)

Definition singleLine (value : string) : string :=
  text (map (λ c, if ceqb c CR || ceqb c LF then " "%char else c) (chars value)).

(** One slash at most, unlike the signer's. *)
Definition withoutTrailingSlash (url : string) : string :=
  match last (chars url) with
  | Some "/"%char => text (removelast (chars url))
  | _ => url
  end.

Definition greeting (displayName : string) : string :=
  let name := singleLine displayName in
  if bool_decide (name = ""%stdpp) then "Hello," else "Hello " +:+ name +:+ ",".

Definition verificationLink (context : MailContext) (token : string) : string :=
  withoutTrailingSlash (linkBaseUrl context) +:+ "/verify-email?token=" +:+ token.

Definition passwordResetLink (context : MailContext) (token : string) : string :=
  withoutTrailingSlash (linkBaseUrl context) +:+ "/password-reset?token=" +:+ token.

Definition verificationMessage (context : MailContext) (to displayName token : string) : MailMessage :=
  mkMailMessage to ("Confirm your " +:+ productName context +:+ " address")
    (greeting displayName +:+ newline +:+ newline +:+ "Open this link to confirm this address "
     +:+ "and finish creating your " +:+ productName context +:+ " account:" +:+ newline +:+ newline
     +:+ verificationLink context token +:+ newline +:+ newline
     +:+ "If you did not create an account, ignore this message: the address stays "
     +:+ "unconfirmed and nothing else happens." +:+ newline +:+ newline
     +:+ "-- " +:+ newline +:+ productName context +:+ newline).

Definition passwordResetMessage (context : MailContext) (to displayName token : string) : MailMessage :=
  mkMailMessage to ("Reset your " +:+ productName context +:+ " password")
    (greeting displayName +:+ newline +:+ newline +:+ "Open this link to choose a new password:"
     +:+ newline +:+ newline +:+ passwordResetLink context token +:+ newline +:+ newline
     +:+ "The link can be used once, and requesting another one replaces it. If you "
     +:+ "did not ask for this, ignore this message: your password does not change "
     +:+ "until somebody opens the link." +:+ newline +:+ newline
     +:+ "-- " +:+ newline +:+ productName context +:+ newline).

(** [co_await mailSender_.send(message)]; the outbox is the mail that left. *)
Definition sendMail `{MailSender} (message : MailMessage) : Prog World VoidResult :=
  exec (λ w,
    let delivery := deliver (draws w) message in
    let w := setDraws (S (draws w)) w in
    (delivery, if ok delivery then setOutbox (outbox w ++ [message]) w else w)).
