(* ===== verification/MailTransport.v ===== *)
(** Mail and log lines: [src/services/SmtpMailSender.cpp], [src/services/LoggingMailSender.cpp],
    [src/services/DisabledMailSender.h], the choice between them in [src/app/AppContext.cpp], and
    [src/common/Logging.cpp].  The conversation with the relay is libcurl's, base64 is libsodium's,
    and the sinks and the pattern that surrounds a message are spdlog's; what is modelled is the
    text the program hands them. *)

From S2P Require Import Prelude.
From S2P Require Import Errors.
From S2P Require Import Decimals.
From S2P Require Import Time.
From S2P Require Import CanonicalJson.
From S2P Require Import Signature.
From S2P Require Import Config.
From S2P Require Import Programs.
From S2P Require Import Random.
From S2P Require Import World.
From S2P Require Import MailTemplates.

(** ** Log lines *)

Inductive Level := LevelTrace | LevelDebug | LevelInfo | LevelWarn | LevelError | LevelOff.

Definition parseLevel (level : string) : Level :=
  let normalised := text (map tolower (chars level)) in
  if bool_decide (normalised = "trace"%stdpp) then LevelTrace
  else if bool_decide (normalised = "debug"%stdpp) then LevelDebug
  else if bool_decide (normalised = "warn"%stdpp) || bool_decide (normalised = "warning"%stdpp) then LevelWarn
  else if bool_decide (normalised = "error"%stdpp) then LevelError
  else if bool_decide (normalised = "off"%stdpp) then LevelOff
  else LevelInfo.

(** One turn of the [switch]: [std::hex] and [std::setw(4)] on what is left. *)
Definition escapedByte (c : ascii) : list ascii :=
  if ceqb c QUOTE then [BACKSLASH; QUOTE]
  else if ceqb c BACKSLASH then [BACKSLASH; BACKSLASH]
  else if byte c =? 10 then [BACKSLASH; "n"%char]
  else if byte c =? 13 then [BACKSLASH; "r"%char]
  else if byte c =? 9 then [BACKSLASH; "t"%char]
  else if byte c <? 32 then
    [BACKSLASH; "u"%char; "0"%char; "0"%char; hexDigit (Z.shiftr (byte c) 4); hexDigit (Z.land (byte c) 15)]
  else [c].

Definition escapeJson (value : string) : string := text (concat (map escapedByte (chars value))).

(** *** What a line holds *)

(** A text that stays within one line, and within the string of a JSON document. *)
Definition oneLine (l : list ascii) : bool := forallb (λ c, 32 <=? byte c) l.

(** A reader of JSON that meets this text in a string reads that one. *)
Definition reads (l value : list ascii) : Prop := ∀ rest, readString (l ++ QUOTE :: rest) = Some (value, rest).

Lemma readString_escapedByte c r : readString (escapedByte c ++ r) = (λ p, (c :: p.1, p.2)) <$> readString r.
Proof. destruct c as [[] [] [] [] [] [] [] []]; cbv -[readString fmap option_fmap]; reflexivity. Qed.

Lemma escapedByte_oneLine c : oneLine (escapedByte c) = true.
Proof. by every_byte c. Qed.

Lemma reads_prefix k l m v :
  (∀ r, readString (k ++ r) = (λ p, (m ++ p.1, p.2)) <$> readString r) → reads l v → reads (k ++ l) (m ++ v).
Proof. intros Hk Hl r. by rewrite <- app_assoc, Hk, Hl. Qed.

Lemma readString_escape l r : readString (concat (map escapedByte l) ++ r) = (λ p, (l ++ p.1, p.2)) <$> readString r.
Proof.
  induction l as [|c l IH]; [cbn [map concat app]; by destruct (readString r) as [[]|]|].
  cbn [map concat]. rewrite <- app_assoc, readString_escapedByte, IH. by destruct (readString r) as [[]|].
Qed.

(** A text without quotes and backslashes stands for itself. *)
Lemma readString_plain k r :
  forallb (λ c, negb (ceqb c QUOTE) && negb (ceqb c BACKSLASH)) k = true →
  readString (k ++ r) = (λ p, (k ++ p.1, p.2)) <$> readString r.
Proof.
  induction k as [|c k IH]; [cbn [app]; by destruct (readString r) as [[]|]|]. cbn [forallb]. intros H. bool_to_prop.
  cbn [app readString]. rewrite !(proj2 (ceqb_neq c _)) by done. rewrite IH by done. by destruct (readString r) as [[]|].
Qed.

(** A field of a line cannot end the line, nor the string it is in, and is read back as it was. *)
Theorem escapeJson_roundtrip value :
  oneLine (chars (escapeJson value)) = true ∧ reads (chars (escapeJson value)) (chars value).
Proof.
  unfold escapeJson. rewrite chars_text. split.
  - induction (chars value) as [|c l IH]; [done|].
    cbn [map concat]. unfold oneLine in *. by rewrite forallb_app, escapedByte_oneLine, IH.
  - intros rest. rewrite readString_escape. cbn. by rewrite app_nil_r.
Qed.

(** Two fields are logged alike only if they are the same. *)
Lemma escapeJson_inj a b : escapeJson a = escapeJson b → a = b.
Proof.
  intros E. destruct (escapeJson_roundtrip a) as [_ Ha], (escapeJson_roundtrip b) as [_ Hb].
  specialize (Ha []). specialize (Hb []). rewrite E, Hb in Ha. injection Ha as Ha. by apply chars_inj.
Qed.

Example escaped : escapeJson (text ["a"; "010"; "\"; "001"]%char) = "a\n\\\u0001"%stdpp.
Proof. reflexivity. Qed.

(** ** The libraries *)

(** [sodium_bin2base64], the original variant, without the null it ends with. *)
Class Base64 := {
  bin2base64 : list ascii → list ascii;
  bin2base64_alphabet l : forallb (λ c, isalnum c || ceqb c "+" || ceqb c "/" || ceqb c "=") (bin2base64 l) = true
}.

(** What a transfer is asked to do, with the bytes its callback was read for. *)
Record Transfer := mkTransfer {
  transferUrl : string;
  transferFrom : string;
  transferRecipients : list string;
  transferUpload : list ascii;
  transferTimeout : Z;
  transferRequiresTls : bool;
  transferCredentials : option (string * string)
}.

(** libcurl, on each occasion: whether there is a handle, how much each read has room for, and
    what a transfer comes to, [None] for [CURLE_OK]. *)
Class Curl := {
  easyInit : nat → bool;
  readRoom : nat → nat → nat;
  easyPerform : nat → Transfer → option string;
  readRoom_positive n i : (0 < readRoom n i)%nat
}.

(** ** The document *)

Inductive SmtpSecurity := SmtpNone | SmtpStartTls | SmtpTls.

#[export] Instance SmtpSecurity_eq_dec : EqDecision SmtpSecurity.
Proof. solve_decision. Defined.

Record SmtpSettings := mkSmtpSettings {
  relayHost : string;
  relayPort : Z;
  relayUsername : string;
  relayPassword : string;
  relaySecurity : SmtpSecurity;
  senderAddress : string;
  senderName : string;
  relayTimeout : Z
}.

Definition isAscii (l : list ascii) : bool := forallb (λ c, byte c <? 128) l.

Section Documents.
Context `{Base64}.

Definition encodedWord (l : list ascii) : list ascii := chars "=?UTF-8?B?" ++ bin2base64 l ++ chars "?=".

Definition headerSafe (value : string) : string :=
  let flattened := filter (λ c, c ≠ CR ∧ c ≠ LF) (chars value) in
  text (if isAscii flattened then flattened else encodedWord flattened).

(** [%0nd] of [snprintf]. *)
Definition zeroPadded (width : nat) (z : Z) : list ascii :=
  let sign := if z <? 0 then ["-"%char] else [] in
  let digits := chars (toDecimal (Z.abs z)) in
  sign ++ replicate (width - length sign - length digits) "0"%char ++ digits.

Definition DAYS : list string := ["Sun"; "Mon"; "Tue"; "Wed"; "Thu"; "Fri"; "Sat"]%stdpp.
Definition MONTHS : list string :=
  ["Jan"; "Feb"; "Mar"; "Apr"; "May"; "Jun"; "Jul"; "Aug"; "Sep"; "Oct"; "Nov"; "Dec"]%stdpp.

(** [gmtime_r], which leaves its argument as it was, all zeros, for a year past an [int]: weekday,
    month, day, year, time. *)
Definition calendarTime (now : Z) : Z * Z * Z * Z * Z :=
  let '(year, month, day) := civilDate (now / SECONDS_PER_DAY) in
  if (- INT32_MAX - 1 <=? year - 1900) && (year - 1900 <=? INT32_MAX) then
    ((now / SECONDS_PER_DAY + 4) mod 7, month - 1, day, year, now mod SECONDS_PER_DAY)
  else (0, 0, 0, 1900, 0).

Definition rfc5322Date (now : Z) : string :=
  let '(weekday, month, day, year, time) := calendarTime now in
  text (chars (nth (Z.to_nat weekday) DAYS ""%stdpp) ++ chars ", " ++ zeroPadded 2 day ++ [" "%char]
    ++ chars (nth (Z.to_nat month) MONTHS ""%stdpp) ++ [" "%char] ++ zeroPadded 4 year ++ [" "%char]
    ++ zeroPadded 2 (time / 3600) ++ [":"%char] ++ zeroPadded 2 (time / 60 mod 60) ++ [":"%char]
    ++ zeroPadded 2 (time mod 60) ++ chars " +0000").

(** From the last at-sign on. *)
Definition domainOf (address : string) : string :=
  match findChar "@" (rev (chars address)) with
  | None => "localhost"
  | Some i => text (drop (length (chars address) - i) (chars address))
  end.

Fixpoint networkLoop (previous : option ascii) (l : list ascii) : list ascii :=
  match l with
  | [] => []
  | c :: rest =>
      (if ceqb c LF && negb (bool_decide (previous = Some CR)) then [CR] else []) ++ c :: networkLoop (Some c) rest
  end.

Definition withNetworkLineEndings (l : list ascii) : list ascii := networkLoop None l.

Definition fromField (settings : SmtpSettings) : string :=
  if bool_decide (senderName settings = ""%stdpp) then "<" +:+ senderAddress settings +:+ ">"
  else text [QUOTE] +:+ headerSafe (senderName settings) +:+ text [QUOTE] +:+ " <" +:+ senderAddress settings +:+ ">".

(** The headers, in order, at an instant and with a fresh id. *)
Definition headerLines (settings : SmtpSettings) (now : Z) (id : string) (message : MailMessage) : list string :=
  ["Date: " +:+ rfc5322Date now;
   "From: " +:+ fromField settings;
   "To: <" +:+ headerSafe (mailTo message) +:+ ">";
   "Subject: " +:+ headerSafe (mailSubject message);
   "Message-ID: <" +:+ id +:+ "@" +:+ domainOf (senderAddress settings) +:+ ">";
   "MIME-Version: 1.0";
   "Content-Type: text/plain; charset=utf-8";
   "Content-Transfer-Encoding: 8bit";
   "Auto-Submitted: auto-generated"]%stdpp.

Definition composeDocument (settings : SmtpSettings) (now : Z) (id : string) (message : MailMessage) : list ascii :=
  withNetworkLineEndings
    (concat (map (λ line, chars line ++ [LF]) (headerLines settings now id message)) ++ [LF] ++ chars (mailBody message)).
End Documents.

(** ** Handing it over *)

(** What libcurl reads a message out of. *)
Record Payload := mkPayload { payloadDocument : list ascii; payloadOffset : nat }.

Definition readPayload (capacity : nat) (p : Payload) : list ascii * Payload :=
  if (capacity =? 0)%nat || (length (payloadDocument p) <=? payloadOffset p)%nat then ([], p)
  else
    let taken := Nat.min capacity (length (payloadDocument p) - payloadOffset p) in
    (take taken (drop (payloadOffset p) (payloadDocument p)), mkPayload (payloadDocument p) (payloadOffset p + taken)).

(** The callback is called until it has nothing: [None] where the calls allowed are not enough. *)
Fixpoint readAll (calls : nat) (room : nat → nat) (i : nat) (p : Payload) : option (list ascii) :=
  match calls with
  | O => None
  | S calls =>
      let '(bytes, p) := readPayload (room i) p in
      match bytes with
      | [] => Some []
      | _ => rest ← readAll calls room (S i) p; Some (bytes ++ rest)
      end
  end.

Definition urlFor (settings : SmtpSettings) : string :=
  (if bool_decide (relaySecurity settings = SmtpTls) then "smtps://" else "smtp://")
  +:+ relayHost settings +:+ ":" +:+ toDecimal (relayPort settings).

Section Senders.
Context `{Base64, Curl, Sodium}.

(** The handle with all its options, on an occasion. *)
Definition transferOf (settings : SmtpSettings) (now : Z) (n : nat) (message : MailMessage) : Transfer :=
  let document := composeDocument settings now (randomUuid n) message in
  mkTransfer (urlFor settings) ("<" +:+ senderAddress settings +:+ ">") ["<" +:+ mailTo message +:+ ">"]
    (default [] (readAll (S (length document)) (readRoom n) 0 (mkPayload document 0)))
    (relayTimeout settings)
    (bool_decide (relaySecurity settings = SmtpStartTls))
    (if bool_decide (relayUsername settings = ""%stdpp) then None
     else Some (relayUsername settings, relayPassword settings)).

Definition SmtpMailSender_deliver (settings : SmtpSettings) (now : Z) (n : nat) (message : MailMessage) : VoidResult :=
  if negb (easyInit n) then failure DependencyFailure "the mail transport could not be initialised"
  else
    match easyPerform n (transferOf settings now n message) with
    | Some detail => failure DependencyFailure ("the message could not be delivered: " +:+ detail)
    | None => Success tt
    end.

Definition DisabledMailSender_send (message : MailMessage) : VoidResult :=
  failure DependencyFailure "mail delivery is turned off for this deployment".

(** What is logged in place of a message. *)
Definition LoggingMailSender_send (message : MailMessage) : string * VoidResult :=
  ("mail transport is 'log'; not sending to=" +:+ escapeJson (mailTo message)
  +:+ " subject=" +:+ escapeJson (mailSubject message) +:+ " body=" +:+ escapeJson (mailBody message), Success tt).

Definition smtpSecurityOf (security : MailSecurity) : SmtpSecurity :=
  match security with
  | SecurityNone => SmtpNone
  | SecurityTls => SmtpTls
  | SecurityStartTls => SmtpStartTls
  end.

Definition smtpSettingsOf (config : MailConfig) : SmtpSettings :=
  mkSmtpSettings (smtpHost config) (smtpPort config) (smtpUsername config) (smtpPassword config)
    (smtpSecurityOf (mailSecurity config)) (fromAddress config) (fromName config) (timeoutSeconds config).

(** The sender the services are given, on a machine whose clock is [clockAt] on each occasion. *)
Definition mailSenderFor (config : MailConfig) (clockAt : nat → Z) : MailSender :=
  match transport config with
  | TransportLog => {| deliver := λ _ message, (LoggingMailSender_send message).2 |}
  | TransportNone => {| deliver := λ _ message, DisabledMailSender_send message |}
  | TransportSmtp => {| deliver := λ n message, SmtpMailSender_deliver (smtpSettingsOf config) (clockAt n) n message |}
  end.
End Senders.

(** ** What a relay reads *)

Definition unbroken (l : list ascii) : bool := forallb (λ c, negb (ceqb c CR) && negb (ceqb c LF)) l.

(** The lines up to the empty one, and the rest. *)
Fixpoint readHeaders (lines : list (list ascii)) : list (list ascii) * list (list ascii) :=
  match lines with
  | [] => ([], [])
  | line :: rest =>
      if bool_decide (line = [CR]) then ([], rest)
      else let '(headers, body) := readHeaders rest in (removelast line :: headers, body)
  end.

Definition readMessage (document : list ascii) : list (list ascii) * list ascii :=
  let '(headers, body) := readHeaders (splitOn LF document) in (headers, joinOn LF body).

(** Every line but the last ends as SMTP has them end. *)
Definition networkLines (document : list ascii) : Prop :=
  Forall (λ line, last line = Some CR) (removelast (splitOn LF document)).

Definition withoutReturns (l : list ascii) : list ascii := filter (λ c, c ≠ CR) l.

(** *** Lines *)

Lemma unbroken_app k l : unbroken (k ++ l) = unbroken k && unbroken l.
Proof. apply forallb_app. Qed.

Lemma unbroken_of (p : ascii → bool) l :
  forallb p l = true → (∀ c, p c = true → negb (ceqb c CR) && negb (ceqb c LF) = true) → unbroken l = true.
Proof. unfold unbroken. rewrite !forallb_forall. naive_solver. Qed.

Lemma unbroken_digits l : forallb isdigit l = true → unbroken l = true.
Proof. intros Hl. apply (unbroken_of _ _ Hl). intros c. by every_byte c. Qed.

Lemma networkLoop_line k rest previous :
  unbroken k = true → previous ≠ Some CR →
  networkLoop previous (k ++ LF :: rest) = k ++ CR :: LF :: networkLoop (Some LF) rest.
Proof.
  revert previous; induction k as [|c k IH]; intros previous Hk Hp; cbn [app networkLoop].
  - by rewrite ceqb_refl, bool_decide_eq_false_2.
  - cbn in Hk. bool_to_prop. rewrite (proj2 (ceqb_neq c LF)) by done. cbn [andb app]. f_equal. apply IH; [done|congruence].
Qed.

Lemma read_lines lines rest previous :
  Forall (λ line, line ≠ [] ∧ unbroken line = true) lines → previous ≠ Some CR →
  readHeaders (splitOn LF (networkLoop previous (concat (map (λ line, line ++ [LF]) lines) ++ LF :: rest)))
  = (lines, splitOn LF (networkLoop (Some LF) rest)).
Proof.
  intros Hl. revert previous. induction Hl as [|line lines [Hne Hu] _ IH]; intros previous Hp.
  - pose proof (networkLoop_line [] rest previous eq_refl Hp) as E. cbn [app] in E. cbn [map concat app]. by rewrite E.
  - cbn [map concat]. rewrite <- !app_assoc. cbn [app]. rewrite networkLoop_line by done.
    rewrite (cons_middle CR line), app_assoc, splitOn_app.
    2: { intros [Hin|E%list_elem_of_singleton]%elem_of_app; [|discriminate E]. unfold unbroken in Hu. rewrite forallb_forall in Hu.
         apply list_elem_of_In, Hu in Hin. by rewrite ceqb_refl, andb_false_r in Hin. }
    cbn [readHeaders]. rewrite bool_decide_eq_false_2.
    2: { destruct line as [|c [|]]; [done|done|]. intros [=]. }
    rewrite IH by done. by rewrite removelast_last.
Qed.

Lemma networkLoop_ends previous l k :
  LF ∉ k → (previous = Some CR → last k = Some CR) → networkLines (k ++ networkLoop previous l).
Proof.
  unfold networkLines. revert previous k; induction l as [|c l IH]; intros previous k Hk Hp; cbn [networkLoop].
  - rewrite app_nil_r, splitOn_no_sep by done. by apply Forall_nil.
  - destruct (ceqb c LF) eqn:Ec; cbn [andb].
    + apply ceqb_eq in Ec as ->.
      assert (∃ k', (LF ∉ k') ∧ last k' = Some CR
        ∧ k ++ (if negb (bool_decide (previous = Some CR)) then [CR] else []) ++ LF :: networkLoop (Some LF) l
          = k' ++ LF :: [] ++ networkLoop (Some LF) l) as (k' & Hk' & Hlast & ->).
      { case_bool_decide as E; cbn [negb app]; [by exists k; auto|]. exists (k ++ [CR]). split_and!.
        - by intros [?|E'%list_elem_of_singleton]%elem_of_app; [|discriminate E'].
        - apply last_snoc.
        - by rewrite <- app_assoc. }
      rewrite splitOn_app by done. pose proof (splitOn_nonempty LF ([] ++ networkLoop (Some LF) l)) as Hne.
      specialize (IH (Some LF) [] (not_elem_of_nil _)). destruct (splitOn LF _) as [|x xs]; [done|].
      cbn [removelast]. apply Forall_cons. split; [done|]. by apply IH.
    + apply ceqb_neq in Ec. cbn [app]. rewrite (cons_middle c k), app_assoc. apply IH.
      * intros [?| ?%list_elem_of_singleton]%elem_of_app; [done|by subst].
      * intros [= ->]. apply last_snoc.
Qed.

Lemma networkLoop_returns previous l : withoutReturns (networkLoop previous l) = withoutReturns l.
Proof.
  unfold withoutReturns. revert previous; induction l as [|c l IH]; intros previous; [done|]. cbn [networkLoop].
  assert (∀ b : bool, filter (λ c, c ≠ CR) (if b then [CR] else []) = []) as E by (by intros []).
  rewrite filter_app, E. cbn [app]. rewrite !filter_cons, IH. done.
Qed.

(** *** Reading it out *)

Lemma readAll_spec room document calls i offset :
  (∀ i, (0 < room i)%nat) → (length document - offset < calls)%nat →
  readAll calls room i (mkPayload document offset) = Some (drop offset document).
Proof.
  intros Hr. revert i offset; induction calls as [|calls IH]; intros i offset Hc; [lia|]. cbn [readAll].
  unfold readPayload. cbn [payloadDocument payloadOffset]. specialize (Hr i).
  rewrite (proj2 (Nat.eqb_neq (room i) 0)) by lia. cbn [orb].
  destruct (length document <=? offset)%nat eqn:E.
  - apply Nat.leb_le in E. by rewrite drop_ge.
  - apply Nat.leb_gt in E. set (taken := Nat.min _ _). rewrite IH by lia. cbn [mbind option_bind].
    rewrite drop_add. destruct (take taken (drop offset document)) eqn:Et; [|by rewrite <- Et, take_drop].
    apply (f_equal length) in Et. rewrite length_take, length_drop in Et. cbn in Et. lia.
Qed.

(** *** What a header can hold *)

Section Headers.
Context `{Base64, Sodium}.

Lemma flattened_unbroken l : unbroken (filter (λ c, c ≠ CR ∧ c ≠ LF) l) = true.
Proof.
  unfold unbroken. apply forallb_forall. intros c Hc%list_elem_of_In. apply list_elem_of_filter in Hc as [[? ?] _].
  by rewrite !(proj2 (ceqb_neq c _)).
Qed.

Lemma headerSafe_spec value :
  unbroken (chars (headerSafe value)) = true ∧ isAscii (chars (headerSafe value)) = true.
Proof.
  unfold headerSafe. rewrite chars_text. destruct (isAscii _) eqn:E; [split; [apply flattened_unbroken|done]|].
  pose proof (bin2base64_alphabet (filter (λ c, c ≠ CR ∧ c ≠ LF) (chars value))) as Hb. unfold encodedWord. split.
  - rewrite !unbroken_app. rewrite (unbroken_of _ _ Hb); [done|]. intros c. by every_byte c.
  - unfold isAscii. rewrite !forallb_app. apply andb_true_iff. split; [done|]. apply andb_true_iff. split; [|done].
    rewrite forallb_forall in *. intros c Hc. specialize (Hb c Hc). revert Hb. by every_byte c.
Qed.

Lemma zeroPadded_unbroken width z : unbroken (zeroPadded width z) = true.
Proof.
  unfold zeroPadded. rewrite !unbroken_app. repeat (apply andb_true_iff; split).
  - by destruct (z <? 0).
  - unfold unbroken. induction (width - _ - _)%nat; [done|]. cbn. by rewrite IHn.
  - apply unbroken_digits, toDecimal_digits. lia.
Qed.

Lemma rfc5322Date_unbroken now : unbroken (chars (rfc5322Date now)) = true.
Proof.
  unfold rfc5322Date. destruct (calendarTime now) as [[[[weekday month] day] year] time].
  assert (∀ i, unbroken (chars (nth i DAYS ""%stdpp)) = true) as Hd by (intros i; do 8 (destruct i as [|i]; [done|]); by destruct i).
  assert (∀ i, unbroken (chars (nth i MONTHS ""%stdpp)) = true) as Hm
    by (intros i; do 13 (destruct i as [|i]; [done|]); by destruct i).
  rewrite chars_text, !unbroken_app, !zeroPadded_unbroken, Hd, Hm. done.
Qed.

Lemma domainOf_unbroken address : unbroken (chars address) = true → unbroken (chars (domainOf address)) = true.
Proof.
  intros Ha. unfold domainOf. destruct (findChar _ _) as [i|]; [|done]. rewrite chars_text.
  rewrite <- (take_drop (length (chars address) - i) (chars address)), unbroken_app in Ha. by bool_to_prop.
Qed.

Lemma uuid_unbroken n : unbroken (chars (randomUuid n)) = true.
Proof.
  unfold randomUuid. destruct (negb initCrypto); [done|]. rewrite chars_text.
  assert (∀ bs k, unbroken (concat (imap (λ i, uuidByte (k + i)) bs)) = true) as Hu.
  { induction bs as [|b bs IH]; intros k; [done|]. rewrite imap_cons. cbn [concat]. rewrite unbroken_app.
    apply andb_true_iff. split.
    - unfold uuidByte. rewrite unbroken_app. apply andb_true_iff. split; [by destruct (hyphenBefore _)|].
      assert (∀ z, unbroken [hexDigit z] = true) as Hz.
      { intros z. unfold hexDigit. generalize (Z.to_nat z). intros m. do 17 (destruct m as [|m]; [done|]). by destruct m. }
      pose proof (Hz (Z.shiftr (stampVersion (k + 0) (byte b)) 4)) as H1.
      pose proof (Hz (Z.land (stampVersion (k + 0) (byte b)) 15)) as H2.
      change [?x; ?y] with ([x] ++ [y]). by rewrite unbroken_app, H1, H2.
    - rewrite (imap_ext _ (λ i, uuidByte (S k + i))); [apply IH|]. intros i x _. unfold compose. by rewrite Nat.add_succ_r. }
  apply (Hu _ 0%nat).
Qed.

Lemma headerLines_unbroken settings now n message :
  unbroken (chars (senderAddress settings)) = true →
  Forall (λ line, line ≠ [] ∧ unbroken line = true) (map chars (headerLines settings now (randomUuid n) message)).
Proof.
  intros Ha. unfold headerLines. cbn [map]. destruct (headerSafe_spec (mailTo message)) as [Ht _].
  destruct (headerSafe_spec (mailSubject message)) as [Hs _].
  assert (unbroken (chars (fromField settings)) = true) as Hf.
  { unfold fromField. case_bool_decide; rewrite ?chars_app, ?chars_text, ?unbroken_app, ?Ha; [done|].
    destruct (headerSafe_spec (senderName settings)) as [-> _]. done. }
  repeat (apply Forall_cons; split; [split; [by destruct (rfc5322Date now)|]|]); try by apply Forall_nil.
  all: rewrite ?chars_app, ?unbroken_app, ?rfc5322Date_unbroken, ?Hf, ?Ht, ?Hs, ?uuid_unbroken, ?domainOf_unbroken by done.
  all: done.
Qed.
End Headers.

(** ** Properties *)

Section Properties.
Context `{Base64, Curl, Sodium}.

Lemma upload_whole settings now n message :
  transferUpload (transferOf settings now n message) = composeDocument settings now (randomUuid n) message.
Proof. unfold transferOf. cbn [transferUpload]. rewrite readAll_spec; [done|apply readRoom_positive|lia]. Qed.

Lemma composed_read settings now n message :
  unbroken (chars (senderAddress settings)) = true →
  readMessage (composeDocument settings now (randomUuid n) message)
  = (map chars (headerLines settings now (randomUuid n) message), networkLoop (Some LF) (chars (mailBody message))).
Proof.
  intros Ha. unfold readMessage, composeDocument, withNetworkLineEndings.
  rewrite <- (map_map chars (λ line, line ++ [LF])). cbn [app].
  rewrite read_lines by (by apply headerLines_unbroken || done). by rewrite joinOn_splitOn.
Qed.

(** C34: Whatever a message says, and in whatever portions libcurl asks for it, what a relay is handed reads as
    the nine headers this program writes and no other, the recipient and the subject in plain characters,
    and then the body with the line endings of the network and nothing else changed; it is handed over for one
    recipient, never without TLS where the deployment asks for it, and the caller is told that it left
    exactly when libcurl says so. *)
Theorem mail_correct settings now n message :
  unbroken (chars (senderAddress settings)) = true →
  let t := transferOf settings now n message in
  let body := networkLoop (Some LF) (chars (mailBody message)) in
  readMessage (transferUpload t) = (map chars (headerLines settings now (randomUuid n) message), body)
  ∧ withoutReturns body = withoutReturns (chars (mailBody message))
  ∧ networkLines (transferUpload t)
  ∧ isAscii (chars (headerSafe (mailTo message))) = true ∧ isAscii (chars (headerSafe (mailSubject message))) = true
  ∧ transferRecipients t = ["<" +:+ mailTo message +:+ ">"]
  ∧ (relaySecurity settings ≠ SmtpNone →
       transferRequiresTls t = true ∨ prefixb (chars "smtps://") (chars (transferUrl t)) = true)
  ∧ (SmtpMailSender_deliver settings now n message = Success tt ↔ easyInit n = true ∧ easyPerform n t = None)
  ∧ ∀ e, SmtpMailSender_deliver settings now n message = Failure e → code e = DependencyFailure.
Proof.
  intros Ha. cbv zeta. rewrite upload_whole. destruct (headerSafe_spec (mailTo message)) as [_ Ht].
  destruct (headerSafe_spec (mailSubject message)) as [_ Hs]. split_and!; try done.
  - by apply composed_read.
  - apply networkLoop_returns.
  - by apply (networkLoop_ends None _ []); [apply not_elem_of_nil|].
  - intros Hn. unfold transferOf, urlFor. cbn [transferRequiresTls transferUrl].
    destruct (relaySecurity settings); [done|by left|right]. rewrite bool_decide_eq_true_2 by done.
    rewrite chars_app. apply prefixb_spec. by eexists.
  - unfold SmtpMailSender_deliver. destruct (easyInit n); cbn [negb]; [|split; [done|by intros [[=] _]]].
    destruct (easyPerform n _); [split; [done|by intros [_ [=]]]|done].
  - unfold SmtpMailSender_deliver. intros e. destruct (easyInit n); cbn [negb]; [|by intros [= <-]].
    destruct (easyPerform n _); [by intros [= <-]|done].
Qed.
End Properties.

(** What is logged in place of a message is one line, that cannot end the text it is in, and holds the
    whole of the message. *)
Theorem logged_correct message :
  oneLine (chars (LoggingMailSender_send message).1) = true
  ∧ reads (chars (LoggingMailSender_send message).1)
      (chars "mail transport is 'log'; not sending to=" ++ chars (mailTo message)
       ++ chars " subject=" ++ chars (mailSubject message) ++ chars " body=" ++ chars (mailBody message)).
Proof.
  destruct (escapeJson_roundtrip (mailTo message)) as [Ht Rt], (escapeJson_roundtrip (mailSubject message)) as [Hs Rs],
    (escapeJson_roundtrip (mailBody message)) as [Hb Rb].
  unfold LoggingMailSender_send. cbn [fst]. rewrite !chars_app. unfold oneLine in *. split.
  - rewrite !forallb_app, Ht, Hs, Hb. done.
  - unfold escapeJson. rewrite !chars_text.
    repeat (apply reads_prefix; [intros r; (by apply readString_plain) || apply readString_escape|]).
    intros r. rewrite readString_escape. cbn. by rewrite app_nil_r.
Qed.

(** ** A relay *)

(** A machine without base64, whose relay takes seven bytes at a time and everything. *)
Definition plainBase64 : Base64.
Proof. refine {| bin2base64 _ := [] |}. done. Defined.

Definition slowRelay : Curl.
Proof. refine {| easyInit _ := true; readRoom _ _ := 7%nat; easyPerform _ _ := None |}. intros _ _. lia. Defined.

Definition sampleRelay : SmtpSettings :=
  mkSmtpSettings "relay.example.org" 587 "launcher" "secret" SmtpStartTls "launcher@example.org" "Launcher" 10.

(** A subject that tries to add a recipient. *)
Definition sampleMessage : MailMessage :=
  mkMailMessage "ada@example.org" ("Hello" +:+ text [CR; LF] +:+ "Bcc: eve@example.org") ("One line" +:+ newline).

Lemma mail_correct_witness :
  let t := transferOf (H := plainBase64) (H0 := slowRelay) (H1 := sampleSodium) sampleRelay 951827696 7 sampleMessage in
  length (readMessage (transferUpload t)).1 = 9%nat
  ∧ nth 0 (readMessage (transferUpload t)).1 [] = chars "Date: Tue, 29 Feb 2000 12:34:56 +0000"
  ∧ nth 3 (readMessage (transferUpload t)).1 [] = chars "Subject: HelloBcc: eve@example.org"
  ∧ transferRequiresTls t = true
  ∧ SmtpMailSender_deliver (H := plainBase64) (H0 := slowRelay) (H1 := sampleSodium) sampleRelay 951827696 7 sampleMessage
    = Success tt.
Proof.
  cbv zeta.
  destruct (mail_correct (H := plainBase64) (H0 := slowRelay) (H1 := sampleSodium) sampleRelay 951827696 7 sampleMessage eq_refl)
    as (Hr & _ & _ & _ & _ & _ & _ & Hd & _).
  rewrite Hr. split; [reflexivity|]. split; [vm_compute; reflexivity|]. split; [vm_compute; reflexivity|].
  split; [reflexivity|]. apply Hd. by split.
Defined.
