(* ===== verification/AuthService.v ===== *)
(** Registration, sign-in, refresh-token rotation, verification and password reset:
    [src/services/AuthService.h] and [src/services/AuthService.cpp]. *)

From S2P Require Import Prelude.
From S2P Require Import Errors.
From S2P Require Import Validation.
From S2P Require Import Actors.
From S2P Require Import Hash.
From S2P Require Import Programs.
From S2P Require Import Random.
From S2P Require Import World.
From S2P Require Import Accounts.
From S2P Require Import MailTemplates.

(** ** Data *)

Record AccessTokenClaims := mkClaims {
  claimUserId : string;
  claimEmail : string;
  claimPermissions : list string;
  claimPasswordChangeRequired : bool
}.

(** [ITokenService]: the signed text of the claims, at an instant and with a fresh id. *)
Class TokenService := {
  issueAccessToken : Z → string → AccessTokenClaims → string;
  accessTokenTtl : Z
}.

Record AuthSettings := mkAuthSettings {
  requireVerifiedEmail : bool;
  refreshTokenTtl : Z;
  emailVerificationTtl : Z;
  passwordResetTtl : Z;
  defaultRole : string;
  mail : MailContext;
  mailEnabled : bool
}.

Record ClientContext := mkClient { clientUserAgent : string; clientIpAddress : string }.

Record RegisterCommand := mkRegister {
  commandEmail : string;
  commandPassword : string;
  commandDisplayName : string
}.

Record RegistrationResult := mkRegistration { registeredUser : User; verificationEmailSent : bool }.

Record AuthTokens := mkTokens {
  accessToken : string;
  refreshToken : string;
  accessTokenExpiresIn : Z;
  tokensUser : User;
  tokensPermissions : list string
}.

Definition INVALID_CREDENTIALS : string := "email or password is incorrect".
Definition INVALID_REFRESH_TOKEN : string := "the refresh token is missing, expired or invalid".

(** ** Operations *)

Section AuthService.
Context `{Sodium, PasswordHasher, Evp, Postgres, MailSender, TokenService}.
Variable settings : AuthSettings.

(** A salted hash costs a draw. *)
Definition hashPassword (password : string) : Prog World (Result string) := draw (λ n, hash n password).

Definition performDummyHash : Prog World unit :=
  _ ← hashPassword "timing-equalisation-placeholder"; mret tt.

Definition sendVerificationLink (user : User) : Prog World bool :=
  if negb (mailEnabled settings) then mret false
  else
    token ← draw randomUrlSafeToken;
    _ ← userTokens_issue (accountId user) EmailVerification (sha256Hex token)
          (emailVerificationTtl settings);
    delivery ← sendMail (verificationMessage (mail settings) (accountEmail user)
                           (accountDisplayName user) token);
    mret (ok delivery).

Definition registerUser (command : RegisterCommand) : Prog World (Result RegistrationResult) :=
  let email := normalizeEmail (commandEmail command) in
  let name := trim (commandDisplayName command) in
  match validateEmail email with Failure e => mret (Failure e) | Success _ =>
  match validateDisplayName name with Failure e => mret (Failure e) | Success _ =>
  match validatePassword (commandPassword command) with Failure e => mret (Failure e) | Success _ =>
    try? encoded := hashPassword (commandPassword command) in
    try? user := users_create (mkNewUser email name encoded) in
    _ ← roles_assignRole (accountId user) (defaultRole settings);
    sent ← sendVerificationLink user;
    mret (Success (mkRegistration user sent))
  end end end.

Definition resendVerification (email : string) : Prog World VoidResult :=
  found ← users_findByEmail (normalizeEmail email);
  match found with
  | None => mret (Success tt)
  | Some user =>
      if emailVerified user || negb (accountActive user) then mret (Success tt)
      else
        _ ← userTokens_invalidateAll (accountId user) EmailVerification;
        _ ← sendVerificationLink user;
        mret (Success tt)
  end.

Definition issueSession (user : User) (familyId : string) (rotatesTokenId : option string)
    (client : ClientContext) : Prog World AuthTokens :=
  permissions ← roles_permissionsForUser (accountId user);
  token ← draw randomUrlSafeToken;
  let record := mkNewRefresh (accountId user) familyId (sha256Hex token)
                  (refreshTokenTtl settings) (clientUserAgent client) (clientIpAddress client) in
  _ ← match rotatesTokenId with
      | Some previous => refreshTokens_rotate previous record
      | None => refreshTokens_issue record
      end;
  now ← query clock;
  jti ← draw randomUuid;
  mret (mkTokens
          (issueAccessToken now jti
             (mkClaims (accountId user) (accountEmail user) permissions (mustChangePassword user)))
          token accessTokenTtl user permissions).

Definition login (email password : string) (client : ClientContext) : Prog World (Result AuthTokens) :=
  found ← users_findByEmail (normalizeEmail email);
  match found with
  | None => _ ← performDummyHash; mret (failure Unauthenticated INVALID_CREDENTIALS)
  | Some user =>
      if negb (verify password (accountPasswordHash user)) then
        mret (failure Unauthenticated INVALID_CREDENTIALS)
      else if negb (accountActive user) then
        mret (failure Forbidden "this account has been disabled")
      else if requireVerifiedEmail settings && negb (emailVerified user) then
        mret (failure Forbidden "confirm your email address before signing in")
      else
        _ ← (if needsRehash (accountPasswordHash user) then
               upgraded ← hashPassword password;
               match upgraded with
               | Success encoded => users_rehashPassword (accountId user) encoded
               | Failure _ => mret tt
               end
             else mret tt);
        _ ← users_recordSuccessfulLogin (accountId user);
        family ← draw randomUuid;
        tokens ← issueSession user family None client;
        mret (Success tokens)
  end.

Definition refresh (token : string) (client : ClientContext) : Prog World (Result AuthTokens) :=
  stored ← refreshTokens_findByHash (sha256Hex token);
  match stored with
  | None => mret (failure Unauthenticated INVALID_REFRESH_TOKEN)
  | Some record =>
      if recordRevoked record then
        _ ← refreshTokens_revokeFamily (recordFamilyId record);
        mret (failure Unauthenticated INVALID_REFRESH_TOKEN)
      else if recordExpired record then
        _ ← refreshTokens_revokeById (recordId record);
        mret (failure Unauthenticated INVALID_REFRESH_TOKEN)
      else
        found ← users_findById (recordUserId record);
        match found with
        | None =>
            _ ← refreshTokens_revokeFamily (recordFamilyId record);
            mret (failure Unauthenticated INVALID_REFRESH_TOKEN)
        | Some user =>
            if negb (accountActive user) then
              _ ← refreshTokens_revokeAllForUser (accountId user);
              mret (failure Forbidden "this account has been disabled")
            else
              tokens ← issueSession user (recordFamilyId record) (Some (recordId record)) client;
              mret (Success tokens)
        end
  end.

Definition logout (token : string) : Prog World VoidResult :=
  stored ← refreshTokens_findByHash (sha256Hex token);
  _ ← match stored with
      | Some record => refreshTokens_revokeById (recordId record)
      | None => mret tt
      end;
  mret (Success tt).

Definition verifyEmail (token : string) : Prog World VoidResult :=
  owner ← userTokens_consume (sha256Hex token) EmailVerification;
  match owner with
  | None => mret (failure InvalidInput "this verification link is invalid or has expired")
  | Some id => _ ← users_markEmailVerified id; mret (Success tt)
  end.

Definition requestPasswordReset (email : string) : Prog World VoidResult :=
  found ← users_findByEmail (normalizeEmail email);
  match found with
  | None => mret (Success tt)
  | Some user =>
      if negb (mailEnabled settings) then mret (Success tt)
      else
        _ ← userTokens_invalidateAll (accountId user) PasswordReset;
        token ← draw randomUrlSafeToken;
        _ ← userTokens_issue (accountId user) PasswordReset (sha256Hex token)
              (passwordResetTtl settings);
        _ ← sendMail (passwordResetMessage (mail settings) (accountEmail user)
                        (accountDisplayName user) token);
        mret (Success tt)
  end.

Definition resetPassword (token newPassword : string) : Prog World VoidResult :=
  match validatePassword newPassword with Failure e => mret (Failure e) | Success _ =>
    owner ← userTokens_consume (sha256Hex token) PasswordReset;
    match owner with
    | None => mret (failure InvalidInput "this reset link is invalid or has expired")
    | Some id =>
        try? encoded := hashPassword newPassword in
        _ ← users_updatePasswordHash id encoded;
        _ ← refreshTokens_revokeAllForUser id;
        _ ← userTokens_invalidateAll id PasswordReset;
        mret (Success tt)
    end
  end.

Definition changePassword (id currentPassword newPassword : string) (client : ClientContext)
    : Prog World (Result AuthTokens) :=
  match validatePassword newPassword with Failure e => mret (Failure e) | Success _ =>
    found ← users_findById id;
    match found with
    | None => mret (failure Unauthenticated INVALID_CREDENTIALS)
    | Some user =>
        if negb (verify currentPassword (accountPasswordHash user)) then
          mret (failure Unauthenticated "that is not your current password")
        else if negb (accountActive user) then
          mret (failure Forbidden "this account has been disabled")
        else if verify newPassword (accountPasswordHash user) then
          mret (Failure (invalidInput "the new password has to be different from the current one"
                           rules.PASSWORD_UNCHANGED []))
        else
          try? encoded := hashPassword newPassword in
          _ ← users_updatePasswordHash (accountId user) encoded;
          _ ← refreshTokens_revokeAllForUser (accountId user);
          _ ← userTokens_invalidateAll (accountId user) PasswordReset;
          updated ← users_findById (accountId user);
          match updated with
          | None => mret (failure Unauthenticated INVALID_CREDENTIALS)
          | Some user =>
              family ← draw randomUuid;
              tokens ← issueSession user family None client;
              mret (Success tokens)
          end
    end
  end.
End AuthService.

(** ** Lemmas *)

(** The live tokens of a family. *)
Definition liveIn (family : string) (w : World) : list RefreshRow :=
  selectWhere (λ r, familyIs family r && unrevoked r) (refreshTokens w).

(** Revoking takes rows out of the live ones and changes nothing else among them. *)
Lemma live_updateWhere q p now successor t :
  selectWhere (λ r, q r && unrevoked r)
    (updateWhere (λ r, p r && unrevoked r) (revokedAs now successor) t) =
  selectWhere (λ r, q r && unrevoked r && negb (p r)) t.
Proof.
  unfold selectWhere, updateWhere. induction t as [|r t IH]; [done|]. cbn [map List.filter].
  destruct (unrevoked r) eqn:Eu; [destruct (p r) eqn:Ep|]; cbn [andb negb].
  - rewrite !andb_false_r. exact IH.
  - rewrite Eu, !andb_true_r, IH. done.
  - rewrite !andb_false_r. cbn [andb]. rewrite Eu, andb_false_r. exact IH.
Qed.

Lemma liveIn_revokeWhere family p w :
  liveIn family (revokeWhere p w) =
  selectWhere (λ r, familyIs family r && unrevoked r && negb (p r)) (refreshTokens w).
Proof. apply live_updateWhere. Qed.

Lemma selectWhere_app {Row} (p : Row → bool) t t' :
  selectWhere p (t ++ t') = selectWhere p t ++ selectWhere p t'.
Proof. apply List.filter_app. Qed.

Lemma selectWhere_length_le {Row} (p q : Row → bool) t :
  (∀ r, p r = true → q r = true) → (length (selectWhere p t) ≤ length (selectWhere q t))%nat.
Proof.
  intros H. induction t as [|r t IH]; cbn; [done|]. unfold selectWhere in *.
  destruct (p r) eqn:E; [rewrite (H r E); cbn; lia|]. destruct (q r); cbn; lia.
Qed.

(** One row fewer, when a row that counted is left out. *)
Lemma selectWhere_length_lt {Row} (p q : Row → bool) t r :
  (∀ r, p r = true → q r = true) → r ∈ t → q r = true → p r = false →
  (length (selectWhere p t) < length (selectWhere q t))%nat.
Proof.
  intros Hpq Hr Hq Hp. induction t as [|x t IH]; [by apply not_elem_of_nil in Hr|].
  cbn. unfold selectWhere in *. apply elem_of_cons in Hr as [<-|Hr].
  - rewrite Hp, Hq. cbn. pose proof (selectWhere_length_le p q t Hpq). unfold selectWhere in *. lia.
  - specialize (IH Hr). destruct (p x) eqn:E; [rewrite (Hpq x E); cbn; lia|]. destruct (q x); cbn; lia.
Qed.

Lemma liveIn_revokeWhere_le family p w :
  (length (liveIn family (revokeWhere p w)) ≤ length (liveIn family w))%nat.
Proof.
  rewrite liveIn_revokeWhere. apply selectWhere_length_le. by intros r [E _]%andb_true_iff.
Qed.

(** ** Well-formed accounts *)

Record AccountsOk (w : World) : Prop := {
  ids_unique : NoDup (map (λ r, lowerText (userId r)) (users w));
  emails_unique : NoDup (map (λ r, lowerText (userEmail r)) (users w));
  refresh_ids_unique : NoDup (map (λ r, lowerText (refreshId r)) (refreshTokens w));
  refresh_hashes_unique : NoDup (map refreshTokenHash (refreshTokens w));
  refresh_owned : Forall (λ r, anyWhere (userIs (refreshUserId r)) (users w) = true) (refreshTokens w);
  user_tokens_unique : NoDup (map tokenHash (userTokens w));
  user_tokens_owned : Forall (λ r, anyWhere (userIs (tokenUserId r)) (users w) = true) (userTokens w)
}.

(** The next draws collide with nothing the database holds; no request makes more than
    [REQUEST_DRAWS] of them. *)
Definition REQUEST_DRAWS : nat := 8.

Definition FreshWithin `{Sodium, Evp, Postgres} (k : nat) (w : World) : Prop :=
  ∀ n m, (draws w ≤ n < draws w + k)%nat → (draws w ≤ m < draws w + k)%nat →
    ∀ r, r ∈ refreshTokens w →
      refreshIs (gen_random_uuid n) r = false
      ∧ refreshTokenHash r ≠ sha256Hex (randomUrlSafeToken m).

Definition FreshTokens `{Sodium, Evp, Postgres} (w : World) : Prop := FreshWithin REQUEST_DRAWS w.

Lemma presented_row w token row :
  AccountsOk w → row ∈ refreshTokens w → refreshTokenHash row = token →
  selectFirst (refreshHashIs token) (refreshTokens w) = Some row.
Proof.
  intros Hok Hr Hh. apply (selectFirst_unique refreshTokenHash); [apply Hok| |done|].
  - unfold refreshHashIs. intros a b Ha Hb. bool_to_prop. congruence.
  - by apply bool_decide_eq_true.
Qed.

Lemma owner_row w row user :
  AccountsOk w → user ∈ users w → userIs (refreshUserId row) user = true →
  selectFirst (userIs (refreshUserId row)) (users w) = Some user.
Proof.
  intros Hok Hu Hid. apply (selectFirst_unique (λ r, lowerText (userId r))); [apply Hok| |done|done].
  unfold userIs. intros a b Ha%uuidEq_true Hb%uuidEq_true. congruence.
Qed.

Lemma refreshIs_eq w row row' :
  AccountsOk w → row ∈ refreshTokens w → row' ∈ refreshTokens w →
  refreshIs (refreshId row) row' = true ↔ row' = row.
Proof.
  intros Hok Hr Hr'. unfold refreshIs. rewrite uuidEq_true. split; [|by intros ->].
  intros E. by apply (key_inj (λ r, lowerText (refreshId r)) (refreshTokens w)); [apply Hok| | |].
Qed.

Section Facts.
Context `{Sodium, PasswordHasher, Evp, Postgres, MailSender, TokenService}.
Variable settings : AuthSettings.

Lemma insertRefreshToken_spec token w id w' :
  insertRefreshToken token w = Some (id, w') ↔
  id = gen_random_uuid (draws w)
  ∧ (∀ r, r ∈ refreshTokens w → refreshIs id r = false)
  ∧ (∀ r, r ∈ refreshTokens w → refreshTokenHash r ≠ nextTokenHash token)
  ∧ anyWhere (userIs (nextUserId token)) (users w) = true
  ∧ 0 < nextTtl token
  ∧ w' = setRefreshTokens (insertRow (newRefreshRow (clock w) id token) (refreshTokens w))
           (setDraws (S (draws w)) w).
Proof.
  unfold insertRefreshToken. cbn zeta.
  destruct (anyWhere (refreshIs _) _) eqn:E1; [|destruct (anyWhere (refreshHashIs _) _) eqn:E2];
    [| |destruct (anyWhere (userIs _) _) eqn:E3; cbn [negb]]; [| | |].
  - split; [done|]. intros (-> & Hid & _). apply anyWhere_true in E1 as (r & Hr & E).
    by rewrite (Hid r Hr) in E.
  - split; [done|]. intros (-> & _ & Hh & _). apply anyWhere_true in E2 as (r & Hr & E).
    apply bool_decide_eq_true in E. by apply Hh in E.
  - assert (∀ r, r ∈ refreshTokens w → refreshTokenHash r ≠ nextTokenHash token) as Hh.
    { intros r Hr E. rewrite anyWhere_false in E2. apply E2 in Hr.
      apply bool_decide_eq_false in Hr. done. }
    cbn in E1, E2, E3. rewrite anyWhere_false in E1.
    destruct (nextTtl token <=? 0) eqn:Et; bool_to_prop.
    + split; [done|]. intros (_ & _ & _ & _ & ? & _). lia.
    + split; [intros [= <- <-]; by split_and!|]. by intros (-> & _ & _ & _ & _ & ->).
  - split; [done|]. intros (_ & _ & _ & E & _). cbn in E3. congruence.
Qed.

(** The row [issueSession] asks for in the world it starts from. *)
Definition sessionRecord (user : User) (family : string) (client : ClientContext) (w : World)
    : NewRefreshToken :=
  mkNewRefresh (accountId user) family (sha256Hex (randomUrlSafeToken (draws w)))
    (refreshTokenTtl settings) (clientUserAgent client) (clientIpAddress client).

(** What issuing a session does: one new row, for the token it answers. *)
Lemma perform_issueSession user family rotates client w r w' :
  perform (issueSession settings user family rotates client) w = (r, w') →
  let record := sessionRecord user family client w in
  (r = None ∧ (∃ n, w' = setDraws n w) ∧ insertRefreshToken record (setDraws (S (draws w)) w) = None)
  ∨ ∃ tokens id inserted n,
      r = Some tokens
      ∧ insertRefreshToken record (setDraws (S (draws w)) w) = Some (id, inserted)
        ∧ refreshToken tokens = randomUrlSafeToken (draws w) ∧ tokensUser tokens = user
        ∧ tokensPermissions tokens = permissionsOf (accountId user) w
        ∧ (∃ jti, accessToken tokens = issueAccessToken (clock w) jti
             (mkClaims (accountId user) (accountEmail user) (permissionsOf (accountId user) w)
                (mustChangePassword user)))
        ∧ w' = setDraws n (setRefreshTokens
                 (insertRow (newRefreshRow (clock w) id record)
                    (match rotates with
                     | Some previous => updateWhere (λ r, refreshIs previous r && unrevoked r)
                                          (revokedAs (clock w) (Some id)) (refreshTokens w)
                     | None => refreshTokens w
                     end)) w).
Proof.
  unfold issueSession, roles_permissionsForUser, draw.
  run_statements. cbv zeta. unfold sessionRecord.
  set (w1 := setDraws (S (draws w)) w).
  set (record := mkNewRefresh _ _ _ _ _ _).
  destruct rotates as [previous|]; unfold refreshTokens_rotate, refreshTokens_issue; run_statements.
  - destruct (insertRefreshToken record w1) as [[id inserted]|] eqn:E; cbn;
      [|intros [= <- <-]; left; split_and!; by eauto].
    apply insertRefreshToken_spec in E as E'. destruct E' as (_ & _ & _ & _ & _ & ->).
    intros [= <- <-]. right. do 4 eexists. split; [done|]. split; [reflexivity|].
    split_and!; try done. by eexists.
  - destruct (insertRefreshToken record w1) as [[id inserted]|] eqn:E; cbn;
      [|intros [= <- <-]; left; split_and!; by eauto].
    apply insertRefreshToken_spec in E as E'. destruct E' as (_ & _ & _ & _ & _ & ->).
    intros [= <- <-]. right. do 4 eexists. split; [done|]. split; [reflexivity|].
    split_and!; try done. by eexists.
Qed.
(** What [refresh] does with each kind of presented token. *)
Lemma perform_refresh token client w r w' :
  perform (refresh settings token client) w = (r, w') →
  match selectFirst (refreshHashIs (sha256Hex token)) (refreshTokens w) with
  | None => r = Some (failure Unauthenticated INVALID_REFRESH_TOKEN) ∧ w' = w
  | Some row =>
      if negb (unrevoked row) then
        r = Some (failure Unauthenticated INVALID_REFRESH_TOKEN)
        ∧ w' = revokeWhere (familyIs (refreshFamilyId row)) w
      else if refreshExpiresAt row <=? clock w then
        r = Some (failure Unauthenticated INVALID_REFRESH_TOKEN)
        ∧ w' = revokeWhere (refreshIs (refreshId row)) w
      else match selectFirst (userIs (refreshUserId row)) (users w) with
           | None => r = Some (failure Unauthenticated INVALID_REFRESH_TOKEN)
                     ∧ w' = revokeWhere (familyIs (refreshFamilyId row)) w
           | Some user =>
               if negb (isActive user) then
                 r = Some (failure Forbidden "this account has been disabled")
                 ∧ w' = revokeWhere (refreshOwnerIs (userId user)) w
               else perform (issueSession settings (mapUser user) (refreshFamilyId row)
                               (Some (refreshId row)) client ≫= λ tokens, mret (Success tokens)) w = (r, w')
           end
  end.
Proof.
  unfold refresh, refreshTokens_findByHash. run_statements.
  destruct (selectFirst (refreshHashIs _) _) as [row|]; cbn [fmap option_fmap option_map];
    [|run_statements; by intros [= <- <-]].
  cbn [refreshRecordOf recordRevoked recordExpired recordFamilyId recordId recordUserId].
  destruct (negb (unrevoked row)).
  { unfold refreshTokens_revokeFamily. run_statements. by intros [= <- <-]. }
  destruct (refreshExpiresAt row <=? clock w).
  { unfold refreshTokens_revokeById. run_statements. by intros [= <- <-]. }
  unfold users_findById. run_statements.
  destruct (selectFirst (userIs _) _) as [user|]; cbn [fmap option_fmap option_map].
  - cbn [mapUser accountActive accountId]. destruct (negb (isActive user)); [|done].
    unfold refreshTokens_revokeAllForUser. run_statements. by intros [= <- <-].
  - unfold refreshTokens_revokeFamily. run_statements. by intros [= <- <-].
Qed.

(** The two ends of a session being issued from a fresh world. *)
Lemma insertRefreshToken_fresh w record :
  FreshWithin 2 w → 0 < nextTtl record → nextTokenHash record = sha256Hex (randomUrlSafeToken (draws w)) →
  anyWhere (userIs (nextUserId record)) (users w) = true →
  ∃ id inserted, insertRefreshToken record (setDraws (S (draws w)) w) = Some (id, inserted).
Proof.
  intros Hf Ht Hh Hu. do 2 eexists. apply insertRefreshToken_spec. split_and!; [done| | |done|done|done].
  - intros row Hr. by apply (Hf (S (draws w)) (draws w)); [cbn; lia|lia|].
  - intros row Hr. rewrite Hh. by apply (Hf (S (draws w)) (draws w)); [lia|lia|].
Qed.

Lemma FreshTokens_two w : FreshTokens w → FreshWithin 2 w.
Proof. intros Hf n m Hn Hm. apply Hf; unfold REQUEST_DRAWS; lia. Qed.
End Facts.

(** The live tokens after a rotation: one was taken out, its successor put in. *)
Lemma liveIn_rotated family w id record row n :
  let new := newRefreshRow (clock w) id record in
  liveIn family
    (setDraws n (setRefreshTokens
       (insertRow new (updateWhere (λ r, refreshIs (refreshId row) r && unrevoked r)
          (revokedAs (clock w) (Some id)) (refreshTokens w))) w)) =
  selectWhere (λ r, familyIs family r && unrevoked r && negb (refreshIs (refreshId row) r)) (refreshTokens w)
  ++ (if familyIs family new then [new] else []).
Proof.
  cbn zeta. unfold liveIn, insertRow.
  change (refreshTokens (setDraws n (setRefreshTokens ?t w))) with t.
  rewrite selectWhere_app, live_updateWhere. f_equal. unfold selectWhere. cbn [List.filter].
  change (unrevoked (newRefreshRow _ _ _)) with true. rewrite andb_true_r. done.
Qed.

Lemma revokeWhere_nothing w : revokeWhere (λ _, false) w = w.
Proof.
  unfold revokeWhere. rewrite updateWhere_none by done. by destruct w.
Qed.

(** A token that [refresh] may rotate: stored under this hash, neither revoked nor
    expired, and of an active account. *)
Record Acceptable (w : World) (hash : string) (row : RefreshRow) (user : UserRow) : Prop := {
  acceptable_stored : row ∈ refreshTokens w;
  acceptable_hash : refreshTokenHash row = hash;
  acceptable_live : unrevoked row = true;
  acceptable_unexpired : clock w < refreshExpiresAt row;
  acceptable_user : user ∈ users w;
  acceptable_owner : userIs (refreshUserId row) user = true;
  acceptable_active : isActive user = true
}.

Lemma Acceptable_lookup w hash row user :
  AccountsOk w → Acceptable w hash row user →
  selectFirst (refreshHashIs hash) (refreshTokens w) = Some row
  ∧ selectFirst (userIs (refreshUserId row)) (users w) = Some user.
Proof. intros Hok []. split; [by apply presented_row|by apply owner_row]. Qed.

Section Cases.
Context `{Sodium, PasswordHasher, Evp, Postgres, MailSender, TokenService}.
Variable settings : AuthSettings.

(** Either the token is not acceptable and at most some tokens are revoked, or the
    session of its owner is issued. *)
Lemma refresh_cases token client w r w' :
  AccountsOk w → perform (refresh settings token client) w = (r, w') →
  ((∀ row user, ¬ Acceptable w (sha256Hex token) row user)
   ∧ ∃ e p, r = Some (Failure e) ∧ w' = revokeWhere p w
     ∧ ∀ row, row ∈ refreshTokens w → refreshTokenHash row = sha256Hex token → unrevoked row = false →
         r = Some (failure Unauthenticated INVALID_REFRESH_TOKEN) ∧ p = familyIs (refreshFamilyId row))
  ∨ ∃ row user, Acceptable w (sha256Hex token) row user
      ∧ perform (issueSession settings (mapUser user) (refreshFamilyId row)
                   (Some (refreshId row)) client ≫= λ tokens, mret (Success tokens)) w = (r, w').
Proof.
  intros Hok Hp%perform_refresh.
  destruct (selectFirst (refreshHashIs (sha256Hex token)) (refreshTokens w)) as [row|] eqn:Erow.
  2:{ destruct Hp as [-> ->]. left. split; [intros row user Ha; by apply Acceptable_lookup in Ha as [? _]; [congruence|]|].
      eexists _, (λ _, false). split; [done|]. split; [by rewrite revokeWhere_nothing|].
      intros row Hr Hh. by rewrite (presented_row w _ row Hok Hr Hh) in Erow. }
  apply selectFirst_Some in Erow as Erow'. destruct Erow' as [Hrow Hhash%bool_decide_eq_true].
  assert (∀ row' user, Acceptable w (sha256Hex token) row' user → row' = row) as Hacc.
  { intros row' user Ha. apply Acceptable_lookup in Ha as [? _]; [congruence|done]. }
  assert (∀ row', row' ∈ refreshTokens w → refreshTokenHash row' = sha256Hex token → row' = row) as Huniq.
  { intros row' Hr' Hh'. rewrite (presented_row w _ row' Hok Hr' Hh') in Erow. congruence. }
  destruct (unrevoked row) eqn:Elive; cbn [negb] in Hp.
  2:{ destruct Hp as [-> ->]. left. split; [intros row' user Ha; pose proof (Hacc _ _ Ha); destruct Ha; congruence|].
      do 2 eexists. split; [done|]. split; [done|]. intros row' Hr' Hh' _. by rewrite (Huniq row' Hr' Hh'). }
  assert (∀ row', row' ∈ refreshTokens w → refreshTokenHash row' = sha256Hex token → unrevoked row' = false → False) as Hnot.
  { intros row' Hr' Hh' Hl'. rewrite (Huniq row' Hr' Hh') in Hl'. congruence. }
  destruct (refreshExpiresAt row <=? clock w) eqn:Eexp; bool_to_prop.
  { destruct Hp as [-> ->]. left. split; [intros row' user Ha; pose proof (Hacc _ _ Ha); destruct Ha; subst; lia|].
    do 2 eexists. split; [done|]. split; [done|]. intros row' Hr' Hh' Hl'. by destruct (Hnot row'). }
  destruct (selectFirst (userIs (refreshUserId row)) (users w)) as [user|] eqn:Euser.
  - apply selectFirst_Some in Euser as Euser'. destruct Euser' as [Huser Hid].
    destruct (isActive user) eqn:Eact; cbn [negb] in Hp; [right; by exists row, user|].
    destruct Hp as [-> ->]. left. split.
    { intros row' user' Ha. pose proof (Hacc _ _ Ha) as ->. apply Acceptable_lookup in Ha as Hl; [|done].
      destruct Hl as [_ Hl], Ha. congruence. }
    do 2 eexists. split; [done|]. split; [done|]. intros row' Hr' Hh' Hl'. by destruct (Hnot row').
  - destruct Hp as [-> ->]. left. split.
    { intros row' user' Ha. pose proof (Hacc _ _ Ha) as ->. apply Acceptable_lookup in Ha as [_ ?]; [congruence|done]. }
    do 2 eexists. split; [done|]. split; [done|]. intros row' Hr' Hh' Hl'. by destruct (Hnot row').
Qed.

(** What a successful rotation leaves. *)
Lemma rotation_live w row user id record n family live :
  AccountsOk w → Acceptable w (refreshTokenHash row) row user → refreshFamilyId row = nextFamilyId record →
  let new := newRefreshRow (clock w) id record in
  live ∈ liveIn family
    (setDraws n (setRefreshTokens
       (insertRow new (updateWhere (λ r, refreshIs (refreshId row) r && unrevoked r)
          (revokedAs (clock w) (Some id)) (refreshTokens w))) w))
  ↔ (live = new ∧ familyIs family row = true) ∨ (live ∈ liveIn family w ∧ live ≠ row).
Proof.
  intros Hok Ha Hfam. cbn zeta. rewrite liveIn_rotated, elem_of_app. unfold liveIn.
  rewrite !elem_of_selectWhere, !andb_true_iff, negb_true_iff.
  change (familyIs family (newRefreshRow _ _ _)) with (uuidEq (nextFamilyId record) family).
  rewrite <- Hfam. change (uuidEq (refreshFamilyId row) family) with (familyIs family row).
  assert (live ∈ refreshTokens w → refreshIs (refreshId row) live = false ↔ live ≠ row) as Hid.
  { intros Hl. rewrite <- not_true_iff_false. by rewrite (refreshIs_eq w row live Hok (acceptable_stored _ _ _ _ Ha) Hl). }
  destruct (familyIs family row) eqn:Ef.
  - rewrite list_elem_of_singleton. naive_solver.
  - split; [|naive_solver]. intros [H'|H']; [naive_solver|by apply not_elem_of_nil in H'].
Qed.
End Cases.

(** No family gains live tokens in a rotation: its successor takes the place of a row. *)
Lemma rotation_length w row user id record n family :
  AccountsOk w → Acceptable w (refreshTokenHash row) row user → refreshFamilyId row = nextFamilyId record →
  (length (liveIn family
    (setDraws n (setRefreshTokens
       (insertRow (newRefreshRow (clock w) id record)
          (updateWhere (λ r, refreshIs (refreshId row) r && unrevoked r)
          (revokedAs (clock w) (Some id)) (refreshTokens w))) w))) ≤ length (liveIn family w))%nat.
Proof.
  intros Hok [Hr _ Hl _ _ _ _] Hfam. rewrite liveIn_rotated, length_app.
  change (familyIs family (newRefreshRow _ _ _)) with (uuidEq (nextFamilyId record) family).
  rewrite <- Hfam. change (uuidEq (refreshFamilyId row) family) with (familyIs family row).
  destruct (familyIs family row) eqn:Ef; cbn [length].
  - assert (length (selectWhere (λ r, familyIs family r && unrevoked r && negb (refreshIs (refreshId row) r))
              (refreshTokens w)) < length (liveIn family w))%nat; [|lia].
    apply (selectWhere_length_lt _ _ _ row); [by intros r [E _]%andb_true_iff|done|by rewrite Ef, Hl|].
    by rewrite (proj2 (refreshIs_eq w row row Hok Hr Hr) eq_refl), andb_false_r.
  - rewrite Nat.add_0_r. apply selectWhere_length_le. by intros r [E _]%andb_true_iff.
Qed.

Section Lengths.
Context `{Sodium, PasswordHasher, Evp, Postgres, MailSender, TokenService}.
Variable settings : AuthSettings.

Lemma refresh_live_le token client w r w' family :
  AccountsOk w → perform (refresh settings token client) w = (r, w') →
  (length (liveIn family w') ≤ length (liveIn family w))%nat.
Proof.
  intros Hok Hp. apply refresh_cases in Hp as [(_ & e & p & -> & -> & _)|(row & user & Ha & Hp)]; [| |done].
  { apply liveIn_revokeWhere_le. }
  rewrite perform_bind in Hp. destruct (perform (issueSession _ _ _ _ _) w) as [o w1] eqn:Ei.
  apply perform_issueSession in Ei as [(-> & [n ->] & _)|(tokens & id & inserted & n & -> & Ei)].
  - by injection Hp as <- <-.
  - injection Hp as <- <-. destruct Ei as (_ & _ & _ & _ & _ & ->).
    apply (rotation_length w row user); [done| |done]. by rewrite (acceptable_hash _ _ _ _ Ha).
Qed.
End Lengths.

(** ** Properties *)

Section Properties.
Context `{Sodium, PasswordHasher, Evp, Postgres, MailSender, TokenService}.
Variable settings : AuthSettings.

(** C25: refresh-token rotation.  A session is answered only for an acceptable token:
    stored, neither revoked nor expired, of an active account.  That token is then revoked
    and names its successor, which belongs to the same account and family, lives for the
    configured time and is the only token to become live.  A token that was already
    rotated burns its whole family, no presented token ever gives a family more live
    tokens, and from a fresh generator an acceptable token is always accepted. *)
Theorem refresh_rotates token client w r w' :
  AccountsOk w → perform (refresh settings token client) w = (r, w') →
  let presented := sha256Hex token in
  (∀ tokens, r = Some (Success tokens) →
     ∃ row user next, Acceptable w presented row user
       ∧ refreshTokenHash next = sha256Hex (refreshToken tokens)
       ∧ refreshFamilyId next = refreshFamilyId row ∧ refreshUserId next = userId user
       ∧ refreshExpiresAt next = clock w + refreshTokenTtl settings
       ∧ revokedAs (clock w) (Some (refreshId next)) row ∈ refreshTokens w'
       ∧ (∀ family live, live ∈ liveIn family w' ↔
            (live = next ∧ familyIs family row = true) ∨ (live ∈ liveIn family w ∧ live ≠ row)))
  ∧ (∀ row, row ∈ refreshTokens w → refreshTokenHash row = presented → unrevoked row = false →
       r = Some (failure Unauthenticated INVALID_REFRESH_TOKEN) ∧ liveIn (refreshFamilyId row) w' = [])
  ∧ (∀ family, (length (liveIn family w') ≤ length (liveIn family w))%nat)
  ∧ (∀ row user, Acceptable w presented row user → FreshTokens w → 0 < refreshTokenTtl settings →
       ∃ tokens, r = Some (Success tokens)).
Proof.
  intros Hok Hp presented. subst presented.
  assert (∀ family, (length (liveIn family w') ≤ length (liveIn family w))%nat) as Hle
    by (intros family; by eapply refresh_live_le).
  apply refresh_cases in Hp as [(Hno & e & p & -> & -> & Hreuse)|(row & user & Ha & Hp)]; [| |done].
  { split_and!; [done| |exact Hle|].
    - intros row Hr Hh Hl. destruct (Hreuse row Hr Hh Hl) as [? ->]. split; [done|].
      rewrite liveIn_revokeWhere. apply selectWhere_none. intros r' _.
      by destruct (familyIs _ r'), (unrevoked r').
    - intros row user Ha. by destruct (Hno row user). }
  assert (∀ row', row' ∈ refreshTokens w → refreshTokenHash row' = sha256Hex token → unrevoked row' = false → False) as Hnot.
  { intros row' Hr' Hh' Hl'. apply Acceptable_lookup in Ha as Hl; [|done].
    rewrite (presented_row w _ row' Hok Hr' Hh') in Hl. destruct Hl, Ha. congruence. }
  rewrite perform_bind in Hp. destruct (perform (issueSession _ _ _ _ _) w) as [o w1] eqn:Ei.
  apply perform_issueSession in Ei as [(-> & [n ->] & Hnone)|(tokens & id & inserted & n & -> & Ei)].
  - injection Hp as <- <-. split_and!; [done|naive_solver|exact Hle|].
    intros row' user' Ha' Hf Ht. exfalso.
    destruct (insertRefreshToken_fresh w (sessionRecord settings (mapUser user) (refreshFamilyId row) client w))
      as (id & inserted & E); try done; [by apply FreshTokens_two| |congruence].
    apply anyWhere_true. exists user. split; [apply Ha|]. apply uuidEq_refl.
  - injection Hp as <- <-. destruct Ei as (Hins & Htok & _ & _ & _ & ->).
    set (record := sessionRecord _ _ _ _ _) in *. pose proof Ha as [Hr Hh Hl He Hu Ho Hact].
    assert (∀ family live, _) as Hlive
      by (intros family live; apply (rotation_live w row user id record n family live Hok); [by rewrite Hh|done]).
    split_and!; [|naive_solver| |by eauto].
    + intros tokens' [= <-]. exists row, user, (newRefreshRow (clock w) id record).
      split; [done|]. split; [by rewrite Htok|]. split_and!; try done.
      apply elem_of_insertRow. left. apply elem_of_updateWhere. exists row. split; [done|].
      rewrite Hl, andb_true_r. by rewrite (proj2 (refreshIs_eq w row row Hok Hr Hr) eq_refl).
    + exact Hle.
Qed.
End Properties.

(** ** A concrete deployment *)

Definition samplePostgres : Postgres := {|
  gen_random_uuid n :=
    let digits := chars (toDecimal (Z.of_nat n)) in
    "00000000-0000-4000-8000-" +:+ text (replicate (12 - length digits) "0"%char ++ digits);
  to_char_utc := toDecimal;
  jsonb_text fields := "{" +:+ String.concat ", " ((λ f : string * string, f.1 +:+ ": " +:+ f.2) <$> fields) +:+ "}";
  timestamptz s := if bool_decide (substr s 11 2 = "99") then None else Some (size s)
|}.

Definition sampleMail : MailSender := {| deliver _ _ := Success tt |}.

Definition sampleTokens : TokenService := {|
  issueAccessToken _ jti claims := claimUserId claims +:+ "." +:+ jti;
  accessTokenTtl := 900
|}.

Definition sampleSettings : AuthSettings :=
  mkAuthSettings true 2592000 86400 3600 roles.PLAYER
    (mkMailContext "https://launcher.example/" "Custom Game Launcher") true.

Definition emptyWorld : World :=
  mkWorld [] [] [mkRole 1 roles.PLAYER ""; mkRole 2 roles.DEV ""] [(roles.PLAYER, permissions.GAME_DOWNLOAD)]
    [] [] [] [] [] [] [] [] [] [] [] [] [] [] [] ∅ ∅ [] 1000 0.

Definition sampleClient : ClientContext := mkClient "launcher/1.0" "192.0.2.1".

#[local] Existing Instances sampleSodium sampleEvp samplePostgres sampleMail sampleTokens.

(** An account that registered, confirmed its address with the second draw, and signed in. *)
Definition registeredWorld : World :=
  (perform (verifyEmail (randomUrlSafeToken 2))
     (perform (registerUser sampleSettings (mkRegister "Ada@Example.com" "correct horse battery" "Ada"))
        emptyWorld).2).2.

Definition signedIn : option (Result AuthTokens) * World :=
  perform (login sampleSettings "ada@example.com" "correct horse battery" sampleClient) registeredWorld.

Definition sampleRefreshToken : string :=
  match signedIn.1 with
  | Some (Success tokens) => refreshToken tokens
  | _ => ""
  end.

(** The checkable form of well-formed accounts. *)
Definition accountsOk (w : World) : bool :=
  distinctTexts (map (λ r, lowerText (userId r)) (users w))
  && distinctTexts (map (λ r, lowerText (userEmail r)) (users w))
  && distinctTexts (map (λ r, lowerText (refreshId r)) (refreshTokens w))
  && distinctTexts (map refreshTokenHash (refreshTokens w))
  && forallb (λ r, anyWhere (userIs (refreshUserId r)) (users w)) (refreshTokens w)
  && distinctTexts (map tokenHash (userTokens w))
  && forallb (λ r, anyWhere (userIs (tokenUserId r)) (users w)) (userTokens w).

Lemma accountsOk_sound w : accountsOk w = true → AccountsOk w.
Proof.
  unfold accountsOk. rewrite !andb_true_iff, !forallb_forall.
  intros ((((((H1 & H2) & H3) & H4) & H5) & H6) & H7).
  split; try (by apply distinctTexts_sound); apply Forall_forall; intros r Hr%list_elem_of_In; auto.
Qed.

Lemma refresh_rotates_witness :
  ∃ tokens, (perform (refresh sampleSettings sampleRefreshToken sampleClient) signedIn.2).1 = Some (Success tokens)
    ∧ ∃ row user next, Acceptable signedIn.2 (sha256Hex sampleRefreshToken) row user
        ∧ refreshTokenHash next = sha256Hex (refreshToken tokens).
Proof.
  destruct (perform (refresh sampleSettings sampleRefreshToken sampleClient) signedIn.2) as [r w'] eqn:E.
  pose proof (refresh_rotates sampleSettings sampleRefreshToken sampleClient signedIn.2 r w'
    (accountsOk_sound signedIn.2 ltac:(vm_compute; reflexivity)) E) as (Hs & _).
  assert (r = fst (perform (refresh sampleSettings sampleRefreshToken sampleClient) signedIn.2)) as Er by (rewrite E; reflexivity).
  vm_compute in Er. subst r. eexists. split; [reflexivity|].
  destruct (Hs _ eq_refl) as (row & user & next & Ha & Hn & _). exists row, user, next. split; [exact Ha|exact Hn].
Defined.
