(* ===== verification/JwtTokenService.v ===== *)
(** Access tokens: [src/services/TokenService.h] and [src/services/JwtTokenService.cpp]. *)

From S2P Require Import Prelude.
From S2P Require Import Errors.
From S2P Require Import Json.
From S2P Require Import Actors.
From S2P Require Import AuthService.

(** ** jwt-cpp *)

(** What the builder is told. *)
Record JwtPayload {V : Type} := mkPayload {
  payloadIssuer : string;
  payloadId : string;
  payloadSubject : string;
  issuedAt : Z;
  notBefore : Z;
  expiresAt : Z;
  payloadClaims : list (string * Json V)
}.
Arguments JwtPayload V : clear implicits.

(** Signing with HS256, decoding, and a verifier that allows that algorithm and one issuer, at
    an instant. What throws gives [None]. *)
Class Jwt `{Jsoncpp} := {
  Decoded : Type;
  signJwt : string → JwtPayload Value → string;
  decodeJwt : string → option Decoded;
  verifiesJwt : string → string → Z → Decoded → bool;
  jwtSubject : Decoded → option string;
  jwtClaim : Decoded → string → option Value
}.

(** A value that reads as what was written. *)
Fixpoint reads `{Jsoncpp} (j : Json Value) (v : Value) : Prop :=
  match j with
  | JText s => isString v = true ∧ asString v = Some s
  | JBool b => isBool v = true ∧ asBool v = Some b
  | JArray items =>
      isArray v = true
      ∧ (fix all (items : list (Json Value)) (l : list Value) : Prop :=
           match items, l with
           | [], [] => True
           | j :: items, x :: l => reads j x ∧ all items l
           | _, _ => False
           end) items (elements v)
  | _ => True
  end.

(** A token of distinct claims decodes to what it was made from, and verifies for its issuer from the instant it
    is valid from up to the one it expires at. *)
Class JwtLaws `{Jwt} := {
  sign_written secret p : signJwt secret p ≠ ""%stdpp;
  decode_sign secret p : NoDup (map fst (payloadClaims p)) → ∃ d, decodeJwt (signJwt secret p) = Some d
    ∧ jwtSubject d = Some (payloadSubject p)
    ∧ Forall (λ c, ∃ v, jwtClaim d c.1 = Some v ∧ reads c.2 v) (payloadClaims p)
    ∧ ∀ issuer now, verifiesJwt secret issuer now d =
        bool_decide (issuer = payloadIssuer p) && (Z.max (notBefore p) (issuedAt p) <=? now) && (now <=? expiresAt p)
}.

(** ** Operations *)

Definition CLAIM_PERMISSIONS : string := "permissions".
Definition CLAIM_EMAIL : string := "email".
Definition CLAIM_PASSWORD_CHANGE_REQUIRED : string := "pwd_change".

Record TokenSettings := mkTokenSettings { tokenSecret : string; tokenIssuer : string; tokenTtl : Z }.

Definition TOKEN_REJECTED : string := "the access token is missing, expired or invalid".

(** [rejected]. *)
Definition rejected : Result AccessTokenClaims := failure Unauthenticated TOKEN_REJECTED.

Definition hasPermission (claims : AccessTokenClaims) (permission : string) : bool :=
  existsb (λ p, bool_decide (p = permission)) (claimPermissions claims).

Section Tokens.
Context `{Jwt}.
Variable settings : TokenSettings.

Definition payloadOf (now : Z) (id : string) (claims : AccessTokenClaims) : JwtPayload Value :=
  mkPayload Value (tokenIssuer settings) id (claimUserId claims) now now (now + tokenTtl settings)
    [(CLAIM_EMAIL, JText (claimEmail claims));
     (CLAIM_PERMISSIONS, JTexts (claimPermissions claims));
     (CLAIM_PASSWORD_CHANGE_REQUIRED, JBool (claimPasswordChangeRequired claims))].

(** The signed text, at an instant and with a fresh id. *)
Definition signToken (now : Z) (id : string) (claims : AccessTokenClaims) : string :=
  signJwt (tokenSecret settings) (payloadOf now id claims).

(** The entries that are texts, in order. *)
Fixpoint textEntries (l : list Value) : option (list string) :=
  match l with
  | [] => Some []
  | entry :: rest =>
      if isString entry then s ← asString entry; others ← textEntries rest; Some (s :: others)
      else textEntries rest
  end.

Definition claimedPermissions (raw : Value) : option (list string) :=
  if isArray raw then textEntries (elements raw) else Some [].

(** A claim that need not be there. *)
Definition optionalClaim {A} (d : Decoded) (name : string) (read : Value → option A) (absent : A) : option A :=
  match jwtClaim d name with Some v => read v | None => Some absent end.

(** What follows the [try]: nothing is an exception. *)
Definition readClaims (now : Z) (token : string) : option AccessTokenClaims :=
  d ← decodeJwt token;
  if negb (verifiesJwt (tokenSecret settings) (tokenIssuer settings) now d) then None
  else
    userId ← jwtSubject d;
    email ← optionalClaim d CLAIM_EMAIL (λ v, if isString v then asString v else None) ""%stdpp;
    permissions ← optionalClaim d CLAIM_PERMISSIONS claimedPermissions [];
    flag ← optionalClaim d CLAIM_PASSWORD_CHANGE_REQUIRED (λ v, if isBool v then asBool v else Some false) false;
    Some (mkClaims userId email permissions flag).

Definition verifyAccessToken (now : Z) (token : string) : Result AccessTokenClaims :=
  if bool_decide (token = ""%stdpp) then rejected
  else
    match readClaims now token with
    | None => rejected
    | Some claims => if bool_decide (claimUserId claims = ""%stdpp) then rejected else Success claims
    end.

(** The service the authentication service is given. *)
Definition JwtTokenService : TokenService := {|
  issueAccessToken := signToken;
  accessTokenTtl := tokenTtl settings
|}.

(** ** Lemmas *)

Lemma verify_success now token claims :
  verifyAccessToken now token = Success claims →
  claimUserId claims ≠ ""%stdpp ∧ ∃ d, decodeJwt token = Some d
    ∧ verifiesJwt (tokenSecret settings) (tokenIssuer settings) now d = true.
Proof.
  unfold verifyAccessToken, readClaims. case_bool_decide; [done|].
  destruct (decodeJwt token) as [d|]; [|done]. cbn [mbind option_bind].
  destruct (verifiesJwt _ _ _ _) eqn:Ev; [|done]. cbn [negb].
  destruct (jwtSubject d) as [user|]; [|done]. cbn [mbind option_bind].
  destruct (optionalClaim d CLAIM_EMAIL _ _); [|done]. cbn [mbind option_bind].
  destruct (optionalClaim d CLAIM_PERMISSIONS _ _); [|done]. cbn [mbind option_bind].
  destruct (optionalClaim d CLAIM_PASSWORD_CHANGE_REQUIRED _ _); [|done]. cbn [mbind option_bind].
  case_bool_decide; [done|]. intros [= <-]. split; [done|]. by exists d.
Qed.

Lemma verify_failure now token e : verifyAccessToken now token = Failure e → e = mkError Unauthenticated TOKEN_REJECTED "" [].
Proof. unfold verifyAccessToken. repeat case_match; by intros [= <-]. Qed.

Lemma textEntries_reads l : ∀ vs,
  (fix all (items : list (Json Value)) (l : list Value) : Prop :=
     match items, l with [], [] => True | j :: items, x :: l => reads j x ∧ all items l | _, _ => False end)
    (map JText l) vs → textEntries vs = Some l.
Proof.
  induction l as [|s l IH]; intros [|v vs]; cbn; try done. intros [[Hs Hv] Hr]. rewrite Hs, Hv. cbn.
  by rewrite (IH vs Hr).
Qed.

(** What this service signed, read at an instant. *)
Lemma readClaims_signed `{!JwtLaws} issued now id claims :
  0 ≤ tokenTtl settings →
  readClaims now (signToken issued id claims)
  = if (issued <=? now) && (now <=? issued + tokenTtl settings) then Some claims else None.
Proof.
  intros Ht. unfold readClaims, signToken.
  destruct (decode_sign (tokenSecret settings) (payloadOf issued id claims)) as (d & -> & Hsub & Hclaims & Hv).
  { apply (bool_decide_unpack _). reflexivity. }
  cbn [mbind option_bind]. rewrite Hv. cbn [payloadOf payloadIssuer payloadSubject notBefore issuedAt expiresAt] in *.
  rewrite Z.max_id, bool_decide_true by done. cbn [andb].
  destruct ((issued <=? now) && (now <=? issued + tokenTtl settings)); [|done]. cbn [negb]. rewrite Hsub. cbn [mbind option_bind].
  cbn [payloadOf payloadClaims] in Hclaims. rewrite !Forall_cons in Hclaims. destruct Hclaims as ((v1 & E1 & R1) & (v2 & E2 & R2) & (v3 & E3 & R3) & _).
  cbn [fst snd] in *. unfold optionalClaim. rewrite E1, E2, E3. destruct R1 as [R1 R1'], R3 as [R3 R3'].
  rewrite R1, R1', R3, R3'. cbn [mbind option_bind]. unfold claimedPermissions. destruct R2 as [-> R2].
  rewrite (textEntries_reads _ _ R2). cbn [mbind option_bind]. by destruct claims.
Qed.

(** C24: What this service signs it reads back, for as long as it says it will: from the instant a token is
    issued up to the end of its life it verifies as exactly the claims it was issued for, permissions in
    their order and the flag of a temporary password among them, and before and after that, like any
    text that is no token, as nothing. *)
Theorem token_roundtrip `{!JwtLaws} issued now id claims :
  0 ≤ tokenTtl settings → claimUserId claims ≠ ""%stdpp →
  verifyAccessToken now (signToken issued id claims)
  = if (issued <=? now) && (now <=? issued + tokenTtl settings) then Success claims else rejected.
Proof.
  intros Ht Hc. unfold verifyAccessToken. rewrite bool_decide_false by apply sign_written. rewrite readClaims_signed by done.
  destruct (_ && _); [|done]. by rewrite bool_decide_false.
Qed.
End Tokens.
