(* ===== verification/AccountSafety.v ===== *)
(** What every statement on accounts keeps, whoever else is running: the keys of the
    tables stay unique, nobody is charged past a quota, and what was spent stays spent. *)

From S2P Require Import Prelude.
From S2P Require Import Errors.
From S2P Require Import Hash.
From S2P Require Import Programs.
From S2P Require Import Random.
From S2P Require Import World.
From S2P Require Import Accounts.
From S2P Require Import AuditLog.
From S2P Require Import MailTemplates.
From S2P Require Import AuthService.

(** What is charged to an account is a quantity of bytes. *)
Definition UsageOk (w : World) : Prop := Forall (λ u, 0 ≤ uploadUsedBytes u ≤ INT64_MAX) (users w).

Definition AccountsInv (w : World) : Prop := AccountsOk w ∧ UsageOk w.

Definition withinQuota (u : UserRow) : Prop := uploadUsedBytes u ≤ uploadQuotaBytes u.

(** The tables of the catalog and of the store are as they were. *)
Definition SameStorage (w w' : World) : Prop :=
  games w' = games w ∧ versions w' = versions w ∧ builds w' = builds w
  ∧ buildFiles w' = buildFiles w ∧ blobs w' = blobs w ∧ sessions w' = sessions w
  ∧ files w' = files w ∧ gameMedia w' = gameMedia w ∧ patchNotes w' = patchNotes w
  ∧ userGames w' = userGames w ∧ mediaFiles w' = mediaFiles w.

(** An account keeps its id, and what operators and erasure change of it is in the log. *)
Record UserKept (new : list AuditRow) (u u' : UserRow) : Prop := {
  same_id : userId u' = userId u;
  same_email : userEmail u' = userEmail u ∨ logged auditActions.USER_ERASED (userId u) new;
  same_quota : uploadQuotaBytes u' = uploadQuotaBytes u ∨ logged auditActions.USER_QUOTA_CHANGED (userId u) new;
  same_active : isActive u' = isActive u ∨ logged auditActions.USER_ERASED (userId u) new
    ∨ logged (if isActive u' then auditActions.USER_ACTIVATED else auditActions.USER_DEACTIVATED) (userId u) new;
  same_required : passwordChangeRequired u' = true → passwordChangeRequired u = true
    ∨ logged auditActions.USER_TEMPORARY_PASSWORD_SET (userId u) new
}.

(** What has happened between two worlds, the log having grown by some entries: consumed
    links and revoked tokens stay what they are until their account is erased, accounts
    stay, roles are lost to a revocation, and an account is over its quota when it was
    before or its quota was changed. *)
Record AccountsStep (new : list AuditRow) (w w' : World) : Prop := {
  links_kept : ∀ r, r ∈ userTokens w → unconsumed r = false →
    r ∈ userTokens w' ∨ logged auditActions.USER_ERASED (tokenUserId r) new;
  revoked_kept : ∀ r, r ∈ refreshTokens w → unrevoked r = false →
    r ∈ refreshTokens w' ∨ logged auditActions.USER_ERASED (refreshUserId r) new;
  users_kept : ∀ u, u ∈ users w → ∃ u', u' ∈ users w' ∧ UserKept new u u';
  grants_kept : ∀ grant, grant ∈ roleGrants w →
    grant ∈ roleGrants w' ∨ logged auditActions.ROLE_REVOKED grant.1 new;
  quota_kept : ∀ u', u' ∈ users w' → withinQuota u' ∨ logged auditActions.USER_QUOTA_CHANGED (userId u') new
    ∨ ∃ u, u ∈ users w ∧ lowerText (userId u) = lowerText (userId u') ∧ ¬ withinQuota u
}.

Definition AccountsKept (w w' : World) : Prop := ∃ new, auditLog w' = auditLog w ++ new ∧ AccountsStep new w w'.

Lemma UserKept_refl new u : UserKept new u u.
Proof. split; auto. Qed.

(** A row in which only other columns change. *)
Ltac user_kept := solve [split; cbn; auto; try done].

Lemma withinQuota_dec u : withinQuota u ∨ ¬ withinQuota u.
Proof. unfold withinQuota. lia. Qed.

Lemma users_same_quota new (us us' : list UserRow) :
  us' = us → ∀ u', u' ∈ us' → withinQuota u' ∨ logged auditActions.USER_QUOTA_CHANGED (userId u') new
    ∨ ∃ u, u ∈ us ∧ lowerText (userId u) = lowerText (userId u') ∧ ¬ withinQuota u.
Proof. intros -> u Hu. destruct (withinQuota_dec u); [by left|right; right; by exists u]. Qed.

Lemma AccountsStep_refl w : AccountsStep [] w w.
Proof. split; [by auto..|intros u Hu; exists u; split; [done|apply UserKept_refl]|by auto|by apply users_same_quota]. Qed.

Lemma AccountsKept_refl w : AccountsKept w w.
Proof. exists []. split; [by rewrite app_nil_r|apply AccountsStep_refl]. Qed.

Lemma UserKept_trans n1 n2 u1 u2 u3 : UserKept n1 u1 u2 → UserKept n2 u2 u3 → UserKept (n1 ++ n2) u1 u3.
Proof.
  intros [I1 E1 Q1 A1 R1] [I2 E2 Q2 A2 R2]. rewrite I1 in *. split; rewrite ?logged_app; [congruence|..].
  - destruct E1, E2; first [left; congruence|tauto].
  - destruct Q1, Q2; first [left; congruence|tauto].
  - destruct A2 as [A2|[A2|A2]]; [|tauto|tauto]. rewrite A2. destruct A1 as [A1|[A1|A1]]; [left; congruence|tauto|tauto].
  - intros H3. destruct (R2 H3) as [H2|]; [destruct (R1 H2); tauto|tauto].
Qed.

Lemma AccountsStep_trans n1 n2 w1 w2 w3 :
  AccountsStep n1 w1 w2 → AccountsStep n2 w2 w3 → AccountsStep (n1 ++ n2) w1 w3.
Proof.
  intros [L1 R1 U1 G1 Q1] [L2 R2 U2 G2 Q2]. split.
  - intros r Hr Hc. destruct (L1 r Hr Hc) as [Hr2|]; [destruct (L2 r Hr2 Hc)|]; auto with launcher.
  - intros r Hr Hc. destruct (R1 r Hr Hc) as [Hr2|]; [destruct (R2 r Hr2 Hc)|]; auto with launcher.
  - intros u Hu. destruct (U1 u Hu) as (u' & Hu' & K1). destruct (U2 u' Hu') as (u'' & Hu'' & K2).
    exists u''. split; [done|by eapply UserKept_trans].
  - intros g Hg. destruct (G1 g Hg) as [Hg2|]; [destruct (G2 g Hg2)|]; auto with launcher.
  - intros u Hu. destruct (Q2 u Hu) as [?|[?|(u2 & Hu2 & E2 & N2)]]; [auto with launcher..|].
    destruct (Q1 u2 Hu2) as [?|[?|(u1 & Hu1 & E1 & N1)]]; [done| |].
    + right; left. apply logged_l. by eapply logged_same.
    + right; right. exists u1. split_and!; [done|congruence|done].
Qed.

Lemma AccountsKept_trans w1 w2 w3 : AccountsKept w1 w2 → AccountsKept w2 w3 → AccountsKept w1 w3.
Proof.
  intros (n1 & E1 & S1) (n2 & E2 & S2). exists (n1 ++ n2).
  split; [by rewrite E2, E1, app_assoc|by eapply AccountsStep_trans].
Qed.

(** A change that writes nothing in the log. *)
Lemma AccountsKept_quiet w w' : auditLog w' = auditLog w → AccountsStep [] w w' → AccountsKept w w'.
Proof. intros E HS. exists []. by rewrite app_nil_r. Qed.

Lemma quiet_kept w w' :
  auditLog w' = auditLog w → users w' = users w →
  (∀ r, r ∈ userTokens w → unconsumed r = false → r ∈ userTokens w') →
  (∀ r, r ∈ refreshTokens w → unrevoked r = false → r ∈ refreshTokens w') →
  (∀ grant, grant ∈ roleGrants w → grant ∈ roleGrants w') → AccountsKept w w'.
Proof.
  intros El Eu Hl Hr Hg. apply AccountsKept_quiet; [done|]. split; [by auto..| |by auto|by apply users_same_quota].
  intros u Hu. exists u. rewrite Eu. split; [done|apply UserKept_refl].
Qed.

(** Nothing in the log: nothing was erased. *)
Lemma revoked_quietly w w' r :
  AccountsKept w w' → auditLog w' = auditLog w → r ∈ refreshTokens w → unrevoked r = false → r ∈ refreshTokens w'.
Proof.
  intros (new & E & HS) E' Hr Hu. rewrite E' in E. rewrite <- (app_nil_r (auditLog w)) in E at 1.
  apply app_inv_head in E as <-. destruct (revoked_kept _ _ _ HS r Hr Hu) as [|Hl]; [done|]. by apply not_logged in Hl.
Qed.

Lemma SameStorage_refl w : SameStorage w w.
Proof. done. Qed.

(** ** Statements *)

Record AccountsGo (w w' : World) : Prop := {
  go_inv : AccountsInv w';
  go_kept : AccountsKept w w';
  go_storage : SameStorage w w';
  go_clock : clock w' = clock w
}.

Lemma AccountsGo_refl w : AccountsInv w → AccountsGo w w.
Proof. split; [done|apply AccountsKept_refl|done|done]. Qed.

Notation AccountProg p := (Keeps AccountsInv AccountsGo p (λ _, True)).

Lemma query_keeps {B} (f : World → B) : AccountProg (query f).
Proof. intros w b w' HI [= <- <-]. split; [by apply AccountsGo_refl|done]. Qed.

(** A statement that leaves the account tables alone. *)
Lemma exec_elsewhere {B} (f : World → B * World) :
  (∀ w, users (f w).2 = users w ∧ refreshTokens (f w).2 = refreshTokens w
        ∧ userTokens (f w).2 = userTokens w ∧ roleGrants (f w).2 = roleGrants w ∧ auditLog (f w).2 = auditLog w
        ∧ SameStorage w (f w).2 ∧ clock (f w).2 = clock w) →
  AccountProg (exec f).
Proof.
  intros Hf w b w' [[] HQ] E. split; [|done]. destruct (Hf w) as (E1 & E2 & E3 & E4 & E5 & HS & HC).
  injection E as E. rewrite E in *. cbn in *.
  split; [split; [split|]|apply quiet_kept| |]; unfold UsageOk; rewrite ?E1, ?E2, ?E3, ?E4; eauto.
Qed.

Lemma draw_keeps {B} (f : nat → B) : AccountProg (draw f).
Proof. by apply exec_elsewhere. Qed.

(** The row of one account changes, and the entries say so. *)
Lemma updated_step new id f w w' :
  users w' = updateWhere (userIs id) f (users w) →
  (∀ r, r ∈ userTokens w → unconsumed r = false →
     r ∈ userTokens w' ∨ logged auditActions.USER_ERASED (tokenUserId r) new) →
  (∀ r, r ∈ refreshTokens w → unrevoked r = false →
     r ∈ refreshTokens w' ∨ logged auditActions.USER_ERASED (refreshUserId r) new) →
  (∀ grant, grant ∈ roleGrants w → grant ∈ roleGrants w') →
  (∀ r, r ∈ users w → userIs id r = true → UserKept new r (f r)
     ∧ (withinQuota (f r) ∨ logged auditActions.USER_QUOTA_CHANGED (userId r) new ∨ ¬ withinQuota r)) →
  AccountsStep new w w'.
Proof.
  intros Eu Hl Hr Hg Hf. split; [done|done| |by eauto|].
  - intros u Hu. exists (if userIs id u then f u else u). rewrite Eu.
    split; [apply elem_of_updateWhere; eauto|]. destruct (userIs id u) eqn:E; [by apply Hf|apply UserKept_refl].
  - rewrite Eu. intros u' (u & Hu & ->)%elem_of_updateWhere. destruct (userIs id u) eqn:E.
    + destruct (Hf u Hu E) as [[Ei _ _ _ _] [?|[?|?]]]; [by left| |]; rewrite Ei; [by auto|].
      right; right. by exists u.
    + destruct (withinQuota_dec u); [by left|right; right; by exists u].
Qed.

Section UpdateUser.
Variables (id : string) (f : UserRow → UserRow).
Hypothesis keeps_id : ∀ r, userId (f r) = userId r.
Hypothesis keeps_email : ∀ r, userEmail (f r) = userEmail r.

Lemma updateUser_owned k us :
  anyWhere (userIs k) (updateWhere (userIs id) f us) = anyWhere (userIs k) us.
Proof. apply anyWhere_updated. intros r. unfold userIs. by rewrite keeps_id. Qed.

Lemma updateUser_inv w :
  AccountsInv w → (∀ r, r ∈ users w → userIs id r = true → 0 ≤ uploadUsedBytes (f r) ≤ INT64_MAX) →
  AccountsInv (updateUser id f w).
Proof.
  intros [Hok HQ] Hf. split; [|apply Forall_updateWhere; auto]. destruct Hok. split; cbn; try done.
  - rewrite (updateWhere_keys (λ r, lowerText (userId r))); [done|]. intros. by rewrite keeps_id.
  - rewrite (updateWhere_keys (λ r, lowerText (userEmail r))); [done|]. intros. by rewrite keeps_email.
  - eapply Forall_impl; [exact refresh_owned|]. intros r. cbn. by rewrite updateUser_owned.
  - eapply Forall_impl; [exact user_tokens_owned|]. intros r. cbn. by rewrite updateUser_owned.
Qed.

Lemma updateUser_keeps w :
  AccountsInv w →
  (∀ r, r ∈ users w → userIs id r = true → UserKept [] r (f r) ∧ 0 ≤ uploadUsedBytes (f r) ≤ INT64_MAX
     ∧ (withinQuota r → withinQuota (f r))) →
  AccountsGo w (updateUser id f w).
Proof.
  intros HI Hf. split; [apply updateUser_inv; [done|intros r Hr Hid; by apply Hf]| |done|done].
  apply AccountsKept_quiet; [done|]. apply (updated_step [] id f); [done|by auto..|].
  intros r Hr Hid. destruct (Hf r Hr Hid) as (HK & _ & HQ). split; [done|].
  destruct (withinQuota_dec r); auto.
Qed.
End UpdateUser.

(** Writing a column that neither quotas nor operators care for. *)
Lemma exec_user_column (id : string) (f : World → UserRow → UserRow) :
  (∀ w r, UserKept [] r (f w r) ∧ userEmail (f w r) = userEmail r
          ∧ uploadUsedBytes (f w r) = uploadUsedBytes r ∧ uploadQuotaBytes (f w r) = uploadQuotaBytes r) →
  AccountProg (exec (λ w, (tt, updateUser id (f w) w))).
Proof.
  intros Hf w b w' HI [= <- <-]. split; [|done].
  apply updateUser_keeps; [intros r; apply (Hf w r)|intros r; apply (Hf w r)|done|].
  intros r Hr _. destruct (Hf w r) as (HK & _ & E1 & E2). unfold withinQuota. rewrite E1, E2.
  split_and!; [done|..|done]; apply (proj1 (Forall_forall _ _) (proj2 HI) r Hr).
Qed.

Lemma markEmailVerified_keeps id : AccountProg (users_markEmailVerified id).
Proof. apply exec_user_column. intros w r. split; [user_kept|done]. Qed.

Lemma updatePasswordHash_keeps id hash : AccountProg (users_updatePasswordHash id hash).
Proof. apply exec_user_column. intros w r. split; [user_kept|done]. Qed.

Lemma rehashPassword_keeps id hash : AccountProg (users_rehashPassword id hash).
Proof.
  apply (exec_user_column id (λ _ r, withPasswordHash hash (passwordChangeRequired r) r)).
  intros w r. split; [user_kept|done].
Qed.

Lemma recordSuccessfulLogin_keeps id : AccountProg (users_recordSuccessfulLogin id).
Proof.
  apply (exec_user_column id (λ w, withLastLogin (clock w))). intros w r. split; [user_kept|done].
Qed.

(** The rows a charge or a refund concerns are the one the statement looked at. *)
Lemma same_user w id r r' :
  AccountsOk w → selectFirst (userIs id) (users w) = Some r → r' ∈ users w → userIs id r' = true → r' = r.
Proof.
  intros Hok Hs Hr' Hid'. apply selectFirst_Some in Hs as [Hr Hid].
  apply (key_inj (λ r, lowerText (userId r)) (users w)); [apply Hok|done|done|].
  apply uuidEq_true in Hid, Hid'. congruence.
Qed.

Lemma chargeUpload_keeps id bytes : AccountProg (users_chargeUpload id bytes).
Proof.
  intros w b w' HI E. split; [|done]. unfold hasRoom in E.
  destruct (selectFirst (userIs id) (users w)) as [r|] eqn:Es;
    [|injection E as <- <-; by apply AccountsGo_refl].
  destruct (bigint (uploadUsedBytes r + bytes)) as [total|] eqn:Eb; [cbn in E|done].
  apply bigint_Some in Eb as [-> Hmax].
  destruct (uploadUsedBytes r + bytes <=? uploadQuotaBytes r) eqn:Er;
    [|injection E as <- <-; by apply AccountsGo_refl].
  destruct (uploadUsedBytes r + bytes <? 0) eqn:E0; [done|]. injection E as <- <-.
  apply updateUser_keeps; [done|done|done|]. intros r' Hr' Hid'.
  rewrite (same_user w id r r' (proj1 HI) Es Hr' Hid'). split; [user_kept|]. unfold withinQuota.
  bool_to_prop. cbn. lia.
Qed.

Lemma releaseUpload_keeps id bytes : 0 ≤ bytes → AccountProg (users_releaseUpload id bytes).
Proof.
  intros Hb w b w' HI E. split; [|done].
  destruct (selectFirst (userIs id) (users w)) as [r|] eqn:Es;
    [|injection E as <- <-; by apply AccountsGo_refl].
  destruct (bigint _); [|done]. injection E as <- <-.
  apply updateUser_keeps; [done|done|done|]. intros r' Hr' Hid'.
  pose proof (proj1 (Forall_forall _ _) (proj2 HI) r' Hr') as Hq. split; [user_kept|].
  unfold withinQuota. cbn in *. lia.
Qed.

#[export] Hint Resolve query_keeps draw_keeps markEmailVerified_keeps updatePasswordHash_keeps
  rehashPassword_keeps recordSuccessfulLogin_keeps chargeUpload_keeps releaseUpload_keeps : keeps.

Lemma anyWhere_insertRow {Row} (p : Row → bool) r t : anyWhere p t = true → anyWhere p (insertRow r t) = true.
Proof. rewrite !anyWhere_true. setoid_rewrite elem_of_insertRow. naive_solver. Qed.

Lemma create_keeps `{Postgres} user : AccountProg (users_create user).
Proof.
  intros w b w' [Hok HQ] E. split; [|done]. cbv zeta in E.
  destruct (negb (displayNameFits _)); [done|]. cbn [users setDraws] in E.
  destruct (anyWhere (emailIs _) (users w)) eqn:Ee.
  { injection E as <- <-. destruct Hok. split; [split; [by split|done]|by apply quiet_kept|done|done]. }
  destruct (anyWhere (userIs _) (users w)) eqn:Ei; [done|]. injection E as <- <-.
  rewrite anyWhere_false in Ee. rewrite anyWhere_false in Ei. destruct Hok.
  split; [split; [split; cbn; try done|]| |done|done].
  - apply NoDup_insertRow; [done|]. intros r Hr. specialize (Ei r Hr). unfold userIs in Ei.
    cbn in Ei |- *. by apply bool_decide_eq_false in Ei.
  - apply NoDup_insertRow; [done|]. intros r Hr. specialize (Ee r Hr). by apply bool_decide_eq_false in Ee.
  - eapply Forall_impl; [exact refresh_owned|]. intros r. apply anyWhere_insertRow.
  - eapply Forall_impl; [exact user_tokens_owned|]. intros r. apply anyWhere_insertRow.
  - apply Forall_insertRow; [done|]. cbn. unfold DEFAULT_UPLOAD_QUOTA, INT64_MAX. lia.
  - apply AccountsKept_quiet; [done|]. split; [by auto..| |by auto|].
    + intros u Hu. exists u. split; [apply elem_of_insertRow; by left|apply UserKept_refl].
    + intros u [Hu| ->]%elem_of_insertRow; [by apply (users_same_quota [] (users w) (users w) eq_refl)|left].
      unfold withinQuota. cbn. unfold DEFAULT_UPLOAD_QUOTA. lia.
Qed.

Lemma assignRole_keeps id role : AccountProg (roles_assignRole id role).
Proof.
  apply (Keeps_bind _ _ _ _ (λ _, True)); [|intros _ _; apply query_keeps].
  apply Keeps_statement. intros w b w' HI E. split; [|done].
  repeat case_match; simplify_eq; try by apply AccountsGo_refl.
  destruct HI as [[] HQ]. split; [split; [by split|done]|apply quiet_kept; try done|done|done].
  intros grant Hg. apply elem_of_insertRow. by left.
Qed.

(** Inserting a row into [refresh_tokens] after some live rows were revoked in place. *)
Section RefreshTable.
Context `{Postgres}.

Lemma revoke_keeps w p now successor :
  AccountsInv w →
  AccountsGo w (setRefreshTokens
    (updateWhere (λ r, p r && unrevoked r) (revokedAs now successor) (refreshTokens w)) w).
Proof.
  intros [[] HQ]. split; [split; [split; cbn; try done|done]| |done|done].
  - by rewrite (updateWhere_keys (λ r, lowerText (refreshId r))).
  - by rewrite (updateWhere_keys refreshTokenHash).
  - by apply Forall_updateWhere.
  - apply quiet_kept; try done. intros r Hr Hu. cbn. apply elem_of_updateWhere. exists r. split; [done|].
    by rewrite Hu, andb_false_r.
Qed.

Lemma revokeWhere_keeps p : AccountProg (exec (λ w, (tt, revokeWhere p w))).
Proof. intros w b w' HI [= <- <-]. split; [|done]. by apply revoke_keeps. Qed.

Lemma insert_keeps w w1 record id t :
  AccountsInv w → insertRefreshToken record w = Some (id, w1) →
  AccountsGo w (setRefreshTokens t w) →
  map (λ r, lowerText (refreshId r)) t = map (λ r, lowerText (refreshId r)) (refreshTokens w) →
  map refreshTokenHash t = map refreshTokenHash (refreshTokens w) →
  AccountsGo w (setRefreshTokens (insertRow (newRefreshRow (clock w) id record) t) w1).
Proof.
  intros [Hok HQ] (Hid & Hfresh & Hhash & Hown & _ & ->)%insertRefreshToken_spec [[[] _] HK _ _] Ei Eh.
  split; [split; [split; cbn in *; try done|done]| |done|done].
  - apply (NoDup_insert_keys _ t (refreshTokens w)); [done|done|].
    intros r Hr. specialize (Hfresh r Hr). by apply bool_decide_eq_false in Hfresh.
  - by apply (NoDup_insert_keys _ t (refreshTokens w)).
  - by apply Forall_insertRow.
  - apply quiet_kept; try done. intros r Hr Hu. cbn. apply elem_of_insertRow. left.
    exact (revoked_quietly _ _ r HK eq_refl Hr Hu).
Qed.

Lemma refreshTokens_issue_keeps record : AccountProg (refreshTokens_issue record).
Proof.
  intros w id w' HI E. split; [|done].
  apply insertRefreshToken_spec in E as E'. destruct E' as (_ & _ & _ & _ & _ & ->).
  replace (setRefreshTokens (insertRow _ _) _) with
    (setRefreshTokens (insertRow (newRefreshRow (clock w) id record) (refreshTokens w))
       (setRefreshTokens (insertRow (newRefreshRow (clock w) id record) (refreshTokens w))
          (setDraws (S (draws w)) w))) by done.
  eapply insert_keeps; [done|exact E| |done|done].
  replace (setRefreshTokens (refreshTokens w) w) with w by (by destruct w). by apply AccountsGo_refl.
Qed.

Lemma refreshTokens_rotate_keeps previous record : AccountProg (refreshTokens_rotate previous record).
Proof.
  intros w id w' HI E. split; [|done]. cbn in E.
  destruct (insertRefreshToken record w) as [[id' w1]|] eqn:Ei; [|done]. cbn in E. injection E as <- <-.
  eapply insert_keeps; [done|exact Ei|by apply revoke_keeps|by apply updateWhere_keys|by apply updateWhere_keys].
Qed.
End RefreshTable.

(** ** Links and mail *)

Lemma consume_keeps w (p : UserTokenRow → bool) :
  AccountsInv w → (∀ r, p r = true → unconsumed r = true) →
  AccountsGo w (setUserTokens (updateWhere p (consumedAs (clock w)) (userTokens w)) w).
Proof.
  intros [[] HQ] Hp. split; [split; [split; cbn; try done|done]| |done|done].
  - by rewrite (updateWhere_keys tokenHash).
  - by apply Forall_updateWhere.
  - apply quiet_kept; try done. intros r Hr Hu. cbn. apply elem_of_updateWhere. exists r. split; [done|].
    destruct (p r) eqn:E; [|done]. rewrite (Hp r E) in Hu. done.
Qed.

Lemma userTokens_consume_keeps hash purpose : AccountProg (userTokens_consume hash purpose).
Proof.
  intros w b w' HI [= <- <-]. split; [|done]. apply consume_keeps; [done|].
  intros r. unfold redeemable. rewrite !andb_true_iff. tauto.
Qed.

Lemma userTokens_invalidateAll_keeps id purpose : AccountProg (userTokens_invalidateAll id purpose).
Proof.
  intros w b w' HI [= <- <-]. split; [|done].
  apply (consume_keeps w (λ r, uuidEq (tokenUserId r) id && purposeIs purpose r && unconsumed r)); [done|].
  intros r. rewrite !andb_true_iff. tauto.
Qed.

Lemma userTokens_issue_keeps id purpose hash ttl : AccountProg (userTokens_issue id purpose hash ttl).
Proof.
  intros w b w' [[] HQ] E. split; [|done].
  destruct (anyWhere (λ r, bool_decide (tokenHash r = hash)) (userTokens w)) eqn:Eh; [done|].
  destruct (anyWhere (userIs id) (users w)) eqn:Eu; [|done]. cbn in E. injection E as <- <-.
  rewrite anyWhere_false in Eh. split; [split; [split; cbn; try done|done]| |done|done].
  - apply NoDup_insertRow; [done|]. intros r Hr. specialize (Eh r Hr). by apply bool_decide_eq_false in Eh.
  - by apply Forall_insertRow.
  - apply quiet_kept; try done. intros r Hr _. apply elem_of_insertRow. by left.
Qed.

Lemma sendMail_keeps `{MailSender} message : AccountProg (sendMail message).
Proof. apply exec_elsewhere. intros w. cbn. by destruct (ok _). Qed.

#[export] Hint Resolve create_keeps assignRole_keeps revokeWhere_keeps refreshTokens_issue_keeps
  refreshTokens_rotate_keeps userTokens_consume_keeps userTokens_invalidateAll_keeps
  userTokens_issue_keeps sendMail_keeps : keeps.

Lemma findById_keeps id : AccountProg (users_findById id).
Proof. apply query_keeps. Qed.

Lemma findByEmail_keeps email : AccountProg (users_findByEmail email).
Proof. apply query_keeps. Qed.

Lemma permissionsForUser_keeps id : AccountProg (roles_permissionsForUser id).
Proof. apply query_keeps. Qed.

Lemma findByHash_keeps hash : AccountProg (refreshTokens_findByHash hash).
Proof. apply query_keeps. Qed.

Lemma revokeById_keeps id : AccountProg (refreshTokens_revokeById id).
Proof. apply revokeWhere_keeps. Qed.

Lemma revokeFamily_keeps family : AccountProg (refreshTokens_revokeFamily family).
Proof. apply revokeWhere_keeps. Qed.

Lemma revokeAllForUser_keeps id : AccountProg (refreshTokens_revokeAllForUser id).
Proof. apply revokeWhere_keeps. Qed.

#[export] Hint Resolve findById_keeps findByEmail_keeps permissionsForUser_keeps findByHash_keeps
  revokeById_keeps revokeFamily_keeps revokeAllForUser_keeps : keeps.

(** ** Handlers *)

Section Handlers.
Context `{Sodium, PasswordHasher, Evp, Postgres, MailSender, TokenService}.
Variable settings : AuthSettings.

Lemma hashPassword_keeps password : AccountProg (hashPassword password).
Proof. apply draw_keeps. Qed.

Lemma sendVerificationLink_keeps user : AccountProg (sendVerificationLink settings user).
Proof. unfold sendVerificationLink. keeps_handler. Qed.

Lemma issueSession_keeps user family rotates client :
  AccountProg (issueSession settings user family rotates client).
Proof. unfold issueSession. keeps_handler. Qed.

#[local] Hint Resolve hashPassword_keeps sendVerificationLink_keeps issueSession_keeps : keeps.

(** The requests of [AuthController]. *)
Inductive AuthRequest : Prog World unit → Prop :=
| request_register command : AuthRequest (answered (registerUser settings command))
| request_resend email : AuthRequest (answered (resendVerification settings email))
| request_login email password client : AuthRequest (answered (login settings email password client))
| request_refresh token client : AuthRequest (answered (refresh settings token client))
| request_logout token : AuthRequest (answered (logout token))
| request_verify token : AuthRequest (answered (verifyEmail token))
| request_reset_link email : AuthRequest (answered (requestPasswordReset settings email))
| request_reset token password : AuthRequest (answered (resetPassword token password))
| request_change id current password client :
    AuthRequest (answered (changePassword settings id current password client)).

Lemma answered_keeps {A} (p : Prog World A) : AccountProg p → AccountProg (answered p).
Proof. intros Hp. by apply (Keeps_bind _ _ _ _ _ _ Hp). Qed.

Lemma AuthRequest_keeps p : AuthRequest p → AccountProg p.
Proof.
  destruct 1; apply answered_keeps;
    [unfold registerUser|unfold resendVerification|unfold login, performDummyHash|unfold refresh
    |unfold logout|unfold verifyEmail|unfold requestPasswordReset|unfold resetPassword
    |unfold changePassword]; cbv zeta; keeps_handler.
Qed.
End Handlers.
