(* ===== verification/AuthSessions.v ===== *)
(** What the sign-in routes of [src/services/AuthService.cpp] promise: who gets a session,
    what the answers give away, and how long a credential can be used. *)

From S2P Require Import Prelude.
From S2P Require Import Errors.
From S2P Require Import Validation.
From S2P Require Import Hash.
From S2P Require Import Programs.
From S2P Require Import Random.
From S2P Require Import World.
From S2P Require Import Accounts.
From S2P Require Import MailTemplates.
From S2P Require Import AuthService.
From S2P Require Import AccountSafety.

Section Facts.
Context `{Sodium, PasswordHasher, Evp, Postgres, MailSender, TokenService}.
Variable settings : AuthSettings.

Lemma updateUser_ids id f us :
  (∀ r, userId (f r) = userId r) → map userId (updateWhere (userIs id) f us) = map userId us.
Proof. intros Hf. apply updateWhere_keys. auto. Qed.

Lemma anyWhere_ids id us us' :
  map userId us = map userId us' → anyWhere (userIs id) us = anyWhere (userIs id) us'.
Proof.
  intros E. unfold anyWhere, userIs.
  assert (∀ l, existsb (λ row, uuidEq (userId row) id) l = existsb (λ k, uuidEq k id) (map userId l)) as HE.
  { induction l as [|r l IH]; cbn; [done|]. by rewrite IH. }
  by rewrite !HE, E.
Qed.

(** A sign-in reads one account, and a successful one writes only that account before
    the session is issued. *)
Lemma perform_login email password client w r w' :
  perform (login settings email password client) w = (r, w') →
  match selectFirst (emailIs (normalizeEmail email)) (users w) with
  | None => r = Some (failure Unauthenticated INVALID_CREDENTIALS) ∧ w' = setDraws (S (draws w)) w
  | Some user =>
      if negb (verify password (passwordHash user)) then
        r = Some (failure Unauthenticated INVALID_CREDENTIALS) ∧ w' = w
      else if negb (isActive user) then
        r = Some (failure Forbidden "this account has been disabled") ∧ w' = w
      else if requireVerifiedEmail settings && negb (emailVerified (mapUser user)) then
        r = Some (failure Forbidden "confirm your email address before signing in") ∧ w' = w
      else ∃ us n, map userId us = map userId (users w) ∧ (draws w < n ≤ draws w + 2)%nat
        ∧ perform (issueSession settings (mapUser user) (randomUuid (pred n)) None client
                   ≫= λ tokens, mret (Success tokens)) (setDraws n (setUsers us w)) = (r, w')
  end.
Proof.
  unfold login, users_findByEmail. run_statements.
  destruct (selectFirst (emailIs _) (users w)) as [user|]; cbn [fmap option_fmap option_map].
  2:{ unfold performDummyHash, hashPassword, draw. run_statements. by intros [= <- <-]. }
  cbn [mapUser accountPasswordHash accountActive accountId emailVerified].
  destruct (negb (verify _ _)); [run_statements; by intros [= <- <-]|].
  destruct (negb (isActive user)); [run_statements; by intros [= <- <-]|].
  destruct (requireVerifiedEmail settings && _); [run_statements; by intros [= <- <-]|].
  destruct (needsRehash (passwordHash user)).
  - unfold hashPassword, draw, users_rehashPassword, users_recordSuccessfulLogin. run_statements.
    destruct (hash (draws w) password); run_statements; intros Hp.
    + eexists _, (S (S (draws w))). split; [|split; [|exact Hp]]; [|lia]. unfold updateUser. cbn [users setUsers setDraws]. by rewrite !updateUser_ids.
    + eexists _, (S (S (draws w))). split; [|split; [|exact Hp]]; [|lia]. unfold updateUser. cbn [users setUsers setDraws]. by rewrite !updateUser_ids.
  - unfold draw, users_recordSuccessfulLogin. run_statements. intros Hp.
    eexists _, (S (draws w)). split; [|split; [|exact Hp]]; [|lia]. unfold updateUser. cbn [users setUsers setDraws]. by rewrite !updateUser_ids.
Qed.

Lemma FreshTokens_later w us n :
  FreshTokens w → (draws w < n ≤ draws w + 2)%nat → FreshWithin 2 (setDraws n (setUsers us w)).
Proof. intros Hf Hn a b Ha Hb r Hr. cbn in *. apply Hf; [unfold REQUEST_DRAWS; lia..|done]. Qed.

(** From a fresh world a session is always issued. *)
Lemma issueSession_fresh user family client w r w' :
  perform (issueSession settings user family None client) w = (r, w') →
  FreshWithin 2 w → 0 < refreshTokenTtl settings → anyWhere (userIs (accountId user)) (users w) = true →
  ∃ tokens, r = Some tokens.
Proof.
  intros Hp Hf Ht Hu. apply perform_issueSession in Hp as [(-> & _ & Hnone)|(tokens & id & ins & n & -> & _)]; [|by eauto].
  destruct (insertRefreshToken_fresh w (sessionRecord settings user family client w)) as (id & ins & E); try done.
  congruence.
Qed.
End Facts.

Section Cases.
Context `{Sodium, PasswordHasher, Evp, Postgres, MailSender, TokenService}.
Variable settings : AuthSettings.

(** Credentials the deployment signs somebody in with. *)
Record SignsIn (w : World) (email password : string) (user : UserRow) : Prop := {
  signs_user : user ∈ users w;
  signs_email : emailIs (normalizeEmail email) user = true;
  signs_password : verify password (passwordHash user) = true;
  signs_active : isActive user = true;
  signs_verified : requireVerifiedEmail settings = true → emailVerifiedAt user ≠ None
}.

(** Either nobody signs in with these credentials and nothing is written, or the session
    of the account they name is issued. *)
Lemma login_cases email password client w r w' :
  AccountsOk w → perform (login settings email password client) w = (r, w') →
  ((∀ user, ¬ SignsIn w email password user) ∧ (∃ e, r = Some (Failure e)) ∧ ∃ n, w' = setDraws n w)
  ∨ ∃ user us n, SignsIn w email password user
      ∧ map userId us = map userId (users w) ∧ (draws w < n ≤ draws w + 2)%nat
      ∧ perform (issueSession settings (mapUser user) (randomUuid (pred n)) None client
                 ≫= λ tokens, mret (Success tokens)) (setDraws n (setUsers us w)) = (r, w').
Proof.
  intros Hok Hp%perform_login.
  assert (∀ user, SignsIn w email password user →
    selectFirst (emailIs (normalizeEmail email)) (users w) = Some user) as Hsel.
  { intros user []. apply (selectFirst_unique (λ r, lowerText (userEmail r))); [apply Hok| |done|done].
    intros a b Ha%citextEq_true Hb%citextEq_true. congruence. }
  assert (w = setDraws (draws w) w) as Hsame by (by destruct w).
  assert ((∀ user, ¬ SignsIn w email password user) → (∃ e, r = Some (Failure e)) → w' = w →
    (∀ user, ¬ SignsIn w email password user) ∧ (∃ e, r = Some (Failure e)) ∧ ∃ n, w' = setDraws n w)
    as Hrefused by (intros ? ? ->; eauto).
  destruct (selectFirst _ (users w)) as [user|] eqn:Euser.
  2:{ destruct Hp as [-> ->]. left. split_and!; [|by eexists|by eexists]. intros user Hs.
      by specialize (Hsel user Hs). }
  apply selectFirst_Some in Euser as [Hin Hemail].
  assert (∀ user', SignsIn w email password user' → SignsIn w email password user) as Huniq.
  { intros user' Hs. specialize (Hsel user' Hs). injection Hsel as ->. done. }
  destruct (verify password (passwordHash user)) eqn:Epw; cbn [negb] in Hp.
  2:{ destruct Hp as [-> ->]. left. apply Hrefused; [|by eexists|done].
      intros user' Hs%Huniq. destruct Hs. congruence. }
  destruct (isActive user) eqn:Eact; cbn [negb] in Hp.
  2:{ destruct Hp as [-> ->]. left. apply Hrefused; [|by eexists|done].
      intros user' Hs%Huniq. destruct Hs. congruence. }
  destruct (requireVerifiedEmail settings && negb (emailVerified (mapUser user))) eqn:Ever.
  { destruct Hp as [-> ->]. left. apply Hrefused; [|by eexists|done]. intros user' Hs%Huniq. destruct Hs as [_ _ _ _ Hv].
    apply andb_true_iff in Ever as [E1 E2]. specialize (Hv E1). cbn in E2. by destruct (emailVerifiedAt user). }
  destruct Hp as (us & n & Hids & Hn & Hp). right. exists user, us, n. split; [|split; [done|split; [done|exact Hp]]].
  split; try done. intros Hreq Hnone. rewrite Hreq in Ever. cbn in Ever. by rewrite Hnone in Ever.
Qed.

(** The row a session of a sign-in puts in the table. *)
Lemma session_row user family client w tokens id inserted n :
  let record := sessionRecord settings user family client w in
  insertRefreshToken record (setDraws (S (draws w)) w) = Some (id, inserted) →
  refreshToken tokens = randomUrlSafeToken (draws w) →
  ∃ row,
    row ∈ refreshTokens (setDraws n (setRefreshTokens
            (insertRow (newRefreshRow (clock w) id record) (refreshTokens w)) w))
    ∧ refreshTokenHash row = sha256Hex (refreshToken tokens) ∧ unrevoked row = true
    ∧ refreshUserId row = accountId user ∧ refreshFamilyId row = family
    ∧ refreshExpiresAt row = clock w + refreshTokenTtl settings.
Proof.
  intros record Hins Htok. exists (newRefreshRow (clock w) id record).
  split_and!; try done; [|cbn; by rewrite Htok]. apply elem_of_insertRow. by right.
Qed.
End Cases.

(** ** Single-use links *)

Lemma redeemable_spec now hash purpose r :
  redeemable now hash purpose r = true ↔
  tokenHash r = hash ∧ tokenPurpose r = purpose ∧ consumedAt r = None ∧ now < tokenExpiresAt r.
Proof.
  unfold redeemable, purposeIs, unconsumed. rewrite !andb_true_iff, !bool_decide_eq_true, Z.ltb_lt.
  destruct (consumedAt r); naive_solver.
Qed.

Lemma redeemable_row w hash purpose link :
  AccountsOk w → link ∈ userTokens w → redeemable (clock w) hash purpose link = true →
  selectFirst (redeemable (clock w) hash purpose) (userTokens w) = Some link.
Proof.
  intros Hok Hl Hr. apply (selectFirst_unique tokenHash); [apply Hok| |done|done].
  intros a b [Ha _]%redeemable_spec [Hb _]%redeemable_spec. congruence.
Qed.

(** A link that was consumed redeems nothing, whatever else happened to the table. *)
Lemma consumed_unredeemable w hash purpose :
  (∀ r, r ∈ userTokens w → tokenHash r = hash → unconsumed r = false) →
  perform (userTokens_consume hash purpose) w = (Some None, w).
Proof.
  intros Hspent. unfold userTokens_consume, exec. cbn.
  assert (∀ r, r ∈ userTokens w → redeemable (clock w) hash purpose r = false) as Hno.
  { intros r Hr. apply not_true_iff_false. intros (Hh & _ & Hc & _)%redeemable_spec.
    specialize (Hspent r Hr Hh). unfold unconsumed in Hspent. by rewrite Hc in Hspent. }
  rewrite (proj2 (selectFirst_None _ _) Hno), updateWhere_none by done. by destruct w.
Qed.

Section Reset.
Context `{Sodium, PasswordHasher, Evp, Postgres, MailSender, TokenService}.

(** What a completed reset writes. *)
Definition resetWorld (id hash encoded : string) (w : World) : World :=
  let consumed := updateWhere (redeemable (clock w) hash PasswordReset) (consumedAs (clock w)) (userTokens w) in
  setUserTokens
    (updateWhere (λ r, uuidEq (tokenUserId r) id && purposeIs PasswordReset r && unconsumed r)
       (consumedAs (clock w)) consumed)
    (revokeWhere (refreshOwnerIs id)
       (updateUser id (withPasswordHash encoded false) (setDraws (S (draws w)) w))).

Lemma perform_resetPassword token password w r w' :
  AccountsOk w → perform (resetPassword token password) w = (r, w') →
  (∃ link encoded, validatePassword password = Success tt ∧ link ∈ userTokens w
     ∧ redeemable (clock w) (sha256Hex token) PasswordReset link = true
     ∧ hash (draws w) password = Success encoded ∧ r = Some (Success tt)
     ∧ w' = resetWorld (tokenUserId link) (sha256Hex token) encoded w)
  ∨ (∃ e, r = Some (Failure e))
    ∧ (users w' = users w ∧ refreshTokens w' = refreshTokens w)
    ∧ ((∀ link, link ∈ userTokens w → redeemable (clock w) (sha256Hex token) PasswordReset link = false) → w' = w).
Proof.
  intros Hok. unfold resetPassword. destruct (validatePassword password) as [[]|e] eqn:Ev.
  2:{ run_statements. intros [= <- <-]. right. split_and!; eauto. }
  unfold userTokens_consume. run_statements.
  destruct (selectFirst _ (userTokens w)) as [link|] eqn:El; cbn [fmap option_fmap option_map].
  2:{ run_statements. intros [= <- <-]. right. split; [by eexists|]. split; [done|]. intros Hno.
      rewrite updateWhere_none by done. by destruct w. }
  apply selectFirst_Some in El as [Hl Hr]. unfold hashPassword, draw. run_statements.
  cbn [draws setUserTokens]. destruct (hash (draws w) password) as [encoded|e] eqn:Eh.
  - unfold users_updatePasswordHash, refreshTokens_revokeAllForUser, userTokens_invalidateAll.
    run_statements. intros [= <- <-]. left. exists link, encoded. by split_and!.
  - run_statements. intros [= <- <-]. right. split; [by eexists|]. split; [done|].
    intros Hno. by rewrite Hno in Hr.
Qed.
Lemma resetWorld_users id hash encoded w user :
  user ∈ users (resetWorld id hash encoded w) ↔
  ∃ user0, user0 ∈ users w
    ∧ user = if userIs id user0 then withPasswordHash encoded false user0 else user0.
Proof. apply elem_of_updateWhere. Qed.

Lemma resetWorld_sessions id hash encoded w row :
  row ∈ refreshTokens (resetWorld id hash encoded w) → refreshOwnerIs id row = true →
  unrevoked row = false.
Proof.
  intros (row0 & _ & ->)%elem_of_updateWhere. destruct (refreshOwnerIs id row0 && unrevoked row0) eqn:E; [done|].
  intros Ho. by rewrite Ho in E.
Qed.

Lemma resetWorld_links id hash encoded w other :
  other ∈ userTokens (resetWorld id hash encoded w) →
  uuidEq (tokenUserId other) id = true ∧ tokenPurpose other = PasswordReset ∨ tokenHash other = hash →
  AccountsOk w → (∃ link, link ∈ userTokens w ∧ redeemable (clock w) hash PasswordReset link = true) →
  unconsumed other = false.
Proof.
  intros (o1 & (o0 & Ho0 & ->)%elem_of_updateWhere & ->)%elem_of_updateWhere Hwhich Hok (link & Hl & Hr).
  destruct (redeemable (clock w) hash PasswordReset o0) eqn:E0.
  { by rewrite andb_false_r. }
  destruct (uuidEq (tokenUserId o0) id && _ && _) eqn:E1; [done|]. destruct Hwhich as [[Hid Hp]|Hh].
  - rewrite Hid in E1. unfold purposeIs in E1. by rewrite bool_decide_eq_true_2 in E1 by done.
  - apply redeemable_spec in Hr as Hr'. destruct Hr' as (Hlh & _).
    assert (o0 = link) as -> by (apply (key_inj tokenHash (userTokens w)); [apply Hok|done|done|congruence]).
    congruence.
Qed.
End Reset.

(** ** One live token per family *)

(** A family is one sign-in; only its newest token should be usable. *)
Definition SingleLive (w : World) : Prop := ∀ family, (length (liveIn family w) ≤ 1)%nat.

(** The identifiers the next request may draw name no family yet. *)
Definition FreshFamilies `{Sodium} (w : World) : Prop :=
  ∀ n, (draws w ≤ n < draws w + REQUEST_DRAWS)%nat → ∀ r, r ∈ refreshTokens w → familyIs (randomUuid n) r = false.

Lemma liveIn_same family w w' : refreshTokens w' = refreshTokens w → liveIn family w' = liveIn family w.
Proof. unfold liveIn. by intros ->. Qed.

(** The relation every handler but a sign-in satisfies. *)
Definition LiveShrinks (w w' : World) : Prop :=
  ∀ family, (length (liveIn family w') ≤ length (liveIn family w))%nat.

Lemma LiveShrinks_same w w' : refreshTokens w' = refreshTokens w → LiveShrinks w w'.
Proof. intros E family. by rewrite (liveIn_same family w w'). Qed.

Notation ShrinkProg p := (Keeps (λ _, True) LiveShrinks p (λ _, True)).

Lemma query_shrinks {B} (f : World → B) : ShrinkProg (query f).
Proof. intros w b w' _ [= <- <-]. split; [by apply LiveShrinks_same|done]. Qed.

Lemma exec_shrinks {B} (f : World → B * World) :
  (∀ w, refreshTokens (f w).2 = refreshTokens w) → ShrinkProg (exec f).
Proof. intros Hf w b w' _ [= E]. split; [|done]. apply LiveShrinks_same. by rewrite <- (Hf w), E. Qed.

Lemma statement_shrinks {B} (f : World → option (B * World)) :
  (∀ w b w', f w = Some (b, w') → refreshTokens w' = refreshTokens w) → ShrinkProg (statement f).
Proof. intros Hf w b w' _ E. split; [|done]. by apply LiveShrinks_same, (Hf w b). Qed.

Lemma revoke_shrinks p : ShrinkProg (exec (λ w, (tt, revokeWhere p w))).
Proof. intros w b w' _ [= <- <-]. split; [|done]. intros family. apply liveIn_revokeWhere_le. Qed.

Lemma draw_shrinks {B} (f : nat → B) : ShrinkProg (draw f).
Proof. by apply exec_shrinks. Qed.

Lemma create_shrinks `{Postgres} user : ShrinkProg (users_create user).
Proof. apply statement_shrinks. intros w b w' E. cbv zeta in E. by repeat case_match; simplify_eq. Qed.

Lemma assignRole_shrinks id role : ShrinkProg (roles_assignRole id role).
Proof.
  apply (Keeps_bind _ _ _ _ (λ _, True)); [|intros _ _; apply query_shrinks].
  apply statement_shrinks. intros w b w' E. by repeat case_match; simplify_eq.
Qed.

Lemma issueLink_shrinks id purpose hash ttl : ShrinkProg (userTokens_issue id purpose hash ttl).
Proof. apply statement_shrinks. intros w b w' E. by repeat case_match; simplify_eq. Qed.

Lemma consume_shrinks hash purpose : ShrinkProg (userTokens_consume hash purpose).
Proof. by apply exec_shrinks. Qed.

Lemma invalidateAll_shrinks id purpose : ShrinkProg (userTokens_invalidateAll id purpose).
Proof. by apply exec_shrinks. Qed.

Lemma markEmailVerified_shrinks id : ShrinkProg (users_markEmailVerified id).
Proof. by apply exec_shrinks. Qed.

Lemma updatePasswordHash_shrinks id encoded : ShrinkProg (users_updatePasswordHash id encoded).
Proof. by apply exec_shrinks. Qed.

Lemma findByEmail_shrinks email : ShrinkProg (users_findByEmail email).
Proof. apply query_shrinks. Qed.

Lemma findByHash_shrinks hash : ShrinkProg (refreshTokens_findByHash hash).
Proof. apply query_shrinks. Qed.

Lemma revokeById_shrinks id : ShrinkProg (refreshTokens_revokeById id).
Proof. apply revoke_shrinks. Qed.

Lemma revokeAllForUser_shrinks id : ShrinkProg (refreshTokens_revokeAllForUser id).
Proof. apply revoke_shrinks. Qed.

Lemma sendMail_shrinks `{MailSender} message : ShrinkProg (sendMail message).
Proof. apply exec_shrinks. intros w. cbn. by destruct (ok _). Qed.

Lemma LiveShrinks_trans w1 w2 w3 : LiveShrinks w1 w2 → LiveShrinks w2 w3 → LiveShrinks w1 w3.
Proof. intros H1 H2 family. specialize (H1 family). specialize (H2 family). lia. Qed.

#[local] Hint Resolve query_shrinks draw_shrinks revoke_shrinks create_shrinks assignRole_shrinks
  sendMail_shrinks issueLink_shrinks consume_shrinks invalidateAll_shrinks markEmailVerified_shrinks
  updatePasswordHash_shrinks findByEmail_shrinks findByHash_shrinks revokeById_shrinks
  revokeAllForUser_shrinks : keeps.

Section Shrinking.
Context `{Sodium, PasswordHasher, Evp, Postgres, MailSender, TokenService}.
Variable settings : AuthSettings.

Lemma hashPassword_shrinks password : ShrinkProg (hashPassword password).
Proof. apply draw_shrinks. Qed.

Lemma sendVerificationLink_shrinks user : ShrinkProg (sendVerificationLink settings user).
Proof. unfold sendVerificationLink. keeps_handler. Qed.

#[local] Hint Resolve hashPassword_shrinks sendVerificationLink_shrinks : keeps.

(** The handlers that issue no session. *)
Lemma sessionless_shrink command email token password :
  ShrinkProg (registerUser settings command) ∧ ShrinkProg (resendVerification settings email)
  ∧ ShrinkProg (logout token) ∧ ShrinkProg (verifyEmail token)
  ∧ ShrinkProg (requestPasswordReset settings email) ∧ ShrinkProg (resetPassword token password).
Proof.
  split_and!;
    [unfold registerUser|unfold resendVerification|unfold logout|unfold verifyEmail
    |unfold requestPasswordReset|unfold resetPassword]; cbv zeta; keeps_handler.
Qed.

(** A session in a family that no token belongs to is the only one in it. *)
Lemma issueSession_new_family user k client w r w' :
  perform (issueSession settings user (randomUuid k) None client) w = (r, w') →
  (∀ row, row ∈ refreshTokens w → familyIs (randomUuid k) row = false) →
  SingleLive w → SingleLive w'.
Proof.
  intros Hp Hfresh HS family.
  apply perform_issueSession in Hp as [(_ & [n ->] & _)|(tokens & id & ins & n & _ & _ & _ & _ & _ & _ & ->)].
  { apply HS. }
  unfold liveIn, insertRow. change (refreshTokens (setDraws n (setRefreshTokens ?t w))) with t.
  rewrite selectWhere_app, length_app. fold (liveIn family w). specialize (HS family).
  unfold selectWhere. cbn [List.filter].
  destruct (familyIs family (newRefreshRow _ _ _) && _) eqn:Ef; cbn [length]; [|lia].
  apply andb_true_iff in Ef as [Ef _]. change (uuidEq (randomUuid k) family = true) in Ef.
  assert (liveIn family w = []) as ->; [|done]. apply selectWhere_none. intros row Hr.
  specialize (Hfresh row Hr). unfold familyIs, uuidEq in *. bool_to_prop.
  rewrite bool_decide_eq_false_2; [done|congruence].
Qed.

Lemma perform_changePassword id current password client w r w' :
  perform (changePassword settings id current password client) w = (r, w') →
  refreshTokens w' = refreshTokens w
  ∨ ∃ p w0, refreshTokens w0 = refreshTokens (revokeWhere p w) ∧
      (w' = w0 ∨ ∃ user k, (draws w ≤ k ≤ draws w + 2)%nat ∧
        perform (issueSession settings user (randomUuid k) None client ≫= λ tokens, mret (Success tokens)) w0 = (r, w')).
Proof.
  unfold changePassword. destruct (validatePassword password); [|run_statements; intros [= <- <-]; by left].
  unfold users_findById. run_statements.
  destruct (selectFirst _ _) as [user|]; cbn [fmap option_fmap option_map]; [|run_statements; intros [= <- <-]; by left].
  do 3 (case_match; [run_statements; intros [= <- <-]; by left|]).
  unfold hashPassword, draw. run_statements.
  destruct (hash _ _) as [encoded|e]; [|run_statements; intros [= <- <-]; by left].
  unfold users_updatePasswordHash, refreshTokens_revokeAllForUser, userTokens_invalidateAll. run_statements.
  intros Hp. right. exists (refreshOwnerIs (accountId (mapUser user))).
  destruct (selectFirst _ _) as [user'|] in Hp; cbn [fmap option_fmap option_map] in Hp.
  - revert Hp. run_statements. intros Hp. eexists. split; [|right; eexists _, _; split; [|exact Hp]]; [done|cbn; lia].
  - revert Hp. run_statements. intros [= <- <-]. eexists. split; [|left; reflexivity]. done.
Qed.
End Shrinking.

Section Properties.
Context `{Sodium, PasswordHasher, Evp, Postgres, MailSender, TokenService}.
Variable settings : AuthSettings.

Lemma always_succeeds (w : World) (p : Prog World VoidResult) :
  Answers (λ r, r = Success tt) p → ∀ r, (perform p w).1 = Some r → r = Success tt.
Proof. intros Hp r. apply Hp. Qed.

(** C37: no answer says whether an address has an account.  A sign-in that fails on the
    password answers what one for an unknown address answers and writes nothing; asking for
    a reset, for another verification message and signing out answer success whatever the
    database holds, and for an unknown address or token they write and send nothing. *)
Theorem no_account_oracle email password token client w :
  ((∀ user, user ∈ users w → emailIs (normalizeEmail email) user = true →
      verify password (passwordHash user) = false) →
    ∃ n, perform (login settings email password client) w =
         (Some (failure Unauthenticated INVALID_CREDENTIALS), setDraws n w))
  ∧ (∀ p r, p ∈ [requestPasswordReset settings email; resendVerification settings email; logout token] →
       (perform p w).1 = Some r → r = Success tt)
  ∧ (anyWhere (emailIs (normalizeEmail email)) (users w) = false →
       perform (requestPasswordReset settings email) w = (Some (Success tt), w)
       ∧ perform (resendVerification settings email) w = (Some (Success tt), w))
  ∧ (anyWhere (refreshHashIs (sha256Hex token)) (refreshTokens w) = false →
       perform (logout token) w = (Some (Success tt), w)).
Proof.
  split_and!.
  - intros Hwrong. destruct (perform (login settings email password client) w) as [r w'] eqn:Hp.
    apply perform_login in Hp.
    destruct (selectFirst _ (users w)) as [user|] eqn:Eu; [|destruct Hp as [-> ->]; by eexists].
    apply selectFirst_Some in Eu as [Hu He]. rewrite (Hwrong user Hu He) in Hp. cbn [negb] in Hp.
    destruct Hp as [-> ->]. exists (draws w). by destruct w.
  - intros p r. rewrite !elem_of_cons.
    intros [->|[->|[->|[]%not_elem_of_nil]]]; revert r; apply (always_succeeds w);
      [unfold requestPasswordReset|unfold resendVerification|unfold logout].
    all: repeat first [apply Answers_bind; intros ?|case_match|by apply Answers_ret].
  - intros Hnone. unfold requestPasswordReset, resendVerification, users_findByEmail. run_statements.
    assert (selectFirst (emailIs (normalizeEmail email)) (users w) = None) as ->; [|done].
    by apply selectFirst_None, anyWhere_false.
  - intros Hnone. unfold logout, refreshTokens_findByHash. run_statements.
    assert (selectFirst (refreshHashIs (sha256Hex token)) (refreshTokens w) = None) as ->; [|done].
    by apply selectFirst_None, anyWhere_false.
Qed.
(** C27: a password reset needs an unconsumed, unexpired reset link and an acceptable
    password.  When it succeeds the account's stored hash accepts the new password and
    asks for no further change, every session of the account is revoked, every reset link
    of the account is consumed, other accounts are untouched, and the link never works
    again.  Without such a link nothing is written; whenever it fails no password and no
    session changes. *)
Theorem resetPassword_correct token password w r w' :
  AccountsOk w → perform (resetPassword token password) w = (r, w') →
  (r = Some (Success tt) →
     ∃ link, link ∈ userTokens w ∧ redeemable (clock w) (sha256Hex token) PasswordReset link = true
       ∧ (∃ user, user ∈ users w' ∧ userIs (tokenUserId link) user = true)
       ∧ (∀ user, user ∈ users w' → userIs (tokenUserId link) user = true →
            verify password (passwordHash user) = true ∧ passwordChangeRequired user = false)
       ∧ (∀ user, userIs (tokenUserId link) user = false → user ∈ users w' ↔ user ∈ users w)
       ∧ (∀ row, row ∈ refreshTokens w' → refreshOwnerIs (tokenUserId link) row = true → unrevoked row = false)
       ∧ (∀ other, other ∈ userTokens w' → uuidEq (tokenUserId other) (tokenUserId link) = true →
            tokenPurpose other = PasswordReset → unconsumed other = false)
       ∧ ∀ again, ∃ e, (perform (resetPassword token again) w').1 = Some (Failure e))
  ∧ (r ≠ Some (Success tt) → (∃ e, r = Some (Failure e))
       ∧ users w' = users w ∧ refreshTokens w' = refreshTokens w)
  ∧ ((∀ link, link ∈ userTokens w → redeemable (clock w) (sha256Hex token) PasswordReset link = false) →
       r ≠ Some (Success tt) ∧ w' = w).
Proof.
  intros Hok Hp. apply perform_resetPassword in Hp as
    [(link & encoded & Hv & Hl & Hr & Hh & -> & ->)|((e & ->) & Hsame & Hno)]; [| |done].
  2:{ split_and!; [done|by eauto|]. intros Hnone. split; [done|by apply Hno]. }
  split_and!; [|done|intros Hnone; by rewrite Hnone in Hr].
  intros _. exists link. split; [done|]. split; [done|].
  pose proof (proj1 (Forall_forall _ _) (user_tokens_owned w Hok) link Hl) as Howner.
  apply anyWhere_true in Howner as (owner & Ho & Hid).
  assert (∀ user, userIs (tokenUserId link) (withPasswordHash encoded false user) = userIs (tokenUserId link) user)
    as Hkeep by done.
  split_and!.
  - exists (withPasswordHash encoded false owner). split; [|done]. apply resetWorld_users.
    exists owner. by rewrite Hid.
  - intros user (user0 & _ & ->)%resetWorld_users. destruct (userIs _ user0) eqn:E; [|by rewrite E].
    intros _. split; [|done]. by apply (verify_hash (draws w)).
  - intros user Hnot. rewrite resetWorld_users. split.
    + intros (user0 & Hu & ->). destruct (userIs _ user0) eqn:E; [by rewrite Hkeep, E in Hnot|done].
    + intros Hu. exists user. by rewrite Hnot.
  - intros row. apply resetWorld_sessions.
  - intros other Hin Hown Hpur. eapply resetWorld_links; [exact Hin|by left|done|by exists link].
  - intros again. unfold resetPassword. destruct (validatePassword again) as [[]|e]; [|by eexists].
    rewrite perform_bind, consumed_unredeemable; [by eexists|].
    intros r0 Hin Hh0. eapply resetWorld_links; [exact Hin|by right|done|by exists link].
Qed.
(** Requests served one after the other, and time passing. *)
Inductive served (w : World) : World → Prop :=
| served_request p : AuthRequest settings p → FreshFamilies w → served w (perform p w).2
| served_tick w' : clockTick w w' → served w w'.

Lemma answered_world {A} (p : Prog World A) w : (perform (answered p) w).2 = (perform p w).2.
Proof. unfold answered. rewrite perform_bind. by destruct (perform p w) as [[a|] w']. Qed.

Lemma shrinking_single {A} (p : Prog World A) w :
  Keeps (λ _, True) LiveShrinks p (λ _, True) → SingleLive w → SingleLive (perform p w).2.
Proof.
  intros Hk HS. destruct (perform p w) as [r w1] eqn:E.
  assert (LiveShrinks w w1) as HR.
  { apply (perform_keeps (λ _, True) LiveShrinks p (λ _, True) w r w1); try done.
    - intros w2 _. by apply LiveShrinks_same.
    - exact LiveShrinks_trans. }
  intros family. specialize (HR family). specialize (HS family). cbn. lia.
Qed.

Lemma login_single email password client w :
  AccountsOk w → FreshFamilies w → SingleLive w → SingleLive (perform (login settings email password client) w).2.
Proof.
  intros Hok Hfresh HS. destruct (perform _ w) as [r w'] eqn:E. cbn.
  apply login_cases in E as [(_ & _ & [n ->])|(user & us & n & _ & _ & Hn & Hp)]; [done| |done].
  rewrite perform_bind in Hp. destruct (perform (issueSession _ _ _ _ _) _) as [o w1] eqn:Ei.
  apply issueSession_new_family in Ei; [|intros row Hr; apply Hfresh; [unfold REQUEST_DRAWS; lia|done]|done].
  destruct o; by injection Hp as <- <-.
Qed.

Lemma changePassword_single id current password client w :
  FreshFamilies w → SingleLive w → SingleLive (perform (changePassword settings id current password client) w).2.
Proof.
  intros Hfresh HS. destruct (perform _ w) as [r w'] eqn:E. cbn.
  apply perform_changePassword in E as [E|(p & w0 & E0 & Hcase)].
  { intros family. rewrite (liveIn_same family w w' E). apply HS. }
  assert (SingleLive w0) as HS0.
  { intros family. rewrite (liveIn_same family (revokeWhere p w) w0 E0).
    pose proof (liveIn_revokeWhere_le family p w). specialize (HS family). lia. }
  destruct Hcase as [->|(user & k & Hk & Hp)]; [done|].
  rewrite perform_bind in Hp. destruct (perform (issueSession _ _ _ _ _) _) as [o w1] eqn:Ei.
  apply issueSession_new_family in Ei; [destruct o; by injection Hp as <- <-| |done].
  intros row. rewrite E0. intros (row0 & Hr0 & ->)%elem_of_updateWhere.
  destruct (p row0 && unrevoked row0); apply (Hfresh k ltac:(unfold REQUEST_DRAWS; lia) row0 Hr0).
Qed.

Lemma served_single w w' : AccountsInv w → SingleLive w → served w w' → SingleLive w'.
Proof.
  intros [Hok _] HS [p Hp Hfresh|w1 [t Ht]]; [|done].
  destruct Hp as [command|email|email password client|token client|token|token|email|token password|id current password client];
    rewrite answered_world.
  - by apply shrinking_single; [apply (sessionless_shrink settings command "" "" "")|].
  - by apply shrinking_single; [apply (sessionless_shrink settings (mkRegister "" "" "") email "" "")|].
  - by apply login_single.
  - intros family. destruct (perform _ w) as [r w2] eqn:E.
    pose proof (refresh_live_le settings _ _ _ _ _ family Hok E). specialize (HS family). cbn. lia.
  - by apply shrinking_single; [apply (sessionless_shrink settings (mkRegister "" "" "") "" token "")|].
  - by apply shrinking_single; [apply (sessionless_shrink settings (mkRegister "" "" "") "" token "")|].
  - by apply shrinking_single; [apply (sessionless_shrink settings (mkRegister "" "" "") email "" "")|].
  - by apply shrinking_single; [apply (sessionless_shrink settings (mkRegister "" "" "") "" token password)|].
  - by apply changePassword_single.
Qed.

Lemma served_inv w w' : AccountsInv w → served w w' → AccountsInv w'.
Proof.
  intros HI [p Hp _|w1 [t Ht]].
  - destruct (perform p w) as [r w1] eqn:E.
    apply (perform_keeps AccountsInv AccountsGo) with (Q := λ _, True) in E as [HR _]; [by apply HR| | | | |done].
    + intros w2 w3 _ HR. apply HR.
    + apply AccountsGo_refl.
    + intros w2 w3 w4 [_ K1 S1 C1] [I2 K2 S2 C2]. split; [done|by eapply AccountsKept_trans| |congruence].
      unfold SameStorage in *. naive_solver congruence.
    + by eapply AuthRequest_keeps.
  - destruct HI as [[] HQ]. by split.
Qed.

(** C26: when requests are served one at a time, a sign-in never has two usable refresh
    tokens: whatever requests come in whatever order, replayed and forged ones included,
    each family keeps at most one token that is not revoked. *)
Theorem sessions_linear w w' :
  AccountsInv w → SingleLive w → reachable served w w' → SingleLive w'.
Proof.
  intros HI HS Hreach.
  assert (AccountsInv w' ∧ SingleLive w') as [_ ?]; [|done].
  revert Hreach. apply (reachable_invariant served (λ w, AccountsInv w ∧ SingleLive w)); [|done].
  intros w1 w2 [HI1 HS1] Hstep. split; [by eapply served_inv|by eapply served_single].
Qed.
End Properties.

(** ** The theorems at a concrete deployment *)

#[local] Existing Instances sampleSodium sampleEvp samplePostgres sampleMail sampleTokens.

Definition sampleFamily : string :=
  match refreshTokens signedIn.2 with
  | row :: _ => refreshFamilyId row
  | [] => ""
  end.

(** Two clients present the one token of a sign-in at the same moment. *)
Definition racingClients : Pool :=
  (signedIn.2,
   [answered (refresh sampleSettings sampleRefreshToken (mkClient "launcher/1.0" "192.0.2.1"));
    answered (refresh sampleSettings sampleRefreshToken (mkClient "launcher/1.0" "192.0.2.2"))]).

Definition racedClients : Pool := schedule (concat (replicate 7 [0; 1]%nat)) racingClients.

(** Rotation does not serialise refreshes.  Two interleaved refreshes with the same
    valid token are both answered, and leave two live tokens in the one family the sign-in
    opened, which had one. *)
Theorem refresh_race :
  reachable (poolStep (AuthRequest sampleSettings) clockTick) (signedIn.2, []) racedClients
  ∧ length (liveIn sampleFamily signedIn.2) = 1%nat
  ∧ length (liveIn sampleFamily racedClients.1) = 2%nat
  ∧ Forall (λ p, p = Done tt) racedClients.2.
Proof.
  split_and!.
  - eapply reachable_trans; [|apply schedule_reachable]. apply arrive_reachable.
    repeat (apply Forall_cons; split); constructor.
  - vm_compute. reflexivity.
  - vm_compute. reflexivity.
  - assert (racedClients.2 = [Done tt; Done tt]) as -> by (vm_compute; reflexivity). by repeat constructor.
Qed.

Definition usageOk (w : World) : bool :=
  forallb (λ u, (0 <=? uploadUsedBytes u) && (uploadUsedBytes u <=? INT64_MAX)) (users w).

Lemma usageOk_sound w : usageOk w = true → UsageOk w.
Proof.
  unfold usageOk, UsageOk. rewrite forallb_forall, Forall_forall. intros H u Hu%list_elem_of_In.
  apply H in Hu. bool_to_prop. done.
Qed.


Lemma resetPassword_correct_witness :
  ∃ w w', AccountsOk w ∧ perform (resetPassword (randomUrlSafeToken 8) "a new password") w = (Some (Success tt), w')
    ∧ ∃ link, link ∈ userTokens w ∧ redeemable (clock w) (sha256Hex (randomUrlSafeToken 8)) PasswordReset link = true.
Proof.
  set (w := (perform (requestPasswordReset sampleSettings "ada@example.com") signedIn.2).2).
  exists w, (perform (resetPassword (randomUrlSafeToken 8) "a new password") w).2.
  assert (AccountsOk w) as Hok by (apply accountsOk_sound; vm_compute; reflexivity).
  assert (perform (resetPassword (randomUrlSafeToken 8) "a new password") w =
    (Some (Success tt), (perform (resetPassword (randomUrlSafeToken 8) "a new password") w).2)) as E.
  { rewrite (surjective_pairing (perform _ w)) at 1. by f_equal. }
  split; [exact Hok|]. split; [exact E|].
  destruct (resetPassword_correct _ _ w _ _ Hok E) as (Hs & _).
  destruct (Hs eq_refl) as (link & H1 & H2 & _). exists link. split; [exact H1|exact H2].
Defined.

Lemma sessions_linear_witness :
  SingleLive (perform (refresh sampleSettings sampleRefreshToken sampleClient) signedIn.2).2.
Proof.
  assert (signedIn.2 = (perform (answered (login sampleSettings "ada@example.com" "correct horse battery" sampleClient))
    registeredWorld).2) as E by (vm_compute; reflexivity).
  apply (sessions_linear sampleSettings registeredWorld).
  - split; [apply accountsOk_sound|apply usageOk_sound]; vm_compute; reflexivity.
  - intros family. replace (liveIn family registeredWorld) with (@nil RefreshRow); [cbn; lia|].
    unfold liveIn. assert (refreshTokens registeredWorld = []) as -> by (vm_compute; reflexivity). reflexivity.
  - rewrite <- answered_world. apply (reachable_step _ _ signedIn.2).
    + apply (reachable_step _ _ registeredWorld); [apply reachable_refl|]. rewrite E.
      apply served_request; [constructor|]. intros n _ r Hr.
      assert (refreshTokens registeredWorld = []) as E0 by (vm_compute; reflexivity).
      rewrite E0 in Hr. destruct (not_elem_of_nil _ Hr).
    + apply served_request; [constructor|]. intros n Hn r Hr.
      assert (forallb (λ n, forallb (λ r, negb (familyIs (randomUuid n) r)) (refreshTokens signedIn.2))
        (seq (draws signedIn.2) REQUEST_DRAWS) = true) as Hall by (vm_compute; reflexivity).
      rewrite forallb_forall in Hall. specialize (Hall n ltac:(apply in_seq; exact Hn)).
      rewrite forallb_forall in Hall. apply negb_true_iff, Hall, list_elem_of_In, Hr.
Defined.
