(* ===== verification/Releases.v ===== *)
(** Releases of the launcher: the store of their artifacts ([src/storage/ReleaseStore.cpp]), a third
    root with the file-system faults of the other two, where an artifact is a file of the operator's
    machine that is copied in; and their publishing, withdrawing and serving:
    [src/app/ReleaseDocumentJson.cpp], [src/app/ReleasePublish.cpp],
    [src/services/LauncherReleaseService.cpp] and
    [src/repositories/postgres/PgLauncherReleaseRepository.cpp]. *)

From S2P Require Import Prelude.
From S2P Require Import Errors.
From S2P Require Import Json.
From S2P Require Import Semver.
From S2P Require Import Catalog.
From S2P Require Import CanonicalJson.
From S2P Require Import Manifest.
From S2P Require Import LauncherRelease.
From S2P Require Import Hash.
From S2P Require Import BlobStore.
From S2P Require Import Signer.
From S2P Require Import Signature.
From S2P Require Import Programs.
From S2P Require Import World.
From S2P Require Import Ordering.
From S2P Require Import Accounts.

Definition ARTIFACT_EXTENSION : string := ".zip".

Definition releaseKeyFor (sha256 : string) : string :=
  if negb (isSha256Hex sha256) then ""
  else substr sha256 0 2 +:+ "/" +:+ substr sha256 2 2 +:+ "/" +:+ sha256 +:+ ARTIFACT_EXTENSION.

Definition releasePathFor (key : string) : option string :=
  if bool_decide (key = ""%stdpp) || (if findSub (chars "..") (chars key) then true else false) || charIs key 0 "/"
  then None else Some key.

Definition releaseContains (files : gmap string (list ascii)) (key : string) : bool :=
  match releasePathFor key with
  | None => false
  | Some path => if files !! path then true else false
  end.

Definition releaseStagingFor (digest : string) : string :=
  STAGING_DIRECTORY +:+ "/" +:+ digest +:+ ARTIFACT_EXTENSION.

Section Store.
Context `{Evp}.

(** [ReleaseStore::store]: [outside] holds the operator's files.  The rename of another
    process that gets there first is a publication of the same bytes, and is not modelled. *)
Definition releasePut (faults : Faults) (outside : gmap string (list ascii)) (source expected : string)
    (files : gmap string (list ascii)) : Result string * gmap string (list ascii) :=
  let key := releaseKeyFor expected in
  if bool_decide (key = ""%stdpp) then (failure InvalidInput "the expected hash is not a SHA-256 digest", files)
  else
    match outside !! source with
    | None => (failure InvalidInput ("no such file: " +:+ source), files)
    | Some content =>
        match sha256File faults outside source with
        | Failure e => (Failure e, files)
        | Success actual =>
            if negb (bool_decide (actual = expected)) then
              (failure InvalidInput
                 ("the artifact does not match the hash in the signed document: it hashes to " +:+ actual
                  +:+ ", the document names " +:+ expected), files)
            else if files !! key then (Success key, files)
            else
              match ensureDirectory faults with
              | Failure _ => (failure DependencyFailure "cannot create the release directory", files)
              | Success _ =>
                  let staging := releaseStagingFor actual in
                  let cleared := discard faults staging files in
                  if createFails faults then (failure DependencyFailure "cannot stage the artifact", cleared)
                  else
                    match writeStops faults with
                    | Some n =>
                        (failure DependencyFailure "cannot stage the artifact", <[staging := take n content]> cleared)
                    | None =>
                        let staged := <[staging := content]> cleared in
                        if renameFails faults then
                          (failure DependencyFailure "cannot move the artifact into storage", discard faults staging staged)
                        else (Success key, <[key := content]> (delete staging staged))
                    end
              end
        end
    end.
End Store.

(** [ReleaseStore::remove]. *)
Definition releaseDiscard (faults : Faults) (key : string) (files : gmap string (list ascii)) : gmap string (list ascii) :=
  match releasePathFor key with
  | None => files
  | Some path => discard faults path files
  end.

(** ** Lemmas *)

Lemma releaseKey_chars h :
  isSha256Hex h = true →
  ∃ a b c d, chars (releaseKeyFor h) = a :: b :: "/"%char :: c :: d :: "/"%char :: chars h ++ chars ARTIFACT_EXTENSION
    ∧ forallb isLowercaseHexDigit [a; b; c; d] = true.
Proof.
  intros Hh. destruct (key_chars h Hh) as (a & b & c & d & l & _ & E & Hd & _). exists a, b, c, d. split; [|done].
  assert (releaseKeyFor h = storageKeyFor h +:+ ARTIFACT_EXTENSION) as ->.
  { unfold releaseKeyFor, storageKeyFor. rewrite Hh. cbn [negb]. apply chars_inj. rewrite !chars_app.
    by rewrite <- !app_assoc. }
  by rewrite !chars_app, E.
Qed.

Lemma releaseKey_not_staging h digest : isSha256Hex h = true → releaseKeyFor h ≠ releaseStagingFor digest.
Proof.
  intros Hh E%(f_equal chars). destruct (releaseKey_chars h Hh) as (a & b & c & d & E1 & _).
  rewrite E1 in E. unfold releaseStagingFor in E. rewrite !chars_app in E. cbn in E. by simplify_eq.
Qed.

Section Sound.
Context `{Evp}.
Implicit Types files : gmap string (list ascii).

(** The bytes at the address of a digest. *)
Definition ArtifactAt files (hash : string) (content : list ascii) : Prop :=
  isSha256Hex hash = true ∧ files !! releaseKeyFor hash = Some content ∧ text (toHex (sha256 content)) = hash.

(** Everything at an address stays there. *)
Definition ReleaseFilesKept files files' : Prop :=
  ∀ h content, isSha256Hex h = true → files !! releaseKeyFor h = Some content → files' !! releaseKeyFor h = Some content.

Lemma ReleaseFilesKept_refl files : ReleaseFilesKept files files.
Proof. by intros h c. Qed.

Lemma ReleaseFilesKept_trans f1 f2 f3 : ReleaseFilesKept f1 f2 → ReleaseFilesKept f2 f3 → ReleaseFilesKept f1 f3.
Proof. intros H1 H2 h c Hh Hc. by apply H2, H1. Qed.

(** Whatever is at the address of a digest hashes to it. *)
Definition ReleaseSound files : Prop :=
  ∀ h content, isSha256Hex h = true → files !! releaseKeyFor h = Some content → text (toHex (sha256 content)) = h.

Lemma releaseKey_inj h k : isSha256Hex h = true → isSha256Hex k = true → releaseKeyFor h = releaseKeyFor k → h = k.
Proof.
  intros Hh Hk E%(f_equal chars). destruct (releaseKey_chars h Hh) as (a & b & c & d & E1 & _).
  destruct (releaseKey_chars k Hk) as (a' & b' & c' & d' & E2 & _). rewrite E1, E2 in E.
  injection E as _ _ _ _ E. apply chars_inj. by apply app_inv_tail in E.
Qed.

(** What a call may do to the root. *)
Definition ReleaseStep files files' : Prop := ReleaseFilesKept files files' ∧ (ReleaseSound files → ReleaseSound files').

Lemma ReleaseStep_refl files : ReleaseStep files files.
Proof. split; [apply ReleaseFilesKept_refl|done]. Qed.

(** What leaves every name alone but a staging one. *)
Lemma staging_step digest files files' :
  (∀ p, p ≠ releaseStagingFor digest → files' !! p = files !! p) → ReleaseStep files files'.
Proof.
  intros E. split.
  - intros h c Hh Hc. by rewrite E by (by apply releaseKey_not_staging).
  - intros HS h c Hh. rewrite E by (by apply releaseKey_not_staging). by apply HS.
Qed.

(** A new artifact under its own address. *)
Lemma artifact_step hash content files files' :
  isSha256Hex hash = true → files !! releaseKeyFor hash = None → text (toHex (sha256 content)) = hash →
  (∀ p, p ≠ releaseStagingFor hash → p ≠ releaseKeyFor hash → files' !! p = files !! p) →
  files' !! releaseKeyFor hash = Some content → ReleaseStep files files'.
Proof.
  intros Hx Hn Hc E Hk. split.
  - intros h c Hh Hc'. rewrite E; [done|by apply releaseKey_not_staging|intros Eh; rewrite Eh in Hc'; congruence].
  - intros HS h c Hh. destruct (decide (releaseKeyFor h = releaseKeyFor hash)) as [Eh|Eh].
    + rewrite Eh, Hk. intros [= <-]. by rewrite Hc, (releaseKey_inj h hash).
    + rewrite E by (done || by apply releaseKey_not_staging). by apply HS.
Qed.

(** Publishing again is free, failing leaves every artifact in place, and succeeding puts
    the operator's file at the address the document names. *)
Lemma releasePut_spec faults outside source expected files r files' :
  releasePut faults outside source expected files = (r, files') →
  ReleaseStep files files'
  ∧ (∀ key, r = Success key → key = releaseKeyFor expected ∧ isSha256Hex expected = true
       ∧ ∃ content, outside !! source = Some content ∧ text (toHex (sha256 content)) = expected
         ∧ files' !! key = Some (default content (files !! key))).
Proof.
  unfold releasePut. case_bool_decide as Hk; [intros [= <- <-]; split; [apply ReleaseStep_refl|done]|].
  assert (Hx : isSha256Hex expected = true).
  { unfold releaseKeyFor in Hk. by destruct (isSha256Hex expected). }
  destruct (outside !! source) as [content|] eqn:Es; [|intros [= <- <-]; split; [apply ReleaseStep_refl|done]].
  destruct (sha256File faults outside source) as [actual|] eqn:Ef; [|intros [= <- <-]; split; [apply ReleaseStep_refl|done]].
  apply sha256File_Success in Ef as (content' & Ec & ->). rewrite Es in Ec. injection Ec as <-.
  case_bool_decide as Ha; cbn [negb]; [|intros [= <- <-]; split; [apply ReleaseStep_refl|done]].
  destruct (files !! releaseKeyFor expected) as [old|] eqn:Eo.
  { intros [= <- <-]. split; [apply ReleaseStep_refl|]. intros key [= <-]. rewrite Eo. eauto 8. }
  unfold ensureDirectory. destruct (mkdirFails faults); [intros [= <- <-]; split; [apply ReleaseStep_refl|done]|].
  rewrite Ha. set (staging := releaseStagingFor expected).
  assert (Hc : ∀ p, p ≠ staging → discard faults staging files !! p = files !! p) by (intros; by apply discard_other).
  destruct (createFails faults); [intros [= <- <-]; split; [by eapply staging_step|done]|].
  destruct (writeStops faults).
  { intros [= <- <-]. split; [|done]. apply (staging_step expected). intros p Hp. rewrite lookup_insert_ne by done. by apply Hc. }
  destruct (renameFails faults); intros [= <- <-].
  - split; [|done]. apply (staging_step expected). intros p Hp.
    rewrite discard_other by done. rewrite lookup_insert_ne by done. by apply Hc.
  - split.
    + apply (artifact_step expected content); [done..| |by rewrite lookup_insert_eq].
      intros p Hp Hp'. rewrite lookup_insert_ne, lookup_delete_ne, lookup_insert_ne by done. by apply Hc.
    + intros key [= <-]. split_and!; [done..|]. exists content. split_and!; [done|done|]. by rewrite lookup_insert_eq, Eo.
Qed.
End Sound.

(** ** The world of releases *)

(** A row of [launcher_releases]. *)
Record ReleaseRow := mkReleaseRow {
  relId : string;
  relChannel : string;
  relVersion : string;
  relMajor : Z;
  relMinor : Z;
  relPatch : Z;
  relPlatform : string;
  relArch : string;
  relSha256 : string;
  relSize : Z;
  relStorageKey : string;
  relDocument : string;
  relSignature : string;
  relReleasedAt : Z;
  relCreatedAt : Z;
  relRetiredAt : option Z
}.

(** [operatorFiles] is what lies on the operator's disk, [releaseFiles] what is under the root. *)
Record ReleaseWorld := mkReleaseWorld {
  launcherReleases : list ReleaseRow;
  releaseFiles : gmap string (list ascii);
  operatorFiles : gmap string (list ascii);
  releaseClock : Z;
  releaseDraws : nat
}.

(** Whether a connection to the database is made. *)
Class Connection := { connects : nat → bool }.

(** One call that may fail, or that draws. *)
Definition onDraw {A} (f : nat → ReleaseWorld → A * ReleaseWorld) : Prog ReleaseWorld A :=
  exec (λ w, f (releaseDraws w)
    (mkReleaseWorld (launcherReleases w) (releaseFiles w) (operatorFiles w) (releaseClock w) (S (releaseDraws w)))).

(** ** Reading a document *)

Section Document.
Context `{Jsoncpp}.

(** Nothing at all is an exception of jsoncpp, which nobody catches. *)
Notation Reading A := (option (Result A)) (only parsing).

Notation "'read?' x := p 'in' k" :=
  (match p with
   | None => None
   | Some (Failure e) => Some (Failure e)
   | Some (Success x) => k
   end) (at level 200, x pattern, p at level 100, k at level 200).

(** [refuse], where what was looked for is not there. *)
Definition orRefuse {A} (found : option A) (why : string) : Reading A :=
  match found with Some a => Some (Success a) | None => Some (failure InvalidInput why) end.

Definition textOf (root : Value) (name : string) : Reading string := Success <$> asString (member root name).

Definition NOT_AN_OBJECT : string := "the release document is not a JSON object".

Definition parseReleaseDocument (json : string) : Reading ReleaseDocument :=
  read? root := orRefuse (readJson json) NOT_AN_OBJECT in
  read? _ := orRefuse (if isObject root then Some tt else None) NOT_AN_OBJECT in
  read? number := orRefuse (asInt (member root "schema")) "schema must be a number" in
  read? channelText := textOf root "channel" in
  read? onChannel := orRefuse (parseReleaseChannel channelText) "channel must be 'stable' or 'beta'" in
  read? versionText := textOf root "version" in
  read? written := (match parseSemver versionText with
                    | Failure e => Some (failure InvalidInput ("version is not a version number: " +:+ detail e))
                    | Success v => Some (Success v)
                    end) in
  read? platformText := textOf root "platform" in
  read? onPlatform := orRefuse (parseReleasePlatform platformText) "platform must be 'windows', 'linux' or 'macos'" in
  read? archText := textOf root "arch" in
  read? onArch := orRefuse (parseReleaseArch archText) "arch must be 'x64' or 'arm64'" in
  read? digest := textOf root "sha256" in
  read? bytes := orRefuse (asInt64 (member root "size")) "size must be a whole number of bytes" in
  read? instant := textOf root "releasedAt" in
  read? remarks := textOf root "notes" in
  let document := mkDocument number onChannel written onPlatform onArch digest bytes instant remarks in
  match validateReleaseDocument document with
  | Failure e => Some (Failure e)
  | Success _ =>
      let canonical := canonicalReleaseDocument document in
      if negb (sameText canonical json) then
        Some (failure InvalidInput ("the release document is not in canonical form. It must be exactly the bytes the "
          +:+ "signature covers: the nine keys in order, no whitespace, nothing else. Expected:" +:+ text ["010"%char]
          +:+ canonical))
      else Some (Success document)
  end.

(** What it accepts is byte for byte the canonical form of what it read. *)
Lemma parseReleaseDocument_canonical json document :
  parseReleaseDocument json = Some (Success document) → ValidRelease document ∧ json = canonicalReleaseDocument document.
Proof.
  unfold parseReleaseDocument, orRefuse. intros E. repeat (case_match; simplify_eq; try done).
  rewrite <- validateReleaseDocument_spec.
  match goal with V : validateReleaseDocument _ = Success ?u, N : negb _ = false |- _ =>
    destruct u; apply negb_false_iff, bool_decide_eq_true in N; by split end.
Qed.
End Document.

(** ** The table *)

Record ReleaseQuery := mkReleaseQuery { askedChannel : ReleaseChannel; askedPlatform : ReleasePlatform; askedArch : ReleaseArch }.

(** A stored release. *)
Record StoredRelease := mkStoredRelease {
  storedId : string;
  storedParsed : ReleaseDocument;
  storedDocument : string;
  storedSignature : string;
  storedKey : string;
  storedCreatedAt : string;
  storedRetiredAt : string
}.

Definition relLive (row : ReleaseRow) : bool := if relRetiredAt row then false else true.

Definition relOf (query : ReleaseQuery) (row : ReleaseRow) : bool :=
  bool_decide (relChannel row = nameForChannel (askedChannel query))
  && bool_decide (relPlatform row = nameForPlatform (askedPlatform query))
  && bool_decide (relArch row = nameForArch (askedArch query)).

(** [ORDER BY version_major DESC, version_minor DESC, version_patch DESC]. *)
Definition newestRelease (a b : ReleaseRow) : comparison :=
  thenBy (CompOpp (Z.compare (relMajor a) (relMajor b)))
    (thenBy (CompOpp (Z.compare (relMinor a) (relMinor b))) (CompOpp (Z.compare (relPatch a) (relPatch b)))).

Section Table.
Context `{Postgres}.

(** The notes are not in a column. *)
Definition mapRelease (query : ReleaseQuery) (row : ReleaseRow) : StoredRelease :=
  mkStoredRelease (relId row)
    (mkDocument RELEASE_DOCUMENT_SCHEMA (askedChannel query)
       (mkSemver (relMajor row) (relMinor row) (relPatch row) (relVersion row)) (askedPlatform query) (askedArch query)
       (relSha256 row) (relSize row) (to_char_utc (relReleasedAt row)) "")
    (relDocument row) (relSignature row) (relStorageKey row) (to_char_utc (relCreatedAt row))
    (match relRetiredAt row with None => "" | Some at_ => to_char_utc at_ end).

Definition latestRow (query : ReleaseQuery) (w : ReleaseWorld) : option ReleaseRow :=
  head (orderBy newestRelease (selectWhere (λ row, relOf query row && relLive row) (launcherReleases w))).

Definition releases_findLatest (query : ReleaseQuery) : Prog ReleaseWorld (option StoredRelease) :=
  Programs.query (λ w, fmap (M := option) (mapRelease query) (latestRow query w)).
End Table.

(** ** Publishing *)

Record ReleasePublishRequest := mkPublish { documentPath : string; signaturePath : string; artifactPath : string }.

Inductive ReleasePublishOutcome := Published | AlreadyPublished.
Inductive ReleaseRetireOutcome := Retired | NotLive.

Record LauncherReleaseSettings := mkReleaseSettings { releasePublicKey : string; releaseBaseUrl : string }.

Definition isTrimmed (c : ascii) : bool := ceqb c " " || ceqb c "009" || ceqb c "013" || ceqb c "010".

Definition withoutSurroundingWhitespace (value : string) : string :=
  text (dropWhile isTrimmed (dropWhileEnd isTrimmed (chars value))).

(** [c_str()] as libpq reads it: up to the first null character. *)
Fixpoint untilNull (l : list ascii) : list ascii :=
  match l with
  | [] => []
  | c :: l => if ceqb c "000" then [] else c :: untilNull l
  end.

Definition c_str (value : string) : string := text (untilNull (chars value)).

Definition NO_SIGNING_KEY : string :=
  "no release signing key is configured: set LAUNCHER_RELEASE_PUBLIC_KEY to the public half of the key you sign releases with".

(** The unique index. *)
Definition sameIdentity (a b : ReleaseRow) : bool :=
  bool_decide (relChannel a = relChannel b) && bool_decide (relPlatform a = relPlatform b)
  && bool_decide (relArch a = relArch b) && bool_decide (relVersion a = relVersion b).

Definition setReleases (x : list ReleaseRow) (w : ReleaseWorld) : ReleaseWorld :=
  mkReleaseWorld x (releaseFiles w) (operatorFiles w) (releaseClock w) (releaseDraws w).

Definition setReleaseFiles (x : gmap string (list ascii)) (w : ReleaseWorld) : ReleaseWorld :=
  mkReleaseWorld (launcherReleases w) x (operatorFiles w) (releaseClock w) (releaseDraws w).

Section Publish.
Context `{Jsoncpp, Openssl, Evp, Postgres, Disk, Connection}.
Variable settings : LauncherReleaseSettings.

Definition readWholeFile (path : string) : Prog ReleaseWorld (Result string) :=
  onDraw (λ n w,
    (match operatorFiles w !! path with
     | None => failure InvalidInput ("cannot read " +:+ path)
     | Some content =>
         if openFails (faultsAt n) then failure InvalidInput ("cannot read " +:+ path) else Success (text content)
     end, w)).

Definition storeArtifact (source expected : string) : Prog ReleaseWorld (Result string) :=
  onDraw (λ n w, let r := releasePut (faultsAt n) (operatorFiles w) source expected (releaseFiles w) in
                 (r.1, setReleaseFiles r.2 w)).

Definition releaseRowOf (id : string) (release : ReleaseDocument) (key document signature : string) (at_ now : Z)
    : ReleaseRow :=
  mkReleaseRow id (nameForChannel (channel release)) (c_str (semverText (version release))) (major (version release))
    (minor (version release)) (patch (version release)) (nameForPlatform (platform release)) (nameForArch (arch release))
    (c_str (artifactSha256 release)) (artifactSize release) (c_str key) (c_str document) (c_str signature) at_ now None.

(** The checks of the table that a value may fail. *)
Definition rowChecks (row : ReleaseRow) : bool :=
  negb (bool_decide (relVersion row = ""%stdpp)) && isSha256Hex (relSha256 row) && (0 <? relSize row)
  && negb (bool_decide (relDocument row = ""%stdpp)) && negb (bool_decide (relSignature row = ""%stdpp))
  && (0 <=? relMajor row) && (0 <=? relMinor row) && (0 <=? relPatch row).

(** [PUBLISH_SQL] over a connection of its own. *)
Definition insertRelease (release : ReleaseDocument) (key document signature : string)
    : Prog ReleaseWorld (Result ReleasePublishOutcome) :=
  onDraw (λ n w,
    if negb (connects n) then (failure DependencyFailure "cannot connect to the database", w)
    else
      match timestamptz (c_str (releasedAt release)) with
      | None => (failure DependencyFailure "cannot record the release", w)
      | Some at_ =>
          let row := releaseRowOf (gen_random_uuid n) release key document signature at_ (releaseClock w) in
          if negb (rowChecks row) then (failure DependencyFailure "cannot record the release", w)
          else if anyWhere (λ other, sameIdentity row other || uuidEq (relId other) (relId row))
                    (launcherReleases w)
          then (Success AlreadyPublished, w)
          else (Success Published, setReleases (insertRow row (launcherReleases w)) w)
      end).

Definition publishRelease (request : ReleasePublishRequest) : Prog ReleaseWorld (Result ReleasePublishOutcome) :=
  if bool_decide (releasePublicKey settings = ""%stdpp) then mret (failure InvalidInput NO_SIGNING_KEY)
  else
    try? document := readWholeFile (documentPath request) in
    try? signatureBytes := readWholeFile (signaturePath request) in
    let signature := withoutSurroundingWhitespace signatureBytes in
    match parseReleaseDocument document with
    | None => Raise
    | Some (Failure e) => mret (Failure e)
    | Some (Success release) =>
        match verifyP256Signature (releasePublicKey settings) signature document with
        | Failure e =>
            mret (failure InvalidInput
              ("the signature does not check out against the configured public key: " +:+ detail e))
        | Success _ =>
            try? storageKey := storeArtifact (artifactPath request) (artifactSha256 release) in
            insertRelease release storageKey document signature
        end
    end.

(** The exit code of [--publish-release]. *)
Definition runReleasePublish (request : ReleasePublishRequest) : Prog ReleaseWorld Z :=
  result ← publishRelease request;
  mret (match result with Success Published => 0 | _ => 1 end).

Definition retiredRow (now : Z) (r : ReleaseRow) : ReleaseRow :=
  mkReleaseRow (relId r) (relChannel r) (relVersion r) (relMajor r) (relMinor r) (relPatch r) (relPlatform r) (relArch r)
    (relSha256 r) (relSize r) (relStorageKey r) (relDocument r) (relSignature r) (relReleasedAt r) (relCreatedAt r)
    (Some now).

(** [RETIRE_SQL]. *)
Definition retires (query : ReleaseQuery) (versionText : string) (row : ReleaseRow) : bool :=
  relOf query row && bool_decide (relVersion row = c_str versionText) && relLive row.

Definition retireRelease (query : ReleaseQuery) (versionText : string) : Prog ReleaseWorld (Result ReleaseRetireOutcome) :=
  onDraw (λ n w,
    if negb (connects n) then (failure DependencyFailure "cannot connect to the database", w)
    else
      (Success (if anyWhere (retires query versionText) (launcherReleases w) then Retired else NotLive),
       setReleases (updateWhere (retires query versionText) (retiredRow (releaseClock w)) (launcherReleases w)) w)).

Definition runReleaseRetire (query : ReleaseQuery) (versionText : string) : Prog ReleaseWorld Z :=
  result ← retireRelease query versionText;
  mret (match result with Success Retired => 0 | _ => 1 end).
End Publish.

(** ** Serving *)

Record LatestRelease := mkLatest { latestDocument : string; latestSignature : string; latestUrl : string }.

Definition NO_RELEASES : string := "this server publishes no launcher releases".

Section Serve.
Context `{Openssl, Postgres}.
Variable settings : LauncherReleaseSettings.

Definition releasesEnabled : bool := negb (bool_decide (releasePublicKey settings = ""%stdpp)).

Definition latestRelease (query : ReleaseQuery) : Prog ReleaseWorld (Result LatestRelease) :=
  if negb releasesEnabled then mret (failure NotFound NO_RELEASES)
  else
    found ← releases_findLatest query;
    mret (match found with
          | None => failure NotFound NO_RELEASES
          | Some release =>
              match verifyP256Signature (releasePublicKey settings) (storedSignature release) (storedDocument release) with
              | Failure _ => failure NotFound NO_RELEASES
              | Success _ =>
                  Success (mkLatest (storedDocument release) (storedSignature release)
                    (Signer.withoutTrailingSlash (releaseBaseUrl settings) +:+ "/" +:+ storedKey release))
              end
          end).
End Serve.
