(* ===== verification/ReleaseSafety.v ===== *)
(** What launchers can rely on: whatever is published, withdrawn or altered on the operator's
    machine, and however that interleaves, a release that is served is one that was signed, as
    what it says it is, with its artifact in place. *)

From S2P Require Import Prelude.
From S2P Require Import Errors.
From S2P Require Import Json.
From S2P Require Import Semver.
From S2P Require Import Catalog.
From S2P Require Import CanonicalJson.
From S2P Require Import Manifest.
From S2P Require Import LauncherRelease.
From S2P Require Import Hash.
From S2P Require Import BlobStore.
From S2P Require Import Signer.
From S2P Require Import Signature.
From S2P Require Import Programs.
From S2P Require Import World.
From S2P Require Import Ordering.
From S2P Require Import Accounts.
From S2P Require Import Releases.

#[local] Arguments updateWhere : simpl never.
#[local] Arguments insertRow : simpl never.
#[local] Arguments anyWhere : simpl never.
#[local] Arguments selectWhere : simpl never.

(** ** Texts without a null character *)

Definition noNull (l : list ascii) : bool := forallb (λ c, negb (ceqb c "000")) l.

Lemma untilNull_id l : noNull l = true → untilNull l = l.
Proof. unfold noNull. induction l as [|c l IH]; [done|]. cbn. destruct (ceqb c "000"); [done|]. intros H. by rewrite IH. Qed.

Lemma c_str_id s : noNull (chars s) = true → c_str s = s.
Proof. intros H. apply chars_inj. unfold c_str. by rewrite chars_text, untilNull_id. Qed.

Lemma noNull_app l l' : noNull (l ++ l') = noNull l && noNull l'.
Proof. apply forallb_app. Qed.

Lemma noNull_all l : (∀ c, c ∈ l → c ≠ "000"%char) → noNull l = true.
Proof.
  intros Hl. apply forallb_forall. intros c Hc%list_elem_of_In. apply negb_true_iff, ceqb_neq. by apply Hl.
Qed.

Lemma noNull_decimal z : noNull (chars (toDecimal z)) = true.
Proof.
  apply noNull_all. intros c Hc ->. destruct (toDecimal_chars _ _ Hc) as [E|E]; [by vm_compute in E|discriminate].
Qed.

Lemma noNull_json s : noNull (canonicalJsonString s) = true.
Proof.
  unfold canonicalJsonString. change (QUOTE :: ?l) with ([QUOTE] ++ l). rewrite !noNull_app.
  rewrite andb_true_r. cbn [noNull forallb]. change (negb (ceqb QUOTE "000")) with true. cbn [andb].
  induction (chars s) as [|c l IH]; [done|]. cbn [map concat]. rewrite noNull_app, IH, andb_true_r. by every_byte c.
Qed.

Lemma noNull_hex s : isSha256Hex s = true → noNull (chars s) = true.
Proof.
  intros [_ H]%isSha256Hex_spec. apply noNull_all. rewrite forallb_forall in H. intros c Hc%list_elem_of_In ->.
  by specialize (H _ Hc).
Qed.

Lemma noNull_document d : noNull (chars (canonicalReleaseDocument d)) = true.
Proof.
  unfold canonicalReleaseDocument. rewrite chars_text, !noNull_app, !noNull_json, !noNull_decimal. by vm_compute.
Qed.

Lemma noNull_version v : noNull (chars (canonicalVersion v)) = true.
Proof. unfold canonicalVersion. rewrite !chars_app, !noNull_app, !noNull_decimal. by vm_compute. Qed.

Lemma noNull_key h : isSha256Hex h = true → noNull (chars (releaseKeyFor h)) = true.
Proof.
  intros Hh. destruct (releaseKey_chars h Hh) as (a & b & c & d & -> & Hd). pose proof (noNull_hex h Hh) as Hn.
  change (a :: b :: "/"%char :: c :: d :: "/"%char :: ?l) with ([a; b; "/"%char; c; d; "/"%char] ++ l).
  rewrite !noNull_app, Hn. apply andb_true_iff. split; [|by vm_compute].
  apply noNull_all. rewrite forallb_forall in Hd. intros x Hx ->.
  rewrite !elem_of_cons in Hx. destruct Hx as [E|[E|[E|[E|[E|[E|[]%not_elem_of_nil]]]]]]; try discriminate;
    (assert (isLowercaseHexDigit "000"%char = true) as Hz by (apply Hd, list_elem_of_In; rewrite !elem_of_cons; tauto);
     by vm_compute in Hz).
Qed.

(** ** The invariant *)

Section Invariant.
Context `{Evp}.

(** A row says of a signed document what the document says, and its artifact is in place. *)
Definition RowOf (d : ReleaseDocument) (row : ReleaseRow) : Prop :=
  ValidRelease d ∧ relDocument row = canonicalReleaseDocument d
  ∧ relChannel row = nameForChannel (channel d) ∧ relPlatform row = nameForPlatform (platform d)
  ∧ relArch row = nameForArch (arch d) ∧ relVersion row = canonicalVersion (version d)
  ∧ relMajor row = major (version d) ∧ relMinor row = minor (version d) ∧ relPatch row = patch (version d)
  ∧ relSha256 row = artifactSha256 d ∧ relSize row = artifactSize d ∧ relStorageKey row = releaseKeyFor (artifactSha256 d).

Definition RowOk (w : ReleaseWorld) (row : ReleaseRow) : Prop :=
  ∃ d content, RowOf d row ∧ ArtifactAt (releaseFiles w) (artifactSha256 d) content.

Definition identity (row : ReleaseRow) : string * string * string * string :=
  (relChannel row, relPlatform row, relArch row, relVersion row).

Record RelInv (w : ReleaseWorld) : Prop := {
  rows_ok : Forall (RowOk w) (launcherReleases w);
  identities_unique : NoDup (map identity (launcherReleases w));
  root_sound : ReleaseSound (releaseFiles w)
}.

(** Rows are only ever added and withdrawn, once, and artifacts only ever added. *)
Definition RowKept (row row' : ReleaseRow) : Prop :=
  row' = row ∨ (relLive row = true ∧ ∃ now, row' = retiredRow now row).

Record RelKept (w w' : ReleaseWorld) : Prop := {
  rows_kept : ∀ row, row ∈ launcherReleases w → ∃ row', row' ∈ launcherReleases w' ∧ RowKept row row';
  artifacts_kept : ReleaseFilesKept (releaseFiles w) (releaseFiles w')
}.

Lemma RowKept_trans r1 r2 r3 : RowKept r1 r2 → RowKept r2 r3 → RowKept r1 r3.
Proof. intros [->|[H1 (n & ->)]] [->|[H2 (m & ->)]]; [by left|right; eauto|right; eauto|done]. Qed.

Lemma RelKept_refl w : RelKept w w.
Proof. split; [|apply ReleaseFilesKept_refl]. intros row Hr. exists row. split; [done|by left]. Qed.

Lemma RelKept_trans w1 w2 w3 : RelKept w1 w2 → RelKept w2 w3 → RelKept w1 w3.
Proof.
  intros [R1 F1] [R2 F2]. split; [|by eapply ReleaseFilesKept_trans].
  intros row Hr. destruct (R1 row Hr) as (row2 & H2 & K2). destruct (R2 row2 H2) as (row3 & H3 & K3).
  exists row3. split; [done|by eapply RowKept_trans].
Qed.

Lemma ArtifactAt_kept files files' h content :
  ReleaseFilesKept files files' → ArtifactAt files h content → ArtifactAt files' h content.
Proof. intros Hk (H1 & H2 & H3). split_and!; [done|by apply Hk|done]. Qed.

Lemma RowOk_kept w w' row : ReleaseFilesKept (releaseFiles w) (releaseFiles w') → RowOk w row → RowOk w' row.
Proof. intros Hk (d & c & Hd & Hc). exists d, c. split; [done|by eapply ArtifactAt_kept]. Qed.

(** Nothing happens to the table. *)
Lemma same_table w w' :
  launcherReleases w' = launcherReleases w → ReleaseStep (releaseFiles w) (releaseFiles w') →
  RelInv w → RelInv w' ∧ RelKept w w'.
Proof.
  intros E [Hk Hs] [H1 H2 H3]. split; [split; rewrite ?E|split; [|done]].
  - eapply Forall_impl; [exact H1|]. intros row. by apply RowOk_kept.
  - done.
  - by apply Hs.
  - intros row Hr. exists row. rewrite E. split; [done|by left].
Qed.

Lemma same_everything w w' :
  launcherReleases w' = launcherReleases w → releaseFiles w' = releaseFiles w →
  RelInv w → RelInv w' ∧ RelKept w w'.
Proof. intros E F. apply same_table; [done|]. rewrite F. apply ReleaseStep_refl. Qed.
End Invariant.

(** ** Every step of every request *)

Section Steps.
Context `{Jsoncpp, Openssl, Evp, Postgres, Disk, Connection}.

Notation SafeRel := (Safe RelInv RelKept).

(** What is known of an artifact stays known. *)
Lemma artifact_stable sha : Stable RelInv RelKept (λ w, ∃ c, ArtifactAt (releaseFiles w) sha c).
Proof. intros w w' _ (c & Hc) [_ Hk]. exists c. by eapply ArtifactAt_kept. Qed.

(** A call that leaves the table and the root alone. *)
Lemma onDraw_safe {A} (f : nat → ReleaseWorld → A) P :
  SafeRel P (onDraw (λ n w, (f n w, w))) (λ _ _, True).
Proof.
  intros w a w' HI _ [= <- <-].
  destruct (same_everything w (mkReleaseWorld (launcherReleases w) (releaseFiles w) (operatorFiles w) (releaseClock w)
    (S (releaseDraws w))) eq_refl eq_refl HI). split_and!; [done..|]. exists (λ _, True). by split_and!.
Qed.

Lemma storeArtifact_safe source sha P :
  SafeRel P (storeArtifact source sha)
    (λ r w, ∀ key, r = Success key → key = releaseKeyFor sha ∧ ∃ c, ArtifactAt (releaseFiles w) sha c).
Proof.
  intros w r w' HI _ [= <- <-]. cbn [releaseFiles operatorFiles launcherReleases setReleaseFiles].
  destruct (releasePut _ _ source sha (releaseFiles w)) as [r files'] eqn:E. cbn [fst snd].
  destruct (releasePut_spec _ _ _ _ _ _ _ E) as [Hk Hs].
  destruct (same_table w (mkReleaseWorld (launcherReleases w) files' (operatorFiles w) (releaseClock w)
    (S (releaseDraws w))) eq_refl Hk HI) as [HI' HK]. split_and!; [done..|].
  exists (λ w, ∀ key, r = Success key → key = releaseKeyFor sha ∧ ∃ c, ArtifactAt (releaseFiles w) sha c). split_and!.
  - intros w1 w2 HI1 Hr Hk12 key Er. destruct (Hr key Er) as [-> Hc]. split; [done|].
    by apply (artifact_stable sha w1 w2).
  - intros key Er. destruct (Hs key Er) as (-> & Hh & content & _ & _ & Ef). split; [done|]. cbn [releaseFiles].
    eexists. split_and!; [done|exact Ef|]. by apply (root_sound _ HI' sha _ Hh).
  - intros w1 _ Hr. exact Hr.
Qed.

Lemma releaseRowOf_RowOf id d document key signature at_ now :
  ValidRelease d → document = canonicalReleaseDocument d → key = releaseKeyFor (artifactSha256 d) →
  RowOf d (releaseRowOf id d key document signature at_ now).
Proof.
  intros HV -> ->. pose proof HV as (_ & Ev & Hx & _ & _ & _). unfold RowOf, releaseRowOf.
  cbn [relDocument relChannel relPlatform relArch relVersion relMajor relMinor relPatch relSha256 relSize relStorageKey].
  rewrite Ev, !c_str_id by (apply noNull_version || apply noNull_hex, Hx || apply noNull_key, Hx || apply noNull_document).
  by split_and!.
Qed.

Lemma sameIdentity_spec a b : sameIdentity a b = true ↔ identity a = identity b.
Proof.
  unfold sameIdentity, identity. rewrite !andb_true_iff, !bool_decide_eq_true. split; [by intros [[[-> ->] ->] ->]|].
  by intros [= -> -> -> ->].
Qed.

Lemma insertRelease_safe d key document signature :
  ValidRelease d → document = canonicalReleaseDocument d → key = releaseKeyFor (artifactSha256 d) →
  SafeRel (λ w, ∃ c, ArtifactAt (releaseFiles w) (artifactSha256 d) c) (insertRelease d key document signature) (λ _ _, True).
Proof.
  intros HV Ed Ek w r w' HI (c & Hc) [= E].
  enough (RelInv w' ∧ RelKept w w') as [? ?] by (split_and!; [done..|]; exists (λ _, True); by split_and!).
  set (w1 := mkReleaseWorld _ _ _ _ _) in E.
  assert (Hsame : RelInv w1 ∧ RelKept w w1) by (by apply same_everything).
  destruct (negb (connects _)); [by injection E as <- <-|].
  destruct (timestamptz _) as [at_|]; [|by injection E as <- <-].
  set (row := releaseRowOf _ _ _ _ _ _ _) in E. destruct (negb (rowChecks row)); [by injection E as <- <-|].
  destruct (anyWhere _ _) eqn:Ea; injection E as <- <-; [done|]. rewrite anyWhere_false in Ea.
  destruct HI as [Hrows Hunique Hsound]. split; [split|split]; cbn.
  - apply Forall_insertRow; [eapply Forall_impl; [exact Hrows|]; intros r; apply RowOk_kept, ReleaseFilesKept_refl|].
    exists d, c. split; [by apply releaseRowOf_RowOf|done].
  - apply NoDup_insertRow; [done|]. intros other Ho E. specialize (Ea other Ho).
    apply orb_false_iff in Ea as [Ea _]. apply not_true_iff_false in Ea. by apply Ea, sameIdentity_spec.
  - done.
  - intros r Hr. exists r. split; [apply elem_of_insertRow; by left|by left].
  - apply ReleaseFilesKept_refl.
Qed.

Lemma readWholeFile_safe path P : SafeRel P (readWholeFile path) (λ _ _, True).
Proof.
  intros w r w' HI _ [= <- <-].
  destruct (same_everything w (mkReleaseWorld (launcherReleases w) (releaseFiles w) (operatorFiles w) (releaseClock w)
    (S (releaseDraws w))) eq_refl eq_refl HI). split_and!; [done..|]. exists (λ _, True). by split_and!.
Qed.

Lemma publishRelease_safe settings request : SafeRel (λ _, True) (publishRelease settings request) (λ _ _, True).
Proof.
  unfold publishRelease. case_bool_decide; [done|].
  eapply Safe_bind; [apply readWholeFile_safe|]. intros [document|e]; [|done].
  eapply Safe_bind; [apply readWholeFile_safe|]. intros [signatureBytes|e]; [|done].
  destruct (parseReleaseDocument document) as [[d|e]|] eqn:Ep; [|done..].
  apply parseReleaseDocument_canonical in Ep as [HV Ed]. destruct (verifyP256Signature _ _ _); [|done].
  eapply Safe_bind; [apply storeArtifact_safe|]. intros [key|e]; [|done].
  intros w r w' HI Hr. destruct (Hr key eq_refl) as [Ek Hc]. by eapply (insertRelease_safe d key document).
Qed.

Lemma retireRelease_safe query v : SafeRel (λ _, True) (retireRelease query v) (λ _ _, True).
Proof.
  intros w r w' HI _ [= E].
  enough (RelInv w' ∧ RelKept w w') as [? ?] by (split_and!; [done..|]; exists (λ _, True); by split_and!).
  set (w1 := mkReleaseWorld _ _ _ _ _) in E.
  assert (Hsame : RelInv w1 ∧ RelKept w w1) by (by apply same_everything).
  destruct (negb (connects _)); injection E as <- <-; [done|].
  destruct HI as [Hrows Hunique Hsound]. split; [split|split]; cbn.
  - eapply Forall_updateWhere; [exact Hrows|]. intros row _ _ (d & c & Hd & Hc). by exists d, c.
  - rewrite updateWhere_keys; done.
  - done.
  - intros row Hr. exists (if retires query v row then retiredRow (releaseClock w) row else row).
    split; [apply elem_of_updateWhere; eauto|]. destruct (retires query v row) eqn:E; [|by left].
    right. unfold retires in E. apply andb_true_iff in E as [_ E]. eauto.
  - apply ReleaseFilesKept_refl.
Qed.

Lemma latestRelease_safe settings query : SafeRel (λ _, True) (latestRelease settings query) (λ _ _, True).
Proof.
  unfold latestRelease. destruct (negb _); [done|]. intros w r w' HI _ [= <- <-].
  split_and!; [done|apply RelKept_refl|]. exists (λ _, True). by split_and!.
Qed.

(** ** Interleaved *)

(** What operators run and launchers ask, under whatever configuration. *)
Inductive ReleaseRequest : Prog ReleaseWorld unit → Prop :=
| release_publish settings request : ReleaseRequest (answered (publishRelease settings request))
| release_retire query v : ReleaseRequest (answered (retireRelease query v))
| release_latest settings query : ReleaseRequest (answered (latestRelease settings query)).

(** Time passes, and the operator does as it likes with its own files. *)
Inductive ReleaseDrift (w : ReleaseWorld) : ReleaseWorld → Prop :=
| release_drift t outside : releaseClock w ≤ t →
    ReleaseDrift w (mkReleaseWorld (launcherReleases w) (releaseFiles w) outside t (releaseDraws w)).

Lemma ReleaseRequest_safe p : ReleaseRequest p → SafeRel (λ _, True) p (λ _ _, True).
Proof.
  intros []; (eapply Safe_bind; [apply publishRelease_safe || apply retireRelease_safe || apply latestRelease_safe|done]).
Qed.

Lemma ReleaseDrift_kept w w' : RelInv w → ReleaseDrift w w' → RelInv w' ∧ RelKept w w'.
Proof. intros HI []. by apply same_everything. Qed.

Notation releaseStep := (poolStep ReleaseRequest ReleaseDrift).

Lemma releases_inv w c c' :
  RelInv w → reachable releaseStep (w, []) c → reachable releaseStep c c' → RelInv c'.1 ∧ RelKept c.1 c'.1.
Proof.
  intros HI Hc Hc'.
  pose proof (pool_safe RelInv RelKept _ _ w c ReleaseRequest_safe ReleaseDrift_kept HI Hc) as HP.
  destruct (pool_guarantee RelInv RelKept _ _ c c' ReleaseRequest_safe ReleaseDrift_kept RelKept_refl RelKept_trans HP Hc')
    as [[HI' _] HK]. by split.
Qed.
End Steps.

(** ** What is served *)

#[local] Instance newestRelease_comparison : Comparison newestRelease.
Proof.
  apply comparison_then; [apply comparison_down, (comparison_on relMajor Z.compare), _|].
  apply comparison_then; apply comparison_down;
    [apply (comparison_on relMinor Z.compare), _|apply (comparison_on relPatch Z.compare), _].
Qed.

Section Served.
Context `{Openssl, Evp, Postgres}.

Definition About (query : ReleaseQuery) (d : ReleaseDocument) : Prop :=
  channel d = askedChannel query ∧ platform d = askedPlatform query ∧ arch d = askedArch query.

Lemma relOf_About query d row : RowOf d row → relOf query row = true ↔ About query d.
Proof.
  intros (_ & _ & Ec & Ep & Ea & _). unfold relOf, About. rewrite !andb_true_iff, !bool_decide_eq_true, Ec, Ep, Ea.
  split; [|by intros (-> & -> & ->)]. intros [[E1 E2] E3]. by split_and!; apply (inj _).
Qed.

Lemma newestRelease_newer d row d' row' :
  RowOf d row → RowOf d' row' → ordered newestRelease row row' → isNewerRelease (version d') (version d) = false.
Proof.
  intros (_ & _ & _ & _ & _ & _ & E1 & E2 & E3 & _) (_ & _ & _ & _ & _ & _ & E1' & E2' & E3' & _).
  unfold ordered, newestRelease, thenBy, isNewerRelease. rewrite E1, E2, E3, E1', E2', E3'. intros Ho.
  apply not_true_iff_false. rewrite !orb_true_iff, !andb_true_iff, !orb_true_iff, !andb_true_iff, !Z.ltb_lt, !Z.eqb_eq.
  revert Ho. destruct (Z.compare_spec (major (version d)) (major (version d'))); cbn; [|done|lia].
  destruct (Z.compare_spec (minor (version d)) (minor (version d'))); cbn; [|done|lia].
  destruct (Z.compare_spec (patch (version d)) (patch (version d'))); cbn; [lia|done|lia].
Qed.

(** What a launcher that asked is told: a live release of its own channel, platform and
    architecture, signed as such, its artifact behind the address, and none newer. *)
Record Serves (settings : LauncherReleaseSettings) (query : ReleaseQuery) (w : ReleaseWorld) (l : LatestRelease)
    (d : ReleaseDocument) : Prop := {
  served_valid : ValidRelease d ∧ About query d;
  served_document : latestDocument l = canonicalReleaseDocument d;
  served_signed : Signed (releasePublicKey settings) (latestSignature l) (latestDocument l);
  served_artifact : latestUrl l = Signer.withoutTrailingSlash (releaseBaseUrl settings) +:+ "/" +:+ releaseKeyFor (artifactSha256 d)
    ∧ ∃ content, ArtifactAt (releaseFiles w) (artifactSha256 d) content;
  served_live : ∃ row, row ∈ launcherReleases w ∧ RowOf d row ∧ relLive row = true ∧ relSignature row = latestSignature l;
  served_newest : ∀ row' d', row' ∈ launcherReleases w → relLive row' = true → RowOf d' row' → About query d' →
    isNewerRelease (version d') (version d) = false
}.

Lemma latestRow_Some query w row :
  latestRow query w = Some row →
  row ∈ launcherReleases w ∧ relOf query row = true ∧ relLive row = true
  ∧ ∀ row', row' ∈ launcherReleases w → relOf query row' = true → relLive row' = true → ordered newestRelease row row'.
Proof.
  intros E. apply (orderBy_head newestRelease) in E as [Hr Hn]. apply elem_of_selectWhere in Hr as [Hr [Ho Hl]%andb_true_iff]. split_and!; [done..|].
  intros row' Hr' Ho' Hl'. apply Hn, elem_of_selectWhere. by rewrite Ho', Hl'.
Qed.

Lemma latestRelease_serves settings query w l :
  RelInv w → (perform (latestRelease settings query) w).1 = Some (Success l) → ∃ d, Serves settings query w l d.
Proof.
  intros HI. unfold latestRelease, releases_findLatest. destruct (negb _); [done|]. run_statements.
  destruct (latestRow query w) as [row|] eqn:El; [|done]. cbn [fmap option_fmap option_map].
  apply latestRow_Some in El as (Hr & Ho & Hl & Hn). cbn [mapRelease storedSignature storedDocument storedKey].
  destruct (verifyP256Signature _ _ _) as [[]|] eqn:Ev; [|done]. apply verifyP256Signature_spec in Ev. intros [= <-].
  pose proof (rows_ok w HI) as Hok. rewrite Forall_forall in Hok. destruct (Hok row Hr) as (d & content & Hd & Hc).
  pose proof Hd as (HV & Edoc & _ & _ & _ & _ & _ & _ & _ & _ & _ & Ekey). exists d. split; cbn.
  - split; [done|]. by apply (relOf_About query d row Hd).
  - done.
  - done.
  - rewrite Ekey. eauto.
  - eauto.
  - intros row' d' Hr' Hl' Hd' Ha. apply (newestRelease_newer d row d' row' Hd Hd'), Hn; [done| |done].
    by apply (relOf_About query d' row' Hd').
Qed.
End Served.
