(* ===== verification/ReleaseCorrect.v ===== *)
(** The theorems about releases of the launcher, and a deployment they are instantiated on. *)

From S2P Require Import Prelude.
From S2P Require Import Errors.
From S2P Require Import Json.
From S2P Require Import Semver.
From S2P Require Import Catalog.
From S2P Require Import CanonicalJson.
From S2P Require Import Decimals.
From S2P Require Import Manifest.
From S2P Require Import LauncherRelease.
From S2P Require Import Hash.
From S2P Require Import BlobStore.
From S2P Require Import Signer.
From S2P Require Import Signature.
From S2P Require Import Programs.
From S2P Require Import Random.
From S2P Require Import World.
From S2P Require Import Ordering.
From S2P Require Import Accounts.
From S2P Require Import AuthService.
From S2P Require Import Releases.
From S2P Require Import ReleaseSafety.

#[local] Arguments updateWhere : simpl never.
#[local] Arguments insertRow : simpl never.
#[local] Arguments anyWhere : simpl never.
#[local] Arguments selectWhere : simpl never.

Notation releaseStep := (poolStep ReleaseRequest ReleaseDrift).

Section Theorems.
Context `{Jsoncpp, Openssl, Evp, Postgres, Disk, Connection}.


(** C36: Nothing unsigned is served, whatever is in the database and on the disk: the answer to a launcher is a
    document with a signature of exactly its bytes under the configured key, or one and the same refusal,
    which tells nobody whether there is no key, no release, none for that platform, or one that was
    tampered with. *)
Theorem nothing_unsigned settings query w :
  ∃ r, perform (latestRelease settings query) w = (Some r, w)
    ∧ (r = failure NotFound NO_RELEASES
       ∨ ∃ l, r = Success l ∧ Signed (releasePublicKey settings) (latestSignature l) (latestDocument l)).
Proof.
  unfold latestRelease, releases_findLatest. destruct (negb _); [eexists; split; [done|by left]|]. run_statements.
  destruct (latestRow query w) as [row|]; cbn [fmap option_fmap option_map]; [|eexists; split; [done|by left]].
  destruct (verifyP256Signature _ _ _) as [[]|] eqn:Ev; eexists; (split; [done|]); [right|by left].
  eexists. split; [done|]. by apply verifyP256Signature_spec.
Qed.

(** ** Publishing *)

(** What was on the operator's disk, and that it fits together. *)
Record Submitted (settings : LauncherReleaseSettings) (request : ReleasePublishRequest) (w : ReleaseWorld)
    (d : ReleaseDocument) (signature : string) : Prop := {
  submitted_document : operatorFiles w !! documentPath request = Some (chars (canonicalReleaseDocument d));
  submitted_valid : ValidRelease d;
  submitted_signature : ∃ written, operatorFiles w !! signaturePath request = Some written
    ∧ signature = withoutSurroundingWhitespace (text written);
  submitted_signed : Signed (releasePublicKey settings) signature (canonicalReleaseDocument d);
  submitted_artifact : ∃ content, operatorFiles w !! artifactPath request = Some content
    ∧ text (toHex (sha256 content)) = artifactSha256 d
}.

Lemma readWholeFile_spec path w r w' :
  perform (readWholeFile path) w = (r, w') →
  launcherReleases w' = launcherReleases w ∧ releaseFiles w' = releaseFiles w ∧ operatorFiles w' = operatorFiles w
  ∧ ∀ value, r = Some (Success value) → operatorFiles w !! path = Some (chars value).
Proof.
  intros [= <- <-]. cbn. split_and!; [done..|]. intros value [= E]. destruct (operatorFiles w !! path) as [content|]; [|done].
  destruct (openFails _); [done|]. injection E as <-. by rewrite chars_text.
Qed.

Lemma storeArtifact_spec source sha w r w' :
  perform (storeArtifact source sha) w = (r, w') →
  launcherReleases w' = launcherReleases w ∧ ReleaseStep (releaseFiles w) (releaseFiles w')
  ∧ ∀ key, r = Some (Success key) → key = releaseKeyFor sha ∧ isSha256Hex sha = true
      ∧ ∃ content, operatorFiles w !! source = Some content ∧ text (toHex (sha256 content)) = sha
        ∧ ∃ at_, releaseFiles w' !! key = Some at_.
Proof.
  intros [= <- <-]. cbn. destruct (releasePut _ _ source sha (releaseFiles w)) as [r files'] eqn:E. cbn.
  apply releasePut_spec in E as [Hstep Hs]. split_and!; [done..|]. intros key [= ->].
  destruct (Hs key eq_refl) as (E1 & E2 & content & E3 & E4 & E5). eauto 10.
Qed.

Lemma insertRelease_spec d key document signature w r w' :
  perform (insertRelease d key document signature) w = (r, w') →
  releaseFiles w' = releaseFiles w
  ∧ ((r = Some (Success Published) ∧ ∃ row, launcherReleases w' = insertRow row (launcherReleases w)
       ∧ (∃ id at_ now, row = releaseRowOf id d key document signature at_ now)
       ∧ (∀ other, other ∈ launcherReleases w → identity other ≠ identity row))
     ∨ r ≠ Some (Success Published) ∧ launcherReleases w' = launcherReleases w).
Proof.
  unfold insertRelease, onDraw, exec. cbn. destruct (negb (connects _)); [intros [= <- <-]; split; [done|by right]|].
  destruct (timestamptz _) as [at_|]; [|intros [= <- <-]; split; [done|by right]].
  set (row := releaseRowOf _ _ _ _ _ _ _). destruct (negb (rowChecks row)); [intros [= <- <-]; split; [done|by right]|].
  destruct (anyWhere _ _) eqn:Ea; intros [= <- <-]; (split; [done|]); [by right|left]. split; [done|].
  exists row. split_and!; [done|by do 3 eexists|]. rewrite anyWhere_false in Ea. intros other Ho E.
  specialize (Ea other Ho). apply orb_false_iff in Ea as [Ea _]. apply not_true_iff_false in Ea. by apply Ea, sameIdentity_spec.
Qed.

(** What a run of the command comes to. *)
Lemma publishRelease_spec settings request w r w' :
  RelInv w → perform (publishRelease settings request) w = (r, w') →
  (r = Some (Success Published) ∧ ∃ d signature row, Submitted settings request w d signature
     ∧ launcherReleases w' = insertRow row (launcherReleases w) ∧ RowOf d row ∧ relLive row = true
     ∧ relSignature row = c_str signature
     ∧ (∀ other, other ∈ launcherReleases w → identity other ≠ identity row)
     ∧ ∃ content, ArtifactAt (releaseFiles w') (artifactSha256 d) content)
  ∨ (r ≠ Some (Success Published) ∧ launcherReleases w' = launcherReleases w).
Proof.
  intros HI. unfold publishRelease. case_bool_decide; [intros [= <- <-]; by right|].
  rewrite perform_bind. destruct (perform (readWholeFile _) w) as [[[document|e]|] w1] eqn:E1;
    apply readWholeFile_spec in E1 as (R1 & F1 & O1 & V1); [|intros [= <- <-]; by right..]. specialize (V1 _ eq_refl).
  rewrite perform_bind. destruct (perform (readWholeFile _) w1) as [[[written|e]|] w2] eqn:E2;
    apply readWholeFile_spec in E2 as (R2 & F2 & O2 & V2); [|intros [= <- <-]; rewrite R2; by right..].
  specialize (V2 _ eq_refl).
  destruct (parseReleaseDocument document) as [[d|e]|] eqn:Ep; [|intros [= <- <-]; rewrite R2; by right..].
  apply parseReleaseDocument_canonical in Ep as [HV ->].
  destruct (verifyP256Signature _ _ _) as [[]|] eqn:Ev; [|intros [= <- <-]; rewrite R2; by right].
  apply verifyP256Signature_spec in Ev.
  rewrite perform_bind. destruct (perform (storeArtifact _ _) w2) as [[[key|e]|] w3] eqn:E3;
    apply storeArtifact_spec in E3 as (R3 & S3 & V3); [|intros [= <- <-]; rewrite R3, R2; by right..].
  destruct (V3 _ eq_refl) as (-> & Hx & content & Hc & Hh & at_ & Ha).
  intros (F4 & [(-> & row & R4 & (id & t & now & Erow) & Hnew)|[Hr R4]])%insertRelease_spec;
    [left|right; by rewrite R4, R3, R2].
  split; [done|]. exists d, (withoutSurroundingWhitespace written), row. rewrite R4, R3, R2, R1.
  split_and!; [split| |by rewrite Erow; apply releaseRowOf_RowOf|by rewrite Erow|by rewrite Erow| |].
  - done.
  - done.
  - exists (chars written). rewrite <- O1, V2. by rewrite text_chars.
  - done.
  - exists content. by rewrite <- O1, <- O2.
  - done.
  - intros other Ho. apply Hnew. by rewrite R3, R2, R1.
  - exists at_. rewrite F4. split_and!; [done..|]. rewrite F2, F1 in S3. by apply (proj2 S3 (root_sound w HI) _ _ Hx).
Qed.

Lemma RowOf_fun d d' row : RowOf d row → RowOf d' row → version d = version d'.
Proof.
  intros ((_ & E1 & _) & _ & _ & _ & _ & _ & A1 & A2 & A3 & _) ((_ & E2 & _) & _ & _ & _ & _ & _ & B1 & B2 & B3 & _).
  destruct (version d) as [a b c t], (version d') as [a' b' c' t']. unfold canonicalVersion in E1, E2.
  cbn [major minor patch semverText] in *. rewrite E1, E2. congruence.
Qed.

Lemma RowOf_identity d d' row row' query :
  RowOf d row → RowOf d' row' → About query d → About query d' → version d = version d' → identity row = identity row'.
Proof.
  intros (_ & _ & E1 & E2 & E3 & E4 & _) (_ & _ & F1 & F2 & F3 & F4 & _) (G1 & G2 & G3) (K1 & K2 & K3) E.
  unfold identity. by rewrite E1, E2, E3, E4, F1, F2, F3, F4, G1, G2, G3, K1, K2, K3, E.
Qed.

(** The newest live release of a platform is the one that is looked up. *)
Lemma latestRow_is query w d row :
  RelInv w → row ∈ launcherReleases w → RowOf d row → About query d → relLive row = true →
  (∀ row' d', row' ∈ launcherReleases w → relLive row' = true → RowOf d' row' → About query d' →
     isNewerRelease (version d') (version d) = false) →
  latestRow query w = Some row.
Proof.
  intros HI Hr Hd Ha Hl Hnew. assert (Ho : relOf query row = true) by (by apply (relOf_About query d)).
  destruct (latestRow query w) as [row0|] eqn:E.
  2: { unfold latestRow in E. apply orderBy_head_None in E.
       assert (row ∈ selectWhere (λ row, relOf query row && relLive row) (launcherReleases w)) as Hs
         by (apply elem_of_selectWhere; by rewrite Ho, Hl).
       rewrite E in Hs. by apply not_elem_of_nil in Hs. }
  f_equal. apply latestRow_Some in E as (Hr0 & Ho0 & Hl0 & Hn).
  pose proof (rows_ok w HI) as Hok. rewrite Forall_forall in Hok. destruct (Hok row0 Hr0) as (d0 & c0 & Hd0 & _).
  assert (Ha0 : About query d0) by (by apply (relOf_About query d0 row0)).
  pose proof (newestRelease_newer d0 row0 d row Hd0 Hd (Hn row Hr Ho Hl)) as N1.
  pose proof (Hnew row0 d0 Hr0 Hl0 Hd0 Ha0) as N2.
  destruct (isNewerRelease_order d0 d d) as (_ & _ & _ & Hv).
  assert (version d0 = version d) as Ev by (apply Hv; [apply Hd0|apply Hd|done|done]).
  apply (key_inj identity (launcherReleases w)); [apply HI|done|done|]. by eapply RowOf_identity.
Qed.

(** C18: A release is recorded only if the operator's document is the canonical form of a valid one, the
    signature beside it is one of exactly those bytes under the configured key, the artifact hashes to
    what the document says and no release of that channel, platform, architecture and version was ever
    recorded; the row then says what the document says, nothing else of the table has changed, and a
    launcher that asks is told of it, unless a live release is newer. Otherwise the table is as it was. *)
Theorem publish_release_correct settings request w r w' :
  RelInv w → perform (publishRelease settings request) w = (r, w') →
  (r = Some (Success Published) ∧ ∃ d signature row, Submitted settings request w d signature ∧ RowOf d row
     ∧ launcherReleases w' = launcherReleases w ++ [row]
     ∧ (∀ other, other ∈ launcherReleases w → identity other ≠ identity row)
     ∧ (∀ query, About query d → noNull (chars signature) = true →
          (∀ row' d', row' ∈ launcherReleases w → relLive row' = true → RowOf d' row' → About query d' →
             isNewerRelease (version d') (version d) = false) →
          perform (latestRelease settings query) w'
          = (Some (Success (mkLatest (canonicalReleaseDocument d) signature
               (Signer.withoutTrailingSlash (releaseBaseUrl settings) +:+ "/" +:+ releaseKeyFor (artifactSha256 d)))), w')))
  ∨ (r ≠ Some (Success Published) ∧ launcherReleases w' = launcherReleases w).
Proof.
  intros HI E. destruct (perform_safe RelInv RelKept (publishRelease settings request) (λ _, True) (λ _ _, True) w r w'
    RelKept_refl RelKept_trans (publishRelease_safe settings request) HI I E) as (HI' & _ & _).
  apply publishRelease_spec in E as [(-> & d & signature & row & HS & Er & Hd & Hl & Es & Hid & content & Hc)|]; [left|by right|done].
  split; [done|]. exists d, signature, row. split_and!; [done..|]. intros query Ha Hn Hnew.
  assert (Hrow : latestRow query w' = Some row).
  { apply (latestRow_is query w' d); [done| |done|done|done|].
    - rewrite Er. apply elem_of_insertRow. by right.
    - intros row' d' Hr' Hl' Hd' Ha'. rewrite Er in Hr'. apply elem_of_insertRow in Hr' as [Hr'| ->]; [by apply (Hnew row')|].
      rewrite (RowOf_fun d d' row Hd Hd'). by destruct (isNewerRelease_order d' d' d'). }
  unfold latestRelease, releases_findLatest.
  assert (releasesEnabled settings = true) as ->.
  { unfold releasesEnabled. apply negb_true_iff, bool_decide_eq_false_2. by destruct (submitted_signed _ _ _ _ _ HS) as (? & ? & [? _] & _). }
  cbn [negb]. run_statements. rewrite Hrow. cbn [fmap option_fmap option_map mapRelease storedSignature storedDocument storedKey].
  destruct Hd as (_ & Edoc & _ & _ & _ & _ & _ & _ & _ & _ & _ & Ekey). rewrite Es, Edoc, Ekey, c_str_id by done.
  by rewrite (proj2 (verifyP256Signature_spec _ _ _) (submitted_signed _ _ _ _ _ HS)).
Qed.

(** ** Withdrawing *)

Lemma selectWhere_withdrawn {Row} (p q : Row → bool) f t :
  (∀ r, q r = true → p (f r) = false) → selectWhere p (updateWhere q f t) = selectWhere (λ r, p r && negb (q r)) t.
Proof.
  intros Hf. unfold selectWhere, updateWhere. induction t as [|r t IH]; [done|]. cbn.
  destruct (q r) eqn:E; cbn; [rewrite (Hf r E), andb_false_r; exact IH|]. rewrite andb_true_r. by destruct (p r); rewrite IH.
Qed.

(** Withdrawing takes exactly the live release of that channel, platform, architecture and version out of
    what is offered, and nothing else: launchers are told of the newest of the others, the row is kept
    with the time it stopped being offered, and the artifact stays; where no such release is live,
    nothing changes. *)
Theorem retire_correct query v w outcome w' :
  perform (retireRelease query v) w = (Some (Success outcome), w') →
  (outcome = Retired ↔ ∃ row, row ∈ launcherReleases w ∧ retires query v row = true)
  ∧ launcherReleases w' = map (λ row, if retires query v row then retiredRow (releaseClock w) row else row) (launcherReleases w)
  ∧ releaseFiles w' = releaseFiles w
  ∧ (∀ asked, latestRow asked w'
       = head (orderBy newestRelease (selectWhere (λ row, relOf asked row && relLive row && negb (retires query v row))
           (launcherReleases w)))).
Proof.
  unfold retireRelease, onDraw, exec. cbn. destruct (negb (connects _)); [done|]. intros [= <- <-]. cbn.
  split_and!; [|done|done|].
  - destruct (anyWhere _ _) eqn:E; [by rewrite anyWhere_true in E|]. split; [done|].
    rewrite anyWhere_false in E. intros (row & Hr & Hq). by rewrite (E row Hr) in Hq.
  - intros asked. unfold latestRow. cbn. rewrite selectWhere_withdrawn; [done|]. intros r _. cbn. by rewrite andb_false_r.
Qed.
End Theorems.

(** ** A concrete deployment *)

(** A reader of flat objects: texts, numbers without a sign, nothing else. *)
Definition readSample (l : list ascii) : option (PlainValue * list ascii) :=
  match l with
  | c :: l1 =>
      if ceqb c QUOTE then (λ p : list ascii * list ascii, (PlainText (text p.1), p.2)) <$> readString l1
      else
        let digits := List.filter isdigit (take (length l - length (dropWhile isdigit l)) l) in
        if bool_decide (digits = []) then None else Some (PlainNumber (decimalValue digits), dropWhile isdigit l)
  | [] => None
  end.

Fixpoint readMembers (fuel : nat) (l : list ascii) : option (list (string * PlainValue)) :=
  match fuel, l with
  | S fuel, c :: l1 =>
      if negb (ceqb c QUOTE) then None
      else
        match readString l1 with
        | Some (name, colon :: l2) =>
            match readSample l2 with
            | Some (value, [brace]) => if ceqb brace "}" then Some [(text name, value)] else None
            | Some (value, comma :: l3) => cons (text name, value) <$> readMembers fuel l3
            | _ => None
            end
        | _ => None
        end
  | _, _ => None
  end.

Definition sampleJson : Jsoncpp := plainJson (λ s,
  match chars s with
  | brace :: l => if ceqb brace "{" then PlainObject <$> readMembers (length l) l else None
  | [] => None
  end).

(** Keys are their own bytes; a signature is the key and the length of the message. *)
Definition sampleOpenssl : Openssl := {|
  base642bin s := Some (chars s, length (chars s));
  Pkey := list ascii;
  d2i_PUBKEY bytes := Some bytes;
  keyIsEc _ := true;
  keyBits _ := 256;
  groupName _ := Some "prime256v1"%stdpp;
  digestVerifyInit _ := true;
  digestVerify key signature message :=
    if bool_decide (signature = key ++ chars (toDecimal (Z.of_nat (length message)))) then 1 else 0
|}.

Definition sampleConnection : Connection := {| connects _ := true |}.
Definition faultless : Disk := {| faultsAt _ := noFaults |}.

#[local] Existing Instances sampleJson sampleOpenssl sampleConnection faultless sampleEvp samplePostgres.

Definition sampleArtifact : list ascii := chars "the launcher, zipped".
Definition sampleRelease : ReleaseDocument :=
  mkDocument 1 StableChannel (mkSemver 1 10 0 "1.10.0") OnLinux ArchX64 (text (toHex (sha256 sampleArtifact)))
    20 "2026-03-01T12:00:00Z" "Faster downloads".
Definition sampleReleaseSettings : LauncherReleaseSettings := mkReleaseSettings "key" "https://dl.example.org/launcher/".
Definition sampleReleaseQuery : ReleaseQuery := mkReleaseQuery StableChannel OnLinux ArchX64.
Definition samplePublish : ReleasePublishRequest := mkPublish "release.json" "release.sig" "launcher.zip".

(** The operator's disk, and nothing published yet. *)
Definition beforeRelease : ReleaseWorld :=
  mkReleaseWorld [] ∅
    (<["release.json"%stdpp := chars (canonicalReleaseDocument sampleRelease)]>
      (<["release.sig"%stdpp := chars "key" ++ chars (toDecimal (size (canonicalReleaseDocument sampleRelease))) ++ ["010"%char]]>
        (<["launcher.zip"%stdpp := sampleArtifact]> ∅)))
    1000 0.

Definition releasedTo : option (Result ReleasePublishOutcome) * ReleaseWorld :=
  perform (publishRelease sampleReleaseSettings samplePublish) beforeRelease.

Lemma beforeRelease_inv : RelInv beforeRelease.
Proof. split; [constructor|constructor|]. intros h c _ E. discriminate E. Qed.

Lemma releasedTo_published : releasedTo.1 = Some (Success Published).
Proof. vm_compute. reflexivity. Qed.

Lemma releasedTo_reachable : reachable releaseStep (beforeRelease, []) (releasedTo.2, [Done tt]).
Proof.
  eapply (request_reachable _ _ (publishRelease sampleReleaseSettings samplePublish));
    [apply release_publish|apply reachable_refl|].
  unfold releasedTo. rewrite (surjective_pairing (perform _ _)) at 1. fold releasedTo. by rewrite releasedTo_published.
Qed.

Definition offered : LatestRelease :=
  match (perform (latestRelease sampleReleaseSettings sampleReleaseQuery) releasedTo.2).1 with
  | Some (Success l) => l
  | _ => mkLatest "" "" ""
  end.


Lemma publish_release_correct_witness :
  ∃ d signature row, Submitted sampleReleaseSettings samplePublish beforeRelease d signature ∧ RowOf d row
    ∧ launcherReleases releasedTo.2 = [row].
Proof.
  destruct (publish_release_correct sampleReleaseSettings samplePublish beforeRelease releasedTo.1 releasedTo.2 beforeRelease_inv
    (surjective_pairing _)) as [(_ & d & signature & row & H1 & H2 & H3 & _)|[Hn _]].
  - exists d, signature, row. by split_and!.
  - destruct Hn. apply releasedTo_published.
Defined.

Definition withdrawnAgain : option (Result ReleaseRetireOutcome) * ReleaseWorld :=
  perform (retireRelease sampleReleaseQuery "1.10.0") releasedTo.2.

Lemma retire_correct_witness :
  withdrawnAgain.1 = Some (Success Retired) ∧ latestRow sampleReleaseQuery withdrawnAgain.2 = None
  ∧ length (launcherReleases withdrawnAgain.2) = 1%nat.
Proof.
  assert (withdrawnAgain.1 = Some (Success Retired)) as E by (vm_compute; reflexivity).
  destruct (retire_correct sampleReleaseQuery "1.10.0" releasedTo.2 Retired withdrawnAgain.2) as (_ & E1 & _ & E2).
  - rewrite <- E. apply surjective_pairing.
  - split_and!; [done| |].
    + rewrite E2. vm_compute. reflexivity.
    + rewrite E1. vm_compute. reflexivity.
Defined.
