(* ===== verification/Uploads.v ===== *)
(** Blobs, upload sessions and builds in the database:
    [src/repositories/postgres/PgUploadRepositories.cpp] and the build statements of
    [PgCatalogRepositories.cpp] and [PgDownloadRepositories.cpp], one definition per
    statement, with the constraints of the migrations it can run into. *)

From S2P Require Import Prelude.
From S2P Require Import Errors.
From S2P Require Import Catalog.
From S2P Require Import Manifest.
From S2P Require Import Delta.
From S2P Require Import Programs.
From S2P Require Import World.
From S2P Require Import Accounts.

(** ** Data *)

Record UploadSession := mkUploadSession {
  uploadId : string;
  uploadBuildId : string;
  uploadUserId : string;
  uploadSha256 : string;
  uploadDeclaredBytes : Z;
  uploadReceivedBytes : Z;
  uploadStatus : UploadSessionStatus;
  uploadExpired : bool
}.

Definition complete (session : UploadSession) : bool :=
  uploadDeclaredBytes session <=? uploadReceivedBytes session.

Record NewUploadSession := mkNewSession {
  requestBuildId : string;
  requestUserId : string;
  requestSha256 : string;
  requestDeclaredBytes : Z;
  requestTtl : Z
}.

Record BlobRecord := mkBlobRecord { recordSha256 : string; recordSizeBytes : Z; recordStorageKey : string }.

Record CollectableBlob := mkCollectable {
  collectableSha256 : string;
  collectableSizeBytes : Z;
  collectableStorageKey : string;
  collectableUploadedBy : string
}.

Record FinalizedManifest := mkFinalized {
  finalizedFiles : list ManifestEntry;
  finalizedEntrypoint : string;
  finalizedLaunchArgs : string;
  finalizedSha256 : string;
  finalizedTotalSize : Z
}.

(** ** Blobs *)

Definition blobIs (sha : string) (row : BlobRow) : bool := bool_decide (blobSha row = sha).

Definition blobRecordOf (row : BlobRow) : BlobRecord :=
  mkBlobRecord (blobSha row) (blobSize row) (blobStorageKey row).

Definition blobs_findMissing (shas : list string) : Prog World (list string) :=
  query (λ w, selectWhere (λ sha, negb (anyWhere (blobIs sha) (blobs w))) shas).

Definition blobs_findBySha256 (sha : string) : Prog World (option BlobRecord) :=
  query (λ w, fmap (M := option) blobRecordOf (selectFirst (blobIs sha) (blobs w))).

Definition blobs_findMany (shas : list string) : Prog World (list BlobRecord) :=
  query (λ w, map blobRecordOf (selectWhere (λ row, bool_decide (blobSha row ∈ shas)) (blobs w))).

(** Refused by [blobs_sha256_lowercase_hex], [blobs_size_non_negative] and [bigint]. *)
Definition blobs_record (sha : string) (size : Z) (storageKey : string) (uploader : option string)
    : Prog World bool :=
  statement (λ w,
    if negb (isSha256Hex sha) || (size <? 0) || (INT64_MAX <? size) then None
    else if anyWhere (blobIs sha) (blobs w) then Some (false, w)
    else Some (true, setBlobs (insertRow (mkBlobRow sha size storageKey uploader (clock w)) (blobs w)) w)).

Definition isPending (row : SessionRow) : bool := bool_decide (sessionStatus_ row = Pending).

(** No manifest names the blob, no open session waits for it, and it is old enough. *)
Definition unreferenced (minimumAge : Z) (w : World) (row : BlobRow) : bool :=
  (blobCreatedAt row <? clock w - minimumAge)
  && negb (anyWhere (λ file, bool_decide (fileSha file = blobSha row)) (buildFiles w))
  && negb (anyWhere (λ s, bool_decide (sessionSha s = blobSha row) && isPending s) (sessions w)).

Definition collectableOf (row : BlobRow) : CollectableBlob :=
  mkCollectable (blobSha row) (blobSize row) (blobStorageKey row) (default "" (uploadedBy row)).

(** [ORDER BY created_at], [ORDER BY expires_at]. *)
Definition olderBlob (a b : BlobRow) : Prop := blobCreatedAt a ≤ blobCreatedAt b.
Definition soonerSession (a b : SessionRow) : Prop := sessionExpiresAt a ≤ sessionExpiresAt b.

#[export] Instance olderBlob_dec : RelDecision olderBlob := λ a b, Z_le_dec _ _.
#[export] Instance soonerSession_dec : RelDecision soonerSession := λ a b, Z_le_dec _ _.

Definition blobs_findUnreferenced (minimumAge limit : Z) : Prog World (list CollectableBlob) :=
  query (λ w, map collectableOf
    (take (Z.to_nat limit) (merge_sort olderBlob (selectWhere (unreferenced minimumAge w) (blobs w))))).

Definition blobs_deleteIfUnreferenced (sha : string) (minimumAge : Z) : Prog World bool :=
  exec (λ w,
    let p row := blobIs sha row && unreferenced minimumAge w row in
    (anyWhere p (blobs w), setBlobs (deleteWhere p (blobs w)) w)).

(** ** Upload sessions *)

Definition sessionIs (id : string) (row : SessionRow) : bool := uuidEq (sessionId row) id.

Definition mapUploadSession (now : Z) (row : SessionRow) : UploadSession :=
  mkUploadSession (sessionId row) (sessionBuildId row) (sessionUserId row) (sessionSha row)
    (declaredSizeBytes row) (receivedBytes row) (sessionStatus_ row) (sessionExpiresAt row <=? now).

(** The partial unique index on open sessions. *)
Definition openFor (build sha : string) (row : SessionRow) : bool :=
  uuidEq (sessionBuildId row) build && bool_decide (sessionSha row = sha) && isPending row.

Definition buildIs (id : string) (row : Build) : bool := uuidEq (buildId row) id.

Section Sessions.
Context `{Postgres}.

Definition newSessionRow (now : Z) (id : string) (request : NewUploadSession) : SessionRow :=
  mkSessionRow id (requestBuildId request) (requestUserId request) (requestSha256 request)
    (requestDeclaredBytes request) 0 Pending (now + requestTtl request).

(** The insert, or the open session it ran into; two statements. *)
Definition sessions_create (request : NewUploadSession) : Prog World (Result UploadSession) :=
  inserted ← statement (λ w,
    let id := gen_random_uuid (draws w) in
    let w := setDraws (S (draws w)) w in
    if negb (isSha256Hex (requestSha256 request)) || (requestDeclaredBytes request <? 0) then None
    else if anyWhere (openFor (requestBuildId request) (requestSha256 request)) (sessions w) then Some (None, w)
    else if anyWhere (sessionIs id) (sessions w) then None
    else if negb (anyWhere (buildIs (requestBuildId request)) (builds w))
            || negb (anyWhere (userIs (requestUserId request)) (users w)) then None
    else let row := newSessionRow (clock w) id request in
         Some (Some (mapUploadSession (clock w) row), setSessions (insertRow row (sessions w)) w));
  match inserted with
  | Some session => mret (Success session)
  | None =>
      existing ← query (λ w, fmap (M := option) (mapUploadSession (clock w))
        (selectFirst (openFor (requestBuildId request) (requestSha256 request)) (sessions w)));
      match existing with
      | Some session => mret (Success session)
      | None => mret (failure Conflict "this blob has just finished uploading for that build")
      end
  end.
End Sessions.

Definition sessions_findById (id : string) : Prog World (option UploadSession) :=
  query (λ w, fmap (M := option) (mapUploadSession (clock w)) (selectFirst (sessionIs id) (sessions w))).

Definition withReceived (received : Z) (r : SessionRow) : SessionRow :=
  mkSessionRow (sessionId r) (sessionBuildId r) (sessionUserId r) (sessionSha r)
    (declaredSizeBytes r) received (sessionStatus_ r) (sessionExpiresAt r).

Definition withStatus (status : UploadSessionStatus) (r : SessionRow) : SessionRow :=
  mkSessionRow (sessionId r) (sessionBuildId r) (sessionUserId r) (sessionSha r)
    (declaredSizeBytes r) (receivedBytes r) status (sessionExpiresAt r).

Definition reservable (id : string) (expectedOffset byteCount now : Z) (r : SessionRow) : bool :=
  sessionIs id r && isPending r && (now <? sessionExpiresAt r) && (receivedBytes r =? expectedOffset)
  && (receivedBytes r + byteCount <=? declaredSizeBytes r).

(** Refused by [upload_sessions_received_within_declared] when the count is negative. *)
Definition sessions_reserveBytes (id : string) (expectedOffset byteCount : Z)
    : Prog World (option UploadSession) :=
  statement (λ w,
    let p := reservable id expectedOffset byteCount (clock w) in
    match selectFirst p (sessions w) with
    | None => Some (None, w)
    | Some r =>
        let r' := withReceived (receivedBytes r + byteCount) r in
        if receivedBytes r' <? 0 then None
        else Some (Some (mapUploadSession (clock w) r'),
                   setSessions (updateWhere p (λ r, withReceived (receivedBytes r + byteCount) r) (sessions w)) w)
    end).

Definition markSession (status : UploadSessionStatus) (id : string) : Prog World bool :=
  exec (λ w,
    let p r := sessionIs id r && isPending r in
    (anyWhere p (sessions w), setSessions (updateWhere p (withStatus status) (sessions w)) w)).

Definition sessions_markCompleted : string → Prog World bool := markSession Completed.
Definition sessions_markAborted : string → Prog World bool := markSession Aborted.

Definition sessions_countOpenForUser (id : string) : Prog World Z :=
  query (λ w, Z.of_nat (length (selectWhere
    (λ r, uuidEq (sessionUserId r) id && isPending r && (clock w <? sessionExpiresAt r)) (sessions w)))).

Definition sessions_findExpired (limit : Z) : Prog World (list UploadSession) :=
  query (λ w, map (mapUploadSession (clock w))
    (take (Z.to_nat limit) (merge_sort soonerSession
       (selectWhere (λ r, isPending r && (sessionExpiresAt r <=? clock w)) (sessions w))))).

Definition sessions_deleteById (id : string) : Prog World bool :=
  exec (λ w, (anyWhere (sessionIs id) (sessions w), setSessions (deleteWhere (sessionIs id) (sessions w)) w)).

(** ** Builds *)

Definition builds_findById (id : string) : Prog World (option Build) :=
  query (λ w, selectFirst (buildIs id) (builds w)).

(** The join of a build with its version and its game. *)
Definition ownershipOf (id : string) (w : World) : option BuildOwnership :=
  build ← selectFirst (buildIs id) (builds w);
  version ← selectFirst (λ v, uuidEq (versionId v) (buildVersionId build)) (versions w);
  game ← selectFirst (λ g, uuidEq (gameId g) (versionGameId version)) (games w);
  Some (mkBuildOwnership (buildId build) (buildVersionId build) (versionGameId version)
          (publisherUserId game) (visibility game) (status build)
          (negb (bool_decide (publishedAt version = ""%stdpp)))).

Definition builds_findOwnership (id : string) : Prog World (option BuildOwnership) :=
  query (ownershipOf id).

(** One row of the join with [blobs]. *)
Definition fileEntry (w : World) (row : BuildFileRow) : option ManifestEntry :=
  blob ← selectFirst (blobIs (fileSha row)) (blobs w);
  Some (mkEntry (filePath row) (fileSha row) (blobSize blob) (fileExecutable row)).

Definition filesOf (id : string) (w : World) : list ManifestEntry :=
  merge_sort entryLe (omap (fileEntry w) (selectWhere (λ row, uuidEq (fileBuildId row) id) (buildFiles w))).

Definition builds_filesFor (id : string) : Prog World (list ManifestEntry) := query (filesOf id).

(** [build_files_relative_path_safe]. *)
Definition storablePath (path : string) : bool :=
  let l := chars path in
  negb (bool_decide (l = [])) && negb (bool_decide (head l = Some "/"%char))
  && forallb (λ segment, negb (bool_decide (segment = chars ".."))) (splitOn "/" l)
  && forallb (λ c, negb (ceqb c "\")) l
  && negb (match l with a :: c :: _ => isalpha a && ceqb c ":" | _ => false end).

Definition manifestRow (build : string) (entry : ManifestEntry) : BuildFileRow :=
  mkBuildFileRow build (relativePath entry) (blobSha256 entry) (isExecutable entry).

(** The rows an insert may add: a storable path, a blob that is there, and no second row
    for the path. *)
Definition manifestRowsFit (w : World) (build : string) (entries : list ManifestEntry) : bool :=
  forallb (λ e, storablePath (relativePath e) && anyWhere (blobIs (blobSha256 e)) (blobs w)
                && negb (anyWhere (λ row, uuidEq (fileBuildId row) build
                                          && bool_decide (filePath row = relativePath e)) (buildFiles w)))
          entries
  && distinctTexts (relativePath <$> entries).

Section Finalize.
Context `{Postgres}.

Definition readyBuild (now : Z) (manifest : FinalizedManifest) (b : Build) : Build :=
  mkBuild (buildId b) (buildVersionId b) (buildName b) (platform b) (architecture b) Ready
    (finalizedSha256 manifest) (finalizedTotalSize manifest)
    (Z.of_nat (length (finalizedFiles manifest))) (finalizedEntrypoint manifest)
    (finalizedLaunchArgs manifest) (buildCreatedAt b) (to_char_utc now).

Definition uploadingBuild (id : string) (b : Build) : bool :=
  buildIs id b && bool_decide (status b = Uploading).

(** One statement: the update, and the insert gated on it. *)
Definition builds_finalize (id : string) (manifest : FinalizedManifest) : Prog World (option Build) :=
  statement (λ w,
    match selectFirst (uploadingBuild id) (builds w) with
    | None => Some (None, w)
    | Some b =>
        if negb (isSha256Hex (finalizedSha256 manifest)) then None
        else if negb (manifestRowsFit w (buildId b) (finalizedFiles manifest)) then None
        else Some (Some (readyBuild (clock w) manifest b),
                   setBuildFiles (buildFiles w ++ map (manifestRow (buildId b)) (finalizedFiles manifest))
                     (setBuilds (updateWhere (uploadingBuild id) (readyBuild (clock w) manifest) (builds w)) w))
    end).
End Finalize.

(** ** Download events *)

Definition stampedAt (now : Z) (e : DownloadEvent) : DownloadEvent :=
  mkDownloadEvent (eventGameId e) (eventBuildId e) (eventUserId e) (fromVersionId e) (eventKind e) (bytesPlanned e) now.

(** Refused by the foreign keys and by [download_events_bytes_non_negative]. *)
Definition downloads_recordEvent (event : DownloadEvent) : Prog World bool :=
  statement (λ w,
    if anyWhere (λ g, uuidEq (gameId g) (eventGameId event)) (games w)
       && anyWhere (buildIs (eventBuildId event)) (builds w)
       && anyWhere (userIs (eventUserId event)) (users w)
       && (bool_decide (fromVersionId event = ""%stdpp)
           || anyWhere (λ v, uuidEq (versionId v) (fromVersionId event)) (versions w))
       && (0 <=? bytesPlanned event)
    then Some (true, setDownloadEvents (insertRow (stampedAt (clock w) event) (downloadEvents w)) w)
    else None).

(** ** Lemmas *)

(** The primary key of [build_files]. *)
Definition fileKey (row : BuildFileRow) : string * string := (lowerText (fileBuildId row), filePath row).

Definition ManifestKeys (w : World) : Prop := NoDup (map fileKey (buildFiles w)).

Lemma fileEntry_path w row e : fileEntry w row = Some e → relativePath e = filePath row.
Proof. unfold fileEntry. destruct (selectFirst _ _); [|done]. by intros [= <-]. Qed.

Lemma filesOf_paths id w : ManifestKeys w → NoDup (paths (filesOf id w)).
Proof.
  unfold ManifestKeys, filesOf, paths, selectWhere. intros HN. rewrite merge_sort_Permutation.
  induction (buildFiles w) as [|row rows IH]; [constructor|]. cbn [map] in HN.
  apply NoDup_cons in HN as [Hn HN]. specialize (IH HN). cbn [List.filter].
  destruct (uuidEq (fileBuildId row) id) eqn:Eid; [|exact IH]. cbn [omap list_omap].
  destruct (fileEntry w row) as [e|] eqn:Ee; [|exact IH]. rewrite fmap_cons. apply NoDup_cons. split; [|exact IH].
  intros (e' & Epath & (row' & Hrow' & Ee')%list_elem_of_omap)%list_elem_of_fmap.
  apply list_elem_of_In, filter_In in Hrow' as [Hrow' Eid']. apply Hn, list_elem_of_fmap. exists row'.
  split; [|by apply list_elem_of_In]. unfold fileKey.
  rewrite (fileEntry_path _ _ _ Ee), (fileEntry_path _ _ _ Ee') in Epath.
  apply uuidEq_true in Eid, Eid'. congruence.
Qed.
