(* ===== verification/CatalogRepositories.v ===== *)
(** Games, versions and builds in the database:
    [src/repositories/postgres/PgCatalogRepositories.cpp], one definition per statement,
    with the constraints of the migrations it can run into and what its deletes cascade to.

    A row of [games] is a [Game] whose publisher name and cover are blank, a row of
    [patch_notes] a [PatchNote] whose author name is: the queries fill them in.  A
    nullable text column holds the empty text for NULL, an instant is kept as the text it is
    read as. *)

From S2P Require Import Prelude.
From S2P Require Import Errors.
From S2P Require Import Semver.
From S2P Require Import Catalog.
From S2P Require Import Manifest.
From S2P Require Import Delta.
From S2P Require Import Media.
From S2P Require Import PatchNote.
From S2P Require Import Programs.
From S2P Require Import World.
From S2P Require Import Accounts.
From S2P Require Import Uploads.

(** ** Data *)

Inductive GameSort := SortReleaseDate | SortTitle | SortRecentlyAdded.

Definition DEFAULT_GAME_PAGE_SIZE : Z := 20.
Definition MAX_GAME_PAGE_SIZE : Z := 100.

Record GameQuery := mkGameQuery {
  querySearch : string;
  querySort : GameSort;
  queryLimit : Z;
  queryOffset : Z;
  queryPublisher : string;
  queryUnpublished : bool
}.

Record GamePage := mkGamePage { pageItems : list Game; pageTotal : Z }.

(** [COALESCE($n, column)]. *)
Definition coalesce {A} (change : option A) (current : A) : A := default current change.

(** ** Reading rows *)

Definition gameIs (id : string) (g : Game) : bool := uuidEq (gameId g) id.
Definition versionIs (id : string) (v : GameVersion) : bool := uuidEq (versionId v) id.

Definition coverOf (game : string) (w : World) : string :=
  default "" (mediaStorageKey <$>
    selectFirst (λ m, uuidEq (mediaGameId m) game && bool_decide (mediaKind m = Cover)) (gameMedia w)).

(** The join with [users]; a game whose publisher is gone would not be found. *)
Definition mapGame (w : World) (g : Game) : option Game :=
  publisher ← selectFirst (userIs (publisherUserId g)) (users w);
  Some (mkGame (gameId g) (slug g) (title g) (summary g) (description g) (publisherUserId g)
          (displayName publisher) (releaseDate g) (visibility g) (gameCreatedAt g) (gameUpdatedAt g)
          (coverOf (gameId g) w)).

(** [string_agg(..., ',')] and its unpacking. *)
Definition packStorageKeys (keys : list string) : string := text (joinOn "," (chars <$> keys)).

Definition splitStorageKeys (packed : string) : list string :=
  List.filter (λ key, negb (bool_decide (key = ""%stdpp))) (text <$> splitOn "," (chars packed)).

Definition orderByFor (sort : GameSort) (a b : Game) : comparison :=
  let newest := thenBy (CompOpp (compareText (gameCreatedAt a) (gameCreatedAt b)))
                       (compareUuid (gameId a) (gameId b)) in
  match sort with
  | SortTitle => thenBy (compareText (lowerText (title a)) (lowerText (title b))) newest
  | SortRecentlyAdded => newest
  | SortReleaseDate => thenBy (CompOpp (compareText (releaseDate a) (releaseDate b))) newest
  end.

(** [text ILIKE pattern]: a percent sign is any text, an underscore any one character, a
    backslash takes the next character as it is.  A pattern that ends in a backslash is
    refused. *)
Fixpoint likeMatch (pattern : list ascii) : list ascii → bool :=
  match pattern with
  | [] => λ l, bool_decide (l = [])
  | p :: rest =>
      if ceqb p "%" then
        fix any l := likeMatch rest l || match l with [] => false | _ :: l' => any l' end
      else if ceqb p "_" then λ l, match l with [] => false | _ :: l' => likeMatch rest l' end
      else if ceqb p "\" then
        match rest with
        | [] => λ _, false
        | q :: rest' => λ l, match l with [] => false | c :: l' => ceqb c q && likeMatch rest' l' end
        end
      else λ l, match l with [] => false | c :: l' => ceqb c p && likeMatch rest l' end
  end.

Definition titleMatches (search title : string) : bool :=
  likeMatch (chars (lowerText ("%" +:+ search +:+ "%"))) (chars (lowerText title)).

(** ** Games *)

Definition gameWith (w : World) (p : Game → bool) : option Game := g ← selectFirst p (games w); mapGame w g.

Definition games_findById (id : string) : Prog World (option Game) := query (λ w, gameWith w (gameIs id)).

Definition games_findBySlug (s : string) : Prog World (option Game) :=
  query (λ w, gameWith w (λ g, bool_decide (slug g = s))).

(** [games_slug_format], [games_title_length] and the cast to [date]. *)
Definition slugFits (s : string) : bool :=
  match slugLoop true (chars s) with Some false => true | _ => false end.

Definition titleFits (s : string) : bool := (1 <=? charLength s) && (charLength s <=? 200).

Definition dateFits (s : string) : bool :=
  bool_decide (s = ""%stdpp) || match validateReleaseDate s with Success _ => true | Failure _ => false end.

Section Games.
Context `{Postgres}.

Definition newGameRow (now : Z) (id : string) (game : NewGame) : Game :=
  mkGame id (newSlug game) (newTitle game) (newSummary game) (newDescription game)
    (newPublisherUserId game) "" (newReleaseDate game) (newVisibility game)
    (to_char_utc now) (to_char_utc now) "".

Definition games_create (game : NewGame) : Prog World (Result Game) :=
  statement (λ w,
    let id := gen_random_uuid (draws w) in
    let w := setDraws (S (draws w)) w in
    if negb (dateFits (newReleaseDate game)) || negb (slugFits (newSlug game)) || negb (titleFits (newTitle game))
    then None
    else if anyWhere (λ g, bool_decide (slug g = newSlug game)) (games w) then
      Some (failure Conflict "a game with that slug already exists", w)
    else if anyWhere (gameIs id) (games w) || negb (anyWhere (userIs (newPublisherUserId game)) (users w)) then None
    else
      let row := newGameRow (clock w) id game in
      let w' := setGames (insertRow row (games w)) w in
      match mapGame w row with
      | Some created => Some (Success created, w')
      | None => None
      end).

Definition updatedGame (now : Z) (changes : GameUpdate) (g : Game) : Game :=
  mkGame (gameId g) (slug g) (coalesce (changeTitle changes) (title g))
    (coalesce (changeSummary changes) (summary g)) (coalesce (changeDescription changes) (description g))
    (publisherUserId g) (publisherDisplayName g) (coalesce (changeReleaseDate changes) (releaseDate g))
    (coalesce (changeVisibility changes) (visibility g)) (gameCreatedAt g) (to_char_utc now) (coverStorageKey g).

Definition games_update (id : string) (changes : GameUpdate) : Prog World (option Game) :=
  statement (λ w,
    match selectFirst (gameIs id) (games w) with
    | None => Some (None, w)
    | Some g =>
        let row := updatedGame (clock w) changes g in
        if negb (titleFits (title row)) || negb (dateFits (releaseDate row)) then None
        else Some (mapGame w row, setGames (updateWhere (gameIs id) (updatedGame (clock w) changes) (games w)) w)
    end).
End Games.

(** The filter both statements of [search] share. *)
Definition listed (query : GameQuery) (g : Game) : bool :=
  (bool_decide (visibility g = Public) || queryUnpublished query)
  && (bool_decide (queryPublisher query = ""%stdpp) || uuidEq (publisherUserId g) (queryPublisher query))
  && (bool_decide (querySearch query = ""%stdpp) || titleMatches (querySearch query) (title g)).

(** Two statements: one page of the rows, and how many there are. *)
Definition games_search (q : GameQuery) : Prog World GamePage :=
  rows ← query (λ w, page (queryLimit q) (queryOffset q)
    (orderBy (orderByFor (querySort q)) (omap (mapGame w) (selectWhere (listed q) (games w)))));
  total ← query (λ w, Z.of_nat (length (selectWhere (listed q) (games w))));
  mret (mkGamePage rows total).

(** ** What a delete takes with it *)

(** [build_id ... ON DELETE SET NULL] and [from_version_id ... ON DELETE SET NULL]. *)
Definition eventWithoutBuild (e : DownloadEvent) : DownloadEvent :=
  mkDownloadEvent (eventGameId e) "" (eventUserId e) (fromVersionId e) (eventKind e) (bytesPlanned e) (eventAt e).

Definition eventWithoutVersion (e : DownloadEvent) : DownloadEvent :=
  mkDownloadEvent (eventGameId e) (eventBuildId e) (eventUserId e) "" (eventKind e) (bytesPlanned e) (eventAt e).

(** The rows a condition deletes, by id. *)
Definition deletes {Row} (p : Row → bool) (key : Row → string) (t : list Row) (id : string) : bool :=
  anyWhere (λ r, p r && uuidEq (key r) id) t.

(** Builds, with their files and their upload sessions. *)
Definition dropBuilds (p : Build → bool) (w : World) : World :=
  let gone := deletes p buildId (builds w) in
  setBuilds (deleteWhere p (builds w))
    (setBuildFiles (deleteWhere (λ r, gone (fileBuildId r)) (buildFiles w))
      (setSessions (deleteWhere (λ s, gone (sessionBuildId s)) (sessions w))
        (setDownloadEvents (updateWhere (λ e, gone (eventBuildId e)) eventWithoutBuild (downloadEvents w)) w))).

Section Cascade.
Context `{Postgres}.

(** [game_version_id ... ON DELETE SET NULL]; the update fires the timestamp trigger. *)
Definition noteWithoutVersion (now : Z) (n : PatchNote) : PatchNote :=
  mkPatchNote (noteId n) (noteGameId n) "" (noteTitle n) (bodyMarkdown n) (authorUserId n)
    (authorDisplayName n) (notePublishedAt n) (noteCreatedAt n) (to_char_utc now).

(** Versions, of which no builds are left, and what names them. *)
Definition forgetVersions (p : GameVersion → bool) (w : World) : World :=
  let gone := deletes p versionId (versions w) in
  setVersions (deleteWhere p (versions w))
    (setPatchNotes (updateWhere (λ n, negb (bool_decide (noteGameVersionId n = ""%stdpp)) && gone (noteGameVersionId n))
                     (noteWithoutVersion (clock w)) (patchNotes w))
      (setDownloadEvents (updateWhere (λ e, gone (fromVersionId e)) eventWithoutVersion (downloadEvents w)) w)).

Definition dropVersions (p : GameVersion → bool) (w : World) : World :=
  forgetVersions p (dropBuilds (λ b, deletes p versionId (versions w) (buildVersionId b)) w).

(** Games, of which no versions are left, and what hangs off them. *)
Definition forgetGames (p : Game → bool) (w : World) : World :=
  let gone := deletes p gameId (games w) in
  setGames (deleteWhere p (games w))
    (setGameMedia (deleteWhere (λ m, gone (mediaGameId m)) (gameMedia w))
      (setPatchNotes (deleteWhere (λ n, gone (noteGameId n)) (patchNotes w))
        (setUserGames (deleteWhere (λ r, gone (libraryGameId r)) (userGames w))
          (setDownloadEvents (deleteWhere (λ e, gone (eventGameId e)) (downloadEvents w)) w)))).

Definition dropGames (p : Game → bool) (w : World) : World :=
  forgetGames p (dropVersions (λ v, deletes p gameId (games w) (versionGameId v)) w).

(** One statement: what artwork the game had, and its removal. *)
Definition games_remove (id : string) : Prog World (option (list string)) :=
  exec (λ w,
    let doomed := mediaStorageKey <$> selectWhere (λ m, uuidEq (mediaGameId m) id) (gameMedia w) in
    if anyWhere (gameIs id) (games w)
    then (Some (splitStorageKeys (packStorageKeys doomed)), dropGames (gameIs id) w)
    else (None, w)).

(** ** Versions *)

(** [UNIQUE (game_id, semver)]. *)
Definition sameVersion (game text_ : string) (v : GameVersion) : bool :=
  uuidEq (versionGameId v) game && bool_decide (semver v = text_).

Definition newVersionRow (now : Z) (id : string) (version : NewGameVersion) : GameVersion :=
  let s := newVersionSemver version in
  mkGameVersion id (newVersionGameId version) (semverText s) (major s) (minor s) (patch s)
    (newVersionStage version) (newReleaseNotes version)
    (if newVersionPublish version then to_char_utc now else "") (to_char_utc now).

(** Refused when the components are not [integer]s or the game is gone. *)
Definition versions_create (version : NewGameVersion) : Prog World (Result GameVersion) :=
  statement (λ w,
    let id := gen_random_uuid (draws w) in
    let w := setDraws (S (draws w)) w in
    let s := newVersionSemver version in
    let fits n := (0 <=? n) && (n <=? INT32_MAX) in
    if negb (fits (major s) && fits (minor s) && fits (patch s)) then None
    else if anyWhere (sameVersion (newVersionGameId version) (semverText s)) (versions w) then
      Some (failure Conflict ("this game already has a version " +:+ semverText s), w)
    else if anyWhere (versionIs id) (versions w) || negb (anyWhere (gameIs (newVersionGameId version)) (games w))
    then None
    else let row := newVersionRow (clock w) id version in
         Some (Success row, setVersions (insertRow row (versions w)) w)).

Definition updatedVersion (now : Z) (changes : GameVersionUpdate) (v : GameVersion) : GameVersion :=
  mkGameVersion (versionId v) (versionGameId v) (semver v) (versionMajor v) (versionMinor v) (versionPatch v)
    (coalesce (changeStage changes) (stage v)) (coalesce (changeReleaseNotes changes) (releaseNotes v))
    (match changePublished changes with
     | None => publishedAt v
     | Some true => if bool_decide (publishedAt v = ""%stdpp) then to_char_utc now else publishedAt v
     | Some false => ""
     end)
    (versionCreatedAt v).

Definition versions_update (id : string) (changes : GameVersionUpdate) : Prog World (option GameVersion) :=
  exec (λ w,
    (fmap (M := option) (updatedVersion (clock w) changes) (selectFirst (versionIs id) (versions w)),
     setVersions (updateWhere (versionIs id) (updatedVersion (clock w) changes) (versions w)) w)).

Definition versions_remove (id : string) : Prog World bool :=
  exec (λ w, (anyWhere (versionIs id) (versions w), dropVersions (versionIs id) w)).
End Cascade.

Definition versions_findById (id : string) : Prog World (option GameVersion) :=
  query (λ w, selectFirst (versionIs id) (versions w)).

(** [ORDER BY version_major DESC, version_minor DESC, version_patch DESC, created_at DESC]. *)
Definition newestVersion (a b : GameVersion) : comparison :=
  thenBy (CompOpp (versionMajor a ?= versionMajor b))
    (thenBy (CompOpp (versionMinor a ?= versionMinor b))
      (thenBy (CompOpp (versionPatch a ?= versionPatch b))
        (CompOpp (compareText (versionCreatedAt a) (versionCreatedAt b))))).

Definition versionsOf (game : string) (includeUnpublished : bool) (w : World) : list GameVersion :=
  orderBy newestVersion (selectWhere (λ v, uuidEq (versionGameId v) game
    && (negb (bool_decide (publishedAt v = ""%stdpp)) || includeUnpublished)) (versions w)).

Definition versions_listForGame (game : string) (includeUnpublished : bool) : Prog World (list GameVersion) :=
  query (versionsOf game includeUnpublished).

(** ** Builds *)

(** [UNIQUE (game_version_id, platform, architecture)]. *)
Definition sameTarget (version : string) (p : BuildPlatform) (a : BuildArchitecture) (b : Build) : bool :=
  uuidEq (buildVersionId b) version && bool_decide (platform b = p) && bool_decide (architecture b = a).

Section Builds.
Context `{Postgres}.

Definition newBuildRow (now : Z) (id : string) (build : NewBuild) : Build :=
  mkBuild id (newBuildVersionId build) (newBuildName build) (newBuildPlatform build)
    (newBuildArchitecture build) Uploading "" 0 0 "" "" (to_char_utc now) "".

(** Refused by [builds_name_length] and when the version is gone. *)
Definition builds_create (build : NewBuild) : Prog World (Result Build) :=
  statement (λ w,
    let id := gen_random_uuid (draws w) in
    let w := setDraws (S (draws w)) w in
    if negb (charLength (newBuildName build) <=? 100) then None
    else if anyWhere (sameTarget (newBuildVersionId build) (newBuildPlatform build) (newBuildArchitecture build)) (builds w)
    then Some (failure Conflict "this version already has a build for that platform", w)
    else if anyWhere (buildIs id) (builds w) || negb (anyWhere (versionIs (newBuildVersionId build)) (versions w))
    then None
    else let row := newBuildRow (clock w) id build in
         Some (Success row, setBuilds (insertRow row (builds w)) w)).
End Builds.

Definition newestBuild (a b : Build) : comparison := CompOpp (compareText (buildCreatedAt a) (buildCreatedAt b)).

Definition buildsOf (versions : list string) (w : World) : list Build :=
  orderBy newestBuild (selectWhere (λ b, existsb (uuidEq (buildVersionId b)) versions) (builds w)).

Definition builds_listForVersions (versions : list string) : Prog World (list Build) :=
  if bool_decide (versions = []) then mret [] else query (buildsOf versions).

Definition withBuildStatus (s : BuildStatus) (b : Build) : Build :=
  mkBuild (buildId b) (buildVersionId b) (buildName b) (platform b) (architecture b) s
    (buildManifestSha256 b) (totalSizeBytes b) (fileCount b) (entrypointRelativePath b)
    (defaultLaunchArgs b) (buildCreatedAt b) (readyAt b).

Definition failable (id : string) (b : Build) : bool := buildIs id b && negb (bool_decide (status b = Ready)).

Definition builds_markFailed (id : string) : Prog World bool :=
  exec (λ w, (anyWhere (failable id) (builds w),
              setBuilds (updateWhere (failable id) (withBuildStatus Failed) (builds w)) w)).

Definition builds_remove (id : string) : Prog World bool :=
  exec (λ w, (anyWhere (buildIs id) (builds w), dropBuilds (buildIs id) w)).
