(* ===== verification/ContentRepositories.v ===== *)
(** Artwork, patch notes and libraries in the database: the second half of
    [src/repositories/postgres/PgCatalogRepositories.cpp], one definition per statement,
    with the constraints of the migrations it can run into. *)

From S2P Require Import Prelude.
From S2P Require Import Errors.
From S2P Require Import Catalog.
From S2P Require Import Manifest.
From S2P Require Import Media.
From S2P Require Import PatchNote.
From S2P Require Import Programs.
From S2P Require Import World.
From S2P Require Import Accounts.
From S2P Require Import Uploads.
From S2P Require Import CatalogRepositories.

(** ** Data *)

Record StoredMedia := mkStored { storedMedia : GameMedia; replacedStorageKey : string }.

Record PatchNoteQuery := mkNoteQuery {
  noteQueryGameId : string;
  noteQueryUnpublished : bool;
  noteQueryLimit : Z;
  noteQueryOffset : Z
}.

Record PatchNotePage := mkNotePage { noteItems : list PatchNote; noteTotal : Z }.

Definition DEFAULT_PATCH_NOTE_PAGE_SIZE : Z := 20.
Definition MAX_PATCH_NOTE_PAGE_SIZE : Z := 100.

Definition mediaIs (id : string) (m : GameMedia) : bool := uuidEq (mediaId m) id.
Definition noteIs (id : string) (n : PatchNote) : bool := uuidEq (noteId n) id.

(** ** Artwork *)

(** [game_media_storage_key_shape]. *)
Definition keyFits (key : string) : bool :=
  let l := chars key in
  let hex := forallb (λ c, isdigit c || byteInRange 97 102 c) in
  let extension := drop 71 l in
  hex (take 2 l) && bool_decide (l !! 2%nat = Some "/"%char)
  && hex (take 2 (drop 3 l)) && bool_decide (l !! 5%nat = Some "/"%char)
  && hex (take 64 (drop 6 l)) && bool_decide (l !! 70%nat = Some "."%char)
  && ((length extension =? 3)%nat || (length extension =? 4)%nat)
  && forallb (λ c, isdigit c || islower c) extension.

(** [game_media_content_type_allowed] and [game_media_kind_matches_content_type]. *)
Definition contentTypeFits (kind : MediaKind) (type : string) : bool :=
  existsb (sameText type) ["image/png"; "image/jpeg"; "image/webp"; "video/mp4"; "video/webm"]
  && eqb (negb (bool_decide (kind = Video))) (prefixb (chars "image/") (chars type)).

(** The partial unique index: one row per game of each of these kinds. *)
Definition singleton (game : string) (kind : MediaKind) (m : GameMedia) : bool :=
  isSingletonKind kind && uuidEq (mediaGameId m) game && bool_decide (mediaKind m = kind).

Section Statements.
Context `{Postgres}.

Definition newMediaRow (now : Z) (id : string) (media : NewGameMedia) : GameMedia :=
  mkMedia id (newMediaGameId media) (newMediaKind media) (newMediaStorageKey media) (newMediaSha256 media)
    (newMediaContentType media) (newMediaSizeBytes media) (newMediaAltText media) (newMediaSortOrder media)
    (to_char_utc now).

(** The row an upsert displaced keeps its id and the time it was made. *)
Definition replacedMedia (media : NewGameMedia) (m : GameMedia) : GameMedia :=
  mkMedia (mediaId m) (mediaGameId m) (mediaKind m) (newMediaStorageKey media) (newMediaSha256 media)
    (newMediaContentType media) (newMediaSizeBytes media) (newMediaAltText media) (newMediaSortOrder media)
    (mediaCreatedAt m).

(** One statement: the insert, or the update of the row in its place. *)
Definition media_create (media : NewGameMedia) : Prog World (Result StoredMedia) :=
  statement (λ w,
    let id := gen_random_uuid (draws w) in
    let w := setDraws (S (draws w)) w in
    let taken := singleton (newMediaGameId media) (newMediaKind media) in
    if negb (isSha256Hex (newMediaSha256 media)) || negb (0 <? newMediaSizeBytes media)
       || negb (keyFits (newMediaStorageKey media)) || negb (contentTypeFits (newMediaKind media) (newMediaContentType media))
    then None
    else match selectFirst taken (gameMedia w) with
         | Some m =>
             let row := replacedMedia media m in
             let previous := mediaStorageKey m in
             Some (Success (mkStored row (if bool_decide (previous = mediaStorageKey row) then "" else previous)),
                   setGameMedia (updateWhere taken (replacedMedia media) (gameMedia w)) w)
         | None =>
             if anyWhere (mediaIs id) (gameMedia w) || negb (anyWhere (gameIs (newMediaGameId media)) (games w)) then None
             else let row := newMediaRow (clock w) id media in
                  Some (Success (mkStored row ""), setGameMedia (insertRow row (gameMedia w)) w)
         end).

(** [ORDER BY kind, sort_order, created_at, id]; the enumeration orders as it is declared. *)
Definition kindRank (kind : MediaKind) : Z :=
  match kind with Cover => 0 | Banner => 1 | Logo => 2 | Screenshot => 3 | Video => 4 end.

Definition galleryOrder (a b : GameMedia) : comparison :=
  thenBy (kindRank (mediaKind a) ?= kindRank (mediaKind b))
    (thenBy (mediaSortOrder a ?= mediaSortOrder b)
      (thenBy (compareText (mediaCreatedAt a) (mediaCreatedAt b)) (compareUuid (mediaId a) (mediaId b)))).

Definition galleryOf (game : string) (w : World) : list GameMedia :=
  orderBy galleryOrder (selectWhere (λ m, uuidEq (mediaGameId m) game) (gameMedia w)).

Definition media_listForGame (game : string) : Prog World (list GameMedia) := query (galleryOf game).

Definition media_findById (id : string) : Prog World (option GameMedia) :=
  query (λ w, selectFirst (mediaIs id) (gameMedia w)).

Definition updatedMedia (changes : GameMediaUpdate) (m : GameMedia) : GameMedia :=
  mkMedia (mediaId m) (mediaGameId m) (mediaKind m) (mediaStorageKey m) (mediaSha256 m) (mediaContentType m)
    (mediaSizeBytes m) (coalesce (changeAltText changes) (mediaAltText m))
    (coalesce (changeSortOrder changes) (mediaSortOrder m)) (mediaCreatedAt m).

Definition media_update (id : string) (changes : GameMediaUpdate) : Prog World (option GameMedia) :=
  exec (λ w,
    (fmap (M := option) (updatedMedia changes) (selectFirst (mediaIs id) (gameMedia w)),
     setGameMedia (updateWhere (mediaIs id) (updatedMedia changes) (gameMedia w)) w)).

Definition media_remove (id : string) : Prog World (option GameMedia) :=
  exec (λ w, (selectFirst (mediaIs id) (gameMedia w),
              setGameMedia (deleteWhere (mediaIs id) (gameMedia w)) w)).

Definition media_countForGame (game : string) (kind : MediaKind) : Prog World Z :=
  query (λ w, Z.of_nat (length (selectWhere (λ m, uuidEq (mediaGameId m) game && bool_decide (mediaKind m = kind)) (gameMedia w)))).

Definition media_isStorageKeyReferenced (key : string) : Prog World bool :=
  query (λ w, anyWhere (λ m, bool_decide (mediaStorageKey m = key)) (gameMedia w)).

(** ** Patch notes *)

Definition mapPatchNote (w : World) (n : PatchNote) : PatchNote :=
  mkPatchNote (noteId n) (noteGameId n) (noteGameVersionId n) (noteTitle n) (bodyMarkdown n)
    (authorUserId n)
    (match selectFirst (userIs (authorUserId n)) (users w) with Some u => displayName u | None => "" end)
    (notePublishedAt n) (noteCreatedAt n) (noteUpdatedAt n).

Definition newNoteRow (now : Z) (id : string) (note : NewPatchNote) : PatchNote :=
  mkPatchNote id (newNoteGameId note) (newNoteGameVersionId note) (newNoteTitle note) (newNoteBody note)
    (newNoteAuthorUserId note) "" (if newNotePublish note then to_char_utc now else "")
    (to_char_utc now) (to_char_utc now).

(** A version a note may name: none, or one that is there. *)
Definition versionFits (id : string) (w : World) : bool :=
  bool_decide (id = ""%stdpp) || anyWhere (versionIs id) (versions w).

(** [patch_notes_title_length] and the foreign keys. *)
Definition notes_create (note : NewPatchNote) : Prog World (Result PatchNote) :=
  statement (λ w,
    let id := gen_random_uuid (draws w) in
    let w := setDraws (S (draws w)) w in
    if negb (titleFits (newNoteTitle note)) || anyWhere (noteIs id) (patchNotes w)
       || negb (anyWhere (gameIs (newNoteGameId note)) (games w)) || negb (versionFits (newNoteGameVersionId note) w)
       || negb (anyWhere (userIs (newNoteAuthorUserId note)) (users w)) then None
    else let row := newNoteRow (clock w) id note in
         Some (Success (mapPatchNote w row), setPatchNotes (insertRow row (patchNotes w)) w)).

Definition notes_findById (id : string) : Prog World (option PatchNote) :=
  query (λ w, fmap (M := option) (mapPatchNote w) (selectFirst (noteIs id) (patchNotes w))).

Definition noteListed (q : PatchNoteQuery) (n : PatchNote) : bool :=
  uuidEq (noteGameId n) (noteQueryGameId q) && (noteQueryUnpublished q || published n).

(** [ORDER BY COALESCE(published_at, created_at) DESC, id]. *)
Definition noteDate (n : PatchNote) : string := if published n then notePublishedAt n else noteCreatedAt n.

Definition newestNote (a b : PatchNote) : comparison :=
  thenBy (CompOpp (compareText (noteDate a) (noteDate b))) (compareUuid (noteId a) (noteId b)).

Definition notes_search (q : PatchNoteQuery) : Prog World PatchNotePage :=
  rows ← query (λ w, map (mapPatchNote w)
    (page (noteQueryLimit q) (noteQueryOffset q) (orderBy newestNote (selectWhere (noteListed q) (patchNotes w)))));
  total ← query (λ w, Z.of_nat (length (selectWhere (noteListed q) (patchNotes w))));
  mret (mkNotePage rows total).

Definition updatedNote (now : Z) (changes : PatchNoteUpdate) (n : PatchNote) : PatchNote :=
  mkPatchNote (noteId n) (noteGameId n) (coalesce (changeNoteVersionId changes) (noteGameVersionId n))
    (coalesce (changeNoteTitle changes) (noteTitle n)) (coalesce (changeNoteBody changes) (bodyMarkdown n))
    (authorUserId n) (authorDisplayName n)
    (match changeNotePublished changes with
     | None => notePublishedAt n
     | Some true => if published n then notePublishedAt n else to_char_utc now
     | Some false => ""
     end)
    (noteCreatedAt n) (to_char_utc now).

Definition notes_update (id : string) (changes : PatchNoteUpdate) : Prog World (option PatchNote) :=
  statement (λ w,
    match selectFirst (noteIs id) (patchNotes w) with
    | None => Some (None, w)
    | Some n =>
        let row := updatedNote (clock w) changes n in
        if negb (titleFits (noteTitle row)) || negb (versionFits (noteGameVersionId row) w) then None
        else Some (Some (mapPatchNote w row),
                   setPatchNotes (updateWhere (noteIs id) (updatedNote (clock w) changes) (patchNotes w)) w)
    end).

Definition notes_remove (id : string) : Prog World bool :=
  exec (λ w, (anyWhere (noteIs id) (patchNotes w), setPatchNotes (deleteWhere (noteIs id) (patchNotes w)) w)).
End Statements.

(** ** Libraries *)

Definition shelved (user game : string) (r : LibraryRow) : bool :=
  uuidEq (libraryUserId r) user && uuidEq (libraryGameId r) game.

(** The insert, a no-op for a game that is not there or already shelved, and whether the
    game is shelved now. *)
Definition library_add (user game : string) : Prog World bool :=
  statement (λ w,
    if anyWhere (shelved user game) (userGames w) then Some (true, w)
    else if negb (anyWhere (gameIs game) (games w)) then Some (false, w)
    else if negb (anyWhere (userIs user) (users w)) then None
    else Some (true, setUserGames (insertRow (mkLibraryRow user game (clock w)) (userGames w)) w)).

Definition library_remove (user game : string) : Prog World bool :=
  exec (λ w, (anyWhere (shelved user game) (userGames w),
              setUserGames (deleteWhere (shelved user game) (userGames w)) w)).

Definition library_contains (user game : string) : Prog World bool :=
  query (λ w, anyWhere (shelved user game) (userGames w)).

Definition library_list (user : string) : Prog World (list Game) :=
  query (λ w, orderBy (orderByFor SortReleaseDate)
    (omap (λ r, gameWith w (gameIs (libraryGameId r)))
       (selectWhere (λ r, uuidEq (libraryUserId r) user) (userGames w)))).
