(* ===== verification/AdminRepositories.v ===== *)
(** Accounts as operators see and change them:
    [src/repositories/postgres/PgAdminRepositories.cpp] and the erasure of
    [src/repositories/postgres/PgRepositories.cpp], one definition per statement.  Every
    change carries the audit entry that describes it and writes it only where it applied. *)

From S2P Require Import Prelude.
From S2P Require Import Errors.
From S2P Require Import Validation.
From S2P Require Import Actors.
From S2P Require Import Programs.
From S2P Require Import World.
From S2P Require Import Ordering.
From S2P Require Import Accounts.
From S2P Require Import AuditLog.
From S2P Require Import CatalogRepositories.
From S2P Require Import ContentRepositories.

(** ** Data *)

Definition DEFAULT_ADMIN_USER_PAGE_SIZE : Z := 25.
Definition MAX_ADMIN_USER_PAGE_SIZE : Z := 100.
Definition DEFAULT_AUDIT_PAGE_SIZE : Z := 50.
Definition MAX_AUDIT_PAGE_SIZE : Z := 200.

Record AdminUserQuery := mkAdminUserQuery {
  userSearch : string;
  onlyInactive : bool;
  userLimit : Z;
  userOffset : Z
}.

Record AdminUserSummary := mkSummary {
  summaryUser : User;
  summaryRoles : list string;
  summaryCreatedAt : string;
  summaryLastLoginAt : string
}.

Record AdminUserPage := mkAdminUserPage { userItems : list AdminUserSummary; userTotal : Z }.

Inductive RoleChange := Applied | AlreadyInThatState | NoSuchUser | NoSuchRole.

Record AuditQuery := mkAuditQuery {
  auditByActor : string;
  auditByAction : string;
  auditByEntityType : string;
  auditByEntityId : string;
  auditLimit : Z;
  auditOffset : Z
}.

Record AuditPage := mkAuditPage { auditItems : list AuditEntry; auditTotal : Z }.

Record ErasedIdentity := mkErasedIdentity {
  erasedEmail : string;
  erasedName : string;
  erasedHash : string;
  erasedReason : string
}.

(** ** Users *)

Section Statements.
Context `{Postgres}.

(** The keys of the roles an account holds, in order: [string_agg(r.key, ',' ORDER BY r.key)]. *)
Definition rolesOf (id : string) (w : World) : list string :=
  orderBy compareText
    (snd <$> selectWhere (λ grant : string * string, uuidEq grant.1 id && bool_decide (grant.2 ∈ roleKeys w)) (roleGrants w)).

Definition roles_rolesForUser (id : string) : Prog World (list string) := query (rolesOf id).

(** [splitRoles] of the aggregate. *)
Definition splitRoles (packed : string) : list string := splitStorageKeys packed.

(** The columns are selected without the hash. *)
Definition withoutHash (u : User) : User :=
  mkUser (accountId u) (accountEmail u) (accountDisplayName u) "" (emailVerified u) (accountActive u)
    (mustChangePassword u) (quotaBytes u) (usedBytes u).

Definition mapSummary (w : World) (row : UserRow) : AdminUserSummary :=
  mkSummary (withoutHash (mapUser row)) (splitRoles (packStorageKeys (rolesOf (userId row) w))) (to_char_utc (userCreatedAt row))
    (match lastLoginAt row with Some at_ => to_char_utc at_ | None => "" end).

Definition listedUser (q : AdminUserQuery) (u : UserRow) : bool :=
  (bool_decide (userSearch q = ""%stdpp) || titleMatches (userSearch q) (userEmail u)
   || titleMatches (userSearch q) (displayName u))
  && (negb (onlyInactive q) || negb (isActive u)).

(** [ORDER BY u.created_at DESC, u.id]. *)
Definition newestUser (a b : UserRow) : comparison :=
  thenBy (CompOpp (Z.compare (userCreatedAt a) (userCreatedAt b))) (compareUuid (userId a) (userId b)).

Definition adminUsers_search (q : AdminUserQuery) : Prog World AdminUserPage :=
  rows ← query (λ w, map (mapSummary w) (page (userLimit q) (userOffset q)
    (orderBy newestUser (selectWhere (listedUser q) (users w)))));
  total ← query (λ w, Z.of_nat (length (selectWhere (listedUser q) (users w))));
  mret (mkAdminUserPage rows total).

Definition adminUsers_findById (id : string) : Prog World (option AdminUserSummary) :=
  query (λ w, fmap (M := option) (mapSummary w) (selectFirst (userIs id) (users w))).

(** One account changes, and the log says so; nothing happens when there is no such account.
    A change the constraints of the table do not allow is refused. *)
Definition changeUser (id : string) (allowed : bool) (f : UserRow → UserRow) (audit : NewAuditEntry) (also : World → World)
    : Prog World (option AdminUserSummary) :=
  statement (λ w,
    match selectFirst (userIs id) (users w) with
    | None => Some (None, w)
    | Some row =>
        if negb allowed || negb (auditActorFits (newAuditActor audit) w) then None
        else Some (Some (mapSummary w (f row)), insertAudit audit (also (updateUser id f w)))
    end).

Definition withQuota (quota : Z) (r : UserRow) : UserRow :=
  mkUserRow (userId r) (userEmail r) (emailVerifiedAt r) (passwordHash r) (displayName r)
    quota (uploadUsedBytes r) (isActive r) (lastLoginAt r) (passwordChangeRequired r) (userCreatedAt r).

Definition withActive (active : bool) (r : UserRow) : UserRow :=
  mkUserRow (userId r) (userEmail r) (emailVerifiedAt r) (passwordHash r) (displayName r)
    (uploadQuotaBytes r) (uploadUsedBytes r) active (lastLoginAt r) (passwordChangeRequired r) (userCreatedAt r).

(** Refused by [users_quota_non_negative]. *)
Definition adminUsers_setUploadQuota (id : string) (quota : Z) (audit : NewAuditEntry)
    : Prog World (option AdminUserSummary) :=
  changeUser id (0 <=? quota) (withQuota quota) audit (λ w, w).

Definition adminUsers_setActive (id : string) (active : bool) (audit : NewAuditEntry)
    : Prog World (option AdminUserSummary) :=
  changeUser id true (withActive active) audit
    (λ w, if active then w else revokeWhere (refreshOwnerIs id) w).

(** The reset links of an account that are still outstanding are spent. *)
Definition spendResetLinks (id : string) (w : World) : World :=
  setUserTokens
    (updateWhere (λ r, uuidEq (tokenUserId r) id && purposeIs PasswordReset r && unconsumed r)
       (consumedAs (clock w)) (userTokens w)) w.

Definition adminUsers_setTemporaryPassword (id hash : string) (audit : NewAuditEntry)
    : Prog World (option AdminUserSummary) :=
  changeUser id true (withPasswordHash hash true) audit
    (λ w, spendResetLinks id (revokeWhere (refreshOwnerIs id) w)).

(** ** Roles *)

(** [classifyRoleChange]. *)
Definition classifyRoleChange (id role : string) (changed : bool) (w : World) : RoleChange :=
  if negb (anyWhere (userIs id) (users w)) then NoSuchUser
  else if negb (bool_decide (role ∈ roleKeys w)) then NoSuchRole
  else if changed then Applied else AlreadyInThatState.

Definition adminUsers_grantRole (id role : string) (audit : NewAuditEntry) : Prog World RoleChange :=
  statement (λ w,
    match classifyRoleChange id role (negb (anyWhere (holdsRole id role) (roleGrants w))) w with
    | Applied =>
        if negb (auditActorFits (newAuditActor audit) w) then None
        else Some (Applied, insertAudit audit (setRoleGrants (insertRow (id, role) (roleGrants w)) w))
    | other => Some (other, w)
    end).

Definition adminUsers_revokeRole (id role : string) (audit : NewAuditEntry) : Prog World RoleChange :=
  statement (λ w,
    match classifyRoleChange id role (anyWhere (holdsRole id role) (roleGrants w)) w with
    | Applied =>
        if negb (auditActorFits (newAuditActor audit) w) then None
        else Some (Applied, insertAudit audit (setRoleGrants (deleteWhere (holdsRole id role) (roleGrants w)) w))
    | other => Some (other, w)
    end).

Definition adminUsers_listRoles : Prog World (list Role) :=
  query (λ w, orderBy (λ a b, compareText (roleKey a) (roleKey b)) (roleRows w)).

(** An account reaches a permission through some role it holds. *)
Definition reaches (permission : string) (w : World) (u : UserRow) : bool :=
  anyWhere (λ held : string * string, uuidEq held.1 (userId u)
    && anyWhere (λ grant : string * string, bool_decide (grant.1 = held.2) && bool_decide (grant.2 = permission))
         (rolePermissions w)) (roleGrants w).

Definition activeHolder (permission : string) (w : World) (u : UserRow) : bool := reaches permission w u && isActive u.

Definition adminUsers_countOtherHoldersOf (permission excluding : string) : Prog World Z :=
  query (λ w, Z.of_nat (length
    (selectWhere (λ u, activeHolder permission w u && negb (userIs excluding u)) (users w)))).

(** ** The audit log *)

Definition auditFits (q : AuditQuery) (e : AuditRow) : bool :=
  (bool_decide (auditByActor q = ""%stdpp) || uuidEq (auditActorUserId e) (auditByActor q))
  && (bool_decide (auditByAction q = ""%stdpp) || bool_decide (auditAction e = auditByAction q))
  && (bool_decide (auditByEntityType q = ""%stdpp) || bool_decide (auditEntityType e = auditByEntityType q))
  && (bool_decide (auditByEntityId q = ""%stdpp) || bool_decide (auditEntityId e = auditByEntityId q)).

(** Rows with their serial numbers, which follow the order of the inserts. *)
Definition numbered (t : list AuditRow) : list (Z * AuditRow) := imap (λ i e, (Z.of_nat (S i), e)) t.

(** [ORDER BY a.created_at DESC, a.id DESC]. *)
Definition newestEntry (a b : Z * AuditRow) : comparison :=
  thenBy (CompOpp (Z.compare (auditCreatedAt a.2) (auditCreatedAt b.2))) (CompOpp (Z.compare a.1 b.1)).

Definition mapAuditEntry (w : World) (e : Z * AuditRow) : AuditEntry :=
  mkAuditEntry e.1 (auditActorUserId e.2)
    (match selectFirst (userIs (auditActorUserId e.2)) (users w) with Some u => userEmail u | None => "" end)
    (auditAction e.2) (auditEntityType e.2) (auditEntityId e.2) (jsonb_text (auditMetadata e.2))
    (to_char_utc (auditCreatedAt e.2)).

(** Refused when the actor asked for is no uuid. *)
Definition audit_search (q : AuditQuery) : Prog World AuditPage :=
  if negb (bool_decide (auditByActor q = ""%stdpp)) && negb (isUuid (auditByActor q)) then Raise
  else
    rows ← query (λ w, map (mapAuditEntry w) (page (auditLimit q) (auditOffset q)
      (orderBy newestEntry (selectWhere (λ e, auditFits q e.2) (numbered (auditLog w))))));
    total ← query (λ w, Z.of_nat (length (selectWhere (auditFits q) (auditLog w))));
    mret (mkAuditPage rows total).
End Statements.

(** ** Erasure *)

Definition anonymised (identity : ErasedIdentity) (r : UserRow) : UserRow :=
  mkUserRow (userId r) (erasedEmail identity) None (erasedHash identity) (erasedName identity)
    (uploadQuotaBytes r) (uploadUsedBytes r) false None (passwordChangeRequired r) (userCreatedAt r).

Definition eventWithoutUser (e : DownloadEvent) : DownloadEvent :=
  mkDownloadEvent (eventGameId e) (eventBuildId e) "" (fromVersionId e) (eventKind e) (bytesPlanned e) (eventAt e).

(** What goes with the identity: sessions, links, the library, and the subject of the
    download events; and the request is recorded as done. *)
Definition forgetUser (id : string) (reason : string) (w : World) : World :=
  setRefreshTokens (deleteWhere (refreshOwnerIs id) (refreshTokens w))
    (setUserTokens (deleteWhere (λ r, uuidEq (tokenUserId r) id) (userTokens w))
      (setUserGames (deleteWhere (λ r, uuidEq (libraryUserId r) id) (userGames w))
        (setDownloadEvents (updateWhere (λ e, uuidEq (eventUserId e) id) eventWithoutUser (downloadEvents w))
          (setErasures (insertRow (mkErasureRow id reason (clock w)) (erasures w)) w)))).

(** Refused when the placeholder address is somebody else's or the name does not fit. *)
Definition accounts_erase (id : string) (identity : ErasedIdentity) (audit : NewAuditEntry) : Prog World bool :=
  statement (λ w,
    match selectFirst (λ u, userIs id u && negb (emailIs (erasedEmail identity) u)) (users w) with
    | None => Some (false, w)
    | Some row =>
        if negb (displayNameFits (erasedName identity)) then None
        else if anyWhere (λ u, emailIs (erasedEmail identity) u && negb (userIs id u)) (users w) then None
        else if negb (auditActorFits (newAuditActor audit) w) then None
        else Some (true, insertAudit audit (forgetUser id (erasedReason identity) (updateUser id (anonymised identity) w)))
    end).
