(* ===== verification/MediaStore.v ===== *)
(** Content-addressed storage for artwork: [src/storage/MediaStore.cpp].

    A root of its own beside the blob store's, with the same file-system faults.  A file
    arrives whole: it is written under a staging name and moved to its address.  What the
    operating system has to say in an error is left off its text. *)

From S2P Require Import Prelude.
From S2P Require Import Errors.
From S2P Require Import Manifest.
From S2P Require Import Media.
From S2P Require Import Hash.
From S2P Require Import BlobStore.
From S2P Require Import Programs.
From S2P Require Import World.

Definition mediaKeyFor (sha256 : string) (format : StoredFormat) : string :=
  if negb (isSha256Hex sha256) then ""
  else substr sha256 0 2 +:+ "/" +:+ substr sha256 2 2 +:+ "/" +:+ sha256 +:+ "." +:+ extension format.

Definition mediaPathFor (key : string) : option string :=
  if bool_decide (key = ""%stdpp) || (if findSub (chars "..") (chars key) then true else false) || charIs key 0 "/"
  then None else Some key.

Definition mediaContains (files : gmap string (list ascii)) (key : string) : bool :=
  match mediaPathFor key with
  | None => false
  | Some path => if files !! path then true else false
  end.

Definition mediaStagingFor (digest : string) (format : StoredFormat) : string :=
  STAGING_DIRECTORY +:+ "/" +:+ digest +:+ "." +:+ extension format.

Section Store.
Context `{Evp}.

(** [MediaStore::store]: the key of the content, and the files it leaves. *)
Definition mediaPut (bytes : list ascii) (format : StoredFormat) (faults : Faults)
    (files : gmap string (list ascii)) : Result string * gmap string (list ascii) :=
  let digest := sha256Hex (text bytes) in
  let key := mediaKeyFor digest format in
  if bool_decide (key = ""%stdpp) then (failure Internal "cannot derive a storage key", files)
  else if files !! key then (Success key, files)
  else if mkdirFails faults then (failure DependencyFailure "cannot create the media directory", files)
  else
    let staging := mediaStagingFor digest format in
    if createFails faults then (failure DependencyFailure "cannot create the media staging file", files)
    else match writeStops faults with
         | Some n => (failure DependencyFailure "cannot write the uploaded file",
                      discard faults staging (<[staging := take n bytes]> files))
         | None =>
             if renameFails faults then
               (failure DependencyFailure "cannot move the file into storage",
                discard faults staging (<[staging := bytes]> files))
             else (Success key, <[key := bytes]> (delete staging files))
         end.
End Store.

(** [MediaStore::remove]. *)
Definition mediaDiscard (key : string) (faults : Faults) (files : gmap string (list ascii))
    : gmap string (list ascii) :=
  match mediaPathFor key with
  | None => files
  | Some path => discard faults path files
  end.

(** A call into the media store. *)
Definition onMediaDisk `{Disk} {A} (f : Faults → gmap string (list ascii) → A * gmap string (list ascii))
    : Prog World A :=
  exec (λ w, let r := f (faultsAt (draws w)) (mediaFiles w) in
             (r.1, setMediaFiles r.2 (setDraws (S (draws w)) w))).

(** ** Specification *)

(** Whatever is at the address of a digest hashes to it. *)
Definition MediaSound `{Evp} (files : gmap string (list ascii)) : Prop :=
  ∀ h format content, isSha256Hex h = true → files !! mediaKeyFor h format = Some content →
    sha256Hex (text content) = h.

(** What the service says of a file: the key is the address of the digest, and the content
    type the one its extension stands for. *)
Definition MediaFits (key sha256 type : string) : Prop :=
  ∃ format, isSha256Hex sha256 = true ∧ key = mediaKeyFor sha256 format ∧ type = contentType format.

(** ** Lemmas *)

(** The two directories, the digest and the extension, in characters. *)
Lemma mediaKey_chars h format :
  isSha256Hex h = true →
  ∃ a b c d, chars (mediaKeyFor h format) = a :: b :: "/"%char :: c :: d :: "/"%char :: chars h ++ "."%char :: chars (extension format)
    ∧ forallb isLowercaseHexDigit [a; b; c; d] = true.
Proof.
  intros Hh. destruct (key_chars h Hh) as (a & b & c & d & l & _ & E & Hd & _). exists a, b, c, d. split; [|done].
  assert (mediaKeyFor h format = storageKeyFor h +:+ "." +:+ extension format) as ->.
  { unfold mediaKeyFor, storageKeyFor. rewrite Hh. cbn [negb]. apply chars_inj. rewrite !chars_app.
    by rewrite <- !app_assoc. }
  by rewrite !chars_app, E.
Qed.

Lemma mediaKey_inj h k format format' :
  isSha256Hex h = true → isSha256Hex k = true → mediaKeyFor h format = mediaKeyFor k format' → h = k.
Proof.
  intros Hh Hk E%(f_equal chars). destruct (mediaKey_chars h format Hh) as (a & b & c & d & E1 & _).
  destruct (mediaKey_chars k format' Hk) as (a' & b' & c' & d' & E2 & _). rewrite E1, E2 in E.
  injection E as _ _ _ _ E. apply chars_inj. apply isSha256Hex_spec in Hh as [Hh _], Hk as [Hk _].
  apply (f_equal (take 64)) in E. rewrite !take_app_length' in E; done.
Qed.

Lemma mediaKey_not_staging h format digest format' :
  isSha256Hex h = true → mediaKeyFor h format ≠ mediaStagingFor digest format'.
Proof.
  intros Hh E%(f_equal chars). destruct (mediaKey_chars h format Hh) as (a & b & c & d & E1 & _).
  rewrite E1 in E. unfold mediaStagingFor in E. rewrite !chars_app in E. cbn in E. by simplify_eq.
Qed.

Section Sound.
Context `{Evp}.
Implicit Types files : gmap string (list ascii).

Lemma MediaSound_discard key faults files : MediaSound files → MediaSound (mediaDiscard key faults files).
Proof.
  intros HS h f c Hh. unfold mediaDiscard, discard. destruct (mediaPathFor key); [|by apply HS].
  destruct (removeFails faults); [by apply HS|]. intros [_ ?]%lookup_delete_Some. by eapply HS.
Qed.

(** A staging file that is left behind is under no address. *)
Lemma MediaSound_staged files files' digest format :
  (∀ p, p ≠ mediaStagingFor digest format → files' !! p = files !! p) → MediaSound files → MediaSound files'.
Proof. intros E HS h f c Hh. rewrite E by (by apply mediaKey_not_staging). by apply HS. Qed.

Lemma mediaPut_sound bytes format faults files :
  MediaSound files → MediaSound (mediaPut bytes format faults files).2.
Proof.
  intros HS. unfold mediaPut. case_bool_decide as Hk; [done|]. destruct (files !! _); [done|].
  destruct (mkdirFails faults); [done|]. destruct (createFails faults); [done|].
  destruct (writeStops faults); [|destruct (renameFails faults)]; cbn [snd].
  1, 2: eapply MediaSound_staged; [|exact HS]; intros p Hp; rewrite discard_other by done; by rewrite lookup_insert_ne.
  intros h f c Hh. set (key := mediaKeyFor (sha256Hex (text bytes)) format).
  destruct (decide (mediaKeyFor h f = key)) as [E|E].
  - rewrite E, lookup_insert. rewrite decide_True by done. intros [= <-]. symmetry. unfold key in E, Hk. apply (mediaKey_inj _ _ f format); [done| |done].
    unfold mediaKeyFor in Hk. by destruct (isSha256Hex (sha256Hex (text bytes))).
  - pose proof (mediaKey_not_staging h f (sha256Hex (text bytes)) format Hh).
    rewrite lookup_insert_ne, lookup_delete_ne by congruence. by apply HS.
Qed.

(** What a successful store leaves at the key it answers with. *)
Lemma mediaPut_spec bytes format faults files key files' :
  mediaPut bytes format faults files = (Success key, files') →
  isSha256Hex (sha256Hex (text bytes)) = true ∧ key = mediaKeyFor (sha256Hex (text bytes)) format
  ∧ (files' !! key = Some bytes ∨ is_Some (files !! key) ∧ files' = files)
  ∧ (∀ p, p ≠ key → p ≠ mediaStagingFor (sha256Hex (text bytes)) format → files' !! p = files !! p).
Proof.
  unfold mediaPut. case_bool_decide as Hk; [done|].
  assert (isSha256Hex (sha256Hex (text bytes)) = true) as Hh
    by (unfold mediaKeyFor in Hk; by destruct (isSha256Hex (sha256Hex (text bytes)))).
  destruct (files !! _) as [c|] eqn:Ef; [intros [= <- <-]; split_and!; eauto|].
  destruct (mkdirFails faults); [done|]. destruct (createFails faults); [done|].
  destruct (writeStops faults); [done|]. destruct (renameFails faults); [done|]. intros [= <- <-].
  split_and!; [done|done|left; by rewrite lookup_insert, decide_True|].
  intros p Hp Hs. by rewrite lookup_insert_ne, lookup_delete_ne by done.
Qed.

Lemma mediaKey_digest h format : isSha256Hex h = true → substr (mediaKeyFor h format) 6 64 = h.
Proof.
  intros Hh. destruct (mediaKey_chars h format Hh) as (a & b & c & d & E & _). unfold substr. rewrite E.
  apply isSha256Hex_spec in Hh as [Hl _]. apply chars_inj. rewrite chars_text. cbn [drop].
  rewrite drop_0. by rewrite take_app_length'.
Qed.

(** The row the service writes for a stored file. *)
Lemma mediaPut_fits bytes format faults files key files' :
  mediaPut bytes format faults files = (Success key, files') → MediaFits key (substr key 6 64) (contentType format).
Proof. intros (Hh & -> & _)%mediaPut_spec. exists format. by rewrite mediaKey_digest. Qed.
End Sound.
