(* ===== verification/CatalogService.v ===== *)
(** Publishing games and versions, Explore and the library: [src/services/CatalogService.h],
    [src/services/CatalogService.cpp] and [src/services/MediaReclaimer.cpp]. *)

From S2P Require Import Prelude.
From S2P Require Import Errors.
From S2P Require Import Validation.
From S2P Require Import Semver.
From S2P Require Import Actors.
From S2P Require Import Catalog.
From S2P Require Import Media.
From S2P Require Import Hash.
From S2P Require Import BlobStore.
From S2P Require Import Programs.
From S2P Require Import World.
From S2P Require Import Accounts.
From S2P Require Import Uploads.
From S2P Require Import CatalogRepositories.
From S2P Require Import ContentRepositories.
From S2P Require Import MediaStore.

(** ** Data *)

Record CreateGameCommand := mkCreateGame {
  commandTitle : string;
  commandSlug : string;
  commandSummary : string;
  commandDescription : string;
  commandReleaseDate : string;
  commandVisibility : GameVisibility
}.

Record CreateVersionCommand := mkCreateVersion {
  commandSemver : string;
  commandStage : BuildStage;
  commandReleaseNotes : string;
  commandPublish : bool
}.

Record CreateBuildCommand := mkCreateBuild {
  commandVersionId : string;
  commandBuildName : string;
  commandPlatform : BuildPlatform;
  commandArchitecture : BuildArchitecture
}.

Record GameDetail := mkGameDetail {
  detailGame : Game;
  detailVersions : list GameVersion;
  detailBuilds : list Build;
  detailMedia : list GameMedia;
  inLibrary : bool
}.

Definition NO_SUCH_GAME : string := "no such game".
Definition NOT_YOURS : string := "this game belongs to another publisher".
Definition CATALOG_NO_SUCH_BUILD : string := "no such build".
Definition NO_SUCH_VERSION : string := "no such version".

(** ** Rules *)

Definition checkFieldLength (value : string) (limit : Z) (field rule : string) : VoidResult :=
  if limit <? size value then
    Failure (invalidInput (field +:+ " must be at most " +:+ toDecimal limit +:+ " characters") rule [toDecimal limit])
  else Success tt.

Definition checkTitle (value : string) : VoidResult :=
  if bool_decide (value = ""%stdpp) then Failure (invalidInput "title must not be empty" rules.TITLE_REQUIRED [])
  else checkFieldLength value MAX_TITLE_LENGTH "title" rules.TITLE_TOO_LONG.

Definition checkOptionalDate (date : string) : VoidResult :=
  if bool_decide (date = ""%stdpp) then Success tt else validateReleaseDate date.

Definition checkSummary (value : string) : VoidResult :=
  checkFieldLength value MAX_SUMMARY_LENGTH "summary" rules.SUMMARY_TOO_LONG.
Definition checkDescription (value : string) : VoidResult :=
  checkFieldLength value MAX_DESCRIPTION_LENGTH "description" rules.DESCRIPTION_TOO_LONG.
Definition checkReleaseNotes (value : string) : VoidResult :=
  checkFieldLength value MAX_RELEASE_NOTES_LENGTH "releaseNotes" rules.RELEASE_NOTES_TOO_LONG.

(** A check that only applies to a field the update carries. *)
Definition checkOptional (check : string → VoidResult) (value : option string) : VoidResult :=
  match value with None => Success tt | Some v => check v end.

(** [std::clamp(limit, 1, most)] and [std::max(offset, 0)]. *)
Definition clampLimit (most limit : Z) : Z := if limit <? 1 then 1 else if most <? limit then most else limit.
Definition clampOffset (offset : Z) : Z := Z.max offset 0.

Definition clamped (q : GameQuery) : GameQuery :=
  mkGameQuery (querySearch q) (querySort q) (clampLimit MAX_GAME_PAGE_SIZE (queryLimit q))
    (clampOffset (queryOffset q)) (queryPublisher q) (queryUnpublished q).

Section Service.
Context `{Evp, Postgres, Disk}.

(** ** Finding a game *)

Definition gameByIdOrSlug (idOrSlug : string) : Prog World (option Game) :=
  if isUuid idOrSlug then games_findById idOrSlug else games_findBySlug idOrSlug.

Definition visibleGame (actor : Actor) (idOrSlug : string) : Prog World (Result Game) :=
  found ← gameByIdOrSlug idOrSlug;
  match found with
  | Some game => mret (if mayViewGame game actor then Success game else failure NotFound NO_SUCH_GAME)
  | None => mret (failure NotFound NO_SUCH_GAME)
  end.

Definition editableGame (actor : Actor) (idOrSlug : string) : Prog World (Result Game) :=
  try? game := visibleGame actor idOrSlug in
  if negb (mayEditGame game actor) then mret (failure Forbidden NOT_YOURS) else mret (Success game).

(** ** Games *)

(** What a command asks to be stored, once it is found valid. *)
Definition newGameOf (actor : Actor) (command : CreateGameCommand) : Result NewGame :=
  let title := trim (commandTitle command) in
  let summary := trim (commandSummary command) in
  let date := trim (commandReleaseDate command) in
  let given := trim (commandSlug command) in
  let? _ := checkTitle title in
  let? _ := checkSummary summary in
  let? _ := checkDescription (commandDescription command) in
  let? _ := checkOptionalDate date in
  let slug := if bool_decide (given = ""%stdpp) then slugify title else given in
  let? _ := validateSlug slug in
  Success (mkNewGame slug title summary (commandDescription command) (actorUserId actor) date (commandVisibility command)).

Definition createGame (actor : Actor) (command : CreateGameCommand) : Prog World (Result Game) :=
  if negb (can actor permissions.GAME_PUBLISH) then mret (failure Forbidden "you cannot publish games")
  else match newGameOf actor command with
       | Failure e => mret (Failure e)
       | Success game => games_create game
       end.

(** The changes an update applies, once they are found valid. *)
Definition validGameUpdate (changes : GameUpdate) : Result GameUpdate :=
  let title := fmap (M := option) trim (changeTitle changes) in
  let date := fmap (M := option) trim (changeReleaseDate changes) in
  let? _ := checkOptional checkTitle title in
  let? _ := checkOptional checkSummary (changeSummary changes) in
  let? _ := checkOptional checkDescription (changeDescription changes) in
  let? _ := checkOptional checkOptionalDate date in
  Success (mkGameUpdate title (changeSummary changes) (changeDescription changes) date (changeVisibility changes)).

(** The update takes the id or slug the caller gave, as the source does; the cast to [uuid]
    refuses a slug. *)
Definition updateGame (actor : Actor) (id : string) (changes : GameUpdate) : Prog World (Result Game) :=
  try? existing := editableGame actor id in
  if gameUpdateEmpty changes then mret (Success existing)
  else match validGameUpdate changes with
       | Failure e => mret (Failure e)
       | Success changes =>
           if negb (isUuid id) then Raise
           else
             updated ← games_update id changes;
             match updated with
             | None => mret (failure NotFound NO_SUCH_GAME)
             | Some game => mret (Success game)
             end
       end.

Definition gameDetail (actor : Actor) (idOrSlug : string) : Prog World (Result GameDetail) :=
  if negb (can actor permissions.GAME_READ) then mret (failure Forbidden "you cannot browse the catalog")
  else
    try? game := visibleGame actor idOrSlug in
    versions ← versions_listForGame (gameId game) (mayEditGame game actor);
    builds ← builds_listForVersions (versionId <$> versions);
    media ← media_listForGame (gameId game);
    shelf ← library_contains (actorUserId actor) (gameId game);
    mret (Success (mkGameDetail game versions builds media shelf)).

Definition explore (actor : Actor) (q : GameQuery) : Prog World (Result GamePage) :=
  if negb (can actor permissions.GAME_READ) then mret (failure Forbidden "you cannot browse the catalog")
  else
    let q := clamped q in
    found ← games_search (mkGameQuery (querySearch q) (querySort q) (queryLimit q) (queryOffset q) "" false);
    mret (Success found).

Definition publishedByActor (actor : Actor) (q : GameQuery) : Prog World (Result GamePage) :=
  if negb (can actor permissions.GAME_PUBLISH) then mret (failure Forbidden "you cannot publish games")
  else
    let q := clamped q in
    found ← games_search (mkGameQuery (querySearch q) (querySort q) (queryLimit q) (queryOffset q)
                            (actorUserId actor) true);
    mret (Success found).

(** ** Versions and builds *)

Definition createVersion (actor : Actor) (game : string) (command : CreateVersionCommand)
    : Prog World (Result GameVersion) :=
  if negb (can actor permissions.GAME_PUBLISH) then mret (failure Forbidden "you cannot publish games")
  else
    try? found := editableGame actor game in
    match parseSemver (commandSemver command) with
    | Failure e => mret (Failure e)
    | Success parsed =>
        match checkReleaseNotes (commandReleaseNotes command) with
        | Failure e => mret (Failure e)
        | Success _ => versions_create (mkNewVersion (gameId found) parsed (commandStage command)
                                          (commandReleaseNotes command) (commandPublish command))
        end
    end.

(** The version of that id, if it is one of that game. *)
Definition versionOfGame (id game : string) : Prog World (option GameVersion) :=
  if negb (isUuid id) then mret None
  else
    found ← versions_findById id;
    match found with
    | Some version => mret (if bool_decide (versionGameId version = game) then Some version else None)
    | None => mret None
    end.

Definition updateVersion (actor : Actor) (game version : string) (changes : GameVersionUpdate)
    : Prog World (Result GameVersion) :=
  if negb (can actor permissions.GAME_PUBLISH) then mret (failure Forbidden "you cannot publish games")
  else
    try? owner := editableGame actor game in
    existing ← versionOfGame version (gameId owner);
    match existing with
    | None => mret (failure NotFound NO_SUCH_VERSION)
    | Some existing =>
        if versionUpdateEmpty changes then mret (Success existing)
        else match checkOptional checkReleaseNotes (changeReleaseNotes changes) with
             | Failure e => mret (Failure e)
             | Success _ =>
                 updated ← versions_update version changes;
                 match updated with
                 | None => mret (failure NotFound NO_SUCH_VERSION)
                 | Some v => mret (Success v)
                 end
             end
    end.

Definition createBuild (actor : Actor) (game : string) (command : CreateBuildCommand) : Prog World (Result Build) :=
  if negb (can actor permissions.BUILD_UPLOAD) then mret (failure Forbidden "you cannot upload builds")
  else
    try? owner := editableGame actor game in
    existing ← versionOfGame (commandVersionId command) (gameId owner);
    match existing with
    | None => mret (failure NotFound NO_SUCH_VERSION)
    | Some version =>
        let name := trim (commandBuildName command) in
        match checkFieldLength name MAX_BUILD_NAME_LENGTH "name" rules.BUILD_NAME_TOO_LONG with
        | Failure e => mret (Failure e)
        | Success _ => builds_create (mkNewBuild (versionId version) name (commandPlatform command)
                                        (commandArchitecture command))
        end
    end.

(** ** Deletes *)

Definition deleteBuild (actor : Actor) (id : string) : Prog World VoidResult :=
  if negb (isUuid id) then mret (failure NotFound CATALOG_NO_SUCH_BUILD)
  else
    found ← builds_findOwnership id;
    match found with
    | None => mret (failure NotFound CATALOG_NO_SUCH_BUILD)
    | Some ownership =>
        if negb (mayReadBuild ownership actor) then mret (failure NotFound CATALOG_NO_SUCH_BUILD)
        else if negb (mayPublishBuild ownership actor) then mret (failure Forbidden NOT_YOURS)
        else
          removed ← builds_remove id;
          mret (if (removed : bool) then Success tt else failure NotFound CATALOG_NO_SUCH_BUILD)
    end.

Definition deleteVersion (actor : Actor) (game version : string) : Prog World VoidResult :=
  try? owner := editableGame actor game in
  existing ← versionOfGame version (gameId owner);
  match existing with
  | None => mret (failure NotFound NO_SUCH_VERSION)
  | Some _ =>
      removed ← versions_remove version;
      mret (if (removed : bool) then Success tt else failure NotFound NO_SUCH_VERSION)
  end.

(** [MediaReclaimer]: the file goes once no row names it. *)
Definition reclaim (key : string) : Prog World unit :=
  if bool_decide (key = ""%stdpp) then mret tt
  else
    used ← media_isStorageKeyReferenced key;
    if (used : bool) then mret tt else onMediaDisk (λ faults files, (tt, mediaDiscard key faults files)).

Fixpoint reclaimAll (keys : list string) : Prog World unit :=
  match keys with
  | [] => mret tt
  | key :: rest => _ ← reclaim key; reclaimAll rest
  end.

Definition deleteGame (actor : Actor) (idOrSlug : string) : Prog World VoidResult :=
  try? game := editableGame actor idOrSlug in
  removed ← games_remove (gameId game);
  match removed with
  | None => mret (failure NotFound NO_SUCH_GAME)
  | Some keys => _ ← reclaimAll keys; mret (Success tt)
  end.

(** ** The library *)

Definition addToLibrary (actor : Actor) (idOrSlug : string) : Prog World VoidResult :=
  if negb (can actor permissions.LIBRARY_MANAGE) then mret (failure Forbidden "you cannot change your library")
  else
    try? game := visibleGame actor idOrSlug in
    added ← library_add (actorUserId actor) (gameId game);
    mret (if (added : bool) then Success tt else failure NotFound NO_SUCH_GAME).

Definition removeFromLibrary (actor : Actor) (game : string) : Prog World VoidResult :=
  if negb (can actor permissions.LIBRARY_MANAGE) then mret (failure Forbidden "you cannot change your library")
  else if negb (isUuid game) then mret (failure NotFound "that game is not in your library")
  else
    removed ← library_remove (actorUserId actor) game;
    mret (if (removed : bool) then Success tt else failure NotFound "that game is not in your library").

Definition library (actor : Actor) : Prog World (Result (list Game)) :=
  if negb (can actor permissions.LIBRARY_READ) then mret (failure Forbidden "you cannot read your library")
  else
    shelf ← library_list (actorUserId actor);
    mret (Success shelf).
End Service.
