(* ===== verification/AdminUserService.v ===== *)
(** Managing accounts, roles and quotas, and erasing one's own account:
    [src/services/AdminUserService.h], [src/services/AdminUserService.cpp],
    [src/services/AccountService.h] and [src/services/AccountService.cpp]. *)

From S2P Require Import Prelude.
From S2P Require Import Errors.
From S2P Require Import Validation.
From S2P Require Import Actors.
From S2P Require Import Programs.
From S2P Require Import Random.
From S2P Require Import World.
From S2P Require Import Accounts.
From S2P Require Import AuditLog.
From S2P Require Import MailTemplates.
From S2P Require Import AuthService.
From S2P Require Import AdminRepositories.
From S2P Require Import CatalogService.

(** ** Data *)

(** The account as it now stands, and the password, which exists nowhere else. *)
Record TemporaryPassword := mkTemporary { temporaryUser : AdminUserSummary; temporaryPassword : string }.

Record EraseAccountCommand := mkErase { erasePassword : string; eraseReason : string }.

Definition NO_SUCH_ACCOUNT : string := "no such account".
Definition ADMIN_FORBIDDEN : string := "you do not have permission to do that".
Definition LAST_ADMINISTRATOR : string :=
  "this is the only active account that can manage users; grant another one first".
Definition NO_ACCOUNT_OF_SESSION : string := "this session no longer belongs to an account".
Definition MAX_ERASURE_REASON_LENGTH : Z := 500.

(** ** The administrative surface *)

Section AdminUserService.
Context `{Sodium, PasswordHasher, Postgres}.

Definition requireUserId (id : string) : VoidResult :=
  if isUuid id then Success tt else failure NotFound NO_SUCH_ACCOUNT.

Definition requirePermission (actor : Actor) (permission : string) : VoidResult :=
  if can actor permission then Success tt else failure Forbidden ADMIN_FORBIDDEN.

Definition auditFor (actor : Actor) (action id : string) (metadata : list AuditField) : NewAuditEntry :=
  mkNewAudit (actorUserId actor) action auditEntities.USER id metadata.

(** The failure a role change comes to, if it is one. *)
Definition roleChangeError (change : RoleChange) (role : string) : VoidResult :=
  match change with
  | NoSuchUser => failure NotFound NO_SUCH_ACCOUNT
  | NoSuchRole => failure InvalidInput ("no such role: " +:+ role)
  | Applied | AlreadyInThatState => Success tt
  end.

Definition summaryOr (found : option AdminUserSummary) : Result AdminUserSummary :=
  match found with Some summary => Success summary | None => failure NotFound NO_SUCH_ACCOUNT end.

Definition refuseIfLastAdministrator (id : string) : Prog World VoidResult :=
  others ← adminUsers_countOtherHoldersOf permissions.ADMIN_USERS_MANAGE id;
  mret (if 0 <? others then Success tt else failure Conflict LAST_ADMINISTRATOR).

Definition listUsers (actor : Actor) (q : AdminUserQuery) : Prog World (Result AdminUserPage) :=
  match requirePermission actor permissions.ADMIN_USERS_MANAGE with Failure e => mret (Failure e) | Success _ =>
    found ← adminUsers_search (mkAdminUserQuery (userSearch q) (onlyInactive q)
              (clampLimit MAX_ADMIN_USER_PAGE_SIZE (userLimit q)) (clampOffset (userOffset q)));
    mret (Success found)
  end.

Definition findUser (actor : Actor) (id : string) : Prog World (Result AdminUserSummary) :=
  match requirePermission actor permissions.ADMIN_USERS_MANAGE with Failure e => mret (Failure e) | Success _ =>
  match requireUserId id with Failure e => mret (Failure e) | Success _ =>
    found ← adminUsers_findById id;
    mret (summaryOr found)
  end end.

Definition setUploadQuota (actor : Actor) (id : string) (quota : Z) : Prog World (Result AdminUserSummary) :=
  match requirePermission actor permissions.ADMIN_USERS_MANAGE with Failure e => mret (Failure e) | Success _ =>
  match requireUserId id with Failure e => mret (Failure e) | Success _ =>
    if quota <? 0 then mret (failure InvalidInput "quotaBytes cannot be negative")
    else
      updated ← adminUsers_setUploadQuota id quota
        (auditFor actor auditActions.USER_QUOTA_CHANGED id [("quotaBytes"%stdpp, toDecimal quota)]);
      mret (summaryOr updated)
  end end.

(** What stands in the way of a deactivation. *)
Definition deactivable (actor : Actor) (id : string) : Prog World VoidResult :=
  if owns actor id then
    mret (failure InvalidInput "an operator cannot deactivate their own account; ask another one")
  else refuseIfLastAdministrator id.

Definition setActive (actor : Actor) (id : string) (active : bool) : Prog World (Result AdminUserSummary) :=
  match requirePermission actor permissions.ADMIN_USERS_MANAGE with Failure e => mret (Failure e) | Success _ =>
  match requireUserId id with Failure e => mret (Failure e) | Success _ =>
    try? _ := (if active then mret (Success tt) else deactivable actor id) in
    updated ← adminUsers_setActive id active
      (auditFor actor (if active then auditActions.USER_ACTIVATED else auditActions.USER_DEACTIVATED) id []);
    mret (summaryOr updated)
  end end.

Definition setTemporaryPassword (actor : Actor) (id : string) : Prog World (Result TemporaryPassword) :=
  match requirePermission actor permissions.ADMIN_USERS_MANAGE with Failure e => mret (Failure e) | Success _ =>
  match requireUserId id with Failure e => mret (Failure e) | Success _ =>
    if owns actor id then
      mret (failure InvalidInput
        "an operator cannot set a temporary password on their own account; ask another one")
    else
      password ← draw randomTemporaryPassword;
      try? encoded := hashPassword password in
      updated ← adminUsers_setTemporaryPassword id encoded
        (auditFor actor auditActions.USER_TEMPORARY_PASSWORD_SET id []);
      mret (match updated with
            | None => failure NotFound NO_SUCH_ACCOUNT
            | Some summary => Success (mkTemporary summary password)
            end)
  end end.

(** The account is read back once the change has been classified. *)
Definition afterRoleChange (id role : string) (change : RoleChange) : Prog World (Result AdminUserSummary) :=
  match roleChangeError change role with Failure e => mret (Failure e) | Success _ =>
    found ← adminUsers_findById id;
    mret (summaryOr found)
  end.

Definition grantRole (actor : Actor) (id role : string) : Prog World (Result AdminUserSummary) :=
  match requirePermission actor permissions.ADMIN_ROLES_MANAGE with Failure e => mret (Failure e) | Success _ =>
  match requireUserId id with Failure e => mret (Failure e) | Success _ =>
    change ← adminUsers_grantRole id role (auditFor actor auditActions.ROLE_GRANTED id [("role"%stdpp, role)]);
    afterRoleChange id role change
  end end.

Definition revokeRole (actor : Actor) (id role : string) : Prog World (Result AdminUserSummary) :=
  match requirePermission actor permissions.ADMIN_ROLES_MANAGE with Failure e => mret (Failure e) | Success _ =>
  match requireUserId id with Failure e => mret (Failure e) | Success _ =>
    try? _ := refuseIfLastAdministrator id in
    change ← adminUsers_revokeRole id role (auditFor actor auditActions.ROLE_REVOKED id [("role"%stdpp, role)]);
    afterRoleChange id role change
  end end.

Definition listRoles (actor : Actor) : Prog World (Result (list Role)) :=
  match requirePermission actor permissions.ADMIN_ROLES_MANAGE with Failure e => mret (Failure e) | Success _ =>
    found ← adminUsers_listRoles;
    mret (Success found)
  end.

Definition listAudit (actor : Actor) (q : AuditQuery) : Prog World (Result AuditPage) :=
  match requirePermission actor permissions.ADMIN_SETTINGS_MANAGE with Failure e => mret (Failure e) | Success _ =>
    found ← audit_search (mkAuditQuery (auditByActor q) (auditByAction q) (auditByEntityType q) (auditByEntityId q)
              (clampLimit MAX_AUDIT_PAGE_SIZE (auditLimit q)) (clampOffset (auditOffset q)));
    mret (Success found)
  end.

(** ** Erasure *)

(** The last operator may not go; the permission is read from the token. *)
Definition notLastAdministrator (actor : Actor) : Prog World VoidResult :=
  if can actor permissions.ADMIN_USERS_MANAGE then
    others ← adminUsers_countOtherHoldersOf permissions.ADMIN_USERS_MANAGE (actorUserId actor);
    mret (if others =? 0 then failure Conflict LAST_ADMINISTRATOR else Success tt)
  else mret (Success tt).

Definition eraseAccount (actor : Actor) (command : EraseAccountCommand) : Prog World VoidResult :=
  if negb (isUuid (actorUserId actor)) then mret (failure Unauthenticated NO_ACCOUNT_OF_SESSION)
  else if MAX_ERASURE_REASON_LENGTH <? size (eraseReason command) then
    mret (Failure (invalidInput ("reason must be at most " +:+ toDecimal MAX_ERASURE_REASON_LENGTH +:+ " characters")
      rules.ERASURE_REASON_TOO_LONG [toDecimal MAX_ERASURE_REASON_LENGTH]))
  else
    found ← users_findById (actorUserId actor);
    match found with
    | None => mret (failure Unauthenticated NO_ACCOUNT_OF_SESSION)
    | Some user =>
        if negb (verify (erasePassword command) (accountPasswordHash user)) then
          mret (failure Unauthenticated "the password is incorrect")
        else
          try? _ := notLastAdministrator actor in
          erased ← accounts_erase (accountId user)
            (mkErasedIdentity (erasedEmailFor (accountId user)) ERASED_DISPLAY_NAME ERASED_PASSWORD_HASH
               (trim (eraseReason command)))
            (mkNewAudit (accountId user) auditActions.USER_ERASED auditEntities.USER (accountId user) []);
          mret (if (erased : bool) then Success tt else failure Unauthenticated NO_ACCOUNT_OF_SESSION)
    end.
End AdminUserService.
