(* ===== verification/AnalyticsService.v ===== *)
(** Download figures for the console: [src/services/AnalyticsService.cpp] and
    [PgAnalyticsRepository] of [src/repositories/postgres/PgAdminRepositories.cpp]. *)

From S2P Require Import Prelude.
From S2P Require Import Errors.
From S2P Require Import Time.
From S2P Require Import Actors.
From S2P Require Import Catalog.
From S2P Require Import Delta.
From S2P Require Import Programs.
From S2P Require Import World.
From S2P Require Import Ordering.
From S2P Require Import CatalogService.

(** ** Data *)

Definition DEFAULT_ANALYTICS_DAYS : Z := 30.
Definition MAX_ANALYTICS_DAYS : Z := 365.
Definition DEFAULT_ANALYTICS_TOP_GAMES : Z := 10.
Definition MAX_ANALYTICS_TOP_GAMES : Z := 50.

Record DownloadTotals := mkTotals {
  totalDownloads : Z;
  totalDistinctUsers : Z;
  totalBytesPlanned : Z;
  fullDownloads : Z;
  deltaDownloads : Z
}.

Record DownloadDay := mkDownloadDay { day : string; dayDownloads : Z; dayBytesPlanned : Z }.

Record GameDownloads := mkGameDownloads {
  downloadedGameId : string;
  downloadedSlug : string;
  downloadedTitle : string;
  gameDownloads : Z;
  gameBytesPlanned : Z;
  gameDistinctUsers : Z
}.

Record DownloadReport := mkDownloadReport {
  reportDays : Z;
  totals : DownloadTotals;
  daily : list DownloadDay;
  topGames : list GameDownloads
}.

(** ** Statements *)

(** [created_at >= now() - days]. *)
Definition recent (days now : Z) (e : DownloadEvent) : bool := now - days * SECONDS_PER_DAY <=? eventAt e.

(** [count(DISTINCT user_id)], which does not count the erased. *)
Definition distinctUsers (t : list DownloadEvent) : Z :=
  count (remove_dups (map (λ e, lowerText (eventUserId e)) (selectWhere (λ e, negb (bool_decide (eventUserId e = ""%stdpp))) t))).

Definition plannedBytes (t : list DownloadEvent) : Z := sumZ (map bytesPlanned t).

Definition ofKind (kind : DownloadKind) (e : DownloadEvent) : bool := bool_decide (eventKind e = kind).

Definition totalsOf (t : list DownloadEvent) : DownloadTotals :=
  mkTotals (count t) (distinctUsers t) (plannedBytes t) (count (selectWhere (ofKind FullDownload) t))
    (count (selectWhere (ofKind DeltaDownload) t)).

Definition onDay (d : Z) (t : list DownloadEvent) : list DownloadEvent := having (λ e, utcDay (eventAt e)) d t.

(** [generate_series]: the days from one to another, both included. *)
Definition daysOf (days now : Z) : list Z := map (λ i, utcDay now - days + Z.of_nat i) (seq 0 (Z.to_nat (days + 1))).

Definition dayOf (t : list DownloadEvent) (d : Z) : DownloadDay :=
  mkDownloadDay (dayText d) (count (onDay d t)) (plannedBytes (onDay d t)).

Definition ofGame (id : string) (t : list DownloadEvent) : list DownloadEvent :=
  selectWhere (λ e, uuidEq (eventGameId e) id) t.

Definition gameDownloadsOf (t : list DownloadEvent) (g : Game) : option GameDownloads :=
  match ofGame (gameId g) t with
  | [] => None
  | events => Some (mkGameDownloads (gameId g) (slug g) (title g) (count events) (plannedBytes events) (distinctUsers events))
  end.

(** [ORDER BY downloads DESC, g.title]. *)
Definition mostDownloaded (a b : GameDownloads) : comparison :=
  thenBy (CompOpp (Z.compare (gameDownloads a) (gameDownloads b))) (compareText (downloadedTitle a) (downloadedTitle b)).

(** Three statements, each at its own instant; a sum past the range of [int64_t] is an
    exception. *)
Definition analytics_downloadReport (days topGames : Z) : Prog World DownloadReport :=
  totals ← statement (λ w,
    let totals := totalsOf (selectWhere (recent days (clock w)) (downloadEvents w)) in
    if totalBytesPlanned totals <=? INT64_MAX then Some (totals, w) else None);
  daily ← statement (λ w,
    let daily := map (dayOf (downloadEvents w)) (daysOf days (clock w)) in
    if forallb (λ d, dayBytesPlanned d <=? INT64_MAX) daily then Some (daily, w) else None);
  games ← statement (λ w,
    let found := take (Z.to_nat topGames)
      (orderBy mostDownloaded (omap (gameDownloadsOf (selectWhere (recent days (clock w)) (downloadEvents w))) (games w))) in
    if forallb (λ g, gameBytesPlanned g <=? INT64_MAX) found then Some (found, w) else None);
  mret (mkDownloadReport days totals daily games).

(** ** Operations *)

Definition downloadReport (actor : Actor) (days topGames : Z) : Prog World (Result DownloadReport) :=
  if negb (can actor permissions.ADMIN_SETTINGS_MANAGE) then
    mret (failure Forbidden "you do not have permission to do that")
  else
    report ← analytics_downloadReport (clampLimit MAX_ANALYTICS_DAYS days) (clampLimit MAX_ANALYTICS_TOP_GAMES topGames);
    mret (Success report).

(** ** Lemmas *)

Lemma daysOf_in days now d : 0 ≤ days → d ∈ daysOf days now ↔ utcDay now - days ≤ d ≤ utcDay now.
Proof.
  intros Hd. unfold daysOf. rewrite list_elem_of_fmap. setoid_rewrite elem_of_seq. split.
  - intros (i & -> & Hi). lia.
  - intros Hr. exists (Z.to_nat (d - (utcDay now - days))). lia.
Qed.

Lemma daysOf_NoDup days now : NoDup (daysOf days now).
Proof. unfold daysOf. apply NoDup_fmap; [intros i j; lia|apply NoDup_seq]. Qed.

Lemma daysOf_length days now : 0 ≤ days → count (daysOf days now) = days + 1.
Proof. intros Hd. unfold count, daysOf. rewrite length_map, length_seq. lia. Qed.

(** What falls on the days of the window. *)
Definition inDays (days now : Z) (e : DownloadEvent) : bool :=
  (utcDay now - days <=? utcDay (eventAt e)) && (utcDay (eventAt e) <=? utcDay now).

Lemma onDay_inDays days now d t :
  0 ≤ days → d ∈ daysOf days now → onDay d t = onDay d (selectWhere (inDays days now) t).
Proof.
  intros Hd Hin%daysOf_in; [|done]. unfold onDay, having, selectWhere. induction t as [|e t IH]; [done|].
  cbn [List.filter]. destruct (decide (utcDay (eventAt e) = d)) as [E|E].
  - assert (inDays days now e = true) as -> by (unfold inDays; rewrite E; apply andb_true_iff; lia).
    cbn [List.filter]. rewrite bool_decide_eq_true_2 by done. by rewrite IH.
  - rewrite bool_decide_eq_false_2 by done. destruct (inDays days now e); [|done]. cbn [List.filter].
    by rewrite bool_decide_eq_false_2.
Qed.

Lemma dayText_total days now t :
  0 ≤ days →
  sumZ (map dayDownloads (map (dayOf t) (daysOf days now))) = count (selectWhere (inDays days now) t)
  ∧ sumZ (map dayBytesPlanned (map (dayOf t) (daysOf days now))) = plannedBytes (selectWhere (inDays days now) t).
Proof.
  intros Hd. rewrite !map_map. cbn [dayOf dayDownloads dayBytesPlanned].
  assert (Hin : ∀ e, e ∈ selectWhere (inDays days now) t → utcDay (eventAt e) ∈ daysOf days now).
  { intros e [_ He]%elem_of_selectWhere. apply daysOf_in; [done|]. apply andb_true_iff in He as [H1 H2]. lia. }
  split.
  - unfold count. rewrite <- (counts_total (λ e, utcDay (eventAt e)) (daysOf days now)); [|apply daysOf_NoDup|done].
    f_equal. apply map_ext_in. intros d Hi. change (having (λ e, utcDay (eventAt e)) d) with (onDay d).
    by rewrite (onDay_inDays days now) by (done || by apply list_elem_of_In).
  - unfold plannedBytes. rewrite <- (weights_total (λ e, utcDay (eventAt e)) bytesPlanned (daysOf days now)); [|apply daysOf_NoDup|done].
    f_equal. apply map_ext_in. intros d Hi. change (having (λ e, utcDay (eventAt e)) d) with (onDay d).
    by rewrite (onDay_inDays days now) by (done || by apply list_elem_of_In).
Qed.

Lemma kinds_total t : count (selectWhere (ofKind FullDownload) t) + count (selectWhere (ofKind DeltaDownload) t) = count t.
Proof.
  unfold count, selectWhere, ofKind. induction t as [|e t IH]; [done|]. cbn [List.filter].
  destruct (eventKind e); repeat case_bool_decide; try done; cbn [length]; lia.
Qed.

(** What happened in the last so many seconds happened on the days of the window. *)
Lemma recent_inDays days now e :
  0 ≤ days → eventAt e ≤ now → recent days now e = true → inDays days now e = true.
Proof.
  unfold recent, inDays, utcDay, SECONDS_PER_DAY. intros Hd Hnow Hr. apply andb_true_iff. split; apply Z.leb_le.
  - replace (now / 86400 - days) with ((now - days * 86400) / 86400); [apply Z.div_le_mono; lia|].
    replace (now - days * 86400) with (now + (- days) * 86400) by lia. rewrite Z.div_add; lia.
  - apply Z.div_le_mono; lia.
Qed.

Definition reportOf (days most : Z) (w : World) : DownloadReport :=
  let events := selectWhere (recent days (clock w)) (downloadEvents w) in
  mkDownloadReport days (totalsOf events) (map (dayOf (downloadEvents w)) (daysOf days (clock w)))
    (take (Z.to_nat most) (orderBy mostDownloaded (omap (gameDownloadsOf events) (games w)))).

(** The figures a report may hold: what [int64_t] can count. *)
Definition countable (report : DownloadReport) : bool :=
  (totalBytesPlanned (totals report) <=? INT64_MAX) && forallb (λ d, dayBytesPlanned d <=? INT64_MAX) (daily report)
  && forallb (λ g, gameBytesPlanned g <=? INT64_MAX) (topGames report).

Lemma perform_report actor days most w :
  can actor permissions.ADMIN_SETTINGS_MANAGE = true →
  let report := reportOf (clampLimit MAX_ANALYTICS_DAYS days) (clampLimit MAX_ANALYTICS_TOP_GAMES most) w in
  perform (downloadReport actor days most) w = (if countable report then Some (Success report) else None, w).
Proof.
  intros Hc. cbv zeta. unfold downloadReport, analytics_downloadReport, countable, reportOf. rewrite Hc. cbn [negb]. cbv zeta.
  cbn [totals daily topGames]. run_statements. destruct (_ <=? INT64_MAX); [|done]. run_statements.
  destruct (forallb _ (map _ _)); [|done]. run_statements. by destruct (forallb _ (take _ _)).
Qed.

Lemma uuid_NoDup_counts ids t :
  NoDup (map lowerText ids) → sumZ (map (λ id, count (ofGame id t)) ids) ≤ count t.
Proof.
  intros Hnd. induction t as [|e t IH].
  - cbn. rewrite (map_ext _ (λ _, 0)) by done. by rewrite sumZ_zero.
  - rewrite (map_ext _ (λ id, (if bool_decide (lowerText (eventGameId e) = lowerText id) then 1 else 0) + count (ofGame id t))).
    2: { intros id. unfold ofGame, selectWhere, count, uuidEq. cbn [List.filter]. case_bool_decide; cbn [length]; lia. }
    rewrite sumZ_add. pose proof (indicator_sum (lowerText (eventGameId e)) 1 (map lowerText ids) Hnd) as Hi.
    rewrite map_map in Hi. rewrite Hi. unfold count in *. cbn [length]. case_bool_decide; lia.
Qed.

Lemma gameDownloads_ids t l :
  sumZ (map gameDownloads (omap (gameDownloadsOf t) l)) = sumZ (map (λ g, count (ofGame (gameId g) t)) l).
Proof.
  induction l as [|g l IH]; [done|]. cbn. unfold gameDownloadsOf at 1.
  destruct (ofGame (gameId g) t) as [|e events]; cbn; unfold sumZ in *; by rewrite IH.
Qed.

Lemma gameDownloads_nonneg t l : Forall (λ g, 0 ≤ gameDownloads g) (omap (gameDownloadsOf t) l).
Proof.
  apply Forall_forall. intros r (g & _ & E)%list_elem_of_omap. unfold gameDownloadsOf in E.
  destruct (ofGame _ _); [done|]. injection E as <-. cbn [gameDownloads]. unfold count. lia.
Qed.

#[local] Instance mostDownloaded_comparison : Comparison mostDownloaded.
Proof.
  apply comparison_then; [apply comparison_down, (comparison_on gameDownloads Z.compare), _
    |apply (comparison_on downloadedTitle compareText), _].
Qed.

