(* ===== verification/CrashReportService.v ===== *)
(** Receiving and reading crash reports: [src/services/CrashReportService.h],
    [src/services/CrashReportService.cpp] and
    [src/repositories/postgres/PgCrashReportRepository.cpp], one definition per statement. *)

From S2P Require Import Prelude.
From S2P Require Import Errors.
From S2P Require Import Validation.
From S2P Require Import Actors.
From S2P Require Import Manifest.
From S2P Require Import Hash.
From S2P Require Import CrashReport.
From S2P Require Import Programs.
From S2P Require Import World.
From S2P Require Import Ordering.
From S2P Require Import Accounts.
From S2P Require Import CatalogService.

(** ** Data *)

Record CrashReport := mkStoredCrash {
  crashId : string;
  crashReported : NewCrashReport;
  fingerprint : string;
  receivedAt : string
}.

Record CrashGroup := mkCrashGroup {
  groupFingerprint : string;
  groupExceptionType : string;
  groupMessage : string;
  occurrences : Z;
  firstSeenAt : string;
  lastSeenAt : string;
  latestReportId : string
}.

Definition DEFAULT_CRASH_PAGE_SIZE : Z := 25.
Definition MAX_CRASH_PAGE_SIZE : Z := 100.

Record CrashQuery := mkCrashQuery { crashFingerprintIs : string; crashLimit : Z; crashOffset : Z }.
Record CrashPage := mkCrashPage { crashItems : list CrashReport; crashTotal : Z }.
Record CrashGroupPage := mkCrashGroupPage { groupItems : list CrashGroup; groupTotal : Z }.

Record CrashReportSettings := mkCrashSettings { retentionSeconds : Z }.

(** ** Statements *)

Section Statements.
Context `{Postgres}.

(** The instant is kept as one, and read back in the one form [to_char] gives. *)
Definition withInstant (at_ : Z) (r : NewCrashReport) : NewCrashReport :=
  mkCrashReport (crashKind r) (to_char_utc at_) (launcherVersion r) (crashPlatform r) (exceptionType r)
    (crashMessage r) (stackTrace r).

Definition mapReport (row : CrashRow) : CrashReport :=
  mkStoredCrash (crashRowId row) (crashRowReport row) (crashRowFingerprint row) (to_char_utc (crashReceivedAt row)).

Definition crashIs (id : string) (row : CrashRow) : bool := uuidEq (crashRowId row) id.

(** Refused when the instant is none, by [crash_reports_kind_not_empty], by
    [crash_reports_fingerprint_format] and by the primary key. *)
Definition crashes_add (report : NewCrashReport) (print : string) : Prog World CrashReport :=
  statement (λ w,
    let id := gen_random_uuid (draws w) in
    match timestamptz (occurredAt report) with
    | None => None
    | Some at_ =>
        if bool_decide (crashKind report = ""%stdpp) || negb (isSha256Hex print)
           || anyWhere (crashIs id) (crashReports w) then None
        else
          let row := mkCrashRow id (withInstant at_ report) print (clock w) in
          Some (mapReport row, setCrashReports (insertRow row (crashReports w)) (setDraws (S (draws w)) w))
    end).

Definition crashListed (q : CrashQuery) (row : CrashRow) : bool :=
  bool_decide (crashFingerprintIs q = ""%stdpp) || bool_decide (crashRowFingerprint row = crashFingerprintIs q).

(** [ORDER BY received_at DESC, id]. *)
Definition newestCrash (a b : CrashRow) : comparison :=
  thenBy (CompOpp (Z.compare (crashReceivedAt a) (crashReceivedAt b))) (compareUuid (crashRowId a) (crashRowId b)).

Definition crashes_search (q : CrashQuery) : Prog World CrashPage :=
  rows ← query (λ w, map mapReport (page (crashLimit q) (crashOffset q)
    (orderBy newestCrash (selectWhere (crashListed q) (crashReports w)))));
  total ← query (λ w, Z.of_nat (length (selectWhere (crashListed q) (crashReports w))));
  mret (mkCrashPage rows total).

(** The reports of one fingerprint, the newest first. *)
Definition crashesOf (print : string) (t : list CrashRow) : list CrashRow :=
  orderBy newestCrash (selectWhere (λ row, bool_decide (crashRowFingerprint row = print)) t).

Definition fingerprintsOf (t : list CrashRow) : list string := remove_dups (map crashRowFingerprint t).

(** A group, with when it was last seen: the newest report stands for all of them. *)
Definition groupOf (t : list CrashRow) (print : string) : option (Z * CrashGroup) :=
  match crashesOf print t with
  | [] => None
  | latest :: rest =>
      let times := map crashReceivedAt (latest :: rest) in
      let first := foldr Z.min (crashReceivedAt latest) times in
      let last := foldr Z.max (crashReceivedAt latest) times in
      Some (last, mkCrashGroup print (exceptionType (crashRowReport latest)) (crashMessage (crashRowReport latest))
        (Z.of_nat (length (latest :: rest))) (to_char_utc first) (to_char_utc last) (crashRowId latest))
  end.

(** [ORDER BY c.last_seen DESC, l.fingerprint]. *)
Definition latestGroup (a b : Z * CrashGroup) : comparison :=
  thenBy (CompOpp (Z.compare a.1 b.1)) (compareText (groupFingerprint a.2) (groupFingerprint b.2)).

Definition groupsOf (t : list CrashRow) : list CrashGroup :=
  map snd (orderBy latestGroup (omap (groupOf t) (fingerprintsOf t))).

Definition crashes_groups (limit offset : Z) : Prog World CrashGroupPage :=
  rows ← query (λ w, page limit offset (groupsOf (crashReports w)));
  total ← query (λ w, Z.of_nat (length (fingerprintsOf (crashReports w))));
  mret (mkCrashGroupPage rows total).

Definition crashes_findById (id : string) : Prog World (option CrashReport) :=
  query (λ w, fmap (M := option) mapReport (selectFirst (crashIs id) (crashReports w))).

Definition crashes_deleteOlderThan (seconds : Z) : Prog World nat :=
  exec (λ w,
    let gone row := crashReceivedAt row <? clock w - seconds in
    (length (selectWhere gone (crashReports w)), setCrashReports (deleteWhere gone (crashReports w)) w)).
End Statements.

(** ** The service *)

Section Service.
Context `{Evp, Postgres}.
Variable settings : CrashReportSettings.

Definition requireReader (actor : Actor) : VoidResult :=
  if can actor permissions.ADMIN_CRASHES_READ then Success tt else failure Forbidden "you cannot read crash reports".

Definition trimmedReport (r : NewCrashReport) : NewCrashReport :=
  mkCrashReport (trim (crashKind r)) (trim (occurredAt r)) (trim (launcherVersion r)) (trim (crashPlatform r))
    (trim (exceptionType r)) (crashMessage r) (stackTrace r).

Definition submitCrash (report : NewCrashReport) : Prog World (Result CrashReport) :=
  let candidate := trimmedReport report in
  match validateCrashReport candidate with Failure e => mret (Failure e) | Success _ =>
    stored ← crashes_add candidate (crashFingerprint candidate);
    mret (Success stored)
  end.

Definition listCrashGroups (actor : Actor) (limit offset : Z) : Prog World (Result CrashGroupPage) :=
  match requireReader actor with Failure e => mret (Failure e) | Success _ =>
    found ← crashes_groups (clampLimit MAX_CRASH_PAGE_SIZE limit) (clampOffset offset);
    mret (Success found)
  end.

Definition listCrashes (actor : Actor) (q : CrashQuery) : Prog World (Result CrashPage) :=
  match requireReader actor with Failure e => mret (Failure e) | Success _ =>
    found ← crashes_search (mkCrashQuery (crashFingerprintIs q) (clampLimit MAX_CRASH_PAGE_SIZE (crashLimit q))
              (clampOffset (crashOffset q)));
    mret (Success found)
  end.

Definition NO_SUCH_CRASH : string := "no such crash report".

Definition findCrash (actor : Actor) (id : string) : Prog World (Result CrashReport) :=
  match requireReader actor with Failure e => mret (Failure e) | Success _ =>
    if negb (isUuid id) then mret (failure NotFound NO_SUCH_CRASH)
    else
      found ← crashes_findById id;
      mret (match found with Some report => Success report | None => failure NotFound NO_SUCH_CRASH end)
  end.

Definition sweepExpiredCrashes : Prog World nat := crashes_deleteOlderThan (retentionSeconds settings).
End Service.
