(* ===== verification/PatchNoteService.v ===== *)
(** Devlogs: [src/services/PatchNoteService.h] and [src/services/PatchNoteService.cpp]. *)

From S2P Require Import Prelude.
From S2P Require Import Errors.
From S2P Require Import Validation.
From S2P Require Import Actors.
From S2P Require Import Catalog.
From S2P Require Import PatchNote.
From S2P Require Import Programs.
From S2P Require Import World.
From S2P Require Import Accounts.
From S2P Require Import CatalogRepositories.
From S2P Require Import ContentRepositories.
From S2P Require Import CatalogService.

Record CreatePatchNoteCommand := mkCreateNote {
  noteCommandTitle : string;
  noteCommandBody : string;
  noteCommandVersionId : string;
  noteCommandPublish : bool
}.

Definition NO_SUCH_NOTE : string := "no such patch note".

Section Service.
Context `{Postgres}.

(** A note and the game it hangs off, for a caller who may change it. *)
Definition editableNote (actor : Actor) (id : string) : Prog World (Result PatchNote) :=
  if negb (isUuid id) then mret (failure NotFound NO_SUCH_NOTE)
  else
    found ← notes_findById id;
    match found with
    | None => mret (failure NotFound NO_SUCH_NOTE)
    | Some note =>
        owner ← games_findById (noteGameId note);
        match owner with
        | None => mret (failure NotFound NO_SUCH_NOTE)
        | Some game =>
            mret (if negb (mayViewGame game actor) then failure NotFound NO_SUCH_NOTE
                  else if negb (mayEditGame game actor) then failure Forbidden NOT_YOURS
                  else Success note)
        end
    end.

Definition listNotes (actor : Actor) (idOrSlug : string) (limit offset : Z) : Prog World (Result PatchNotePage) :=
  if negb (can actor permissions.GAME_READ) then mret (failure Forbidden "you cannot browse the catalog")
  else
    try? game := visibleGame actor idOrSlug in
    found ← notes_search (mkNoteQuery (gameId game) (mayEditGame game actor)
                            (clampLimit MAX_PATCH_NOTE_PAGE_SIZE limit) (clampOffset offset));
    mret (Success found).

(** A version a note may name: none, or one of the same game. *)
Definition noteVersionAllowed (version game : string) : Prog World bool :=
  if bool_decide (version = ""%stdpp) then mret true
  else
    found ← versionOfGame version game;
    mret (if (found : option GameVersion) then true else false).

Definition createNote (actor : Actor) (idOrSlug : string) (command : CreatePatchNoteCommand)
    : Prog World (Result PatchNote) :=
  try? game := editableGame actor idOrSlug in
  let title := trim (noteCommandTitle command) in
  let version := trim (noteCommandVersionId command) in
  match (let? _ := validatePatchNoteTitle title in validatePatchNoteBody (noteCommandBody command)) with
  | Failure e => mret (Failure e)
  | Success _ =>
      allowed ← noteVersionAllowed version (gameId game);
      if negb (allowed : bool) then mret (failure NotFound NO_SUCH_VERSION)
      else notes_create (mkNewNote (gameId game) version title (noteCommandBody command) (actorUserId actor)
                           (noteCommandPublish command))
  end.

(** The changes an update applies, once its texts are found valid. *)
Definition validNoteUpdate (changes : PatchNoteUpdate) : Result PatchNoteUpdate :=
  let title := fmap (M := option) trim (changeNoteTitle changes) in
  let? _ := checkOptional validatePatchNoteTitle title in
  let? _ := checkOptional validatePatchNoteBody (changeNoteBody changes) in
  Success (mkNoteUpdate title (changeNoteBody changes) (fmap (M := option) trim (changeNoteVersionId changes))
             (changeNotePublished changes)).

Definition updateNote (actor : Actor) (id : string) (changes : PatchNoteUpdate) : Prog World (Result PatchNote) :=
  try? existing := editableNote actor id in
  if noteUpdateEmpty changes then mret (Success existing)
  else match validNoteUpdate changes with
       | Failure e => mret (Failure e)
       | Success changes =>
           allowed ← noteVersionAllowed (default "" (changeNoteVersionId changes)) (noteGameId existing);
           if negb (allowed : bool) then mret (failure NotFound NO_SUCH_VERSION)
           else
             updated ← notes_update id changes;
             match updated with
             | None => mret (failure NotFound NO_SUCH_NOTE)
             | Some note => mret (Success note)
             end
       end.

Definition removeNote (actor : Actor) (id : string) : Prog World VoidResult :=
  try? existing := editableNote actor id in
  removed ← notes_remove id;
  mret (if (removed : bool) then Success tt else failure NotFound NO_SUCH_NOTE).
End Service.
