(* ===== verification/MediaService.v ===== *)
(** Game artwork: [src/services/MediaService.h] and [src/services/MediaService.cpp]. *)

From S2P Require Import Prelude.
From S2P Require Import Errors.
From S2P Require Import Validation.
From S2P Require Import Actors.
From S2P Require Import Catalog.
From S2P Require Import Media.
From S2P Require Import Hash.
From S2P Require Import Programs.
From S2P Require Import World.
From S2P Require Import Accounts.
From S2P Require Import CatalogRepositories.
From S2P Require Import ContentRepositories.
From S2P Require Import MediaStore.
From S2P Require Import CatalogService.

Record UploadMediaCommand := mkUploadMedia {
  uploadKind : MediaKind;
  uploadAltText : string;
  uploadSortOrder : Z;
  uploadBytes : list ascii
}.

Record MediaLimits := mkMediaLimits { maxBytes : Z; maxVideoBytes : Z }.

Definition NO_SUCH_MEDIA : string := "no such image".

(** The format of the body, sniffed for what the caller says it is. *)
Definition sniffedFormat (kind : MediaKind) (bytes : list ascii) : option StoredFormat :=
  if isVideoKind kind then fmap (M := option) storedFormatOfVideo (sniffVideoFormat bytes)
  else fmap (M := option) storedFormatOfImage (sniffImageFormat bytes).

Definition galleryCap (kind : MediaKind) : Z :=
  if isVideoKind kind then MAX_VIDEOS_PER_GAME else MAX_SCREENSHOTS_PER_GAME.

Section Service.
Context `{Evp, Postgres, Disk}.
Variable limits : MediaLimits.

Definition listMedia (actor : Actor) (idOrSlug : string) : Prog World (Result (list GameMedia)) :=
  if negb (can actor permissions.GAME_READ) then mret (failure Forbidden "you cannot browse the catalog")
  else
    try? game := visibleGame actor idOrSlug in
    media ← media_listForGame (gameId game);
    mret (Success media).

(** What a command asks to be stored, once it is found valid: the format of its bytes. *)
Definition acceptedUpload (command : UploadMediaCommand) : Result StoredFormat :=
  let video := isVideoKind (uploadKind command) in
  let limit := if video then maxVideoBytes limits else maxBytes limits in
  if bool_decide (uploadBytes command = []) then failure InvalidInput "the request body is empty"
  else if limit <? Z.of_nat (length (uploadBytes command)) then
    failure InvalidInput ((if video then "a video" else "an image") +:+ " must be at most "
                          +:+ toDecimal limit +:+ " bytes")
  else
    let? _ := validateAltText (uploadAltText command) in
    match sniffedFormat (uploadKind command) (uploadBytes command) with
    | None => failure InvalidInput (if video then "the body is not an MP4 or WebM video"
                                    else "the body is not a PNG, JPEG or WebP image")
    | Some format => Success format
    end.

(** Whether the gallery has room for one more of that kind. *)
Definition galleryHasRoom (game : string) (kind : MediaKind) : Prog World bool :=
  if isSingletonKind kind then mret true
  else
    existing ← media_countForGame game kind;
    mret (existing <? galleryCap kind).

Definition uploadMedia (actor : Actor) (idOrSlug : string) (command : UploadMediaCommand)
    : Prog World (Result GameMedia) :=
  try? game := editableGame actor idOrSlug in
  match acceptedUpload command with
  | Failure e => mret (Failure e)
  | Success format =>
      room ← galleryHasRoom (gameId game) (uploadKind command);
      if negb (room : bool) then
        mret (failure Conflict ("a game may have at most " +:+ toDecimal (galleryCap (uploadKind command))
                                +:+ (if isVideoKind (uploadKind command) then " videos" else " screenshots")))
      else
        stored ← onMediaDisk (mediaPut (uploadBytes command) format);
        match stored with
        | Failure e => mret (Failure e)
        | Success key =>
            created ← media_create (mkNewMedia (gameId game) (uploadKind command) key (substr key 6 64)
              (contentType format) (Z.of_nat (length (uploadBytes command))) (uploadAltText command)
              (uploadSortOrder command));
            match created with
            | Failure e => mret (Failure e)
            | Success result =>
                _ ← reclaim (replacedStorageKey result);
                mret (Success (storedMedia result))
            end
        end
  end.

(** A row and the game it hangs off, for a caller who may change it. *)
Definition editableMedia (actor : Actor) (id : string) : Prog World (Result GameMedia) :=
  if negb (isUuid id) then mret (failure NotFound NO_SUCH_MEDIA)
  else
    found ← media_findById id;
    match found with
    | None => mret (failure NotFound NO_SUCH_MEDIA)
    | Some media =>
        owner ← games_findById (mediaGameId media);
        match owner with
        | None => mret (failure NotFound NO_SUCH_MEDIA)
        | Some game =>
            mret (if negb (mayViewGame game actor) then failure NotFound NO_SUCH_MEDIA
                  else if negb (mayEditGame game actor) then failure Forbidden NOT_YOURS
                  else Success media)
        end
    end.

Definition updateMedia (actor : Actor) (id : string) (changes : GameMediaUpdate) : Prog World (Result GameMedia) :=
  try? existing := editableMedia actor id in
  if mediaUpdateEmpty changes then mret (Success existing)
  else match checkOptional validateAltText (changeAltText changes) with
       | Failure e => mret (Failure e)
       | Success _ =>
           updated ← media_update id changes;
           match updated with
           | None => mret (failure NotFound NO_SUCH_MEDIA)
           | Some media => mret (Success media)
           end
       end.

Definition removeMedia (actor : Actor) (id : string) : Prog World VoidResult :=
  try? existing := editableMedia actor id in
  removed ← media_remove id;
  match removed with
  | None => mret (failure NotFound NO_SUCH_MEDIA)
  | Some media => _ ← reclaim (mediaStorageKey media); mret (Success tt)
  end.
End Service.
