(* ===== verification/StorageSafety.v ===== *)
(** What every statement on blobs, upload sessions and builds keeps, whoever else is
    running: the keys and references of the tables, the bounds of a session, the names of
    the stored files, and everything a published build is made of. *)

From S2P Require Import Prelude.
From S2P Require Import Errors.
From S2P Require Import Validation.
From S2P Require Import Actors.
From S2P Require Import Catalog.
From S2P Require Import Manifest.
From S2P Require Import Hash.
From S2P Require Import BlobStore.
From S2P Require Import Programs.
From S2P Require Import Random.
From S2P Require Import World.
From S2P Require Import Accounts.
From S2P Require Import MailTemplates.
From S2P Require Import AuthService.
From S2P Require Import AccountSafety.
From S2P Require Import Media.
From S2P Require Import PatchNote.
From S2P Require Import Uploads.
From S2P Require Import CatalogRepositories.
From S2P Require Import ContentRepositories.
From S2P Require Import MediaStore.

(** ** Invariant *)

Definition SessionOk (s : SessionRow) : Prop := 0 ≤ receivedBytes s ≤ declaredSizeBytes s.

(** A blob row the service wrote. *)
Definition BlobOk (b : BlobRow) : Prop :=
  isSha256Hex (blobSha b) = true ∧ 0 ≤ blobSize b ≤ INT64_MAX ∧ blobStorageKey b = storageKeyFor (blobSha b).

(** A foreign key. *)
Definition references {Row Row'} (key : Row → string) (named : string → Row' → bool) (t : list Row)
    (t' : list Row') : Prop :=
  Forall (λ r, anyWhere (named (key r)) t' = true) t.

Record StorageInv `{Evp} (w : World) : Prop := {
  session_ids : NoDup (map (λ s, lowerText (sessionId s)) (sessions w));
  session_bounds : Forall SessionOk (sessions w);
  session_open : ∀ s s', s ∈ sessions w → s' ∈ sessions w → isPending s' = true →
    openFor (sessionBuildId s') (sessionSha s') s = true → s = s';
  blob_keys : NoDup (map blobSha (blobs w));
  blob_rows : Forall BlobOk (blobs w);
  build_ids : NoDup (map (λ b, lowerText (buildId b)) (builds w));
  manifest_blobs : Forall (λ r, anyWhere (blobIs (fileSha r)) (blobs w) = true) (buildFiles w);
  manifest_keys : ManifestKeys w;
  uploading_empty : ∀ r b, r ∈ buildFiles w → b ∈ builds w → buildIs (fileBuildId r) b = true → status b = Ready;
  manifest_builds : references fileBuildId buildIs (buildFiles w) (builds w);
  session_builds : references sessionBuildId buildIs (sessions w) (builds w);
  store_named : StoreSound (files w)
}.

(** The unique keys of the catalog. *)
Definition versionKey (v : GameVersion) : string * string := (lowerText (versionGameId v), semver v).
Definition targetKey (b : Build) : string * BuildPlatform * BuildArchitecture :=
  (lowerText (buildVersionId b), platform b, architecture b).
Definition shelfKey (r : LibraryRow) : string * string := (lowerText (libraryUserId r), lowerText (libraryGameId r)).

(** Every row of the catalog is the only one with its key, and what it names is there. *)
Definition MediaRowOk (m : GameMedia) : Prop :=
  MediaFits (mediaStorageKey m) (mediaSha256 m) (mediaContentType m) ∧ keyFits (mediaStorageKey m) = true.

Record CatalogInv `{Evp} (w : World) : Prop := {
  game_ids : NoDup (map (λ g, lowerText (gameId g)) (games w));
  game_slugs : NoDup (map slug (games w));
  game_publishers : references publisherUserId userIs (games w) (users w);
  version_ids : NoDup (map (λ v, lowerText (versionId v)) (versions w));
  version_keys : NoDup (map versionKey (versions w));
  version_games : references versionGameId gameIs (versions w) (games w);
  build_targets : NoDup (map targetKey (builds w));
  build_versions : references buildVersionId versionIs (builds w) (versions w);
  media_ids : NoDup (map (λ m, lowerText (mediaId m)) (gameMedia w));
  media_rows : Forall MediaRowOk (gameMedia w);
  media_named : MediaSound (mediaFiles w);
  media_games : references mediaGameId gameIs (gameMedia w) (games w);
  media_single : ∀ m m', m ∈ gameMedia w → m' ∈ gameMedia w →
    singleton (mediaGameId m) (mediaKind m) m' = true → m' = m;
  note_ids : NoDup (map (λ n, lowerText (noteId n)) (patchNotes w));
  note_games : references noteGameId gameIs (patchNotes w) (games w);
  note_versions : Forall (λ n, versionFits (noteGameVersionId n) w = true) (patchNotes w);
  shelf_keys : NoDup (map shelfKey (userGames w));
  shelf_games : references libraryGameId gameIs (userGames w) (games w);
  shelf_users : references libraryUserId userIs (userGames w) (users w)
}.

Definition SysInv `{Evp} (w : World) : Prop := AccountsInv w ∧ StorageInv w ∧ CatalogInv w.

(** Tables the accounts are made of. *)
Definition SameAccounts (w w' : World) : Prop :=
  users w' = users w ∧ refreshTokens w' = refreshTokens w ∧ userTokens w' = userTokens w
  ∧ roleGrants w' = roleGrants w ∧ auditLog w' = auditLog w.

Definition SameCatalog (w w' : World) : Prop :=
  games w' = games w ∧ versions w' = versions w ∧ builds w' = builds w ∧ buildFiles w' = buildFiles w
  ∧ gameMedia w' = gameMedia w ∧ patchNotes w' = patchNotes w ∧ userGames w' = userGames w
  ∧ mediaFiles w' = mediaFiles w.

(** A statement that neither publishes nor collects. *)
Record StoreGo `{Evp} (w w' : World) : Prop := {
  store_inv : StorageInv w';
  store_accounts : SameAccounts w w';
  store_catalog : SameCatalog w w';
  store_blobs : ∀ b, b ∈ blobs w → b ∈ blobs w'
}.

Notation StoreProg p := (Keeps StorageInv StoreGo p (λ _, True)).

Record SysGo `{Evp} (w w' : World) : Prop := {
  sys_inv : SysInv w';
  sys_accounts : AccountsKept w w';
  sys_catalog : SameCatalog w w';
  sys_blobs : ∀ b, b ∈ blobs w → b ∈ blobs w'
}.

Notation SysProg p := (Keeps SysInv SysGo p (λ _, True)).

Section Lift.
Context `{Evp}.

Lemma StoreGo_refl w : StorageInv w → StoreGo w w.
Proof. by split. Qed.

Lemma StorageInv_same w w' : SameStorage w w' → StorageInv w → StorageInv w'.
Proof.
  intros (E1 & E2 & E3 & E4 & E5 & E6 & E7 & _) [].
  split; unfold ManifestKeys; rewrite ?E3, ?E4, ?E5, ?E6, ?E7; done.
Qed.

Lemma AccountsInv_same w w' : SameAccounts w w' → AccountsInv w → AccountsInv w'.
Proof.
  intros (E1 & E2 & E3 & _) [[] HQ]. split; [split|]; unfold UsageOk in *; rewrite ?E1, ?E2, ?E3; done.
Qed.

(** Accounts are never removed. *)
Lemma users_still w w' id :
  AccountsKept w w' → anyWhere (userIs id) (users w) = true → anyWhere (userIs id) (users w') = true.
Proof.
  rewrite !anyWhere_true. intros (new & _ & HS) (u & Hu & Eid).
  destruct (users_kept _ _ _ HS u Hu) as (u' & Hu' & [E _ _ _ _]).
  exists u'. split; [done|]. unfold userIs in *. by rewrite E.
Qed.

Lemma CatalogInv_same w w' : SameCatalog w w' → AccountsKept w w' → CatalogInv w → CatalogInv w'.
Proof.
  intros (E1 & E2 & E3 & E4 & E5 & E6 & E7 & E8) HU [].
  split; unfold references, versionFits in *; rewrite ?E1, ?E2, ?E3, ?E4, ?E5, ?E6, ?E7, ?E8; try done.
  all: eapply Forall_impl; [eassumption|]; intros r; by apply users_still.
Qed.

Lemma SameAccounts_kept w w' : SameAccounts w w' → AccountsKept w w'.
Proof. intros (E1 & E2 & E3 & E4 & E5). apply quiet_kept; rewrite ?E2, ?E3, ?E4; eauto. Qed.

Lemma SameStorage_catalog w w' : SameStorage w w' → SameCatalog w w'.
Proof. intros (? & ? & ? & ? & _ & _ & _ & ? & ? & ? & ?). by split_and!. Qed.

Lemma lift_account {A} (p : Prog World A) Q : Keeps AccountsInv AccountsGo p Q → Keeps SysInv SysGo p Q.
Proof.
  apply Keeps_weaken; [by intros w []| |done]. intros w w' (HA & HS & HC) [HI HK HE _].
  split; [split_and!; [done|by eapply StorageInv_same|by eapply CatalogInv_same; [apply SameStorage_catalog| |]]|done|..].
  - by apply SameStorage_catalog.
  - destruct HE as (_ & _ & _ & _ & -> & _). done.
Qed.

Lemma lift_store {A} (p : Prog World A) Q : Keeps StorageInv StoreGo p Q → Keeps SysInv SysGo p Q.
Proof.
  apply Keeps_weaken; [by intros w (_ & ? & _)| |done]. intros w w' (HA & HS & HI) [HI' HE HC HB].
  pose proof (SameAccounts_kept w w' HE) as HK.
  split; [split_and!; [by eapply AccountsInv_same|done|by eapply CatalogInv_same]|done|done|done].
Qed.

(** ** Statements *)

Lemma store_query {B} (f : World → B) (Q : B → Prop) :
  (∀ w, StorageInv w → Q (f w)) → Keeps StorageInv StoreGo (query f) Q.
Proof. intros HQ w b w' HI [= <- <-]. split; [by apply StoreGo_refl|]. by apply HQ. Qed.

(** A call into the blob store. *)
Lemma onDisk_keeps `{Disk} {A} (f : Faults → gmap string (list ascii) → A * gmap string (list ascii)) :
  (∀ faults fs, StoreSound fs → StoreSound (f faults fs).2) → StoreProg (onDisk f).
Proof.
  intros Hf w b w' HI [= <- <-]. split; [|done]. destruct HI. split; [|done..].
  split; cbn; try done. by apply Hf.
Qed.

(** Changing the sessions alone. *)
Lemma setSessions_keeps w t :
  StorageInv w → NoDup (map (λ s, lowerText (sessionId s)) t) → Forall SessionOk t →
  (∀ s s', s ∈ t → s' ∈ t → isPending s' = true → openFor (sessionBuildId s') (sessionSha s') s = true → s = s') →
  references sessionBuildId buildIs t (builds w) →
  StoreGo w (setSessions t w).
Proof. intros [] ????. by split. Qed.

Section UpdateSession.
Variables (p : SessionRow → bool) (f : SessionRow → SessionRow).
Hypothesis keeps_id : ∀ s, sessionId (f s) = sessionId s.
Hypothesis keeps_build : ∀ s, sessionBuildId (f s) = sessionBuildId s.
Hypothesis keeps_sha : ∀ s, sessionSha (f s) = sessionSha s.
Hypothesis not_reopened : ∀ s, isPending (f s) = true → isPending s = true.

Lemma updateSessions_keeps w :
  StorageInv w → (∀ s, s ∈ sessions w → p s = true → SessionOk (f s)) →
  StoreGo w (setSessions (updateWhere p f (sessions w)) w).
Proof.
  intros HI Hf. apply setSessions_keeps; [done|..].
  - rewrite (updateWhere_keys (λ s, lowerText (sessionId s))); [apply HI|]. intros. by rewrite keeps_id.
  - apply Forall_updateWhere; [apply HI|]. auto.
  - set (g s := if p s then f s else s).
    assert (∀ s, sessionBuildId (g s) = sessionBuildId s ∧ sessionSha (g s) = sessionSha s
      ∧ (isPending (g s) = true → isPending s = true)) as Hg.
    { intros s. unfold g. destruct (p s); auto. }
    intros s s' (s0 & Hs0 & ->)%elem_of_updateWhere (s1 & Hs1 & ->)%elem_of_updateWhere Hp Ho.
    fold (g s0) in *. fold (g s1) in *. destruct (Hg s0) as (E1 & E2 & E3), (Hg s1) as (E4 & E5 & E6).
    f_equal. apply (session_open w HI); [done|done|auto|]. unfold openFor in *.
    rewrite E1, E2, E4, E5 in Ho. rewrite !andb_true_iff in *. naive_solver.
  - apply Forall_updateWhere; [apply HI|]. intros s _ _. by rewrite keeps_build.
Qed.
End UpdateSession.

Lemma markSession_keeps status id : status ≠ Pending → StoreProg (markSession status id).
Proof.
  intros Hs w b w' HI [= <- <-]. split; [|done]. apply updateSessions_keeps; try done.
  - intros s Hp. unfold isPending in Hp. apply bool_decide_eq_true in Hp. done.
  - intros s Hin _. exact (proj1 (Forall_forall _ _) (session_bounds w HI) s Hin).
Qed.

Lemma markCompleted_keeps id : StoreProg (sessions_markCompleted id).
Proof. by apply markSession_keeps. Qed.

Lemma markAborted_keeps id : StoreProg (sessions_markAborted id).
Proof. by apply markSession_keeps. Qed.

Lemma deleteById_keeps id : StoreProg (sessions_deleteById id).
Proof.
  intros w b w' HI [= <- <-]. split; [|done]. apply setSessions_keeps; [done|..].
  - apply NoDup_deleteWhere, HI.
  - apply Forall_deleteWhere, HI.
  - intros s s' [Hs _]%elem_of_deleteWhere [Hs' _]%elem_of_deleteWhere. by apply (session_open w HI).
  - apply Forall_deleteWhere, HI.
Qed.

(** The session an update concerns. *)
Lemma same_session w id s s' :
  StorageInv w → s ∈ sessions w → s' ∈ sessions w → sessionIs id s = true → sessionIs id s' = true → s = s'.
Proof.
  intros HI Hs Hs' E%uuidEq_true E'%uuidEq_true.
  apply (key_inj (λ s, lowerText (sessionId s)) (sessions w)); [apply HI|done|done|congruence].
Qed.

(** A session read from the table. *)
Definition UploadOk (session : UploadSession) : Prop :=
  0 ≤ uploadReceivedBytes session ≤ uploadDeclaredBytes session.

Lemma sessions_findById_keeps id :
  Keeps StorageInv StoreGo (sessions_findById id) (λ found, ∀ session, found = Some session → UploadOk session).
Proof.
  apply store_query. intros w HI session E.
  destruct (selectFirst _ _) as [s|] eqn:Es; [|done]. injection E as <-.
  apply selectFirst_Some in Es as [Hs _]. exact (proj1 (Forall_forall _ _) (session_bounds w HI) s Hs).
Qed.

Lemma reserveBytes_keeps id offset count :
  Keeps StorageInv StoreGo (sessions_reserveBytes id offset count)
    (λ found, ∀ session, found = Some session → UploadOk session).
Proof.
  intros w b w' HI E. cbv zeta in E.
  destruct (selectFirst _ (sessions w)) as [s|] eqn:Es; [|injection E as <- <-; by split; [apply StoreGo_refl|]].
  destruct (_ <? 0) eqn:E0; [done|]. injection E as <- <-.
  apply selectFirst_Some in Es as [Hs Hp]. unfold reservable in Hp. cbn in E0. bool_to_prop.
  assert (sessionIs id s = true) as Hid by done.
  assert (SessionOk (withReceived (receivedBytes s + count) s)) as Hok by (unfold SessionOk; cbn in *; lia).
  split.
  - apply updateSessions_keeps; try done. intros s' Hs' Hp'. unfold reservable in Hp'.
    rewrite !andb_true_iff in Hp'. destruct Hp' as [[[[Hid' _] _] _] _].
    by rewrite (same_session w id s' s).
  - by intros session [= <-].
Qed.

Lemma sessions_create_keeps `{Postgres} request :
  Keeps StorageInv StoreGo (sessions_create request) (λ _, True).
Proof.
  unfold sessions_create. eapply (Keeps_bind _ _ _ _ (λ _, True)).
  - intros w b w' HI E. split; [|done]. cbv zeta in E. cbn [sessions setDraws] in E.
    assert (StoreGo w (setDraws (S (draws w)) w)) as Hdraw by (split; [destruct HI; by split|done..]).
    destruct (_ || _) eqn:Erange; [done|].
    destruct (anyWhere (openFor _ _) _) eqn:Eopen; [by injection E as <- <-|].
    destruct (anyWhere (sessionIs _) _) eqn:Eid; [done|].
    destruct (_ || _) eqn:Efk in E; [done|]. injection E as <- <-.
    apply orb_false_iff in Efk as [Ebuild%negb_false_iff _].
    rewrite anyWhere_false in Eopen. rewrite anyWhere_false in Eid.
    destruct (setSessions_keeps (setDraws (S (draws w)) w)
      (insertRow (newSessionRow (clock w) (gen_random_uuid (draws w)) request) (sessions w))) as [S1 S2 S3 S4];
      [apply Hdraw|..|by split].
    + apply NoDup_insertRow; [apply HI|]. intros s Hs. specialize (Eid s Hs). by apply bool_decide_eq_false in Eid.
    + apply Forall_insertRow; [apply HI|]. apply orb_false_iff in Erange as [_ Erange].
      unfold SessionOk. cbn. bool_to_prop. lia.
    + intros s s' [Hs| ->]%elem_of_insertRow [Hs'| ->]%elem_of_insertRow Hp Ho; [by apply (session_open w HI)|..].
      * cbn in Ho. by rewrite (Eopen s Hs) in Ho.
      * exfalso. pose proof (Eopen s' Hs') as Hn. unfold openFor in *. cbn in *.
        rewrite Hp, andb_true_r in Hn. rewrite andb_true_r in Ho. apply andb_true_iff in Ho as [H1 H2].
        apply uuidEq_true in H1. apply bool_decide_eq_true in H2. apply andb_false_iff in Hn as [Hn|Hn].
        -- apply bool_decide_eq_false in Hn. congruence.
        -- apply bool_decide_eq_false in Hn. congruence.
      * done.
    + apply Forall_insertRow; [apply HI|exact Ebuild].
  - intros [session|] _; [done|]. eapply Keeps_bind; [by apply (store_query _ (λ _, True))|]. by intros [session|] _.
Qed.

Lemma blobs_record_keeps sha size uploader :
  StoreProg (blobs_record sha size (storageKeyFor sha) uploader).
Proof.
  intros w b w' HI E. split; [|done].
  destruct (_ || _) eqn:Eok; [done|].
  destruct (anyWhere (blobIs sha) (blobs w)) eqn:Ehas; injection E as <- <-; [by apply StoreGo_refl|].
  rewrite anyWhere_false in Ehas. apply orb_false_iff in Eok as [Esha Esize]. bool_to_prop.
  split; [|done..|]; [destruct HI; split; cbn; try done|].
  - apply NoDup_insertRow; [done|]. intros r Hr. specialize (Ehas r Hr). by apply bool_decide_eq_false in Ehas.
  - apply Forall_insertRow; [done|]. unfold BlobOk. cbn. by split_and!.
  - eapply Forall_impl; [exact manifest_blobs0|]. intros r. apply anyWhere_insertRow.
  - intros r Hr. apply elem_of_insertRow. by left.
Qed.

Lemma downloads_recordEvent_keeps event : StoreProg (downloads_recordEvent event).
Proof.
  intros w b w' HI E. split; [|done]. destruct (_ && _); [|done]. injection E as <- <-.
  split; [destruct HI; by split|done..].
Qed.

Lemma StoreSound_discard faults path fs : StoreSound fs → StoreSound (discard faults path fs).
Proof.
  intros HS h q c Hq. unfold discard. destruct (removeFails faults); [by apply HS|].
  intros [_ ?]%lookup_delete_Some. by apply (HS h q).
Qed.

Lemma StoreSound_writeAt faults s offset data fs :
  StoreSound fs → StoreSound (writeAt faults (stagingPathFor s) offset data fs).2.
Proof. intros. by eapply storeStep_sound; [|constructor]. Qed.

Lemma StoreSound_commit faults s h fs :
  StoreSound fs → StoreSound (commit faults (stagingPathFor s) h fs).2.
Proof. intros. by eapply storeStep_sound; [|constructor]. Qed.
End Lift.

(** ** What a published build is made of *)

Definition referenced (w : World) (blob : BlobRow) : Prop :=
  ∃ r, r ∈ buildFiles w ∧ fileSha r = blobSha blob.

Definition manifestOf (id : string) (w : World) : list BuildFileRow :=
  selectWhere (λ row, uuidEq (fileBuildId row) id) (buildFiles w).

(** No statement changes a ready build it leaves in place, its manifest, or a blob that a
    manifest names. *)
Record StorageStep (w w' : World) : Prop := {
  ready_step : ∀ b, b ∈ builds w → status b = Ready → anyWhere (buildIs (buildId b)) (builds w') = true →
    b ∈ builds w' ∧ manifestOf (buildId b) w' = manifestOf (buildId b) w;
  referenced_step : ∀ b, b ∈ blobs w → referenced w b → b ∈ blobs w'
}.

Lemma StorageStep_refl w : StorageStep w w.
Proof. by split. Qed.

(** What stays of a ready build for as long as it is not deleted. *)
Record BuildKept (b : Build) (w w' : World) : Prop := {
  build_kept : b ∈ builds w';
  manifest_kept : manifestOf (buildId b) w' = manifestOf (buildId b) w;
  contents_kept : ∀ r blob, r ∈ manifestOf (buildId b) w → blob ∈ blobs w → blobSha blob = fileSha r → blob ∈ blobs w'
}.

Lemma BuildKept_refl b w : b ∈ builds w → BuildKept b w w.
Proof. by split. Qed.

Lemma BuildKept_trans b w1 w2 w3 : BuildKept b w1 w2 → BuildKept b w2 w3 → BuildKept b w1 w3.
Proof.
  intros [B1 M1 C1] [B2 M2 C2]. split; [done|congruence|].
  intros r blob Hr Hb E. apply (C2 r); [by rewrite M1|by apply (C1 r)|done].
Qed.

Lemma StorageStep_build w w' b :
  StorageStep w w' → b ∈ builds w → status b = Ready → anyWhere (buildIs (buildId b)) (builds w') = true →
  BuildKept b w w'.
Proof.
  intros [HR HB] Hb Hs Hp. destruct (HR b Hb Hs Hp). split; [done|done|].
  intros r blob [Hr _]%elem_of_selectWhere Hblob E. apply HB; [done|]. by exists r.
Qed.

Record SysKept `{Evp} (w w' : World) : Prop := {
  kept_inv : SysInv w';
  kept_accounts : AccountsKept w w';
  kept_storage : StorageStep w w'
}.

Notation KeptProg p := (Keeps SysInv SysKept p (λ _, True)).

Section Kept.
Context `{Evp}.

Lemma SysKept_refl w : SysInv w → SysKept w w.
Proof. intros. split; [done|apply AccountsKept_refl|apply StorageStep_refl]. Qed.

Lemma SysGo_kept w w' : SysGo w w' → SysKept w w'.
Proof.
  intros [HI HA (E1 & E2 & E3 & E4 & _) HB]. split; [done|done|].
  split; unfold manifestOf; rewrite ?E3, ?E4; auto.
Qed.

(** Running alone keeps the invariant. *)
Lemma perform_inv {A} (p : Prog World A) Q w r w' :
  Keeps SysInv SysKept p Q → SysInv w → perform p w = (r, w') → SysInv w'.
Proof.
  intros Hp HI E. apply (perform_keeps SysInv (λ _ w', SysInv w') p Q) in E as [? _]; try done.
  eapply Keeps_weaken; [..|exact Hp]; [done| |done]. by intros ? ? _ [].
Qed.

Lemma lift_go {A} (p : Prog World A) Q : Keeps SysInv SysGo p Q → Keeps SysInv SysKept p Q.
Proof. apply Keeps_weaken; [done| |done]. intros w w' _. apply SysGo_kept. Qed.

Lemma manifest_has w r :
  StorageInv w → r ∈ buildFiles w → ∃ b, b ∈ blobs w ∧ blobSha b = fileSha r.
Proof.
  intros HI Hr. pose proof (proj1 (Forall_forall _ _) (manifest_blobs w HI) r Hr) as Hb. cbn in Hb.
  apply anyWhere_true in Hb as (b & Hb & E). apply bool_decide_eq_true in E. eauto.
Qed.

Lemma deleteIfUnreferenced_keeps sha age : KeptProg (blobs_deleteIfUnreferenced sha age).
Proof.
  intros w b w' (HA & HI & HC) [= <- <-]. split; [|done]. set (p row := _ && _).
  assert (∀ blob, referenced w blob → p blob = false) as Hp.
  { intros blob (r & Hr & E). unfold p. apply andb_false_intro2. unfold unreferenced.
    apply andb_false_intro1, andb_false_intro2, negb_false_iff, anyWhere_true. exists r.
    split; [done|]. by apply bool_decide_eq_true. }
  split; [split; [eapply AccountsInv_same; [|exact HA]; done|split]|by apply quiet_kept|split; auto].
  - pose proof (manifest_has w) as Hm. pose proof HI as HI'. destruct HI. split; cbn; try done.
    + by apply NoDup_deleteWhere.
    + by apply Forall_deleteWhere.
    + apply Forall_forall. intros r Hr. destruct (Hm r HI' Hr) as (blob & Hb & E).
      apply anyWhere_true. exists blob. split; [|by apply bool_decide_eq_true].
      apply elem_of_deleteWhere. split; [done|]. apply Hp. by exists r.
  - apply (CatalogInv_same w); [done|by apply quiet_kept|done].
  - intros blob Hb Hr. apply elem_of_deleteWhere. split; [done|by apply Hp].
Qed.

(** ** Publishing *)

Lemma same_build w b b' :
  StorageInv w → b ∈ builds w → b' ∈ builds w → lowerText (buildId b) = lowerText (buildId b') → b = b'.
Proof. intros HI. apply (key_inj (λ b, lowerText (buildId b)) (builds w)), HI. Qed.

Lemma manifestRowsFit_blobs w build entries r :
  manifestRowsFit w build entries = true → r ∈ map (manifestRow build) entries →
  anyWhere (blobIs (fileSha r)) (blobs w) = true.
Proof.
  intros [Hf _]%andb_true_iff (e & -> & He)%list_elem_of_fmap. rewrite forallb_forall in Hf.
  apply list_elem_of_In in He. apply Hf in He. rewrite !andb_true_iff in He. tauto.
Qed.

Lemma manifestRowsFit_keys w build entries :
  manifestRowsFit w build entries = true → ManifestKeys w →
  NoDup (map fileKey (buildFiles w ++ map (manifestRow build) entries)).
Proof.
  intros [Hf Hd%distinctTexts_sound]%andb_true_iff HN. rewrite forallb_forall in Hf.
  rewrite map_app. apply NoDup_app. split; [done|]. split.
  - intros k (r & -> & Hr)%list_elem_of_fmap (r' & E & (e & -> & He)%list_elem_of_fmap)%list_elem_of_fmap.
    apply list_elem_of_In in He. apply Hf in He. rewrite !andb_true_iff, negb_true_iff, anyWhere_false in He.
    destruct He as [_ He]. specialize (He r Hr). injection E as E1 E2. cbn in E1, E2.
    rewrite andb_false_iff in He. destruct He as [He|He]; apply bool_decide_eq_false in He; congruence.
  - rewrite map_map. clear -Hd. induction entries as [|e rest IH]; cbn; [constructor|].
    rewrite fmap_cons in Hd. apply NoDup_cons in Hd as [Hn Hd]. apply NoDup_cons. split; [|by apply IH].
    intros (e' & E & He')%list_elem_of_fmap. injection E as E. apply Hn. rewrite E. by apply list_elem_of_fmap_2.
Qed.

(** Adding the rows of one manifest leaves the manifests of the other builds alone. *)
Lemma manifestOf_append w w' b b' entries :
  buildFiles w' = buildFiles w ++ map (manifestRow (buildId b)) entries →
  lowerText (buildId b) ≠ lowerText (buildId b') →
  manifestOf (buildId b') w' = manifestOf (buildId b') w.
Proof.
  intros E Hne. unfold manifestOf, selectWhere. rewrite E, List.filter_app.
  assert (List.filter (λ row, uuidEq (fileBuildId row) (buildId b')) (map (manifestRow (buildId b)) entries) = [])
    as ->; [|by rewrite app_nil_r].
  apply selectWhere_none. intros r (e & -> & _)%list_elem_of_fmap. by apply bool_decide_eq_false.
Qed.

Lemma finalize_keeps `{Postgres} id manifest : KeptProg (builds_finalize id manifest).
Proof.
  intros w x w' (HA & HI & HC) E. split; [|done].
  destruct (selectFirst (uploadingBuild id) (builds w)) as [b|] eqn:Eb;
    [|injection E as <- <-; by apply SysKept_refl].
  destruct (negb _); [done|]. destruct (manifestRowsFit w (buildId b) (finalizedFiles manifest)) eqn:Ef; [|done].
  cbn [negb] in E. injection E as <- <-.
  apply selectFirst_Some in Eb as [Hb [Hid Hup]%andb_true_iff]. apply bool_decide_eq_true in Hup.
  assert (∀ b', b' ∈ builds w → lowerText (buildId b') = lowerText (buildId b) → b' = b) as Hsame
    by (intros b' Hb' E; by apply (same_build w)).
  assert (∀ id', anyWhere (buildIs id') (updateWhere (uploadingBuild id) (readyBuild (clock w) manifest) (builds w))
    = anyWhere (buildIs id') (builds w)) as Hids by (intros; by apply anyWhere_updated).
  split; [split; [eapply AccountsInv_same; [|exact HA]; done|split]|by apply quiet_kept|].
  - pose proof (manifestRowsFit_blobs w (buildId b) (finalizedFiles manifest)) as Hfit.
    destruct HI. split; cbn; try done.
    + rewrite (updateWhere_keys (λ b, lowerText (buildId b))); [done|]. by intros.
    + apply Forall_app. split; [done|]. apply Forall_forall. eauto.
    + by apply (manifestRowsFit_keys w).
    + intros r b1 Hr (b0 & Hb0 & ->)%elem_of_updateWhere. destruct (uploadingBuild id b0) eqn:E0; [done|].
      intros Hr0. apply elem_of_app in Hr as [Hr|(e & -> & _)%list_elem_of_fmap]; [by apply (uploading_empty0 r)|].
      apply uuidEq_true in Hr0. assert (b0 = b) as -> by (by apply Hsame).
      unfold uploadingBuild in E0. rewrite Hid, bool_decide_eq_true_2 in E0; done.
    + apply Forall_app. split; [eapply Forall_impl; [exact manifest_builds0|]; intros r; by rewrite Hids|].
      apply Forall_forall. intros r (e & -> & _)%list_elem_of_fmap. cbn [fileBuildId manifestRow].
      rewrite Hids. apply anyWhere_true. exists b. split; [done|apply uuidEq_refl].
    + eapply Forall_impl; [exact session_builds0|]. intros r. by rewrite Hids.
  - destruct HC. split; cbn; try done.
    + by rewrite (updateWhere_keys targetKey).
    + by apply Forall_updateWhere.
  - split; [|done]. intros b' Hb' Hready _. split.
    + cbn. apply elem_of_updateWhere. exists b'. split; [done|]. unfold uploadingBuild.
      rewrite (bool_decide_eq_false_2 (status b' = Uploading)) by congruence. by rewrite andb_false_r.
    + eapply (manifestOf_append w _ b); [done|]. intros E. assert (b' = b) by (by apply Hsame). congruence.
Qed.

Lemma findUnreferenced_keeps age limit :
  Keeps SysInv SysGo (blobs_findUnreferenced age limit) (Forall (λ b, 0 ≤ collectableSizeBytes b ≤ INT64_MAX)).
Proof.
  apply lift_store, store_query. intros w HI. apply Forall_forall.
  intros c (row & -> & Hrow)%list_elem_of_fmap. cbn. apply elem_of_take in Hrow as (i & Hi & _).
  apply list_elem_of_lookup_2 in Hi. rewrite merge_sort_Permutation in Hi.
  apply elem_of_selectWhere in Hi as [Hi _]. by apply (proj1 (Forall_forall _ _) (blob_rows w HI)).
Qed.
End Kept.
