(* ===== verification/CatalogSafety.v ===== *)
(** What every statement on the catalog keeps, whoever else is running: keys and references
    stay what they are through inserts, updates and cascading deletes, and a ready build
    that is left in place is left alone. *)

From S2P Require Import Prelude.
From S2P Require Import Errors.
From S2P Require Import Validation.
From S2P Require Import Semver.
From S2P Require Import Actors.
From S2P Require Import Catalog.
From S2P Require Import Media.
From S2P Require Import PatchNote.
From S2P Require Import Hash.
From S2P Require Import BlobStore.
From S2P Require Import Programs.
From S2P Require Import World.
From S2P Require Import Accounts.
From S2P Require Import AuthService.
From S2P Require Import AccountSafety.
From S2P Require Import Uploads.
From S2P Require Import CatalogRepositories.
From S2P Require Import ContentRepositories.
From S2P Require Import MediaStore.
From S2P Require Import StorageSafety.
From S2P Require Import CatalogService.
From S2P Require Import PatchNoteService.
From S2P Require Import MediaService.

Notation KeptProg p := (Keeps SysInv SysKept p (λ _, True)).

#[local] Arguments updateWhere : simpl never.
#[local] Arguments deleteWhere : simpl never.
#[local] Arguments insertRow : simpl never.
#[local] Arguments anyWhere : simpl never.

(** Tables the store is made of. *)
Definition SameStore (w w' : World) : Prop :=
  builds w' = builds w ∧ buildFiles w' = buildFiles w ∧ blobs w' = blobs w ∧ sessions w' = sessions w
  ∧ files w' = files w.

(** ** Cascades *)

Lemma deletes_true {Row} (p : Row → bool) key t id :
  deletes p key t id = true ↔ ∃ r, r ∈ t ∧ p r = true ∧ lowerText (key r) = lowerText id.
Proof.
  unfold deletes. rewrite anyWhere_true. setoid_rewrite andb_true_iff. by setoid_rewrite uuidEq_true.
Qed.

(** What is left names what is left. *)
Lemma remaining {Row} (idOf : Row → string) t p id :
  deletes p idOf t id = false → anyWhere (λ r, uuidEq (idOf r) id) t = true →
  anyWhere (λ r, uuidEq (idOf r) id) (deleteWhere p t) = true.
Proof.
  intros Hd (r & Hr & E)%anyWhere_true. apply anyWhere_true. exists r. split; [|done].
  apply elem_of_deleteWhere. split; [done|]. apply not_true_is_false. intros Hp.
  apply not_true_iff_false in Hd. apply Hd, deletes_true. exists r. split_and!; [done|done|]. by apply uuidEq_true.
Qed.

Lemma references_remaining {Row Row'} (key : Row → string) (idOf : Row' → string) t t' p :
  references key (λ id r, uuidEq (idOf r) id) t t' → Forall (λ r, deletes p idOf t' (key r) = false) t →
  references key (λ id r, uuidEq (idOf r) id) t (deleteWhere p t').
Proof. unfold references. rewrite !Forall_forall. intros Hn Hd r Hr. apply remaining; auto. Qed.

Lemma references_cascade {Row Row'} (key : Row → string) (idOf : Row' → string) t t' p :
  references key (λ id r, uuidEq (idOf r) id) t t' →
  references key (λ id r, uuidEq (idOf r) id) (deleteWhere (λ r, deletes p idOf t' (key r)) t) (deleteWhere p t').
Proof.
  intros Hn. apply references_remaining; [by apply Forall_deleteWhere|].
  apply Forall_forall. by intros r [_ ?]%elem_of_deleteWhere.
Qed.

Lemma selectWhere_deleteWhere {Row} (q d : Row → bool) t :
  (∀ r, r ∈ t → q r = true → d r = false) → selectWhere q (deleteWhere d t) = selectWhere q t.
Proof.
  unfold selectWhere, deleteWhere. induction t as [|r t IH]; intros H; cbn; [done|].
  rewrite <- IH by (intros; apply H; [by right|done]). destruct (q r) eqn:E.
  - rewrite (H r) by (first [by left|done]). cbn. by rewrite E.
  - destruct (negb (d r)); cbn; by rewrite ?E.
Qed.

Lemma mapGame_own w x x' : mapGame w x = Some x' → gameId x' = gameId x ∧ publisherUserId x' = publisherUserId x.
Proof. unfold mapGame. destruct (selectFirst _ _); [|done]. by intros [= <-]. Qed.

Section Statements.
Context `{Evp}.

(** Rows of a kept build are not deleted with another. *)
Lemma kept_rows p w b :
  StorageInv w → b ∈ builds w → p b = false →
  ∀ id, lowerText id = lowerText (buildId b) → deletes p buildId (builds w) id = false.
Proof.
  intros HI Hb Hp id E. apply not_true_is_false. intros (b' & Hb' & Hp' & E')%deletes_true.
  assert (b' = b) by (apply (same_build w); [done..|congruence]). congruence.
Qed.

Lemma dropBuilds_storage p w : StorageInv w → StorageInv (dropBuilds p w).
Proof.
  intros HI. destruct HI. split; cbn.
  - by apply NoDup_deleteWhere.
  - by apply Forall_deleteWhere.
  - intros s s' [Hs _]%elem_of_deleteWhere [Hs' _]%elem_of_deleteWhere. eauto.
  - done.
  - done.
  - by apply NoDup_deleteWhere.
  - by apply Forall_deleteWhere.
  - by apply NoDup_deleteWhere.
  - intros r b [Hr _]%elem_of_deleteWhere [Hb _]%elem_of_deleteWhere. eauto.
  - by apply references_cascade.
  - by apply references_cascade.
  - done.
Qed.

Lemma dropBuilds_step p w : StorageInv w → StorageStep w (dropBuilds p w).
Proof.
  intros HI. split; [|done]. intros b Hb _ (b' & [Hb' Hp]%elem_of_deleteWhere & E%uuidEq_true)%anyWhere_true.
  assert (b' = b) as -> by (by apply (same_build w)). split; [by apply elem_of_deleteWhere|].
  unfold manifestOf. apply selectWhere_deleteWhere. intros r _ Er%uuidEq_true. by eapply kept_rows.
Qed.

(** A change of the catalog alone, after one of the builds. *)
Lemma SysKept_content w w1 w' :
  SysKept w w1 → SameAccounts w1 w' → SameStore w1 w' → CatalogInv w' → SysKept w w'.
Proof.
  intros [(HA & HS & HC) HK HT] HE (E1 & E2 & E3 & E4 & E5) HC'. split.
  - split_and!; [by apply (AccountsInv_same w1)| |done]. destruct HS.
    split; unfold ManifestKeys in *; rewrite ?E1, ?E2, ?E3, ?E4, ?E5; done.
  - eapply AccountsKept_trans; [done|by apply SameAccounts_kept].
  - destruct HT as [HR HB]. split; unfold manifestOf in *; rewrite ?E1, ?E2, ?E3; done.
Qed.

Lemma content_step w w' : SysInv w → SameAccounts w w' → SameStore w w' → CatalogInv w' → SysKept w w'.
Proof. intros HI. apply SysKept_content. by apply SysKept_refl. Qed.

Lemma dropBuilds_kept p w : SysInv w → SysKept w (dropBuilds p w).
Proof.
  intros (HA & HS & HC). split; [split_and!; [by apply (AccountsInv_same w)|by apply dropBuilds_storage|]| |by apply dropBuilds_step].
  - destruct HC. split; cbn; try done; [by apply NoDup_deleteWhere|by apply Forall_deleteWhere].
  - by apply quiet_kept.
Qed.

Section Cascade.
Context `{Postgres}.

Lemma forgetVersions_kept p w w1 :
  SysKept w w1 → Forall (λ b, deletes p versionId (versions w1) (buildVersionId b) = false) (builds w1) →
  SysKept w (forgetVersions p w1).
Proof.
  intros HK Hb. apply (SysKept_content _ _ _ HK); [done|done|]. destruct HK as [(_ & _ & HC) _ _].
  destruct HC. split; cbn; try done.
  - by apply NoDup_deleteWhere.
  - by apply NoDup_deleteWhere.
  - by apply Forall_deleteWhere.
  - by apply references_remaining.
  - by rewrite (updateWhere_keys (λ n, lowerText (noteId n))).
  - by apply Forall_updateWhere.
  - apply Forall_forall. intros n' (n & Hn & ->)%elem_of_updateWhere.
    pose proof (proj1 (Forall_forall _ _) note_versions n Hn) as Hf. unfold versionFits in *.
    destruct (bool_decide (noteGameVersionId n = "")) eqn:Ene; cbn [negb andb orb] in *; [by rewrite Ene|].
    destruct (deletes _ _ _ (noteGameVersionId n)) eqn:E; [done|]. rewrite Ene. by apply remaining.
Qed.

Lemma forgetGames_kept p w w1 :
  SysKept w w1 → Forall (λ v, deletes p gameId (games w1) (versionGameId v) = false) (versions w1) →
  SysKept w (forgetGames p w1).
Proof.
  intros HK Hv. apply (SysKept_content _ _ _ HK); [done|done|]. destruct HK as [(_ & _ & HC) _ _].
  destruct HC. split; cbn; try done.
  - by apply NoDup_deleteWhere.
  - by apply NoDup_deleteWhere.
  - by apply Forall_deleteWhere.
  - by apply references_remaining.
  - by apply NoDup_deleteWhere.
  - by apply Forall_deleteWhere.
  - by apply references_cascade.
  - intros m m' [Hm _]%elem_of_deleteWhere [Hm' _]%elem_of_deleteWhere. eauto.
  - by apply NoDup_deleteWhere.
  - by apply references_cascade.
  - by apply Forall_deleteWhere.
  - by apply NoDup_deleteWhere.
  - by apply references_cascade.
  - by apply Forall_deleteWhere.
Qed.

Lemma deleteWhere_false {Row} (q : Row → bool) t : Forall (λ r, q r = false) (deleteWhere q t).
Proof. apply Forall_forall. by intros r [_ ?]%elem_of_deleteWhere. Qed.

Lemma dropVersions_kept p w : SysInv w → SysKept w (dropVersions p w).
Proof. intros HI. apply forgetVersions_kept; [by apply dropBuilds_kept|]. apply deleteWhere_false. Qed.

Lemma dropVersions_left p w : versions (dropVersions p w) = deleteWhere p (versions w) ∧ games (dropVersions p w) = games w.
Proof. done. Qed.

Lemma dropGames_kept p w : SysInv w → SysKept w (dropGames p w).
Proof.
  intros HI. apply forgetGames_kept; [by apply dropVersions_kept|].
  destruct (dropVersions_left (λ v, deletes p gameId (games w) (versionGameId v)) w) as [-> ->].
  apply deleteWhere_false.
Qed.
End Cascade.

(** ** Games and versions *)

(** A statement that leaves the store and the accounts alone. *)
Ltac content HC := apply content_step; [done|done|done|destruct HC; split; cbn; try done].

Lemma query_kept {B} (f : World → B) : KeptProg (query f).
Proof. intros w b w' HI [= <- <-]. split; [by apply SysKept_refl|done]. Qed.

Lemma draw_kept {w} n : SysInv w → SysKept w (setDraws n w).
Proof. intros HI. pose proof HI as (_ & _ & HC). content HC. Qed.

(** A row with a key nobody has. *)
Lemma fresh_key {Row} (key : Row → string) (id : string) t r :
  anyWhere (λ r, uuidEq (key r) id) t = false → key r = id →
  NoDup (map (λ r, lowerText (key r)) t) → NoDup (map (λ r, lowerText (key r)) (insertRow r t)).
Proof.
  rewrite anyWhere_false. intros Hf <- HN. apply NoDup_insertRow; [done|]. intros r' Hr' E.
  specialize (Hf r' Hr'). by apply bool_decide_eq_false in Hf.
Qed.

(** References into a table that grows stay good. *)
Lemma references_insertRow {Row Row'} (key : Row → string) (named : string → Row' → bool) t t' r :
  references key named t t' → references key named t (insertRow r t').
Proof. intros H0. eapply Forall_impl; [exact H0|]. intros r'. apply anyWhere_insertRow. Qed.

Lemma references_updated {Row Row'} (key : Row → string) (named : string → Row' → bool) t t' p f :
  (∀ id r, named id (f r) = named id r) → references key named t t' → references key named t (updateWhere p f t').
Proof. intros Hf H0. eapply Forall_impl; [exact H0|]. intros r'. cbv beta. by rewrite anyWhere_updated. Qed.

Section Inserts.
Context `{Postgres}.

Lemma games_create_kept game : KeptProg (games_create game).
Proof.
  intros w b w' HI E. split; [|done]. cbv zeta in E. cbn [games users setDraws clock] in E.
  case_match; [done|]. destruct (anyWhere (λ g, bool_decide _) (games w)) eqn:Es;
    [injection E as <- <-; by apply draw_kept|].
  destruct (_ || _) eqn:Ef in E; [done|]. apply orb_false_iff in Ef as [Ei Eu%negb_false_iff].
  destruct (mapGame _ _); [|done]. injection E as <- <-. pose proof HI as (_ & _ & HC). content HC.
  - by apply fresh_key with (id := gen_random_uuid (draws w)).
  - apply NoDup_insertRow; [done|]. rewrite anyWhere_false in Es. intros x Hx. specialize (Es x Hx).
    by apply bool_decide_eq_false in Es.
  - by apply Forall_insertRow.
  - by apply references_insertRow.
  - by apply references_insertRow.
  - by apply references_insertRow.
  - by apply references_insertRow.
Qed.

Lemma games_update_kept id changes : KeptProg (games_update id changes).
Proof.
  intros w b w' HI E. split; [|done]. destruct (selectFirst _ _); [|injection E as <- <-; by apply SysKept_refl].
  cbv zeta in E. case_match; [done|]. injection E as <- <-. pose proof HI as (_ & _ & HC). content HC.
  - by rewrite (updateWhere_keys (λ g, lowerText (gameId g))).
  - by rewrite (updateWhere_keys slug).
  - by apply Forall_updateWhere.
  - by apply references_updated.
  - by apply references_updated.
  - by apply references_updated.
  - by apply references_updated.
Qed.

Lemma versions_create_kept version : KeptProg (versions_create version).
Proof.
  intros w b w' HI E. split; [|done]. cbv zeta in E. cbn [games versions setDraws clock] in E.
  case_match; [done|]. destruct (anyWhere (sameVersion _ _) (versions w)) eqn:Es;
    [injection E as <- <-; by apply draw_kept|].
  destruct (_ || _) eqn:Ef in E; [done|]. apply orb_false_iff in Ef as [Ei Eu%negb_false_iff].
  injection E as <- <-. pose proof HI as (_ & _ & HC). content HC.
  - by apply fresh_key with (id := gen_random_uuid (draws w)).
  - apply NoDup_insertRow; [done|]. rewrite anyWhere_false in Es. intros v Hv [= E1 E2].
    specialize (Es v Hv). unfold sameVersion in Es. apply andb_false_iff in Es as [Es|Es].
    + by apply bool_decide_eq_false in Es.
    + by apply bool_decide_eq_false in Es.
  - by apply Forall_insertRow.
  - by apply references_insertRow.
  - eapply Forall_impl; [done|]. intros n. unfold versionFits. cbn. rewrite !orb_true_iff.
    intros [?|?]; [by left|right]. by apply anyWhere_insertRow.
Qed.

Lemma versions_update_kept id changes : KeptProg (versions_update id changes).
Proof.
  intros w b w' HI [= <- <-]. split; [|done]. pose proof HI as (_ & _ & HC). content HC.
  - by rewrite (updateWhere_keys (λ v, lowerText (versionId v))).
  - by rewrite (updateWhere_keys versionKey).
  - by apply Forall_updateWhere.
  - by apply references_updated.
  - eapply Forall_impl; [done|]. intros n. unfold versionFits. cbn. by rewrite anyWhere_updated.
Qed.

Lemma versions_remove_kept id : KeptProg (versions_remove id).
Proof. intros w b w' HI [= <- <-]. split; [by apply dropVersions_kept|done]. Qed.

Lemma games_remove_kept id : KeptProg (games_remove id).
Proof.
  intros w b w' HI E. split; [|done]. cbv zeta in E.
  destruct (anyWhere _ _); injection E as <- <-; [by apply dropGames_kept|by apply SysKept_refl].
Qed.

Lemma builds_remove_kept id : KeptProg (builds_remove id).
Proof. intros w b w' HI [= <- <-]. split; [by apply dropBuilds_kept|done]. Qed.

(** ** Builds *)

(** A new build has no manifest yet: every file names a build that was there before. *)
Lemma builds_create_kept build : KeptProg (builds_create build).
Proof.
  intros w x w' HI E. split; [|done]. cbv zeta in E. cbn [builds versions setDraws clock] in E.
  case_match; [done|]. destruct (anyWhere (sameTarget _ _ _) (builds w)) eqn:Es;
    [injection E as <- <-; by apply draw_kept|].
  destruct (_ || _) eqn:Ef in E; [done|]. apply orb_false_iff in Ef as [Ei Eu%negb_false_iff].
  injection E as <- <-. destruct HI as (HA & HS & HC).
  assert (∀ r, r ∈ buildFiles w → lowerText (fileBuildId r) ≠ lowerText (gen_random_uuid (draws w))) as Hnew.
  { intros r Hr Er. destruct HS. pose proof (proj1 (Forall_forall _ _) manifest_builds r Hr) as (b & Hb & Eb)%anyWhere_true.
    rewrite anyWhere_false in Ei. specialize (Ei b Hb). apply bool_decide_eq_false in Ei.
    apply uuidEq_true in Eb. congruence. }
  split; [split_and!; [by apply (AccountsInv_same w)|..]|by apply quiet_kept|].
  - destruct HS. split; cbn; try done.
    + by apply fresh_key with (id := gen_random_uuid (draws w)).
    + intros r b Hr [Hb| ->]%elem_of_insertRow Er; [by eapply uploading_empty|].
      apply uuidEq_true in Er. by destruct (Hnew r Hr).
    + by apply references_insertRow.
    + by apply references_insertRow.
  - destruct HC. split; cbn; try done.
    + apply NoDup_insertRow; [done|]. rewrite anyWhere_false in Es. intros b Hb [= E1 E2 E3].
      specialize (Es b Hb). unfold sameTarget in Es.
      by rewrite (proj2 (uuidEq_true _ _) E1), !bool_decide_eq_true_2 in Es.
    + by apply Forall_insertRow.
  - split; [|done]. intros b Hb _ _. split; [apply elem_of_insertRow; by left|done].
Qed.

Lemma builds_markFailed_kept id : KeptProg (builds_markFailed id).
Proof.
  intros w x w' (HA & HS & HC) [= <- <-]. split; [|done].
  split; [split_and!; [by apply (AccountsInv_same w)|..]|by apply quiet_kept|].
  - destruct HS. split; cbn; try done.
    + by rewrite (updateWhere_keys (λ b, lowerText (buildId b))).
    + intros r b Hr (b0 & Hb0 & ->)%elem_of_updateWhere. destruct (failable id b0) eqn:Ef; [|by eauto].
      unfold failable in Ef. rewrite andb_true_iff, negb_true_iff, bool_decide_eq_false in Ef.
      intros Er. destruct (proj2 Ef). by eapply uploading_empty.
    + by apply references_updated.
    + by apply references_updated.
  - destruct HC. split; cbn; try done.
    + by rewrite (updateWhere_keys targetKey).
    + by apply Forall_updateWhere.
  - split; [|done]. intros b Hb Hready _. split; [|done]. cbn. apply elem_of_updateWhere. exists b. split; [done|].
    unfold failable. by rewrite (bool_decide_eq_true_2 (status b = Ready)), andb_false_r.
Qed.

(** ** Artwork, patch notes and libraries *)

Lemma onMediaDisk_kept `{Disk} {A} (f : Faults → gmap string (list ascii) → A * gmap string (list ascii)) (Q : A → Prop) :
  (∀ faults fs, MediaSound fs → MediaSound (f faults fs).2 ∧ Q (f faults fs).1) →
  Keeps SysInv SysKept (onMediaDisk f) Q.
Proof.
  intros Hf w b w' HI [= <- <-]. pose proof HI as (_ & _ & HC).
  destruct (Hf (faultsAt (draws w)) (mediaFiles w)) as [HS HQ]; [apply HC|]. split; [|done]. content HC.
Qed.

Lemma mediaPut_kept `{Disk} bytes format :
  Keeps SysInv SysKept (onMediaDisk (mediaPut bytes format))
    (λ r, ∀ key, r = Success key → MediaFits key (substr key 6 64) (contentType format)).
Proof.
  apply onMediaDisk_kept. intros faults fs HS. split; [by apply mediaPut_sound|]. intros key E.
  eapply (mediaPut_fits bytes format faults fs). by rewrite (surjective_pairing (mediaPut _ _ _ _)), E.
Qed.

Lemma mediaDiscard_kept `{Disk} key : KeptProg (onMediaDisk (λ faults files, (tt, mediaDiscard key faults files))).
Proof. apply onMediaDisk_kept. intros faults fs HS. split; [by apply MediaSound_discard|done]. Qed.

(** The row an upsert displaces is the only one of its kind. *)
Lemma media_create_kept media :
  MediaFits (newMediaStorageKey media) (newMediaSha256 media) (newMediaContentType media) →
  KeptProg (media_create media).
Proof.
  intros Hfits w b w' HI E. split; [|done]. cbv zeta in E. cbn [games gameMedia setDraws clock] in E.
  destruct (_ || _) eqn:Eok; [done|]. pose proof HI as (_ & _ & HC).
  assert (keyFits (newMediaStorageKey media) = true) as Hkey.
  { rewrite !orb_false_iff, !negb_false_iff in Eok. tauto. }
  destruct (selectFirst _ (gameMedia w)) as [m|] eqn:Es.
  - injection E as <- <-. content HC.
    + by rewrite (updateWhere_keys (λ m, lowerText (mediaId m))).
    + by apply Forall_updateWhere.
    + by apply Forall_updateWhere.
    + intros x y (x0 & Hx & ->)%elem_of_updateWhere (y0 & Hy & ->)%elem_of_updateWhere Hs.
      set (p := singleton (newMediaGameId media) (newMediaKind media)) in *.
      set (f := replacedMedia media) in *. set (g r := if p r then f r else r). fold (g x0) (g y0) in *.
      assert (∀ r, mediaGameId (g r) = mediaGameId r ∧ mediaKind (g r) = mediaKind r) as Hg
        by (intros r; unfold g; by destruct (p r)).
      assert (y0 = x0) as ->; [|done]. apply media_single; [done|done|].
      destruct (Hg x0) as [E1 E2], (Hg y0) as [E3 E4]. unfold singleton in *. by rewrite E1, E2, E3, E4 in Hs.
  - destruct (_ || _) eqn:Ef in E; [done|]. apply orb_false_iff in Ef as [Ei Eu%negb_false_iff].
    injection E as <- <-. rewrite selectFirst_None in Es. content HC.
    + by apply fresh_key with (id := gen_random_uuid (draws w)).
    + by apply Forall_insertRow.
    + by apply Forall_insertRow.
    + intros x y [Hx| ->]%elem_of_insertRow [Hy| ->]%elem_of_insertRow Hs; [by apply media_single|..|done].
      * pose proof (Es x Hx) as Hn. cbn in Hs, Hn. unfold singleton in *.
        rewrite !andb_true_iff in Hs. destruct Hs as [[Hone Egame%uuidEq_true] Ekind%bool_decide_eq_true].
        cbn in Egame, Ekind. rewrite Ekind, Hone, (proj2 (uuidEq_true _ _) (eq_sym Egame)), bool_decide_eq_true_2 in Hn; done.
      * pose proof (Es y Hy) as Hn. cbn in Hs, Hn. congruence.
Qed.

Lemma media_update_kept id changes : KeptProg (media_update id changes).
Proof.
  intros w b w' HI [= <- <-]. split; [|done]. pose proof HI as (_ & _ & HC). content HC.
  - by rewrite (updateWhere_keys (λ m, lowerText (mediaId m))).
  - by apply Forall_updateWhere.
  - by apply Forall_updateWhere.
  - intros x y (x0 & Hx & ->)%elem_of_updateWhere (y0 & Hy & ->)%elem_of_updateWhere Hs.
    assert (y0 = x0) as ->; [|done]. apply media_single; [done|done|].
    destruct (mediaIs id x0), (mediaIs id y0); exact Hs.
Qed.

Lemma media_remove_kept id : KeptProg (media_remove id).
Proof.
  intros w b w' HI [= <- <-]. split; [|done]. pose proof HI as (_ & _ & HC). content HC.
  - by apply NoDup_deleteWhere.
  - by apply Forall_deleteWhere.
  - by apply Forall_deleteWhere.
  - intros m m' [Hm _]%elem_of_deleteWhere [Hm' _]%elem_of_deleteWhere. by apply media_single.
Qed.

Lemma notes_create_kept note : KeptProg (notes_create note).
Proof.
  intros w b w' HI E. split; [|done]. cbv zeta in E. cbn [games versions patchNotes setDraws clock] in E.
  destruct (_ || _) eqn:Ef in E; [done|]. injection E as <- <-.
  rewrite !orb_false_iff, !negb_false_iff in Ef. destruct Ef as [[[[_ Ei] Eg] Ev] _].
  pose proof HI as (_ & _ & HC). content HC.
  - by apply fresh_key with (id := gen_random_uuid (draws w)).
  - by apply Forall_insertRow.
  - by apply Forall_insertRow.
Qed.

Lemma notes_update_kept id changes : KeptProg (notes_update id changes).
Proof.
  intros w b w' HI E. split; [|done]. destruct (selectFirst _ _) as [n|] eqn:Es;
    [|injection E as <- <-; by apply SysKept_refl].
  cbv zeta in E. destruct (_ || _) eqn:Ef in E; [done|]. injection E as <- <-.
  apply orb_false_iff in Ef as [_ Ev%negb_false_iff]. apply selectFirst_Some in Es as [Hn Hid].
  pose proof HI as (_ & _ & HC). content HC.
  - by rewrite (updateWhere_keys (λ n, lowerText (noteId n))).
  - by apply Forall_updateWhere.
  - apply Forall_updateWhere; [done|]. intros n' Hn' Hid' _.
    assert (n' = n) as ->; [|done]. apply (key_inj (λ n, lowerText (noteId n)) (patchNotes w)); [done..|].
    apply uuidEq_true in Hid, Hid'. congruence.
Qed.

Lemma notes_remove_kept id : KeptProg (notes_remove id).
Proof.
  intros w b w' HI [= <- <-]. split; [|done]. pose proof HI as (_ & _ & HC). content HC.
  - by apply NoDup_deleteWhere.
  - by apply Forall_deleteWhere.
  - by apply Forall_deleteWhere.
Qed.

Lemma library_add_kept user game : KeptProg (library_add user game).
Proof.
  intros w b w' HI E. split; [|done].
  destruct (anyWhere (shelved _ _) _) eqn:Es; [injection E as <- <-; by apply SysKept_refl|].
  destruct (anyWhere (gameIs game) (games w)) eqn:Eg; [|injection E as <- <-; by apply SysKept_refl].
  destruct (anyWhere (userIs user) (users w)) eqn:Eu; [|done]. injection E as <- <-.
  pose proof HI as (_ & _ & HC). content HC.
  - apply NoDup_insertRow; [done|]. rewrite anyWhere_false in Es. intros r Hr [= E1 E2].
    specialize (Es r Hr). unfold shelved in Es.
    by rewrite (proj2 (uuidEq_true _ _) E1), (proj2 (uuidEq_true _ _) E2) in Es.
  - by apply Forall_insertRow.
  - by apply Forall_insertRow.
Qed.

Lemma library_remove_kept user game : KeptProg (library_remove user game).
Proof.
  intros w b w' HI [= <- <-]. split; [|done]. pose proof HI as (_ & _ & HC). content HC.
  - by apply NoDup_deleteWhere.
  - by apply Forall_deleteWhere.
  - by apply Forall_deleteWhere.
Qed.
End Inserts.
End Statements.

(** ** Handlers *)

Section Handlers.
Context `{Evp, Postgres, Disk}.

#[local] Hint Resolve query_kept games_create_kept games_update_kept games_remove_kept versions_create_kept
  versions_update_kept versions_remove_kept builds_create_kept builds_remove_kept builds_markFailed_kept
  mediaDiscard_kept media_update_kept media_remove_kept notes_create_kept notes_update_kept
  notes_remove_kept library_add_kept library_remove_kept : keeps.

(** Reads, by the name the handlers call them. *)
Ltac reads := repeat first [progress unfold gameByIdOrSlug, games_findById, games_findBySlug, games_search,
  versions_findById, versions_listForGame, builds_listForVersions, builds_findOwnership, media_listForGame,
  media_findById, media_countForGame, media_isStorageKeyReferenced, notes_findById, notes_search,
  library_contains, library_list in *].

Ltac kept := reads; keeps_handler.

Lemma visibleGame_kept actor id : KeptProg (visibleGame actor id).
Proof. unfold visibleGame. kept. Qed.
#[local] Hint Resolve visibleGame_kept : keeps.

Lemma editableGame_kept actor id : KeptProg (editableGame actor id).
Proof. unfold editableGame. kept. Qed.
#[local] Hint Resolve editableGame_kept : keeps.

Lemma versionOfGame_kept version game : KeptProg (versionOfGame version game).
Proof. unfold versionOfGame. kept. Qed.
#[local] Hint Resolve versionOfGame_kept : keeps.

Lemma reclaim_kept key : KeptProg (reclaim key).
Proof. unfold reclaim. kept. Qed.
#[local] Hint Resolve reclaim_kept : keeps.

Lemma reclaimAll_kept keys : KeptProg (reclaimAll keys).
Proof. induction keys; cbn [reclaimAll]; kept. Qed.
#[local] Hint Resolve reclaimAll_kept : keeps.

Lemma createGame_kept actor command : KeptProg (createGame actor command).
Proof. unfold createGame. kept. Qed.

Lemma updateGame_kept actor id changes : KeptProg (updateGame actor id changes).
Proof. unfold updateGame. kept. Qed.

Lemma gameDetail_kept actor id : KeptProg (gameDetail actor id).
Proof. unfold gameDetail. kept. Qed.

Lemma explore_kept actor q : KeptProg (explore actor q).
Proof. unfold explore. kept. Qed.

Lemma publishedByActor_kept actor q : KeptProg (publishedByActor actor q).
Proof. unfold publishedByActor. kept. Qed.

Lemma createVersion_kept actor game command : KeptProg (createVersion actor game command).
Proof. unfold createVersion. kept. Qed.

Lemma updateVersion_kept actor game version changes : KeptProg (updateVersion actor game version changes).
Proof. unfold updateVersion. kept. Qed.

Lemma createBuild_kept actor game command : KeptProg (createBuild actor game command).
Proof. unfold createBuild. kept. Qed.

Lemma deleteBuild_kept actor id : KeptProg (deleteBuild actor id).
Proof. unfold deleteBuild. kept. Qed.

Lemma deleteVersion_kept actor game version : KeptProg (deleteVersion actor game version).
Proof. unfold deleteVersion. kept. Qed.

Lemma deleteGame_kept actor id : KeptProg (deleteGame actor id).
Proof. unfold deleteGame. kept. Qed.

Lemma addToLibrary_kept actor id : KeptProg (addToLibrary actor id).
Proof. unfold addToLibrary. kept. Qed.

Lemma removeFromLibrary_kept actor id : KeptProg (removeFromLibrary actor id).
Proof. unfold removeFromLibrary. kept. Qed.

Lemma library_kept actor : KeptProg (library actor).
Proof. unfold library. kept. Qed.

Lemma editableNote_kept actor id : KeptProg (editableNote actor id).
Proof. unfold editableNote. kept. Qed.

Lemma noteVersionAllowed_kept version game : KeptProg (noteVersionAllowed version game).
Proof. unfold noteVersionAllowed. kept. Qed.
#[local] Hint Resolve editableNote_kept noteVersionAllowed_kept : keeps.

Lemma listNotes_kept actor id limit offset : KeptProg (listNotes actor id limit offset).
Proof. unfold listNotes. kept. Qed.

Lemma createNote_kept actor id command : KeptProg (createNote actor id command).
Proof. unfold createNote. kept. Qed.

Lemma updateNote_kept actor id changes : KeptProg (updateNote actor id changes).
Proof. unfold updateNote. kept. Qed.

Lemma removeNote_kept actor id : KeptProg (removeNote actor id).
Proof. unfold removeNote. kept. Qed.

Lemma galleryHasRoom_kept game kind : KeptProg (galleryHasRoom game kind).
Proof. unfold galleryHasRoom. kept. Qed.

Lemma editableMedia_kept actor id : KeptProg (editableMedia actor id).
Proof. unfold editableMedia. kept. Qed.
#[local] Hint Resolve galleryHasRoom_kept editableMedia_kept : keeps.

Lemma listMedia_kept actor id : KeptProg (listMedia actor id).
Proof. unfold listMedia. kept. Qed.

Lemma uploadMedia_kept limits actor id command : KeptProg (uploadMedia limits actor id command).
Proof.
  unfold uploadMedia. eapply Keeps_bind; [apply editableGame_kept|]. intros [game|e] _; [|done].
  case_match; [|by apply Keeps_ret]. eapply Keeps_bind; [apply galleryHasRoom_kept|]. intros room _.
  case_match; [by apply Keeps_ret|]. eapply Keeps_bind; [apply mediaPut_kept|]. intros [key|e] Hkey; [|done].
  eapply Keeps_bind; [by apply media_create_kept, Hkey|]. intros [result|e] _; [kept|done].
Qed.

Lemma updateMedia_kept actor id changes : KeptProg (updateMedia actor id changes).
Proof. unfold updateMedia. kept. Qed.

Lemma removeMedia_kept actor id : KeptProg (removeMedia actor id).
Proof. unfold removeMedia. kept. Qed.
End Handlers.
