(* ===== verification/CrashGroups.v ===== *)
(** What operators read of the crash reports: one group per bug, every report in exactly one
    of them, and the newest report of each shown. *)

From S2P Require Import Prelude.
From S2P Require Import Errors.
From S2P Require Import Actors.
From S2P Require Import Hash.
From S2P Require Import CrashReport.
From S2P Require Import Programs.
From S2P Require Import Random.
From S2P Require Import World.
From S2P Require Import Ordering.
From S2P Require Import Accounts.
From S2P Require Import CatalogService.
From S2P Require Import CrashReportService.

(** ** Counting by key *)

Definition reportsOf (print : string) (t : list CrashRow) : list CrashRow := having crashRowFingerprint print t.

(** ** Groups *)

#[local] Instance newestCrash_comparison : Comparison newestCrash.
Proof.
  apply comparison_then; [apply comparison_down, (comparison_on crashReceivedAt Z.compare), _
    |apply (comparison_on crashRowId compareUuid), _].
Qed.

Lemma newest_first latest row : ordered newestCrash latest row → crashReceivedAt row ≤ crashReceivedAt latest.
Proof.
  unfold ordered, newestCrash, thenBy. destruct (Z.compare_spec (crashReceivedAt latest) (crashReceivedAt row)); cbn; try lia.
  intros []. done.
Qed.

Lemma foldr_max x l : (∀ y, y ∈ l → y ≤ x) → foldr Z.max x l = x.
Proof.
  intros Hl. induction l as [|y l IH]; [done|]. cbn. rewrite IH by (intros; apply Hl; by right).
  assert (y ≤ x) by (apply Hl; by left). lia.
Qed.

Lemma foldr_min x l : foldr Z.min x l ∈ x :: l ∧ ∀ y, y ∈ x :: l → foldr Z.min x l ≤ y.
Proof.
  induction l as [|z l [IH1 IH2]]; cbn.
  - split; [by left|]. by intros y [->|?%not_elem_of_nil]%elem_of_cons.
  - split.
    + rewrite !elem_of_cons in *. destruct (Z.min_spec z (foldr Z.min x l)) as [[_ ->]|[_ ->]]; tauto.
    + intros y. rewrite !elem_of_cons. intros [->|[->|Hy]]; [specialize (IH2 x); rewrite elem_of_cons in IH2|
        |specialize (IH2 y); rewrite elem_of_cons in IH2]; lia || (assert (foldr Z.min x l ≤ y) by tauto; lia)
          || (assert (foldr Z.min x l ≤ x) by tauto; lia).
Qed.

Section Groups.
Context `{Postgres}.

(** What a group says of the reports it stands for. *)
Record GroupOf (t : list CrashRow) (g : CrashGroup) : Prop := {
  counted : occurrences g = Z.of_nat (length (reportsOf (groupFingerprint g) t));
  newest_shown : ∃ row, row ∈ reportsOf (groupFingerprint g) t
    ∧ latestReportId g = crashRowId row ∧ groupExceptionType g = exceptionType (crashRowReport row)
    ∧ groupMessage g = crashMessage (crashRowReport row) ∧ lastSeenAt g = to_char_utc (crashReceivedAt row)
    ∧ ∀ other, other ∈ reportsOf (groupFingerprint g) t → crashReceivedAt other ≤ crashReceivedAt row;
  first_shown : ∃ row, row ∈ reportsOf (groupFingerprint g) t ∧ firstSeenAt g = to_char_utc (crashReceivedAt row)
    ∧ ∀ other, other ∈ reportsOf (groupFingerprint g) t → crashReceivedAt row ≤ crashReceivedAt other
}.

Lemma crashesOf_perm print t : crashesOf print t ≡ₚ reportsOf print t.
Proof. apply orderBy_Permutation. Qed.

(** When a bug was last reported. *)
Definition lastAt (t : list CrashRow) (g : CrashGroup) (at_ : Z) : Prop :=
  ∃ row, row ∈ reportsOf (groupFingerprint g) t ∧ at_ = crashReceivedAt row
    ∧ ∀ other, other ∈ reportsOf (groupFingerprint g) t → crashReceivedAt other ≤ crashReceivedAt row.

Lemma groupOf_spec t print :
  print ∈ map crashRowFingerprint t →
  ∃ at_ g, groupOf t print = Some (at_, g) ∧ groupFingerprint g = print ∧ GroupOf t g ∧ lastAt t g at_.
Proof.
  intros (row & -> & Hrow)%list_elem_of_fmap. unfold groupOf.
  assert (Hin : row ∈ reportsOf (crashRowFingerprint row) t).
  { apply elem_of_selectWhere. split; [done|]. by apply bool_decide_eq_true_2. }
  pose proof (crashesOf_perm (crashRowFingerprint row) t) as Hp.
  pose proof (orderBy_sorted newestCrash (reportsOf (crashRowFingerprint row) t)) as Hs.
  change (orderBy newestCrash (reportsOf (crashRowFingerprint row) t)) with (crashesOf (crashRowFingerprint row) t) in Hs.
  destruct (crashesOf _ t) as [|latest rest]; [rewrite <- Hp in Hin; by apply not_elem_of_nil in Hin|].
  apply StronglySorted_inv in Hs as [_ Hs]. rewrite Forall_forall in Hs.
  assert (Hmax : ∀ other, other ∈ latest :: rest → crashReceivedAt other ≤ crashReceivedAt latest).
  { intros other [->|Ho]%elem_of_cons; [done|]. by apply newest_first, Hs. }
  assert (Elast : foldr Z.max (crashReceivedAt latest) (map crashReceivedAt (latest :: rest)) = crashReceivedAt latest).
  { apply foldr_max. intros y (r & -> & Hr)%list_elem_of_fmap. by apply Hmax. }
  do 2 eexists. split; [reflexivity|]. split; [done|]. split; [|exists latest; cbn [groupFingerprint];
    rewrite <- Hp; split; [by left|split; [done|]]; intros other Ho; apply Hmax; by rewrite Hp].
  split; cbn [groupFingerprint occurrences latestReportId groupExceptionType
    groupMessage lastSeenAt firstSeenAt].
  - by rewrite Hp.
  - exists latest. split; [rewrite <- Hp; by left|]. split_and!; [done..|by rewrite Elast|].
    intros other Ho. apply Hmax. by rewrite Hp.
  - destruct (foldr_min (crashReceivedAt latest) (map crashReceivedAt (latest :: rest))) as [Hm Hle].
    assert (∃ r, r ∈ latest :: rest ∧ foldr Z.min (crashReceivedAt latest) (map crashReceivedAt (latest :: rest)) = crashReceivedAt r)
      as (r & Hr & Er).
    { apply elem_of_cons in Hm as [->|(r & -> & Hr)%list_elem_of_fmap]; [exists latest; split; [by left|done]|by exists r]. }
    exists r. split; [by rewrite <- Hp|]. split; [by rewrite Er|]. intros other Ho. rewrite <- Er. apply Hle.
    right. apply list_elem_of_fmap. exists other. split; [done|by rewrite Hp].
Qed.

(** The groups before they are put in order. *)
Lemma omap_groups t ps :
  (∀ p, p ∈ ps → p ∈ map crashRowFingerprint t) →
  map (λ g, groupFingerprint g.2) (omap (groupOf t) ps) = ps
  ∧ map (λ g, occurrences g.2) (omap (groupOf t) ps) = map (λ p, Z.of_nat (length (reportsOf p t))) ps
  ∧ Forall (λ g, GroupOf t g.2 ∧ lastAt t g.2 g.1) (omap (groupOf t) ps).
Proof.
  induction ps as [|p ps IH]; intros Hin; [done|].
  destruct (groupOf_spec t p) as (at_ & g & E & Ep & Hg & Hl); [apply Hin; by left|].
  destruct IH as (IH1 & IH2 & IH3); [intros; apply Hin; by right|].
  change (omap (groupOf t) (p :: ps)) with
    (match groupOf t p with Some y => y :: omap (groupOf t) ps | None => omap (groupOf t) ps end). rewrite E.
  cbn [map snd fst]. rewrite IH1, IH2, Ep. split_and!; [done|by rewrite (counted t g Hg), Ep|by constructor].
Qed.

Lemma fingerprintsOf_in t p : p ∈ fingerprintsOf t ↔ p ∈ map crashRowFingerprint t.
Proof. apply elem_of_remove_dups. Qed.

#[local] Instance latestGroup_comparison : Comparison latestGroup.
Proof.
  apply comparison_then; [apply comparison_down, (comparison_on (fst : Z * CrashGroup → Z) Z.compare), _
    |apply (comparison_on (λ g : Z * CrashGroup, groupFingerprint g.2) compareText), _].
Qed.

Lemma latest_first a b : ordered latestGroup a b → b.1 ≤ a.1.
Proof.
  unfold ordered, latestGroup, thenBy. destruct (Z.compare_spec a.1 b.1); cbn; try lia. intros []. done.
Qed.

(** The bug of one group was reported after every report of the other. *)
Definition seenLater (t : list CrashRow) (g g' : CrashGroup) : Prop :=
  ∃ row, row ∈ reportsOf (groupFingerprint g) t
    ∧ ∀ other, other ∈ reportsOf (groupFingerprint g') t → crashReceivedAt other ≤ crashReceivedAt row.

Lemma sorted_groups t l :
  Forall (λ g, GroupOf t g.2 ∧ lastAt t g.2 g.1) l → StronglySorted (ordered latestGroup) l →
  StronglySorted (seenLater t) (map snd l).
Proof.
  intros Hl Hs. induction Hs as [|a l Hs IH Ha]; [constructor|]. apply Forall_cons in Hl as [[_ (row & Hr & E & _)] Hl].
  constructor; [by apply IH|]. apply Forall_forall. rewrite Forall_forall in Ha. rewrite Forall_forall in Hl. intros g (b & -> & Hb)%list_elem_of_fmap.
  exists row. split; [done|]. destruct (Hl b Hb) as [_ (row' & _ & E' & Hmax)]. intros other Ho.
  pose proof (latest_first a b (Ha b Hb)). specialize (Hmax other Ho). lia.
Qed.

(** The list of crash groups shows every bug once, the one reported last first: each report in the store
    is counted in exactly one group, whose number of occurrences, newest report, and first and last
    instants are those of the reports with its fingerprint; a page is a stretch of that list, whose
    whole length comes with it; and nobody without the permission sees any of it. *)
Theorem crashGroups_correct actor limit offset w :
  if can actor permissions.ADMIN_CRASHES_READ then
    ∃ groups, perform (listCrashGroups actor limit offset) w
        = (Some (Success (mkCrashGroupPage (page (clampLimit MAX_CRASH_PAGE_SIZE limit) (clampOffset offset) groups)
             (Z.of_nat (length groups)))), w)
      ∧ NoDup (map groupFingerprint groups)
      ∧ (∀ row, row ∈ crashReports w → crashRowFingerprint row ∈ map groupFingerprint groups)
      ∧ sumZ (map occurrences groups) = Z.of_nat (length (crashReports w))
      ∧ Forall (GroupOf (crashReports w)) groups
      ∧ StronglySorted (seenLater (crashReports w)) groups
  else listCrashGroups actor limit offset = mret (failure Forbidden "you cannot read crash reports").
Proof.
  unfold listCrashGroups, requireReader. destruct (can actor _); [|done].
  set (t := crashReports w). exists (groupsOf t).
  destruct (omap_groups t (fingerprintsOf t)) as (H1 & H2 & H3); [intros; by apply fingerprintsOf_in|].
  pose proof (orderBy_Permutation latestGroup (omap (groupOf t) (fingerprintsOf t))) as Hp.
  assert (Hf : map groupFingerprint (groupsOf t) ≡ₚ fingerprintsOf t).
  { unfold groupsOf. rewrite map_map. rewrite <- H1 at 2. by apply Permutation_map. }
  split_and!.
  - unfold crashes_groups. run_statements. fold t. do 4 f_equal. unfold groupsOf.
    rewrite length_map, (Permutation_length Hp). rewrite <- H1 at 1. by rewrite length_map.
  - rewrite Hf. apply NoDup_remove_dups.
  - intros row Hr. rewrite Hf. apply fingerprintsOf_in, list_elem_of_fmap. by exists row.
  - unfold groupsOf. rewrite map_map. etransitivity; [apply sumZ_perm, (Permutation_map _ Hp)|]. rewrite H2.
    apply counts_total; [apply NoDup_remove_dups|]. intros row Hr. apply fingerprintsOf_in, list_elem_of_fmap. by exists row.
  - unfold groupsOf. apply Forall_map. rewrite Hp. eapply Forall_impl; [exact H3|]. by intros g [].
  - unfold groupsOf. apply sorted_groups; [by rewrite Hp|]. apply (orderBy_sorted latestGroup).
Qed.
End Groups.
