(* ===== verification/AdminSafety.v ===== *)
(** What every administrative statement keeps, whoever else is running, erasure included: the
    invariant of the system, and that every change of an account is in the audit log. *)

From S2P Require Import Prelude.
From S2P Require Import Errors.
From S2P Require Import Validation.
From S2P Require Import Actors.
From S2P Require Import Hash.
From S2P Require Import Programs.
From S2P Require Import Random.
From S2P Require Import World.
From S2P Require Import Accounts.
From S2P Require Import AuditLog.
From S2P Require Import MailTemplates.
From S2P Require Import AuthService.
From S2P Require Import AccountSafety.
From S2P Require Import CatalogRepositories.
From S2P Require Import ContentRepositories.
From S2P Require Import AdminRepositories.
From S2P Require Import AdminUserService.
From S2P Require Import CrashReport.
From S2P Require Import CrashReportService.
From S2P Require Import StorageSafety.
From S2P Require Import CatalogSafety.

#[local] Arguments updateWhere : simpl never.
#[local] Arguments deleteWhere : simpl never.
#[local] Arguments insertRow : simpl never.
#[local] Arguments anyWhere : simpl never.

Notation AccountProg p := (Keeps AccountsInv AccountsGo p (λ _, True)).
Notation KeptProg p := (Keeps SysInv SysKept p (λ _, True)).

(** ** Changes of one account *)

(** A change that an entry of the log accounts for. *)
Record Recorded (w : World) (id : string) (f : UserRow → UserRow) (audit : NewAuditEntry) : Prop := {
  recorded_id : ∀ r, userId (f r) = userId r;
  recorded_email : ∀ r, userEmail (f r) = userEmail r;
  recorded_used : ∀ r, uploadUsedBytes (f r) = uploadUsedBytes r;
  recorded_kept : ∀ r, userIs id r = true → UserKept [auditRow (clock w) audit] r (f r);
  recorded_quota : ∀ r, userIs id r = true → uploadQuotaBytes (f r) = uploadQuotaBytes r
    ∨ logged auditActions.USER_QUOTA_CHANGED (userId r) [auditRow (clock w) audit]
}.

Lemma AccountsKept_logged w w1 audit :
  clock w1 = clock w → auditLog w1 = auditLog w → AccountsStep [auditRow (clock w) audit] w w1 →
  AccountsKept w (insertAudit audit w1).
Proof.
  intros Ec El HS. exists [auditRow (clock w) audit]. split; [cbn; by rewrite Ec, El|]. by destruct HS.
Qed.

Lemma changeUser_keeps `{Postgres} id allowed f audit (also : World → World) :
  (∀ w, Recorded w id f audit) →
  (∀ w, AccountsInv w → AccountsGo w (also w) ∧ auditLog (also w) = auditLog w) →
  AccountProg (changeUser id allowed f audit also).
Proof.
  intros Hf Halso w b w' HI E. split; [|done]. destruct (Hf w) as [Fid Femail Fused Fkept Fquota].
  destruct (selectFirst (userIs id) (users w)) as [row|]; [|injection E as <- <-; by apply AccountsGo_refl].
  destruct (_ || _) in E; [done|]. injection E as <- <-.
  assert (AccountsInv (updateUser id f w)) as HI1.
  { apply updateUser_inv; [done|done|done|]. intros r Hr _. rewrite Fused.
    exact (proj1 (Forall_forall _ _) (proj2 HI) r Hr). }
  destruct (Halso _ HI1) as [[HI2 HK HS Hc] El].
  split; [|apply AccountsKept_logged; [done|done|]|done|done].
  - by destruct HI2 as [[] HQ]; split.
  - rewrite <- (app_nil_r [auditRow _ _]). apply (AccountsStep_trans _ _ _ (updateUser id f w)).
    + apply (updated_step _ id f); [done|by auto..|]. intros r Hr Hid. split; [by apply Fkept|].
      destruct (Fquota r Hid) as [Eq|?]; [|auto]. unfold withinQuota. rewrite Eq, Fused. lia.
    + destruct HK as (new & E & HStep). rewrite El, <- (app_nil_r (auditLog (updateUser id f w))) in E at 1.
      by apply app_inv_head in E as <-.
Qed.

(** The row names the account by the id it was found by. *)
Lemma recorded_logged now audit id r :
  newAuditEntityType audit = auditEntities.USER → newAuditEntityId audit = id → userIs id r = true →
  logged (newAuditAction audit) (userId r) [auditRow now audit].
Proof. intros Et <- Hid%uuidEq_true. by apply logged_row. Qed.

Section Statements.
Context `{Postgres}.
Variables (actor : Actor) (id : string).

Lemma setUploadQuota_keeps quota metadata :
  AccountProg (adminUsers_setUploadQuota id quota (auditFor actor auditActions.USER_QUOTA_CHANGED id metadata)).
Proof.
  apply changeUser_keeps; [|intros w HI; split; [by apply AccountsGo_refl|done]].
  intros w. split; [done..|intros r Hid|intros r Hid; right; by eapply recorded_logged].
  split; cbn; auto. right. by eapply (recorded_logged _ (auditFor actor auditActions.USER_QUOTA_CHANGED id metadata)).
Qed.

Lemma setActive_keeps (active : bool) metadata :
  AccountProg (adminUsers_setActive id active
    (auditFor actor (if active then auditActions.USER_ACTIVATED else auditActions.USER_DEACTIVATED) id metadata)).
Proof.
  apply changeUser_keeps.
  - intros w. split; [done..|intros r Hid|by left]. split; cbn; auto. right; right.
    by eapply (recorded_logged _ (auditFor actor (if active then _ else _) id metadata)).
  - intros w HI. destruct active; [split; [by apply AccountsGo_refl|done]|split; [by apply revoke_keeps|done]].
Qed.

Lemma AccountsGo_trans w1 w2 w3 : AccountsGo w1 w2 → AccountsGo w2 w3 → AccountsGo w1 w3.
Proof.
  intros [_ K1 S1 C1] [I2 K2 S2 C2]. split; [done|by eapply AccountsKept_trans| |congruence].
  unfold SameStorage in *. naive_solver congruence.
Qed.

Lemma setTemporaryPassword_keeps hash metadata :
  AccountProg (adminUsers_setTemporaryPassword id hash
    (auditFor actor auditActions.USER_TEMPORARY_PASSWORD_SET id metadata)).
Proof.
  apply changeUser_keeps.
  - intros w. split; [done..|intros r Hid|by left]. split; cbn; auto. intros _. right.
    by eapply (recorded_logged _ (auditFor actor auditActions.USER_TEMPORARY_PASSWORD_SET id metadata)).
  - intros w HI. split; [|done]. eapply AccountsGo_trans; [by apply revoke_keeps|].
    apply (consume_keeps _ (λ r, uuidEq (tokenUserId r) id && purposeIs PasswordReset r && unconsumed r));
      [by apply (revoke_keeps w (refreshOwnerIs id) (clock w) None)|].
    intros r. rewrite !andb_true_iff. tauto.
Qed.

Lemma grantRole_keeps role metadata :
  AccountProg (adminUsers_grantRole id role (auditFor actor auditActions.ROLE_GRANTED id metadata)).
Proof.
  intros w b w' HI E. split; [|done].
  destruct (classifyRoleChange _ _ _ _); try (injection E as <- <-; by apply AccountsGo_refl).
  destruct (negb _); [done|]. injection E as <- <-. split; [by destruct HI as [[] ?]; split| |done|done].
  apply AccountsKept_logged; [done|done|]. split; [by auto..| | |by apply users_same_quota].
  - intros u Hu. exists u. split; [done|apply UserKept_refl].
  - intros grant Hg. left. apply elem_of_insertRow. by left.
Qed.

Lemma revokeRole_keeps role metadata :
  AccountProg (adminUsers_revokeRole id role (auditFor actor auditActions.ROLE_REVOKED id metadata)).
Proof.
  intros w b w' HI E. split; [|done].
  destruct (classifyRoleChange _ _ _ _); try (injection E as <- <-; by apply AccountsGo_refl).
  destruct (negb _); [done|]. injection E as <- <-. split; [by destruct HI as [[] ?]; split| |done|done].
  apply AccountsKept_logged; [done|done|]. split; [by auto..| | |by apply users_same_quota].
  - intros u Hu. exists u. split; [done|apply UserKept_refl].
  - intros grant Hg. destruct (holdsRole id role grant) eqn:Eh; [right|left; by apply elem_of_deleteWhere].
    apply andb_true_iff in Eh as [Eh%uuidEq_true _].
    by apply (logged_row (clock w) (auditFor actor auditActions.ROLE_REVOKED id metadata)).
Qed.
End Statements.

(** ** Erasure *)

(** One row takes a key that no other row has. *)
Lemma NoDup_rekeyed {Row} (key : Row → string) (p : Row → bool) (f : Row → Row) k t :
  NoDup (map key t) → (∀ r, p r = true → key (f r) = k) → (∀ r, r ∈ t → p r = false → key r ≠ k) →
  (∀ r r', r ∈ t → r' ∈ t → p r = true → p r' = true → r = r') →
  NoDup (map key (updateWhere p f t)).
Proof.
  intros HN Hk Hne Hone. unfold updateWhere. rewrite map_map.
  induction t as [|r t IH]; cbn; [constructor|]. apply NoDup_cons in HN as [Hn HN]. apply NoDup_cons. split.
  - intros (r' & E & Hr')%list_elem_of_fmap.
    assert (r ∈ r :: t ∧ r' ∈ r :: t) as [Hr Hr2] by (split; [by left|by right]).
    destruct (p r) eqn:Ep, (p r') eqn:Ep'.
    + apply Hn. apply list_elem_of_fmap. exists r'. by rewrite (Hone r r' Hr Hr2 Ep Ep').
    + rewrite (Hk r Ep) in E. by destruct (Hne r' Hr2 Ep').
    + rewrite (Hk r' Ep') in E. by destruct (Hne r Hr Ep).
    + apply Hn. apply list_elem_of_fmap. by exists r'.
  - apply IH; [done|intros r' Hr'; apply Hne; by right|]. intros r1 r2 H1 H2. apply Hone; by right.
Qed.

Section Erase.
Context `{Evp}.
Variables (id : string) (identity : ErasedIdentity).

Notation erasedWorld w :=
  (forgetUser id (erasedReason identity) (updateUser id (anonymised identity) w)).

Lemma erased_users k us :
  anyWhere (userIs k) (updateWhere (userIs id) (anonymised identity) us) = anyWhere (userIs k) us.
Proof. by apply anyWhere_updated. Qed.

Lemma erased_accounts w :
  AccountsInv w → anyWhere (λ u, emailIs (erasedEmail identity) u && negb (userIs id u)) (users w) = false →
  AccountsInv (erasedWorld w).
Proof.
  intros [Hok HQ] Hfree. rewrite anyWhere_false in Hfree.
  split; [|by apply Forall_updateWhere]. destruct Hok. split; cbn.
  - by rewrite (updateWhere_keys (λ r, lowerText (userId r))).
  - apply (NoDup_rekeyed (λ r, lowerText (userEmail r)) _ _ (lowerText (erasedEmail identity))); [done|done|..].
    + intros r Hr Hp E. specialize (Hfree r Hr). rewrite Hp, andb_true_r in Hfree.
      unfold emailIs, citextEq in Hfree. by apply bool_decide_eq_false in Hfree.
    + intros r r' Hr Hr' E%uuidEq_true E'%uuidEq_true.
      apply (key_inj (λ r, lowerText (userId r)) (users w)); [done..|congruence].
  - by apply NoDup_deleteWhere.
  - by apply NoDup_deleteWhere.
  - apply Forall_deleteWhere. eapply Forall_impl; [exact refresh_owned|]. intros r. cbv beta. by rewrite erased_users.
  - by apply NoDup_deleteWhere.
  - apply Forall_deleteWhere. eapply Forall_impl; [exact user_tokens_owned|]. intros r. cbv beta. by rewrite erased_users.
Qed.

Lemma erased_catalog w : CatalogInv w → CatalogInv (erasedWorld w).
Proof.
  intros []. split; cbn; try done.
  - eapply Forall_impl; [exact game_publishers|]. intros g. cbv beta. by rewrite erased_users.
  - by apply NoDup_deleteWhere.
  - by apply Forall_deleteWhere.
  - apply Forall_deleteWhere. eapply Forall_impl; [exact shelf_users|]. intros r. cbv beta. by rewrite erased_users.
Qed.

Lemma erased_step audit w :
  newAuditAction audit = auditActions.USER_ERASED → newAuditEntityType audit = auditEntities.USER →
  newAuditEntityId audit = id → AccountsStep [auditRow (clock w) audit] w (erasedWorld w).
Proof.
  intros Ea Et Ei.
  assert (∀ k, lowerText id = lowerText k → logged auditActions.USER_ERASED k [auditRow (clock w) audit]) as Hlog.
  { intros k Ek. rewrite <- Ea. apply logged_row; [done|congruence]. }
  apply (updated_step _ id (anonymised identity)); [done| | |by auto|].
  - intros r Hr _. destruct (uuidEq (tokenUserId r) id) eqn:E; [right; apply Hlog; by apply uuidEq_true in E|].
    left. by apply elem_of_deleteWhere.
  - intros r Hr _. destruct (refreshOwnerIs id r) eqn:E; [right; apply Hlog; by apply uuidEq_true in E|].
    left. by apply elem_of_deleteWhere.
  - intros r Hr Hid%uuidEq_true. split; [split; cbn; auto|]. unfold withinQuota. cbn. lia.
Qed.

Lemma accounts_erase_kept audit :
  newAuditAction audit = auditActions.USER_ERASED → newAuditEntityType audit = auditEntities.USER →
  newAuditEntityId audit = id → KeptProg (accounts_erase id identity audit).
Proof.
  intros Ea Et Ei w b w' HI E. split; [|done].
  destruct (selectFirst _ _) as [row|] in E; [|injection E as <- <-; by apply SysKept_refl].
  destruct (negb _) in E; [done|]. destruct (anyWhere _ _) eqn:Hfree in E; [done|].
  destruct (negb _) in E; [done|]. injection E as <- <-. destruct HI as (HA & HS & HC). split.
  - split_and!.
    + pose proof (erased_accounts w HA Hfree) as [[] ?]. split; [by split|done].
    + destruct HS. by split.
    + pose proof (erased_catalog w HC) as []. by split.
  - apply AccountsKept_logged; [done|done|by apply erased_step].
  - split; [|done]. intros x Hx Hready _. by split.
Qed.
End Erase.

(** ** Handlers *)

Section Handlers.
Context `{Sodium, PasswordHasher, Evp, Postgres}.

#[local] Hint Resolve query_keeps draw_keeps hashPassword_keeps setUploadQuota_keeps setActive_keeps
  setTemporaryPassword_keeps grantRole_keeps revokeRole_keeps : keeps.

Ltac admin_reads := unfold adminUsers_search, adminUsers_findById, adminUsers_listRoles,
  adminUsers_countOtherHoldersOf, audit_search, crashes_search, crashes_groups, crashes_findById in *.

Lemma listUsers_keeps actor q : AccountProg (listUsers actor q).
Proof. unfold listUsers. admin_reads. keeps_handler. Qed.

Lemma findUser_keeps actor id : AccountProg (findUser actor id).
Proof. unfold findUser. admin_reads. keeps_handler. Qed.

Lemma quota_keeps actor id quota : AccountProg (setUploadQuota actor id quota).
Proof. unfold setUploadQuota. keeps_handler. Qed.

Lemma active_keeps actor id active : AccountProg (setActive actor id active).
Proof. unfold setActive, deactivable, refuseIfLastAdministrator. admin_reads. keeps_handler. Qed.

Lemma temporaryPassword_keeps actor id : AccountProg (setTemporaryPassword actor id).
Proof. unfold setTemporaryPassword. keeps_handler. Qed.

Lemma grant_keeps actor id role : AccountProg (grantRole actor id role).
Proof. unfold grantRole, afterRoleChange. admin_reads. keeps_handler. Qed.

Lemma revoke_role_keeps actor id role : AccountProg (revokeRole actor id role).
Proof. unfold revokeRole, afterRoleChange, refuseIfLastAdministrator. admin_reads. keeps_handler. Qed.

Lemma listRoles_keeps actor : AccountProg (listRoles actor).
Proof. unfold listRoles. admin_reads. keeps_handler. Qed.

Lemma listAudit_keeps actor q : AccountProg (listAudit actor q).
Proof. unfold listAudit. admin_reads. keeps_handler. Qed.

(** Crash reports are in no other table. *)
Lemma crashes_add_keeps report print : AccountProg (crashes_add report print).
Proof.
  intros w b w' [[] HQ] E. split; [|done]. cbv zeta in E. destruct (timestamptz _); [|done].
  destruct (_ || _); [done|]. injection E as <- <-.
  split; [split; [by split|done]|by apply quiet_kept|done|done].
Qed.

#[local] Hint Resolve crashes_add_keeps : keeps.

Lemma submitCrash_keeps report : AccountProg (submitCrash report).
Proof. unfold submitCrash. cbv zeta. keeps_handler. Qed.

Lemma listCrashGroups_keeps actor limit offset : AccountProg (listCrashGroups actor limit offset).
Proof. unfold listCrashGroups. admin_reads. keeps_handler. Qed.

Lemma listCrashes_keeps actor q : AccountProg (listCrashes actor q).
Proof. unfold listCrashes. admin_reads. keeps_handler. Qed.

Lemma findCrash_keeps actor id : AccountProg (findCrash actor id).
Proof. unfold findCrash. admin_reads. keeps_handler. Qed.

Lemma sweepExpiredCrashes_keeps settings : AccountProg (sweepExpiredCrashes settings).
Proof. by apply exec_elsewhere. Qed.

Lemma eraseAccount_kept actor command : KeptProg (eraseAccount actor command).
Proof.
  unfold eraseAccount, users_findById, notLastAdministrator. admin_reads.
  repeat (case_match; [done|]). eapply Keeps_bind; [apply query_kept|]. intros [user|] _; [|done].
  case_match; [done|]. eapply (Keeps_bind _ _ _ _ (λ _, True)).
  - case_match; [|done]. eapply Keeps_bind; [apply query_kept|]. done.
  - intros [[]|e] _; [|done]. eapply Keeps_bind; [by apply accounts_erase_kept|]. done.
Qed.
End Handlers.
