(* ===== verification/CatalogCorrect.v ===== *)
(** What the catalog answers: who sees a game, what Explore lists and how it is cut into
    pages, and what a game's page shows to whom. *)

From S2P Require Import Prelude.
From S2P Require Import Errors.
From S2P Require Import Validation.
From S2P Require Import Semver.
From S2P Require Import Actors.
From S2P Require Import Catalog.
From S2P Require Import Manifest.
From S2P Require Import Media.
From S2P Require Import PatchNote.
From S2P Require Import Hash.
From S2P Require Import BlobStore.
From S2P Require Import Programs.
From S2P Require Import World.
From S2P Require Import Ordering.
From S2P Require Import Accounts.
From S2P Require Import AccountSafety.
From S2P Require Import Uploads.
From S2P Require Import CatalogRepositories.
From S2P Require Import ContentRepositories.
From S2P Require Import MediaStore.
From S2P Require Import StorageSafety.
From S2P Require Import CatalogService.
From S2P Require Import PatchNoteService.
From S2P Require Import MediaService.
From S2P Require Import CatalogSafety.

(** ** Orders *)

#[export] Instance orderByFor_comparison sort : Comparison (orderByFor sort).
Proof.
  assert (Comparison (λ a b, thenBy (CompOpp (compareText (gameCreatedAt a) (gameCreatedAt b)))
                                    (compareUuid (gameId a) (gameId b)))) as Hnewest.
  { apply comparison_then; [apply comparison_down|]; by apply comparison_on, _. }
  destruct sort; unfold orderByFor; [| |exact Hnewest].
  - apply comparison_then; [|exact Hnewest]. apply comparison_down. by apply comparison_on, _.
  - apply comparison_then; [|exact Hnewest].
    apply (comparison_on (λ g, lowerText (title g)) compareText), _.
Qed.

#[export] Instance newestVersion_comparison : Comparison newestVersion.
Proof.
  unfold newestVersion.
  repeat (apply comparison_then || apply comparison_down); by apply comparison_on, _.
Qed.

(** ** Finding a game *)

Definition gameNamed (idOrSlug : string) (w : World) : option Game :=
  gameWith w (λ g, if isUuid idOrSlug then gameIs idOrSlug g else bool_decide (slug g = idOrSlug)).

Lemma perform_gameByIdOrSlug id w : perform (gameByIdOrSlug id) w = (Some (gameNamed id w), w).
Proof. unfold gameByIdOrSlug, gameNamed. by destruct (isUuid id). Qed.

Lemma perform_visibleGame actor id w :
  perform (visibleGame actor id) w =
    (Some (match gameNamed id w with
           | Some g => if mayViewGame g actor then Success g else failure NotFound NO_SUCH_GAME
           | None => failure NotFound NO_SUCH_GAME
           end), w).
Proof.
  unfold visibleGame. rewrite perform_bind, perform_gameByIdOrSlug. by destruct (gameNamed id w).
Qed.

Lemma perform_editableGame actor id w :
  perform (editableGame actor id) w =
    (Some (match gameNamed id w with
           | Some g => if mayViewGame g actor
                       then if mayEditGame g actor then Success g else failure Forbidden NOT_YOURS
                       else failure NotFound NO_SUCH_GAME
           | None => failure NotFound NO_SUCH_GAME
           end), w).
Proof.
  unfold editableGame. rewrite perform_bind, perform_visibleGame.
  destruct (gameNamed id w) as [g|]; [|done]. destruct (mayViewGame g actor); [|done].
  by destruct (mayEditGame g actor).
Qed.

(** The game somebody who may edit it finds. *)
Lemma editable_found actor id w g w' :
  perform (editableGame actor id) w = (Some (Success g), w') →
  w' = w ∧ gameNamed id w = Some g ∧ mayEditGame g actor = true.
Proof.
  rewrite perform_editableGame. destruct (gameNamed id w) as [x|]; [|done].
  destruct (mayViewGame x actor); [|done]. destruct (mayEditGame x actor) eqn:E; [|done].
  by intros [= <- <-].
Qed.

Section Hidden.
Context `{Evp, Postgres, Disk}.
Variables (actor : Actor) (id : string) (w : World).
Hypothesis hidden : ∀ g, gameNamed id w = Some g → mayViewGame g actor = false.

Lemma hidden_visible : perform (visibleGame actor id) w = (Some (failure NotFound NO_SUCH_GAME), w).
Proof.
  rewrite perform_visibleGame. destruct (gameNamed id w) as [g|] eqn:E; [|done]. by rewrite (hidden g).
Qed.

Lemma hidden_editable : perform (editableGame actor id) w = (Some (failure NotFound NO_SUCH_GAME), w).
Proof.
  rewrite perform_editableGame. destruct (gameNamed id w) as [g|] eqn:E; [|done]. by rewrite (hidden g).
Qed.

(** Every route stops at the lookup. *)
Lemma hidden_lookup {B} (k : Game → Prog World (Result B)) :
  perform (try? game := visibleGame actor id in k game) w = (Some (failure NotFound NO_SUCH_GAME), w)
  ∧ perform (try? game := editableGame actor id in k game) w = (Some (failure NotFound NO_SUCH_GAME), w).
Proof. by rewrite !perform_bind, hidden_visible, hidden_editable. Qed.
End Hidden.

Section Properties.
Context `{Evp, Postgres, Disk}.


(** ** Explore *)

Definition exploreQuery (search : string) (sort : GameSort) (limit offset : Z) : GameQuery :=
  mkGameQuery search sort limit offset "" false.

(** The games Explore has for a search, in the order it was asked for. *)
Definition exploreList (search : string) (sort : GameSort) (w : World) : list Game :=
  orderBy (orderByFor sort)
    (omap (mapGame w) (selectWhere (listed (exploreQuery search sort 0 0)) (games w))).

Lemma perform_explore actor search sort limit offset w :
  can actor permissions.GAME_READ = true →
  perform (explore actor (exploreQuery search sort limit offset)) w =
    (Some (Success (mkGamePage (page (clampLimit MAX_GAME_PAGE_SIZE limit) (clampOffset offset) (exploreList search sort w))
       (Z.of_nat (length (selectWhere (listed (exploreQuery search sort 0 0)) (games w)))))), w).
Proof. intros Hc. unfold explore, games_search. by rewrite Hc. Qed.

Lemma omap_all {A B} (f : A → option B) l : (∀ x, x ∈ l → is_Some (f x)) → length (omap f l) = length l.
Proof.
  induction l as [|x l IH]; intros Hf; [done|]. cbn. destruct (Hf x ltac:(by left)) as [y ->].
  cbn. f_equal. apply IH. intros z Hz. apply Hf. by right.
Qed.

Lemma omap_ids w l : (∀ g, g ∈ l → is_Some (mapGame w g)) → map gameId (omap (mapGame w) l) = map gameId l.
Proof.
  induction l as [|g l IH]; intros Hf; [done|]. cbn. destruct (Hf g ltac:(by left)) as [x E]. rewrite E. cbn.
  apply mapGame_own in E as [-> _]. f_equal. apply IH. intros z Hz. apply Hf. by right.
Qed.

(** Every game has a publisher, so none is lost in the join. *)
Lemma mapGame_there w g : CatalogInv w → g ∈ games w → is_Some (mapGame w g).
Proof.
  intros HC Hg. pose proof (proj1 (Forall_forall _ _) (game_publishers w HC) g Hg) as Hu. cbn in Hu.
  apply anyWhere_true in Hu as (u & Hu & Eu). unfold mapGame.
  destruct (selectFirst _ (users w)) eqn:E; [by eexists|]. by rewrite (proj1 (selectFirst_None _ _) E u Hu) in Eu.
Qed.

Lemma elem_of_exploreList search sort w x :
  CatalogInv w →
  x ∈ exploreList search sort w ↔
  ∃ g, g ∈ games w ∧ visibility g = Public ∧ (search = ""%stdpp ∨ titleMatches search (title g) = true)
     ∧ mapGame w g = Some x.
Proof.
  intros HC. unfold exploreList. rewrite (orderBy_Permutation (orderByFor sort)), list_elem_of_omap.
  setoid_rewrite elem_of_selectWhere. unfold listed, exploreQuery. cbn.
  setoid_rewrite andb_true_iff. setoid_rewrite andb_true_iff. setoid_rewrite orb_true_iff.
  setoid_rewrite bool_decide_eq_true. naive_solver.
Qed.

(** C19: Explore shows exactly the public games whose title the search matches, each
    once, in the order asked for; a page holds at most a hundred of them and the announced
    total is how many there are; and the pages of one size, one after another, are the whole
    list, from its beginning and with nothing left out or shown twice. *)
Theorem explore_correct actor search sort limit w :
  CatalogInv w → can actor permissions.GAME_READ = true → 1 ≤ limit ≤ MAX_GAME_PAGE_SIZE →
  let games_ := exploreList search sort w in
  StronglySorted (ordered (orderByFor sort)) games_
  ∧ (∀ x, x ∈ games_ ↔ ∃ g, g ∈ games w ∧ visibility g = Public
       ∧ (search = ""%stdpp ∨ titleMatches search (title g) = true) ∧ mapGame w g = Some x)
  ∧ NoDup (map gameId games_)
  ∧ ∀ n, ∃ pages,
      Forall2 (λ k p, perform (explore actor (exploreQuery search sort limit (Z.of_nat k * limit))) w = (Some (Success p), w)
                 ∧ pageTotal p = Z.of_nat (length games_) ∧ (length (pageItems p) ≤ 100)%nat) (seq 0 n) pages
      ∧ mjoin (map pageItems pages) = take (n * Z.to_nat limit) games_.
Proof.
  intros HC Hcan Hlimit games_. split; [apply orderBy_sorted, _|]. split; [intros; by apply elem_of_exploreList|].
  assert (length games_ = length (selectWhere (listed (exploreQuery search sort 0 0)) (games w))) as Hlen.
  { unfold games_, exploreList. rewrite (orderBy_Permutation (orderByFor sort)). apply omap_all.
    intros g [Hg _]%elem_of_selectWhere. by apply mapGame_there. }
  split.
  - unfold games_, exploreList. rewrite (orderBy_Permutation (orderByFor sort)).
    rewrite (omap_ids w) by (intros g [Hg _]%elem_of_selectWhere; by apply mapGame_there).
    apply (NoDup_fmap_1 lowerText). rewrite <- list_fmap_compose. by apply (NoDup_selectWhere (λ g, lowerText (gameId g))), HC.
  - intros n. exists (map (λ k, mkGamePage (page limit (Z.of_nat k * limit) games_) (Z.of_nat (length games_))) (seq 0 n)).
    split.
    + apply Forall2_fmap_r, Forall_Forall2_diag, Forall_forall. intros k _. cbn. split; [|split; [done|]].
      * rewrite perform_explore by done. fold games_. rewrite <- Hlen. unfold clampLimit, clampOffset, MAX_GAME_PAGE_SIZE in *.
        destruct (Z.ltb_spec limit 1); [lia|]. destruct (Z.ltb_spec 100 limit); [lia|].
        by rewrite Z.max_l by lia.
      * unfold page, MAX_GAME_PAGE_SIZE in *. rewrite length_take. lia.
    + rewrite map_map. cbn [pageItems]. rewrite <- pages_take. f_equal. apply map_ext. intros k. unfold page.
      f_equal. f_equal. rewrite Z2Nat.inj_mul by lia. by rewrite Nat2Z.id.
Qed.
(** ** The page of a game *)

Lemma elem_of_versionsOf game unpublished w v :
  v ∈ versionsOf game unpublished w ↔
  v ∈ versions w ∧ uuidEq (versionGameId v) game = true ∧ (publishedAt v ≠ ""%stdpp ∨ unpublished = true).
Proof.
  unfold versionsOf. rewrite (orderBy_Permutation newestVersion), elem_of_selectWhere.
  rewrite andb_true_iff, orb_true_iff, negb_true_iff, bool_decide_eq_false. tauto.
Qed.

Lemma perform_listForVersions (ids : list string) w :
  perform (builds_listForVersions ids) w = (Some (buildsOf ids w), w).
Proof.
  unfold builds_listForVersions. case_bool_decide as E; [|done]. subst. unfold buildsOf. cbn [existsb].
  by rewrite (selectWhere_none (λ _, false)).
Qed.

(** The page of a game shows whoever may edit it all its versions and anybody else
    the published ones, newest number first; the builds of exactly the versions shown, so
    that nothing of an unreleased version is found through it; and the game's gallery. *)
Theorem gameDetail_correct actor id w d w' :
  perform (gameDetail actor id) w = (Some (Success d), w') →
  w' = w ∧ can actor permissions.GAME_READ = true
  ∧ gameNamed id w = Some (detailGame d) ∧ mayViewGame (detailGame d) actor = true
  ∧ (StronglySorted (ordered newestVersion) (detailVersions d)
     ∧ ∀ v, v ∈ detailVersions d ↔ v ∈ versions w ∧ uuidEq (versionGameId v) (gameId (detailGame d)) = true
         ∧ (publishedAt v ≠ ""%stdpp ∨ mayEditGame (detailGame d) actor = true))
  ∧ (∀ b, b ∈ detailBuilds d ↔ b ∈ builds w ∧ ∃ v, v ∈ detailVersions d ∧ uuidEq (buildVersionId b) (versionId v) = true)
  ∧ (∀ m, m ∈ detailMedia d ↔ m ∈ gameMedia w ∧ uuidEq (mediaGameId m) (gameId (detailGame d)) = true)
  ∧ inLibrary d = anyWhere (shelved (actorUserId actor) (gameId (detailGame d))) (userGames w).
Proof.
  unfold gameDetail. destruct (can actor _) eqn:Ecan; cbn [negb]; [|done].
  rewrite perform_bind, perform_visibleGame. destruct (gameNamed id w) as [g|] eqn:Eg; [|done].
  destruct (mayViewGame g actor) eqn:Eview; [|done].
  unfold versions_listForGame, media_listForGame, library_contains. run_statements.
  rewrite perform_bind, perform_listForVersions. run_statements. intros [= <- <-]. cbn.
  split; [done|]. split; [done|]. split; [done|]. split; [done|]. split; [split|split; [|split]].
  - apply orderBy_sorted, _.
  - intros v. apply elem_of_versionsOf.
  - intros b. unfold buildsOf. rewrite (orderBy_Permutation newestBuild), elem_of_selectWhere.
    rewrite existsb_exists. setoid_rewrite <- list_elem_of_In. setoid_rewrite list_elem_of_fmap. naive_solver.
  - intros m. unfold galleryOf. by rewrite (orderBy_Permutation galleryOrder), elem_of_selectWhere.
  - done.
Qed.

(** An update of a game is addressed by its id alone, although every other route
    takes its slug as well: one that names the game by its slug and changes anything valid
    fails in the database, where the slug is no uuid. *)
Theorem updateGame_by_slug actor id changes w g :
  isUuid id = false → gameNamed id w = Some g → mayEditGame g actor = true →
  gameUpdateEmpty changes = false → (∃ valid, validGameUpdate changes = Success valid) →
  perform (updateGame actor id changes) w = (None, w).
Proof.
  intros Hid Hg Hedit Hempty [valid Hvalid]. unfold updateGame. rewrite perform_bind, perform_editableGame, Hg.
  unfold mayViewGame. by rewrite Hedit, orb_true_r, Hempty, Hvalid, Hid.
Qed.
(** ** What the service accepts, the database accepts *)

Lemma charLength_size s : charLength s ≤ size s.
Proof.
  unfold charLength, size. pose proof (List.filter_length_le (λ c, negb (byteInRange 128 191 c)) (chars s)). lia.
Qed.

Lemma newGameOf_fits actor command new :
  newGameOf actor command = Success new → 1 ≤ charLength (newTitle new) →
  newPublisherUserId new = actorUserId actor
  ∧ dateFits (newReleaseDate new) = true ∧ slugFits (newSlug new) = true ∧ titleFits (newTitle new) = true.
Proof.
  unfold newGameOf. cbv zeta. set (title := trim _).
  destruct (checkTitle title) as [[]|] eqn:Et; [|done]. destruct (checkSummary _) as [[]|]; [|done].
  destruct (checkDescription _) as [[]|]; [|done]. destruct (checkOptionalDate _) as [[]|] eqn:Ed; [|done].
  destruct (validateSlug _) as [[]|] eqn:Es; [|done]. cbn. intros [= <-] Hl. cbn in *. split_and!; [done|..].
  - unfold dateFits, checkOptionalDate in *. destruct (bool_decide (trim (commandReleaseDate command) = _)); cbn [orb]; [done|].
    by rewrite Ed.
  - apply validateSlug_loop in Es as [_ Es]. unfold slugFits. by rewrite Es.
  - unfold titleFits. unfold checkTitle, checkFieldLength in Et. destruct (bool_decide (title = _)); [discriminate Et|].
    destruct (MAX_TITLE_LENGTH <? _) eqn:E; [discriminate Et|]. pose proof (charLength_size title). unfold MAX_TITLE_LENGTH in E. bool_to_prop.
    apply andb_true_iff. rewrite !Z.leb_le. lia.
Qed.

(** A publisher whose command is valid gets the game: nothing the service accepts
    is refused by a constraint of the table, the new row is the caller's, under the slug of
    the command, and the only change; and a slug that is taken is a conflict that changes
    nothing but the draws of the generator. *)
Theorem createGame_correct actor command new w :
  can actor permissions.GAME_PUBLISH = true → newGameOf actor command = Success new →
  1 ≤ charLength (newTitle new) →
  anyWhere (userIs (actorUserId actor)) (users w) = true →
  anyWhere (gameIs (gen_random_uuid (draws w))) (games w) = false →
  let row := newGameRow (clock w) (gen_random_uuid (draws w)) new in
  let drawn := setDraws (S (draws w)) w in
  if anyWhere (λ g, bool_decide (slug g = newSlug new)) (games w)
  then perform (createGame actor command) w
         = (Some (failure Conflict "a game with that slug already exists"), drawn)
  else ∃ g, perform (createGame actor command) w = (Some (Success g), setGames (games w ++ [row]) drawn)
    ∧ gameId g = gen_random_uuid (draws w) ∧ slug g = newSlug new ∧ publisherUserId g = actorUserId actor
    ∧ mayEditGame g actor = true.
Proof.
  intros Hcan Hnew Hl Hu Hf row drawn. destruct (newGameOf_fits _ _ _ Hnew Hl) as (Epub & Hd & Hs & Ht).
  unfold createGame, games_create. rewrite Hcan, Hnew. cbn [negb]. cbn [perform statement]. cbv zeta.
  cbn [games users setDraws clock]. rewrite Hd, Hs, Ht. cbn [negb orb].
  destruct (anyWhere (λ g, bool_decide (slug g = newSlug new)) (games w)); [done|].
  rewrite Hf, Epub, Hu. cbn [negb orb]. fold row.
  assert (is_Some (mapGame drawn row)) as [g Eg].
  { apply anyWhere_true in Hu as (u & Hu & Eu). unfold mapGame. cbn [publisherUserId row newGameRow]. rewrite Epub.
    destruct (selectFirst _ (users drawn)) eqn:E; [by eexists|].
    by rewrite (proj1 (selectFirst_None _ _) E u Hu) in Eu. }
  fold drawn. rewrite Eg. exists g. split; [done|]. revert Eg. unfold mapGame.
  destruct (selectFirst _ _); [|done]. intros [= <-]. unfold row, mayEditGame, owns. cbn. rewrite Epub. split_and!; [done..|].
  by rewrite bool_decide_eq_true_2.
Qed.
End Properties.
