(* ===== verification/UploadService.v ===== *)
(** The upload half of publishing: [src/services/UploadService.h] and
    [src/services/UploadService.cpp]. *)

From S2P Require Import Prelude.
From S2P Require Import Errors.
From S2P Require Import Validation.
From S2P Require Import Actors.
From S2P Require Import Catalog.
From S2P Require Import Manifest.
From S2P Require Import Delta.
From S2P Require Import Hash.
From S2P Require Import BlobStore.
From S2P Require Import Programs.
From S2P Require Import World.
From S2P Require Import Accounts.
From S2P Require Import Uploads.

(** ** Data *)

Record UploadSettings := mkUploadSettings {
  maxBlobBytes : Z;
  maxChunkBytes : Z;
  sessionTtl : Z;
  maxOpenSessionsPerUser : Z;
  maxNegotiationBatch : Z
}.

Record BlobDeclaration := mkDeclaration { declaredSha256 : string; declaredSize : Z }.

Record FinalizeBuildCommand := mkFinalize {
  commandFiles : list ManifestEntry;
  commandEntrypoint : string;
  commandLaunchArgs : string
}.

Record ManifestDocument := mkManifestDocument { documentSha256 : string; documentJson : string }.

Definition NO_SUCH_BUILD : string := "no such build".
Definition NO_SUCH_SESSION : string := "no such upload session".
Definition SWEEP_BATCH : Z := 100.
Definition MAX_REPORTED_MISSING : nat := 20.

(** ** Operations *)

Section UploadService.
Context `{Evp, Disk, Postgres}.
Variable settings : UploadSettings.

Definition writableBuild (actor : Actor) (id : string) : Prog World (Result BuildOwnership) :=
  if negb (can actor permissions.BUILD_UPLOAD) then mret (failure Forbidden "you cannot upload builds")
  else if negb (isUuid id) then mret (failure NotFound NO_SUCH_BUILD)
  else
    found ← builds_findOwnership id;
    match found with
    | None => mret (failure NotFound NO_SUCH_BUILD)
    | Some ownership =>
        if negb (mayPublishBuild ownership actor) then mret (failure NotFound NO_SUCH_BUILD)
        else if negb (bool_decide (ownStatus ownership = Uploading)) then
          mret (failure Conflict "this build has already been finalized")
        else mret (Success ownership)
    end.

Definition tooLarge {A} : Result A :=
  failure InvalidInput ("a single file may be at most " +:+ toDecimal (maxBlobBytes settings) +:+ " bytes").

(** The two checks every declaration goes through. *)
Definition checkDeclaration (blob : BlobDeclaration) : VoidResult :=
  if negb (isSha256Hex (declaredSha256 blob)) then
    failure InvalidInput "sha256 must be 64 lowercase hex characters"
  else if (declaredSize blob <? 0) || (maxBlobBytes settings <? declaredSize blob) then tooLarge
  else Success tt.

(** The addresses asked about, each once, in order. *)
Fixpoint candidatesOf (seen : gset string) (blobs : list BlobDeclaration) : Result (list string) :=
  match blobs with
  | [] => Success []
  | blob :: rest =>
      let? _ := checkDeclaration blob in
      if decide (declaredSha256 blob ∈ seen) then candidatesOf seen rest
      else let? candidates := candidatesOf ({[declaredSha256 blob]} ∪ seen) rest in
           Success (declaredSha256 blob :: candidates)
  end.

Definition missingBlobs (actor : Actor) (id : string) (blobs : list BlobDeclaration)
    : Prog World (Result (list string)) :=
  try? _ := writableBuild actor id in
  if bool_decide (length blobs = 0%nat) then mret (Success [])
  else if maxNegotiationBatch settings <? Z.of_nat (length blobs) then
    mret (failure InvalidInput ("ask about at most " +:+ toDecimal (maxNegotiationBatch settings)
                                +:+ " blobs per request"))
  else
    match candidatesOf ∅ blobs with
    | Failure e => mret (Failure e)
    | Success candidates =>
        missing ← blobs_findMissing candidates;
        mret (Success missing)
    end.

Definition beginUpload (actor : Actor) (id : string) (blob : BlobDeclaration)
    : Prog World (Result UploadSession) :=
  try? build := writableBuild actor id in
  match checkDeclaration blob with
  | Failure e => mret (Failure e)
  | Success _ =>
      held ← blobs_findBySha256 (declaredSha256 blob);
      match held with
      | Some _ => mret (failure Conflict "the server already holds this content")
      | None =>
          openSessions ← sessions_countOpenForUser (actorUserId actor);
          if maxOpenSessionsPerUser settings <=? openSessions then
            mret (failure Conflict
              "you have too many uploads in flight; finish or abort one before starting another")
          else
            found ← users_findById (actorUserId actor);
            match found with
            | None => mret (failure Unauthenticated "no such account")
            | Some user =>
                if quotaBytes user <? add64 (usedBytes user) (declaredSize blob) then
                  mret (failure QuotaExceeded
                    ("this upload would take you past your quota of " +:+ toDecimal (quotaBytes user)
                     +:+ " bytes"))
                else
                  try? session := sessions_create
                    (mkNewSession (ownBuildId build) (actorUserId actor) (declaredSha256 blob)
                       (declaredSize blob) (sessionTtl settings)) in
                  if negb (bool_decide (uploadUserId session = actorUserId actor)) then
                    mret (failure Conflict "another session is already uploading this file")
                  else mret (Success session)
            end
      end
  end.

Definition sessionStatus (actor : Actor) (id : string) : Prog World (Result UploadSession) :=
  if negb (isUuid id) then mret (failure NotFound NO_SUCH_SESSION)
  else
    found ← sessions_findById id;
    match found with
    | None => mret (failure NotFound NO_SUCH_SESSION)
    | Some session =>
        if negb (bool_decide (uploadUserId session = actorUserId actor)) then
          mret (failure NotFound NO_SUCH_SESSION)
        else mret (Success session)
    end.

Definition discardStaging (session : string) : Prog World unit :=
  onDisk (λ faults files, (tt, discard faults (stagingPathFor session) files)).

Definition completeSession (session : UploadSession) : Prog World VoidResult :=
  held ← blobs_findBySha256 (uploadSha256 session);
  match held with
  | Some _ =>
      _ ← discardStaging (uploadId session);
      _ ← sessions_markCompleted (uploadId session);
      mret (Success tt)
  | None =>
      charged ← users_chargeUpload (uploadUserId session) (uploadDeclaredBytes session);
      if negb charged then
        _ ← discardStaging (uploadId session);
        _ ← sessions_markAborted (uploadId session);
        mret (failure QuotaExceeded "storing this file would take you past your upload quota")
      else
        committed ← onDisk (λ faults files,
          commit faults (stagingPathFor (uploadId session)) (uploadSha256 session) files);
        match committed with
        | Failure e =>
            _ ← users_releaseUpload (uploadUserId session) (uploadDeclaredBytes session);
            _ ← sessions_markAborted (uploadId session);
            mret (Failure e)
        | Success _ =>
            stored ← blobs_record (uploadSha256 session) (uploadDeclaredBytes session)
              (storageKeyFor (uploadSha256 session)) (Some (uploadUserId session));
            _ ← (if negb stored
                 then users_releaseUpload (uploadUserId session) (uploadDeclaredBytes session)
                 else mret tt);
            _ ← sessions_markCompleted (uploadId session);
            mret (Success tt)
        end
  end.

Definition uploadChunk (actor : Actor) (id : string) (offset : Z) (chunk : list ascii)
    : Prog World (Result UploadSession) :=
  try? session := sessionStatus actor id in
  let length_ := Z.of_nat (length chunk) in
  if negb (bool_decide (uploadStatus session = Pending)) then
    mret (failure Conflict "this upload has already finished")
  else if uploadExpired session then
    mret (failure Conflict "this upload expired; start it again from the beginning")
  else if maxChunkBytes settings <? length_ then
    mret (failure InvalidInput ("a chunk may be at most " +:+ toDecimal (maxChunkBytes settings) +:+ " bytes"))
  else if negb (offset =? uploadReceivedBytes session) then
    mret (failure Conflict ("this upload is at offset " +:+ toDecimal (uploadReceivedBytes session)
                            +:+ ", not " +:+ toDecimal offset))
  else if uploadDeclaredBytes session <? add64 offset length_ then
    mret (failure InvalidInput "this chunk runs past the declared file size")
  else
    reserved ← sessions_reserveBytes (uploadId session) offset length_;
    match reserved with
    | None =>
        mret (failure Conflict
          "another request is writing to this upload; retry after a status check")
    | Some session' =>
        written ← onDisk (λ faults files,
          writeAt faults (stagingPathFor (uploadId session)) offset chunk files);
        match written with
        | Failure e =>
            _ ← sessions_markAborted (uploadId session);
            _ ← discardStaging (uploadId session);
            mret (Failure e)
        | Success _ =>
            if negb (complete session') then mret (Success session')
            else
              try? _ := completeSession session' in
              mret (Success (mkUploadSession (uploadId session') (uploadBuildId session')
                (uploadUserId session') (uploadSha256 session') (uploadDeclaredBytes session')
                (uploadReceivedBytes session') Completed (uploadExpired session')))
        end
    end.

Definition abortUpload (actor : Actor) (id : string) : Prog World VoidResult :=
  try? session := sessionStatus actor id in
  _ ← sessions_markAborted (uploadId session);
  _ ← discardStaging (uploadId session);
  mret (Success tt).

(** The distinct addresses of a manifest, in order. *)
Fixpoint distinctBlobs (seen : gset string) (entries : list ManifestEntry) : list string :=
  match entries with
  | [] => []
  | e :: rest =>
      if decide (blobSha256 e ∈ seen) then distinctBlobs seen rest
      else blobSha256 e :: distinctBlobs ({[blobSha256 e]} ∪ seen) rest
  end.

(** [sizes.emplace(record.sha256, record.sizeBytes)] over the records. *)
Definition sizesOf (records : list BlobRecord) : gmap string Z :=
  foldl (λ sizes record, emplace (recordSha256 record) (recordSizeBytes record) sizes) ∅ records.

(** Missing blobs named in the error, twenty at most. *)
Fixpoint reportMissing (reported : nat) (sizes : gmap string Z) (shas : list string) (detail : string) : string :=
  match shas with
  | [] => detail
  | sha :: rest =>
      if sizes !! sha then reportMissing reported sizes rest detail
      else if (reported =? MAX_REPORTED_MISSING)%nat then detail +:+ " and more"
      else reportMissing (S reported) sizes rest (detail +:+ " " +:+ sha)
  end.

(** Each file with the size the store has for it; [sizes.at] throws for a blob it lacks. *)
Fixpoint sizedFiles (sizes : gmap string Z) (entries : list ManifestEntry) : option (list ManifestEntry) :=
  match entries with
  | [] => Some []
  | e :: rest =>
      bytes ← sizes !! blobSha256 e;
      sized ← sizedFiles sizes rest;
      Some (mkEntry (relativePath e) (blobSha256 e) bytes (isExecutable e) :: sized)
  end.

Definition finalizeBuild (actor : Actor) (id : string) (command : FinalizeBuildCommand)
    : Prog World (Result Build) :=
  try? build := writableBuild actor id in
  let entrypoint := trim (commandEntrypoint command) in
  if MAX_LAUNCH_ARGS_LENGTH <? size (commandLaunchArgs command) then
    mret (failure InvalidInput ("launchArgs must be at most " +:+ toDecimal MAX_LAUNCH_ARGS_LENGTH +:+ " characters"))
  else
    match validateManifest (commandFiles command) entrypoint with
    | Failure e => mret (Failure e)
    | Success _ =>
        let distinct := distinctBlobs ∅ (commandFiles command) in
        records ← blobs_findMany distinct;
        let sizes := sizesOf records in
        if negb (Nat.eqb (base.size sizes) (length distinct)) then
          mret (failure InvalidInput (reportMissing 0 sizes distinct "upload these blobs before finalizing the build:"))
        else
          match sizedFiles sizes (commandFiles command) with
          | None => (Raise : Prog World (Result Build))
          | Some files =>
              let document := canonicalManifestDocument files entrypoint (commandLaunchArgs command) in
              finalized ← builds_finalize (ownBuildId build)
                (mkFinalized files entrypoint (commandLaunchArgs command) (sha256Hex document)
                   (installedSize files));
              match finalized with
              | None => mret (failure Conflict "this build has already been finalized")
              | Some ready => mret (Success ready)
              end
          end
    end.

Definition manifest (actor : Actor) (id : string) : Prog World (Result ManifestDocument) :=
  if negb (can actor permissions.GAME_DOWNLOAD) then mret (failure Forbidden "you cannot download builds")
  else if negb (isUuid id) then mret (failure NotFound NO_SUCH_BUILD)
  else
    found ← builds_findOwnership id;
    match found with
    | None => mret (failure NotFound NO_SUCH_BUILD)
    | Some ownership =>
        if negb (mayReadBuild ownership actor) then mret (failure NotFound NO_SUCH_BUILD)
        else if negb (bool_decide (ownStatus ownership = Ready)) then
          mret (failure NotFound "this build is not downloadable yet")
        else
          row ← builds_findById id;
          match row with
          | None => mret (failure NotFound NO_SUCH_BUILD)
          | Some build =>
              files ← builds_filesFor id;
              mret (Success (mkManifestDocument (buildManifestSha256 build)
                (canonicalManifestDocument files (entrypointRelativePath build) (defaultLaunchArgs build))))
          end
    end.

Fixpoint sweepLoop (reclaimed : nat) (expired : list UploadSession) : Prog World nat :=
  match expired with
  | [] => mret reclaimed
  | session :: rest =>
      _ ← discardStaging (uploadId session);
      deleted ← sessions_deleteById (uploadId session);
      sweepLoop (if (deleted : bool) then S reclaimed else reclaimed) rest
  end.

Definition sweepExpiredSessions : Prog World nat :=
  expired ← sessions_findExpired SWEEP_BATCH;
  sweepLoop 0 expired.
End UploadService.
