(* ===== verification/DownloadService.v ===== *)
(** The download half of a build's life: [src/services/DownloadService.h] and
    [src/services/DownloadService.cpp]. *)

From Stdlib Require Import SpecFloat.
From S2P Require Import Prelude.
From S2P Require Import Errors.
From S2P Require Import Actors.
From S2P Require Import Validation.
From S2P Require Import Catalog.
From S2P Require Import Manifest.
From S2P Require Import Delta.
From S2P Require Import Hash.
From S2P Require Import BlobStore.
From S2P Require Import Signer.
From S2P Require Import Programs.
From S2P Require Import World.
From S2P Require Import Accounts.
From S2P Require Import Uploads.

(** ** Data *)

(** A [double] is a binary64 number. *)
Notation double := spec_float (only parsing).

Record DownloadSettings := mkDownloadSettings { fullDownloadThresholdRatio : double }.

Record DownloadFile := mkDownloadFile {
  downloadEntry : ManifestEntry;
  downloadCopyFrom : string;
  downloadUrl : string
}.

Record DownloadPlan := mkPlan {
  planBuildId : string;
  planGameId : string;
  planGameVersionId : string;
  planKind : DownloadKind;
  planManifestSha256 : string;
  planEntrypoint : string;
  planLaunchArgs : string;
  planFiles : list DownloadFile;
  planUnchanged : list ManifestEntry;
  planRemove : list string;
  planDownloadBytes : Z;
  planTotalBytes : Z;
  planUrlsExpireAt : Z
}.

Record InstalledFile := mkInstalled { installedPath : string; installedSha256 : string }.

Record IntegrityReport := mkReport {
  reportBuildId : string;
  reportManifestSha256 : string;
  intact : bool;
  missing : list string;
  corrupt : list string;
  unexpected : list string;
  repair : list DownloadFile;
  repairBytes : Z;
  reportUrlsExpireAt : Z
}.

(** ** Operations *)

Definition DOWNLOAD_NO_SUCH_BUILD : string := "no such build".

Fixpoint distinctBlobLoop (counted : gset string) (bytes : Z) (files : list DownloadFile) : Z :=
  match files with
  | [] => bytes
  | file :: rest =>
      let blob := blobSha256 (downloadEntry file) in
      if decide (blob ∈ counted) then distinctBlobLoop counted bytes rest
      else distinctBlobLoop ({[blob]} ∪ counted) (add64 bytes (sizeBytes (downloadEntry file))) rest
  end.

Definition distinctBlobBytes (files : list DownloadFile) : Z := distinctBlobLoop ∅ 0 files.

(** [static_cast<double>(int64_t)], rounding to nearest even, and the comparison of [plan]. *)
Definition toDouble (z : Z) : double := binary_normalize 53 1024 z 0 false.

Definition pastThreshold (settings : DownloadSettings) (delta : BuildDelta) : bool :=
  SFltb (SFmul 53 1024 (fullDownloadThresholdRatio settings) (toDouble (totalBytes delta)))
    (toDouble (downloadBytes delta)).

Definition chooseDelta (settings : DownloadSettings) (installed files : list ManifestEntry) : BuildDelta :=
  let delta := if bool_decide (length installed = 0%nat) then fullDownload installed files
               else computeDelta installed files in
  if bool_decide (kind delta = DeltaDownload) && pastThreshold settings delta
  then fullDownload installed files else delta.

(** The loop of [signAll], with the links made so far. *)
Fixpoint signLoop `{Md5} (signer : SignedUrlSettings) (expiresAt : Z) (urls : gmap string string)
    (files : list DeltaFile) : list DownloadFile :=
  match files with
  | [] => []
  | file :: rest =>
      let sha := blobSha256 (deltaEntry file) in
      match urls !! sha with
      | Some url => mkDownloadFile (deltaEntry file) (copyFromRelativePath file) url
                    :: signLoop signer expiresAt urls rest
      | None =>
          let url := sign signer (storageKeyFor sha) expiresAt in
          mkDownloadFile (deltaEntry file) (copyFromRelativePath file) url
          :: signLoop signer expiresAt (<[sha := url]> urls) rest
      end
  end.

Definition signAll `{Md5} (signer : SignedUrlSettings) (files : list DeltaFile) (expiresAt : Z)
    : list DownloadFile := signLoop signer expiresAt ∅ files.

(** What the client reported, by path. *)
Fixpoint observe (observed : gmap string string) (installed : list InstalledFile)
    : Result (gmap string string) :=
  match installed with
  | [] => Success observed
  | file :: rest =>
      let path := installedPath file in
      if bool_decide (path = ""%stdpp) || (MAX_RELATIVE_PATH_LENGTH <? size path) then
        failure InvalidInput ("each reported file needs a path of at most "
                              +:+ toDecimal MAX_RELATIVE_PATH_LENGTH +:+ " characters")
      else if negb (isSha256Hex (installedSha256 file)) then
        failure InvalidInput ("sha256 must be 64 lowercase hex characters, for " +:+ path)
      else if observed !! path then failure Conflict ("you reported " +:+ path +:+ " twice")
      else observe (<[path := installedSha256 file]> observed) rest
  end.

(** The missing paths, the corrupt paths and the files that repair them. *)
Fixpoint compareLoop (observed : gmap string string) (expected : list ManifestEntry)
    : list string * list string * list DeltaFile :=
  match expected with
  | [] => ([], [], [])
  | entry :: rest =>
      let '(lost, wrong, damaged) := compareLoop observed rest in
      match observed !! relativePath entry with
      | None => (relativePath entry :: lost, wrong, mkDeltaFile entry "" :: damaged)
      | Some found =>
          if negb (bool_decide (found = blobSha256 entry)) then
            (lost, relativePath entry :: wrong, mkDeltaFile entry "" :: damaged)
          else (lost, wrong, damaged)
      end
  end.

Definition unexpectedPaths (expected : list ManifestEntry) (installed : list InstalledFile) : list string :=
  let manifestPaths : gset string := list_to_set (relativePath <$> expected) in
  merge_sort (keyLe (λ path, path))
    (filter (λ path, path ∉ manifestPaths) (installedPath <$> installed)).

Section DownloadService.
Context `{Md5}.
Variable signer : SignedUrlSettings.
Variable settings : DownloadSettings.

Definition downloadableBuild (actor : Actor) (id : string) : Prog World (Result BuildOwnership) :=
  if negb (can actor permissions.GAME_DOWNLOAD) then mret (failure Forbidden "you cannot download builds")
  else if negb (isUuid id) then mret (failure NotFound DOWNLOAD_NO_SUCH_BUILD)
  else
    found ← builds_findOwnership id;
    match found with
    | None => mret (failure NotFound DOWNLOAD_NO_SUCH_BUILD)
    | Some ownership =>
        if negb (mayReadBuild ownership actor) then mret (failure NotFound DOWNLOAD_NO_SUCH_BUILD)
        else if negb (bool_decide (ownStatus ownership = Ready)) then
          mret (failure NotFound "this build is not downloadable yet")
        else mret (Success ownership)
    end.

(** What the client has, and the version it has: nothing for a first install or for a
    source it may no longer read. *)
Definition installedFrom (actor : Actor) (target : BuildOwnership) (fromBuildId : string)
    : Prog World (Result (string * list ManifestEntry)) :=
  if bool_decide (fromBuildId = ""%stdpp) then mret (Success (""%stdpp, []))
  else
    source ← downloadableBuild actor fromBuildId;
    match source with
    | Failure _ => mret (Success (""%stdpp, []))
    | Success source =>
        if negb (bool_decide (ownGameId source = ownGameId target)) then
          mret (failure InvalidInput "the build you are updating from belongs to a different game")
        else
          installed ← builds_filesFor fromBuildId;
          mret (Success (ownVersionId source, installed))
    end.

Definition plan (actor : Actor) (id fromBuildId : string) : Prog World (Result DownloadPlan) :=
  try? target := downloadableBuild actor id in
  try? source := installedFrom actor target fromBuildId in
  found ← builds_findById id;
  match found with
  | None => mret (failure NotFound DOWNLOAD_NO_SUCH_BUILD)
  | Some build =>
      files ← builds_filesFor id;
      let delta := chooseDelta settings source.2 files in
      now ← query clock;
      let expiresAt := expiryFor signer now in
      let result := mkPlan (ownBuildId target) (ownGameId target) (ownVersionId target) (kind delta)
        (buildManifestSha256 build) (entrypointRelativePath build) (defaultLaunchArgs build)
        (signAll signer (fetch delta) expiresAt) (unchanged delta) (remove delta)
        (downloadBytes delta) (totalBytes delta) expiresAt in
      if bool_decide (length (planFiles result) = 0%nat) then mret (Success result)
      else
        _ ← downloads_recordEvent (mkDownloadEvent (planGameId result) (planBuildId result)
              (actorUserId actor) source.1 (planKind result) (planDownloadBytes result) 0);
        mret (Success result)
  end.

Definition verifyInstall (actor : Actor) (id : string) (installed : list InstalledFile)
    : Prog World (Result IntegrityReport) :=
  try? ownership := downloadableBuild actor id in
  if MAX_MANIFEST_ENTRIES <? Z.of_nat (length installed) then
    mret (failure InvalidInput ("an install may contain at most " +:+ toDecimal MAX_MANIFEST_ENTRIES +:+ " files"))
  else
    match observe ∅ installed with
    | Failure e => mret (Failure e)
    | Success observed =>
        found ← builds_findById id;
        match found with
        | None => mret (failure NotFound DOWNLOAD_NO_SUCH_BUILD)
        | Some build =>
            expected ← builds_filesFor id;
            now ← query clock;
            let '(lost, wrong, damaged) := compareLoop observed expected in
            let expiresAt := expiryFor signer now in
            let fixes := signAll signer damaged expiresAt in
            mret (Success (mkReport (ownBuildId ownership) (buildManifestSha256 build)
              (bool_decide (length lost = 0%nat) && bool_decide (length wrong = 0%nat))
              lost wrong (unexpectedPaths expected installed) fixes (distinctBlobBytes fixes) expiresAt))
        end
    end.
End DownloadService.

(** ** Lemmas *)

Definition signedFile `{Md5} (signer : SignedUrlSettings) (expiresAt : Z) (file : DeltaFile) : DownloadFile :=
  mkDownloadFile (deltaEntry file) (copyFromRelativePath file)
    (sign signer (storageKeyFor (blobSha256 (deltaEntry file))) expiresAt).

(** Reusing a link is making it again. *)
Lemma signAll_spec `{Md5} signer files_ expiresAt :
  signAll signer files_ expiresAt = map (signedFile signer expiresAt) files_.
Proof.
  unfold signAll.
  assert (∀ sha url, (∅ : gmap string string) !! sha = Some url → url = sign signer (storageKeyFor sha) expiresAt) as HU
    by (intros sha url; by rewrite lookup_empty).
  revert HU. generalize (∅ : gmap string string) as urls.
  induction files_ as [|f rest IH]; intros urls HU; [done|]. cbn [signLoop map].
  destruct (urls !! blobSha256 (deltaEntry f)) as [url|] eqn:E.
  - rewrite (HU _ _ E). f_equal. by apply IH.
  - f_equal. apply IH. intros sha url. destruct (decide (blobSha256 (deltaEntry f) = sha)) as [<-|Hne].
    + rewrite lookup_insert_eq. by intros [= <-].
    + rewrite lookup_insert_ne by done. apply HU.
Qed.

(** The steps a client carries out. *)
Definition planSteps (p : DownloadPlan) : list Action :=
  map (λ f, fileAction (mkDeltaFile (downloadEntry f) (downloadCopyFrom f))) (planFiles p)
  ++ map RemoveFile (planRemove p).

Lemma chooseDelta_cases settings installed files_ :
  chooseDelta settings installed files_ = fullDownload installed files_
  ∨ chooseDelta settings installed files_ = computeDelta installed files_ ∧ installed ≠ []
    ∧ pastThreshold settings (computeDelta installed files_) = false.
Proof.
  unfold chooseDelta. cbv zeta. destruct installed as [|e rest]; cbn [length].
  - rewrite (bool_decide_eq_true_2 (0%nat = 0%nat)) by reflexivity.
    left. by destruct (_ && _).
  - rewrite (bool_decide_eq_false_2 (S (length rest) = 0%nat)) by lia. case_bool_decide as Hk; cbn [andb].
    + destruct (pastThreshold _ _) eqn:E; [by left|by right].
    + destruct Hk. unfold computeDelta. by destruct (deltaLoop _ _ _).
Qed.

Lemma chooseDelta_applies settings installed files_ acts :
  NoDup (paths installed) → NoDup (paths files_) →
  acts ≡ₚ planActions (chooseDelta settings installed files_) →
  runActions acts (treeOf installed) = Some (treeOf files_).
Proof.
  intros Hi Hf. destruct (chooseDelta_cases settings installed files_) as [->|(-> & _ & _)];
    [by apply fullDownload_applies|by apply computeDelta_applies].
Qed.

(** A report is accepted when every path is there once with a hash; it then says, for every
    path, what was found at it. *)
Lemma observe_spec observed installed observed' :
  observe observed installed = Success observed' →
  ∀ p h, observed' !! p = Some h ↔
    observed !! p = Some h ∨ ∃ f, f ∈ installed ∧ installedPath f = p ∧ installedSha256 f = h.
Proof.
  revert observed. induction installed as [|f rest IH]; intros observed; cbn [observe].
  - intros [= <-] p h. split; [by left|]. by intros [?|(f & Hf%elem_of_nil & _)].
  - case_match; [done|]. case_match; [done|]. destruct (observed !! installedPath f) eqn:En; [done|].
    intros Ho p h. rewrite (IH _ Ho). setoid_rewrite elem_of_cons.
    destruct (decide (installedPath f = p)) as [<-|Hne].
    + rewrite lookup_insert_eq, En. naive_solver.
    + rewrite lookup_insert_ne by done. naive_solver.
Qed.

Definition intactIn (observed : gmap string string) (e : ManifestEntry) : Prop :=
  observed !! relativePath e = Some (blobSha256 e).

#[export] Instance intactIn_dec observed e : Decision (intactIn observed e).
Proof. unfold intactIn. apply _. Defined.

Lemma compareLoop_spec observed expected :
  compareLoop observed expected =
  (relativePath <$> filter (λ e, observed !! relativePath e = None) expected,
   relativePath <$> filter (λ e, observed !! relativePath e ≠ None ∧ ¬ intactIn observed e) expected,
   (λ e, mkDeltaFile e "") <$> filter (λ e, ¬ intactIn observed e) expected).
Proof.
  induction expected as [|e rest IH]; [done|]. cbn [compareLoop]. rewrite IH, !filter_cons. clear IH.
  repeat case_decide; unfold intactIn in *; destruct (observed !! relativePath e) as [found|];
    try case_bool_decide; naive_solver.
Qed.

Lemma perform_downloadableBuild actor id w :
  ∃ r, perform (downloadableBuild actor id) w = (Some r, w)
    ∧ (∀ o, r = Success o → can actor permissions.GAME_DOWNLOAD = true ∧ ownershipOf id w = Some o
         ∧ mayReadBuild o actor = true ∧ ownStatus o = Ready).
Proof.
  unfold downloadableBuild, builds_findOwnership.
  destruct (can actor _) eqn:Ecan; cbn [negb]; [|by eexists].
  destruct (isUuid id); cbn [negb]; [|by eexists]. run_statements.
  destruct (ownershipOf id w) as [o|]; [|by eexists].
  destruct (mayReadBuild o actor) eqn:Epub; cbn [negb]; [|by eexists].
  case_bool_decide; cbn [negb]; run_statements; [|by eexists].
  eexists. split; [done|]. by intros ? [= <-].
Qed.

(** What the service takes the client to have: the files of a source it may read, of the
    same game, and nothing otherwise. *)
Lemma perform_installedFrom actor target from w :
  ∃ r, perform (installedFrom actor target from) w = (Some r, w)
    ∧ ∀ version installed, r = Success (version, installed) →
        (version = "" ∧ installed = [])
        ∨ ∃ o, ownershipOf from w = Some o ∧ mayReadBuild o actor = true ∧ ownGameId o = ownGameId target
            ∧ version = ownVersionId o ∧ installed = filesOf from w.
Proof.
  unfold installedFrom. case_bool_decide; [eexists; split; [done|]; intros ? ? [= <- <-]; by left|].
  rewrite perform_bind. destruct (perform_downloadableBuild actor from w) as (r & -> & Hr).
  destruct r as [o|e]; [|eexists; split; [done|]; intros ? ? [= <- <-]; by left].
  destruct (Hr o eq_refl) as (_ & Ho & Hread & _).
  case_bool_decide as Hg; cbn [negb]; [|by eexists]. unfold builds_filesFor. run_statements.
  eexists. split; [done|]. intros ? ? [= <- <-]. right. by exists o.
Qed.

Section Plan.
Context `{Md5}.
Variable signer : SignedUrlSettings.
Variable settings : DownloadSettings.

Lemma plan_steps_chosen delta expiresAt :
  map (λ f, fileAction (mkDeltaFile (downloadEntry f) (downloadCopyFrom f))) (signAll signer (fetch delta) expiresAt)
  ++ map RemoveFile (remove delta) = planActions delta.
Proof.
  rewrite signAll_spec, map_map. unfold planActions. f_equal.
Qed.

(** The event a plan counts as. *)
Definition eventOf (actor : Actor) (version : string) (p : DownloadPlan) : DownloadEvent :=
  mkDownloadEvent (planGameId p) (planBuildId p) (actorUserId actor) version (planKind p) (planDownloadBytes p) 0.

(** What a plan is made from. *)
Record PlannedFrom (actor : Actor) (id from : string) (w : World) (p : DownloadPlan)
    (version : string) (installed : list ManifestEntry) : Prop := {
  from_readable : can actor permissions.GAME_DOWNLOAD = true
    ∧ ∃ o, ownershipOf id w = Some o ∧ mayReadBuild o actor = true ∧ ownStatus o = Ready
        ∧ planBuildId p = ownBuildId o ∧ planGameId p = ownGameId o ∧ planGameVersionId p = ownVersionId o;
  from_announced : ∃ b, selectFirst (buildIs id) (builds w) = Some b ∧ planManifestSha256 p = buildManifestSha256 b;
  from_installed : (version = "" ∧ installed = [])
    ∨ ∃ o, ownershipOf from w = Some o ∧ mayReadBuild o actor = true ∧ ownGameId o = planGameId p
        ∧ version = ownVersionId o ∧ installed = filesOf from w;
  from_delta : let delta := chooseDelta settings installed (filesOf id w) in
    planKind p = kind delta ∧ planFiles p = signAll signer (fetch delta) (planUrlsExpireAt p)
    ∧ planRemove p = remove delta ∧ planUnchanged p = unchanged delta
    ∧ planDownloadBytes p = downloadBytes delta ∧ planTotalBytes p = totalBytes delta;
  from_clock : planUrlsExpireAt p = expiryFor signer (clock w)
}.

Lemma perform_plan actor id from w p w' :
  perform (plan signer settings actor id from) w = (Some (Success p), w') →
  ∃ version installed, PlannedFrom actor id from w p version installed
    ∧ w' = if bool_decide (planFiles p = []) then w
           else setDownloadEvents (insertRow (stampedAt (clock w) (eventOf actor version p)) (downloadEvents w)) w.
Proof.
  unfold plan. rewrite perform_bind.
  destruct (perform_downloadableBuild actor id w) as (r & -> & Hr).
  destruct r as [o|e]; [|done]. destruct (Hr o eq_refl) as (Hcan & Ho & Hread & Hready). rewrite perform_bind.
  destruct (perform_installedFrom actor o from w) as (r' & -> & Hr').
  destruct r' as [[version installed]|e]; [|done]. specialize (Hr' _ _ eq_refl).
  unfold builds_findById, builds_filesFor. run_statements.
  destruct (selectFirst (buildIs id) (builds w)) as [b|] eqn:Eb; [|done]. run_statements. cbv zeta.
  set (p0 := mkPlan _ _ _ _ _ _ _ _ _ _ _ _ _).
  assert (PlannedFrom actor id from w p0 version installed) as Hp0.
  { split; [split; [done|by exists o]|by exists b|exact Hr'|done|done]. }
  intros Hp. exists version, installed. change (planFiles p0) with (signAll signer (fetch (chooseDelta settings installed (filesOf id w))) (expiryFor signer (clock w))) in Hp.
  destruct (signAll _ _ _) as [|f rest] eqn:Ef in Hp.
  - rewrite bool_decide_eq_true_2 in Hp by done. injection Hp as <- <-. split; [done|].
    rewrite bool_decide_eq_true_2; [done|exact Ef].
  - rewrite bool_decide_eq_false_2 in Hp by (cbn; lia). unfold downloads_recordEvent in Hp.
    rewrite perform_statement in Hp. destruct (_ && _) in Hp; [|done]. rewrite perform_ret in Hp.
    injection Hp as <- <-. split; [done|]. rewrite bool_decide_eq_false_2; [done|].
    change (planFiles p0) with (signAll signer (fetch (chooseDelta settings installed (filesOf id w))) (expiryFor signer (clock w))).
    by rewrite Ef.
Qed.

Lemma perform_verifyInstall actor id installed w r w' :
  perform (verifyInstall signer actor id installed) w = (Some (Success r), w') →
  ∃ observed, observe ∅ installed = Success observed ∧ w' = w
    ∧ missing r = relativePath <$> filter (λ e, observed !! relativePath e = None) (filesOf id w)
    ∧ corrupt r = relativePath <$> filter (λ e, observed !! relativePath e ≠ None ∧ ¬ intactIn observed e) (filesOf id w)
    ∧ unexpected r = unexpectedPaths (filesOf id w) installed
    ∧ intact r = bool_decide (length (missing r) = 0%nat) && bool_decide (length (corrupt r) = 0%nat)
    ∧ repair r = signAll signer ((λ e, mkDeltaFile e "") <$> filter (λ e, ¬ intactIn observed e) (filesOf id w))
                   (expiryFor signer (clock w)).
Proof.
  unfold verifyInstall. rewrite perform_bind.
  destruct (perform_downloadableBuild actor id w) as (r0 & -> & _). destruct r0 as [o|e]; [|done].
  case_match; [done|]. destruct (observe ∅ installed) as [observed|e]; [|done].
  unfold builds_findById, builds_filesFor. run_statements.
  destruct (selectFirst (buildIs id) (builds w)) as [b|]; [|done]. run_statements.
  rewrite compareLoop_spec. run_statements. intros [= <- <-]. exists observed. done.
Qed.

(** ** Properties *)


(** The report on an install says, for every path, what is wrong with it: missing
    are exactly the files of the build that were not reported, corrupt those reported with
    another hash, unexpected the reported paths the build does not have.  The install
    is intact exactly when every file of the build was reported with its hash; what is
    not is exactly what is offered for repair, each file under the link for its own
    content; and nothing is written. *)
Theorem verifyInstall_correct actor id installed w r w' :
  perform (verifyInstall signer actor id installed) w = (Some (Success r), w') →
  let expected := filesOf id w in
  let found e := ∃ f, f ∈ installed ∧ installedPath f = relativePath e ∧ installedSha256 f = blobSha256 e in
  w' = w
  ∧ (∀ p, p ∈ missing r ↔ p ∈ paths expected ∧ p ∉ installedPath <$> installed)
  ∧ (∀ p, p ∈ corrupt r ↔ ∃ e, e ∈ expected ∧ relativePath e = p ∧ p ∈ installedPath <$> installed ∧ ¬ found e)
  ∧ (∀ p, p ∈ unexpected r ↔ p ∈ installedPath <$> installed ∧ p ∉ paths expected)
  ∧ (intact r = true ↔ ∀ e, e ∈ expected → found e)
  ∧ (∀ e, e ∈ downloadEntry <$> repair r ↔ e ∈ expected ∧ ¬ found e)
  ∧ (∀ f, f ∈ repair r → downloadUrl f = sign signer (storageKeyFor (blobSha256 (downloadEntry f)))
                                          (expiryFor signer (clock w))).
Proof.
  intros Hp expected found. apply perform_verifyInstall in Hp as (observed & Hobs & -> & Hm & Hc & Hu & Hi & Hf).
  assert (∀ p h, observed !! p = Some h ↔ ∃ f, f ∈ installed ∧ installedPath f = p ∧ installedSha256 f = h) as Hlook.
  { intros p h. rewrite (observe_spec _ _ _ Hobs), lookup_empty. naive_solver. }
  assert (∀ p, observed !! p = None ↔ p ∉ installedPath <$> installed) as Hnone.
  { intros p. rewrite list_elem_of_fmap, eq_None_not_Some. unfold is_Some. setoid_rewrite Hlook. naive_solver. }
  assert (∀ e, intactIn observed e ↔ found e) as Hfound by (intros e; apply Hlook).
  split; [done|]. split_and!.
  - intros p. rewrite Hm, list_elem_of_fmap. setoid_rewrite list_elem_of_filter. setoid_rewrite Hnone.
    unfold paths. rewrite list_elem_of_fmap. naive_solver.
  - intros p. rewrite Hc, list_elem_of_fmap. setoid_rewrite list_elem_of_filter. setoid_rewrite Hfound.
    split; intros (e & He).
    + destruct He as (-> & [Hn Hnf] & He). exists e. split_and!; try done. apply dec_stable. by rewrite <- Hnone.
    + destruct He as (He & <- & Hin & Hnf). exists e. split_and!; try done. by intros ?%Hnone.
  - intros p. rewrite Hu. unfold unexpectedPaths. rewrite merge_sort_Permutation, list_elem_of_filter, elem_of_list_to_set.
    unfold paths. tauto.
  - rewrite Hi, andb_true_iff, !bool_decide_eq_true, Hm, Hc. setoid_rewrite <- Hfound. split.
    + intros [E1%nil_length_inv E2%nil_length_inv] e He. apply dec_stable. intros Hn.
      destruct (observed !! relativePath e) eqn:E.
      * apply fmap_nil_inv in E2. apply (not_elem_of_nil e). rewrite <- E2. apply list_elem_of_filter. by rewrite E.
      * apply fmap_nil_inv in E1. apply (not_elem_of_nil e). rewrite <- E1. by apply list_elem_of_filter.
    + intros Hall. rewrite !length_fmap. split; apply length_zero_iff_nil, filter_none; intros e He;
        specialize (Hall e He); unfold intactIn in Hall.
      * by rewrite Hall.
      * by intros [_ ?].
  - intros e. rewrite Hf, signAll_spec. fold found. rewrite <- Hfound. rewrite list_elem_of_fmap. split.
    + intros (f & -> & (x & -> & (e' & -> & [Hn He]%list_elem_of_filter)%list_elem_of_fmap)%list_elem_of_fmap). done.
    + intros [He Hn]. exists (signedFile signer (expiryFor signer (clock w)) (mkDeltaFile e "")). split; [done|].
      apply list_elem_of_fmap_2, (list_elem_of_fmap_2 (λ e, mkDeltaFile e "")). by apply list_elem_of_filter.
  - intros f. rewrite Hf, signAll_spec. by intros (x & -> & _)%list_elem_of_fmap.
Qed.
End Plan.
