(* ===== verification/RetentionService.v ===== *)
(** Reclaiming storage nothing references: [src/services/RetentionService.h] and
    [src/services/RetentionService.cpp]. *)

From S2P Require Import Prelude.
From S2P Require Import Errors.
From S2P Require Import Hash.
From S2P Require Import BlobStore.
From S2P Require Import Programs.
From S2P Require Import World.
From S2P Require Import Accounts.
From S2P Require Import Uploads.
From S2P Require Import AccountSafety.
From S2P Require Import StorageSafety.

Record RetentionSettings := mkRetentionSettings { blobGraceSeconds : Z; batchSize : Z }.

Record SweepReport := mkSweepReport { collected : nat; reclaimedBytes : Z; skipped : nat }.

Section RetentionService.
Context `{Disk}.
Variable settings : RetentionSettings.

(** [store_.discard(store_.pathFor(sha256))]: no file for a text that is not an address. *)
Definition discardBlob (sha : string) : Prog World unit :=
  onDisk (λ faults files, (tt, match pathFor sha with
                          | Some path => discard faults path files
                          | None => files
                          end)).

Fixpoint collectLoop (report : SweepReport) (candidates : list CollectableBlob) : Prog World SweepReport :=
  match candidates with
  | [] => mret report
  | blob :: rest =>
      deleted ← blobs_deleteIfUnreferenced (collectableSha256 blob) (blobGraceSeconds settings);
      if negb deleted then
        collectLoop (mkSweepReport (collected report) (reclaimedBytes report) (S (skipped report))) rest
      else
        _ ← discardBlob (collectableSha256 blob);
        _ ← (if negb (bool_decide (collectableUploadedBy blob = ""%stdpp))
             then users_releaseUpload (collectableUploadedBy blob) (collectableSizeBytes blob)
             else mret tt);
        collectLoop (mkSweepReport (S (collected report))
          (add64 (reclaimedBytes report) (collectableSizeBytes blob)) (skipped report)) rest
  end.

Definition collectUnreferencedBlobs : Prog World SweepReport :=
  candidates ← blobs_findUnreferenced (blobGraceSeconds settings) (batchSize settings);
  collectLoop (mkSweepReport 0 0 0) candidates.
End RetentionService.

(** ** Lemmas *)

(** One pass so far: what went was collectable, what is left kept its file, and the
    tables that decide what is collectable are as they were. *)
Record Collected (grace : Z) (w w' : World) : Prop := {
  collected_rows : ∀ b, b ∈ blobs w → b ∈ blobs w' ∨ unreferenced grace w b = true;
  collected_kept : ∀ b, b ∈ blobs w' → b ∈ blobs w ∧ blobAt (files w') (blobSha b) = blobAt (files w) (blobSha b);
  collected_same : buildFiles w' = buildFiles w ∧ sessions w' = sessions w ∧ clock w' = clock w
}.

Lemma Collected_refl grace w : Collected grace w w.
Proof. by split; auto. Qed.

Lemma unreferenced_same grace w w' b :
  buildFiles w' = buildFiles w ∧ sessions w' = sessions w ∧ clock w' = clock w →
  unreferenced grace w' b = unreferenced grace w b.
Proof. intros (E1 & E2 & E3). unfold unreferenced. by rewrite E1, E2, E3. Qed.

Lemma Collected_trans grace w1 w2 w3 :
  Collected grace w1 w2 → Collected grace w2 w3 → Collected grace w1 w3.
Proof.
  intros [R1 K1 S1] [R2 K2 S2]. split.
  - intros b [Hb|Hu]%R1; [|by right]. apply R2 in Hb as [Hb|Hu]; [by left|]. right.
    by rewrite <- (unreferenced_same _ w1 w2).
  - intros b [Hb E2]%K2. apply K1 in Hb as [Hb E1]. split; [done|congruence].
  - naive_solver congruence.
Qed.

Section Collect.
Context `{Evp, Disk}.
Variable settings : RetentionSettings.

Lemma discardBlob_keeps sha : Keeps SysInv SysGo (discardBlob sha) (λ _, True).
Proof.
  apply lift_store, onDisk_keeps. intros faults fs HS. cbn.
  destruct (pathFor sha); [by apply StoreSound_discard|done].
Qed.

(** A refund of a recorded size is never refused and writes the accounts alone. *)
Lemma perform_releaseUpload id bytes w :
  SysInv w → 0 ≤ bytes ≤ INT64_MAX →
  ∃ us, perform (users_releaseUpload id bytes) w = (Some tt, setUsers us w) ∧ SysInv (setUsers us w).
Proof.
  intros HI Hb.
  assert (∃ us, perform (users_releaseUpload id bytes) w = (Some tt, setUsers us w)) as (us & Hp).
  { unfold users_releaseUpload. cbn [perform statement].
    destruct (selectFirst (userIs id) (users w)) as [u|] eqn:Eu; [|exists (users w); by destruct w].
    apply selectFirst_Some in Eu as [Hu _].
    pose proof (proj1 (Forall_forall _ _) (proj2 (proj1 HI)) u Hu) as Hq. cbv beta in Hq.
    assert (bigint (uploadUsedBytes u - bytes) = Some (uploadUsedBytes u - bytes)) as ->; [|by eexists].
    apply bigint_Some. unfold INT64_MIN, INT64_MAX in *. lia. }
  exists us. split; [done|].
  eapply perform_inv; [|exact HI|exact Hp]. apply lift_go, lift_account, releaseUpload_keeps. lia.
Qed.

Lemma deleteWhere_none {Row} (p : Row → bool) rows : (∀ r, r ∈ rows → p r = false) → deleteWhere p rows = rows.
Proof.
  unfold deleteWhere. induction rows as [|r rows IH]; intros Hp; [done|]. cbn.
  rewrite (Hp r) by (by left). cbn. f_equal. apply IH. intros x Hx. apply Hp. by right.
Qed.

Lemma deleteWhere_one {Row K} (key : Row → K) (p : Row → bool) rows r :
  NoDup (map key rows) → (∀ a b, p a = true → p b = true → key a = key b) → r ∈ rows → p r = true →
  S (length (deleteWhere p rows)) = length rows.
Proof.
  unfold deleteWhere. intros HN Hkey. induction rows as [|x rows IH]; [by intros ?%elem_of_nil|].
  cbn in HN. apply NoDup_cons in HN as [Hx HN]. intros Hr Hp. cbn. destruct (p x) eqn:Ex; cbn [negb length].
  - f_equal. fold (deleteWhere p rows). rewrite deleteWhere_none; [done|]. intros y Hy. apply not_true_is_false.
    intros Ey. apply Hx. rewrite (Hkey x y) by done. apply list_elem_of_fmap. eauto.
  - f_equal. apply IH; [done| |done]. apply elem_of_cons in Hr as [->|Hr]; [congruence|done].
Qed.

(** The two or three statements that take one blob. *)
Lemma collect_one sha bytes uploader w :
  SysInv w → 0 ≤ bytes ≤ INT64_MAX →
  let p row := blobIs sha row && unreferenced (blobGraceSeconds settings) w row in
  anyWhere p (blobs w) = true →
  ∃ w', perform (_ ← discardBlob sha;
                 (if negb (bool_decide (uploader = ""%stdpp)) then users_releaseUpload uploader bytes else mret tt))
          (setBlobs (deleteWhere p (blobs w)) w) = (Some tt, w')
    ∧ SysInv w' ∧ Collected (blobGraceSeconds settings) w w'
    ∧ blobs w' = deleteWhere p (blobs w) ∧ S (length (blobs w')) = length (blobs w).
Proof.
  intros HI Hb p (b0 & Hb0 & Hp0)%anyWhere_true.
  assert (∀ b, b ∈ deleteWhere p (blobs w) → b ∈ blobs w ∧ blobSha b ≠ sha) as Hother.
  { intros b [Hb' Hpb]%elem_of_deleteWhere. split; [done|]. intros E. unfold p in Hp0.
    apply andb_true_iff in Hp0 as [E0%bool_decide_eq_true Hu0].
    assert (b = b0) as -> by (apply (key_inj blobSha (blobs w)); [apply HI|done|done|congruence]).
    unfold p in Hpb. rewrite Hu0, andb_true_r in Hpb. apply bool_decide_eq_false in Hpb. done. }
  set (w1 := setBlobs (deleteWhere p (blobs w)) w).
  destruct (deleteIfUnreferenced_keeps sha (blobGraceSeconds settings) w _ w1 HI eq_refl) as [[HI1 _ _] _].
  pose proof (discardBlob_keeps sha w1 tt _ HI1 eq_refl) as [[HI2 _ _ _] _].
  unfold discardBlob, onDisk. run_statements.
  set (fs := match pathFor sha with Some path => discard _ path _ | None => _ end) in *.
  set (w2 := setFiles fs _) in *.
  assert (∃ us, perform (if negb (bool_decide (uploader = ""%stdpp)) then users_releaseUpload uploader bytes
                         else mret tt) w2 = (Some tt, setUsers us w2) ∧ SysInv (setUsers us w2)) as (us & -> & HI3).
  { case_match; [by apply perform_releaseUpload|]. by exists (users w2). }
  exists (setUsers us w2). split_and!; [done|done| |done|].
  - split; [..|by split_and!].
    + intros b Hb'. destruct (p b) eqn:E; [right; by apply andb_true_iff in E as [_ ?]|].
      left. by apply elem_of_deleteWhere.
    + intros b [Hb' Hne]%Hother. split; [done|]. unfold blobAt. cbn. destruct (pathFor (blobSha b)) as [path|] eqn:Ep; [|done].
      cbn. subst fs. destruct (pathFor sha) as [gone|] eqn:Es; [|done]. apply discard_other. intros ->.
      apply Hne. by eapply pathFor_inj.
  - apply (deleteWhere_one blobSha p _ b0); [apply HI| |done|done].
    intros a b [Ea%bool_decide_eq_true _]%andb_true_iff [Eb%bool_decide_eq_true _]%andb_true_iff. congruence.
Qed.

Lemma perform_collectLoop candidates report w :
  SysInv w → Forall (λ b, 0 ≤ collectableSizeBytes b ≤ INT64_MAX) candidates →
  ∃ report' w', perform (collectLoop settings report candidates) w = (Some report', w')
    ∧ SysInv w' ∧ Collected (blobGraceSeconds settings) w w'
    ∧ (∀ b, b ∈ blobs w' → unreferenced (blobGraceSeconds settings) w b = true →
         blobSha b ∉ collectableSha256 <$> candidates)
    ∧ (length (blobs w) + collected report = length (blobs w') + collected report')%nat.
Proof.
  intros HI HF. revert report w HI. induction HF as [|blob rest Hblob HF IH]; intros report w HI.
  { exists report, w. split_and!; [done|done|apply Collected_refl|by intros ? ? ? ?%elem_of_nil|done]. }
  cbn [collectLoop]. unfold blobs_deleteIfUnreferenced at 1. run_statements. set (p row := _ && _).
  destruct (anyWhere p (blobs w)) eqn:Ep; cbn [negb].
  - destruct (collect_one (collectableSha256 blob) (collectableSizeBytes blob) (collectableUploadedBy blob) w HI Hblob Ep)
      as (w1 & Hone & HI1 & HC1 & Eblobs & Hlen). fold p in Hone, Eblobs.
    rewrite <- perform_assoc, perform_bind, Hone.
    destruct (IH (mkSweepReport (S (collected report)) (add64 (reclaimedBytes report) (collectableSizeBytes blob)) (skipped report)) w1 HI1) as (report' & w' & Hp & HI' & HC' & Hgone & Hcount).
    exists report', w'. rewrite Hp. split_and!; [done|done|by eapply Collected_trans| |cbn in Hcount; lia].
    intros b Hb Hu. apply not_elem_of_cons. split.
    + intros E. apply (collected_kept _ _ _ HC') in Hb as [Hb _]. rewrite Eblobs in Hb.
      apply elem_of_deleteWhere in Hb as [_ Hb]. unfold p in Hb. rewrite Hu, andb_true_r in Hb.
      by apply bool_decide_eq_false in Hb.
    + apply Hgone; [done|]. by rewrite (unreferenced_same _ w w1) by apply HC1.
  - assert (setBlobs (deleteWhere p (blobs w)) w = w) as ->
      by (rewrite deleteWhere_none; [by destruct w|by apply anyWhere_false]).
    destruct (IH (mkSweepReport (collected report) (reclaimedBytes report) (S (skipped report))) w HI) as (report' & w' & Hp & HI' & HC' & Hgone & Hcount).
    exists report', w'. rewrite Hp. split_and!; [done|done|done| |exact Hcount].
    intros b Hb Hu. apply not_elem_of_cons. split; [|by apply Hgone]. intros E.
    apply (collected_kept _ _ _ HC') in Hb as [Hb _]. rewrite anyWhere_false in Ep. specialize (Ep b Hb).
    unfold p in Ep. rewrite Hu, andb_true_r in Ep. by apply bool_decide_eq_false in Ep.
Qed.

(** ** Properties *)

(** C32: a pass always comes to its end.  Every blob it takes was older than the
    grace period, in no manifest and awaited by no open session; the file of every blob
    that stays is untouched; the report counts the blobs that went; and when the batch
    is large enough for what is collectable, nothing collectable is left. *)
Theorem collect_correct w :
  SysInv w →
  ∃ report w', perform (collectUnreferencedBlobs settings) w = (Some report, w') ∧ SysInv w'
    ∧ (∀ b, b ∈ blobs w → b ∈ blobs w' ∨
         blobCreatedAt b < clock w - blobGraceSeconds settings
         ∧ (∀ r, r ∈ buildFiles w → fileSha r ≠ blobSha b)
         ∧ (∀ s, s ∈ sessions w → isPending s = true → sessionSha s ≠ blobSha b))
    ∧ (∀ b, b ∈ blobs w' → b ∈ blobs w ∧ blobAt (files w') (blobSha b) = blobAt (files w) (blobSha b))
    ∧ length (blobs w) = (length (blobs w') + collected report)%nat
    ∧ (Z.of_nat (length (selectWhere (unreferenced (blobGraceSeconds settings) w) (blobs w))) ≤ batchSize settings →
         ∀ b, b ∈ blobs w' → unreferenced (blobGraceSeconds settings) w b = false).
Proof.
  intros HI. unfold collectUnreferencedBlobs, blobs_findUnreferenced. run_statements.
  set (candidates := map collectableOf _).
  assert (Forall (λ b, 0 ≤ collectableSizeBytes b ≤ INT64_MAX) candidates) as HF
    by (exact (proj2 (findUnreferenced_keeps (blobGraceSeconds settings) (batchSize settings) w _ w HI eq_refl))).
  destruct (perform_collectLoop candidates (mkSweepReport 0 0 0) w HI HF)
    as (report & w' & Hp & HI' & HC & Hgone & Hcount).
  exists report, w'. split_and!; [exact Hp|done| |apply HC|cbn in Hcount; lia|].
  - intros b [Hb|Hu]%(collected_rows _ _ _ HC); [by left|]. right. unfold unreferenced in Hu.
    rewrite !andb_true_iff, !negb_true_iff, !anyWhere_false in Hu. destruct Hu as [[Hage Hrows] Hsess].
    bool_to_prop. split_and!; [done|..].
    + intros r Hr. specialize (Hrows r Hr). by apply bool_decide_eq_false in Hrows.
    + intros s Hs Hpend E. specialize (Hsess s Hs). rewrite Hpend, andb_true_r in Hsess.
      by apply bool_decide_eq_false in Hsess.
  - intros Hbatch b Hb. apply not_true_is_false. intros Hu. apply (Hgone b Hb Hu).
    unfold candidates. apply list_elem_of_fmap. exists (collectableOf b). split; [done|].
    apply list_elem_of_fmap_2. rewrite firstn_all2 by (rewrite (Permutation_length (merge_sort_Permutation _ _)); lia).
    rewrite merge_sort_Permutation. apply elem_of_selectWhere. split; [|done].
    by apply (collected_kept _ _ _ HC).
Qed.
End Collect.
