(* ===== verification/System.v ===== *)
(** The services together: sign-in, publishing, downloading and the two sweeps, any number
    of requests of each interleaved statement by statement. *)

From S2P Require Import Prelude.
From S2P Require Import Errors.
From S2P Require Import Validation.
From S2P Require Import Actors.
From S2P Require Import Catalog.
From S2P Require Import Manifest.
From S2P Require Import Hash.
From S2P Require Import BlobStore.
From S2P Require Import Signer.
From S2P Require Import Programs.
From S2P Require Import Random.
From S2P Require Import World.
From S2P Require Import Accounts.
From S2P Require Import MailTemplates.
From S2P Require Import AuthService.
From S2P Require Import AccountSafety.
From S2P Require Import Uploads.
From S2P Require Import StorageSafety.
From S2P Require Import Media.
From S2P Require Import PatchNote.
From S2P Require Import CatalogRepositories.
From S2P Require Import ContentRepositories.
From S2P Require Import MediaStore.
From S2P Require Import CatalogService.
From S2P Require Import PatchNoteService.
From S2P Require Import MediaService.
From S2P Require Import CatalogSafety.
From S2P Require Import AuditLog.
From S2P Require Import AdminRepositories.
From S2P Require Import AdminUserService.
From S2P Require Import CrashReport.
From S2P Require Import CrashReportService.
From S2P Require Import AdminSafety.
From S2P Require Import UploadService.
From S2P Require Import DownloadService.
From S2P Require Import RetentionService.

(** What a deployment is configured with, once its configuration is read. *)
Record Deployment := mkDeployment {
  authSettings : AuthSettings;
  uploadSettings : UploadSettings;
  signer : SignedUrlSettings;
  downloadSettings : DownloadSettings;
  retentionSettings : RetentionSettings;
  mediaLimits : MediaLimits;
  crashSettings : CrashReportSettings
}.

Section Handlers.
Context `{Sodium, PasswordHasher, Evp, Md5, Postgres, MailSender, TokenService, Disk}.
Variable site : Deployment.

Notation SysProg p := (Keeps SysInv SysGo p (λ _, True)).
Notation KeptProg p := (Keeps SysInv SysKept p (λ _, True)).

Lemma sys_query {B} (f : World → B) : SysProg (query f).
Proof. by apply lift_store, store_query. Qed.

Lemma discardStaging_keeps id : SysProg (discardStaging id).
Proof. apply lift_store, onDisk_keeps. intros faults fs. apply StoreSound_discard. Qed.

Lemma write_keeps id offset chunk :
  SysProg (onDisk (λ faults fs, writeAt faults (stagingPathFor id) offset chunk fs)).
Proof. apply lift_store, onDisk_keeps. intros faults fs. apply StoreSound_writeAt. Qed.

Lemma commit_keeps id sha : SysProg (onDisk (λ faults fs, commit faults (stagingPathFor id) sha fs)).
Proof. apply lift_store, onDisk_keeps. intros faults fs. apply StoreSound_commit. Qed.

Lemma sys_chargeUpload id bytes : SysProg (users_chargeUpload id bytes).
Proof. apply lift_account, chargeUpload_keeps. Qed.

Lemma sys_releaseUpload id bytes : 0 ≤ bytes → SysProg (users_releaseUpload id bytes).
Proof. intros. by apply lift_account, releaseUpload_keeps. Qed.

Lemma sys_record sha size uploader : SysProg (blobs_record sha size (storageKeyFor sha) uploader).
Proof. apply lift_store, blobs_record_keeps. Qed.

Lemma sys_findSession id :
  Keeps SysInv SysGo (sessions_findById id) (λ found, ∀ session, found = Some session → UploadOk session).
Proof. apply lift_store, sessions_findById_keeps. Qed.

Lemma sys_reserveBytes id offset count :
  Keeps SysInv SysGo (sessions_reserveBytes id offset count)
    (λ found, ∀ session, found = Some session → UploadOk session).
Proof. apply lift_store, reserveBytes_keeps. Qed.

Lemma sys_createSession request : SysProg (sessions_create request).
Proof. apply lift_store, sessions_create_keeps. Qed.

Lemma sys_markCompleted id : SysProg (sessions_markCompleted id).
Proof. apply lift_store, markCompleted_keeps. Qed.

Lemma sys_markAborted id : SysProg (sessions_markAborted id).
Proof. apply lift_store, markAborted_keeps. Qed.

Lemma sys_deleteSession id : SysProg (sessions_deleteById id).
Proof. apply lift_store, deleteById_keeps. Qed.

Lemma sys_recordEvent event : SysProg (downloads_recordEvent event).
Proof. apply lift_store, downloads_recordEvent_keeps. Qed.

#[local] Hint Resolve sys_query discardStaging_keeps write_keeps commit_keeps discardBlob_keeps
  sys_chargeUpload sys_record sys_createSession sys_markCompleted
  sys_markAborted sys_deleteSession sys_recordEvent : keeps.

(** Reads, by the name the handlers call them. *)
Ltac reads := repeat first [progress unfold blobs_findMissing, blobs_findBySha256, blobs_findMany,
  sessions_countOpenForUser, sessions_findExpired, users_findById, builds_findById,
  builds_findOwnership, builds_filesFor in *].

Lemma writableBuild_keeps actor id : SysProg (writableBuild actor id).
Proof. unfold writableBuild. reads. keeps_handler. Qed.

Lemma sessionStatus_keeps actor id :
  Keeps SysInv SysGo (sessionStatus actor id) (λ r, ∀ session, r = Success session → UploadOk session).
Proof.
  unfold sessionStatus. case_match; [by apply Keeps_ret|].
  eapply Keeps_bind; [apply sys_findSession|]. intros [session|] Hs; [|by apply Keeps_ret].
  case_match; apply Keeps_ret; [done|]. intros s [= <-]. by apply Hs.
Qed.

Lemma completeSession_keeps session : UploadOk session → SysProg (completeSession session).
Proof.
  intros Hs. assert (0 ≤ uploadDeclaredBytes session) by (unfold UploadOk in Hs; lia).
  assert (SysProg (users_releaseUpload (uploadUserId session) (uploadDeclaredBytes session))) as Hrelease
    by (by apply sys_releaseUpload).
  unfold completeSession. reads. keeps_handler.
Qed.

#[local] Hint Resolve writableBuild_keeps completeSession_keeps : keeps.

Lemma missingBlobs_keeps actor id declared : SysProg (missingBlobs (uploadSettings site) actor id declared).
Proof. unfold missingBlobs. reads. keeps_handler. Qed.

Lemma beginUpload_keeps actor id declared : SysProg (beginUpload (uploadSettings site) actor id declared).
Proof. unfold beginUpload. reads. keeps_handler. Qed.

Lemma uploadChunk_keeps actor id offset chunk : SysProg (uploadChunk (uploadSettings site) actor id offset chunk).
Proof.
  unfold uploadChunk. eapply Keeps_bind; [apply sessionStatus_keeps|]. intros [session|e] Hs; [|done].
  cbv zeta. repeat (case_match; [done|]).
  eapply Keeps_bind; [apply sys_reserveBytes|]. intros [session'|] Hs'; [|done].
  specialize (Hs' session' eq_refl). keeps_handler.
Qed.

Lemma abortUpload_keeps actor id : SysProg (abortUpload actor id).
Proof.
  unfold abortUpload. eapply Keeps_bind; [apply sessionStatus_keeps|]. intros [session|e] _; [|done].
  keeps_handler.
Qed.

Lemma manifest_keeps actor id : SysProg (manifest actor id).
Proof. unfold manifest. reads. keeps_handler. Qed.

Lemma sweepLoop_keeps reclaimed expired : SysProg (sweepLoop reclaimed expired).
Proof. revert reclaimed. induction expired; intros; cbn [sweepLoop]; keeps_handler. Qed.

#[local] Hint Resolve sweepLoop_keeps : keeps.

Lemma sweepExpiredSessions_keeps : SysProg sweepExpiredSessions.
Proof. unfold sweepExpiredSessions. reads. keeps_handler. Qed.

Lemma downloadableBuild_keeps actor id : SysProg (downloadableBuild actor id).
Proof. unfold downloadableBuild. reads. keeps_handler. Qed.

#[local] Hint Resolve downloadableBuild_keeps : keeps.

Lemma installedFrom_keeps actor target from : SysProg (installedFrom actor target from).
Proof. unfold installedFrom. reads. keeps_handler. Qed.

#[local] Hint Resolve installedFrom_keeps : keeps.

Lemma plan_keeps actor id from : SysProg (plan (signer site) (downloadSettings site) actor id from).
Proof. unfold plan. reads. keeps_handler. Qed.

Lemma verifyInstall_keeps actor id installed : SysProg (verifyInstall (signer site) actor id installed).
Proof. unfold verifyInstall. reads. keeps_handler. Qed.

Lemma kept_go {A} (p : Prog World A) : SysProg p → KeptProg p.
Proof. apply lift_go. Qed.

Lemma finalizeBuild_keeps actor id command : KeptProg (finalizeBuild actor id command).
Proof.
  unfold finalizeBuild. reads.
  eapply Keeps_bind; [apply kept_go, writableBuild_keeps|]. intros [build|e] _; [|done]. cbv zeta.
  repeat (case_match; [done|]). case_match; [|done].
  eapply Keeps_bind; [apply kept_go, sys_query|]. intros records _. repeat (case_match; try done).
  eapply Keeps_bind; [apply finalize_keeps|]. by intros [ready|] _.
Qed.

Lemma collectLoop_keeps report candidates :
  Forall (λ b, 0 ≤ collectableSizeBytes b ≤ INT64_MAX) candidates → KeptProg (collectLoop (retentionSettings site) report candidates).
Proof.
  intros HF. revert report. induction HF as [|blob rest Hblob _ IH]; intros report; cbn [collectLoop]; [done|].
  eapply Keeps_bind; [apply deleteIfUnreferenced_keeps|]. intros deleted _. case_match; [apply IH|].
  eapply Keeps_bind; [apply kept_go, discardBlob_keeps|]. intros _ _.
  eapply Keeps_bind; [|intros _ _; apply IH]. case_match; [apply kept_go, sys_releaseUpload; lia|done].
Qed.

Lemma collectUnreferencedBlobs_keeps : KeptProg (collectUnreferencedBlobs (retentionSettings site)).
Proof.
  unfold collectUnreferencedBlobs. eapply Keeps_bind; [apply lift_go, findUnreferenced_keeps|].
  intros candidates. apply collectLoop_keeps.
Qed.

(** ** Requests *)

(** Everything the routes of these services and the timers start, and on whose behalf. *)
Inductive Request : option Actor → Prog World unit → Prop :=
| request_auth p : AuthRequest (authSettings site) p → Request None p
| request_create_game actor command : Request (Some actor) (answered (createGame actor command))
| request_update_game actor id changes : Request (Some actor) (answered (updateGame actor id changes))
| request_delete_game actor id : Request (Some actor) (answered (deleteGame actor id))
| request_game actor id : Request (Some actor) (answered (gameDetail actor id))
| request_explore actor q : Request (Some actor) (answered (explore actor q))
| request_published actor q : Request (Some actor) (answered (publishedByActor actor q))
| request_create_version actor game command : Request (Some actor) (answered (createVersion actor game command))
| request_update_version actor game version changes : Request (Some actor) (answered (updateVersion actor game version changes))
| request_delete_version actor game version : Request (Some actor) (answered (deleteVersion actor game version))
| request_create_build actor game command : Request (Some actor) (answered (createBuild actor game command))
| request_delete_build actor id : Request (Some actor) (answered (deleteBuild actor id))
| request_shelve actor id : Request (Some actor) (answered (addToLibrary actor id))
| request_unshelve actor id : Request (Some actor) (answered (removeFromLibrary actor id))
| request_library actor : Request (Some actor) (answered (library actor))
| request_notes actor id limit offset : Request (Some actor) (answered (listNotes actor id limit offset))
| request_create_note actor id command : Request (Some actor) (answered (createNote actor id command))
| request_update_note actor id changes : Request (Some actor) (answered (updateNote actor id changes))
| request_remove_note actor id : Request (Some actor) (answered (removeNote actor id))
| request_gallery actor id : Request (Some actor) (answered (listMedia actor id))
| request_upload_media actor id command : Request (Some actor) (answered (uploadMedia (mediaLimits site) actor id command))
| request_update_media actor id changes : Request (Some actor) (answered (updateMedia actor id changes))
| request_remove_media actor id : Request (Some actor) (answered (removeMedia actor id))
| request_missing actor id declared : Request (Some actor) (answered (missingBlobs (uploadSettings site) actor id declared))
| request_begin actor id declared : Request (Some actor) (answered (beginUpload (uploadSettings site) actor id declared))
| request_status actor id : Request (Some actor) (answered (sessionStatus actor id))
| request_chunk actor id offset chunk : Request (Some actor) (answered (uploadChunk (uploadSettings site) actor id offset chunk))
| request_abort actor id : Request (Some actor) (answered (abortUpload actor id))
| request_finalize actor id command : Request (Some actor) (answered (finalizeBuild actor id command))
| request_manifest actor id : Request (Some actor) (answered (manifest actor id))
| request_plan actor id from : Request (Some actor) (answered (plan (signer site) (downloadSettings site) actor id from))
| request_verify_install actor id installed : Request (Some actor) (answered (verifyInstall (signer site) actor id installed))
| request_users actor q : Request (Some actor) (answered (listUsers actor q))
| request_user actor id : Request (Some actor) (answered (findUser actor id))
| request_quota actor id quota : Request (Some actor) (answered (setUploadQuota actor id quota))
| request_active actor id active : Request (Some actor) (answered (setActive actor id active))
| request_temporary actor id : Request (Some actor) (answered (setTemporaryPassword actor id))
| request_grant actor id role : Request (Some actor) (answered (grantRole actor id role))
| request_revoke actor id role : Request (Some actor) (answered (revokeRole actor id role))
| request_roles actor : Request (Some actor) (answered (listRoles actor))
| request_audit actor q : Request (Some actor) (answered (listAudit actor q))
| request_erase actor command : Request (Some actor) (answered (eraseAccount actor command))
| request_crash report : Request None (answered (submitCrash report))
| request_crash_groups actor limit offset : Request (Some actor) (answered (listCrashGroups actor limit offset))
| request_crashes actor q : Request (Some actor) (answered (listCrashes actor q))
| request_crash_report actor id : Request (Some actor) (answered (findCrash actor id))
| request_crash_sweep : Request None (answered (sweepExpiredCrashes (crashSettings site)))
| request_sweep : Request None (answered sweepExpiredSessions)
| request_collect : Request None (answered (collectUnreferencedBlobs (retentionSettings site))).

(** A request the server takes, whoever sends it. *)
Definition routed (p : Prog World unit) : Prop := ∃ who, Request who p.

Lemma kept_answered {A} (p : Prog World A) Q : Keeps SysInv SysKept p Q → KeptProg (answered p).
Proof. intros Hp. by apply (Keeps_bind _ _ _ _ _ _ Hp). Qed.

Create HintDb kept.
Create HintDb go.

#[local] Hint Resolve createGame_kept updateGame_kept deleteGame_kept gameDetail_kept explore_kept
  publishedByActor_kept createVersion_kept updateVersion_kept deleteVersion_kept createBuild_kept
  deleteBuild_kept addToLibrary_kept removeFromLibrary_kept library_kept listNotes_kept createNote_kept
  updateNote_kept removeNote_kept listMedia_kept uploadMedia_kept updateMedia_kept removeMedia_kept
  finalizeBuild_keeps collectUnreferencedBlobs_keeps eraseAccount_kept : kept.

Create HintDb account.

#[local] Hint Resolve listUsers_keeps findUser_keeps quota_keeps active_keeps temporaryPassword_keeps grant_keeps
  revoke_role_keeps listRoles_keeps listAudit_keeps submitCrash_keeps listCrashGroups_keeps listCrashes_keeps
  findCrash_keeps sweepExpiredCrashes_keeps : account.

#[local] Hint Resolve missingBlobs_keeps beginUpload_keeps uploadChunk_keeps abortUpload_keeps manifest_keeps
  plan_keeps verifyInstall_keeps sweepExpiredSessions_keeps : go.

Lemma Request_keeps who p : Request who p → KeptProg p.
Proof.
  destruct 1; [eapply lift_go, lift_account, AuthRequest_keeps; eassumption|eapply kept_answered..].
  all: first [solve [auto with kept nocore] | apply lift_go; first [solve [auto with go nocore]
    | apply sessionStatus_keeps | apply lift_account; solve [auto with account nocore]]].
Qed.

Lemma Request_safe p : routed p → Safe SysInv SysKept (λ _, True) p (λ _ _, True).
Proof.
  intros [who Hp%Request_keeps]. eapply Safe_post; [eapply Keeps_safe; [|exact Hp]|done]. by intros w w' _ [].
Qed.

Lemma clockTick_kept w w' : SysInv w → clockTick w w' → SysInv w' ∧ SysKept w w'.
Proof.
  intros HI [t _]. assert (SysKept w (setClock t w)) as HK; [|by split; [apply HK|]].
  apply SysGo_kept. split; [|by apply SameAccounts_kept|done|done].
  destruct HI as (HA & HS & HC). split_and!; [by apply (AccountsInv_same w)|by apply (StorageInv_same w)|].
  apply (CatalogInv_same w); [done|by apply SameAccounts_kept|done].
Qed.

(** ** Whatever the interleaving *)

Notation step := (poolStep routed clockTick).

Lemma system_step c c' : SafePool SysInv SysKept c → step c c' → SafePool SysInv SysKept c' ∧ SysKept c.1 c'.1.
Proof.
  intros HS Hstep.
  destruct (poolStep_safe SysInv SysKept _ _ Request_safe clockTick_kept c c' HS Hstep) as [HS' [E|HK]]; split; try done.
  rewrite E. apply SysKept_refl, HS.
Qed.

Lemma system_safe w c : SysInv w → reachable step (w, []) c → SafePool SysInv SysKept c.
Proof. apply pool_safe; [apply Request_safe|apply clockTick_kept]. Qed.

Lemma system_inv w c : SysInv w → reachable step (w, []) c → SysInv c.1.
Proof. intros HI Hr. apply (system_safe w c HI Hr). Qed.

(** What each step keeps is kept along the way, when it is a preorder. *)
Lemma system_along (R : World → World → Prop) w c c' :
  (∀ w, R w w) → (∀ w1 w2 w3, R w1 w2 → R w2 w3 → R w1 w3) → (∀ w w', SysKept w w' → R w w') →
  SysInv w → reachable step (w, []) c → reachable step c c' → R c.1 c'.1.
Proof.
  intros Hrefl Htrans HR HI Hr Hr'. pose proof (system_safe w c HI Hr) as Hc.
  enough (SafePool SysInv SysKept c' ∧ R c.1 c'.1) by tauto.
  clear Hr. induction Hr' as [|c1 c2 Hr [HS1 HR1] Hstep]; [by split|].
  destruct (system_step c1 c2 HS1 Hstep) as [HS2 HK]. split; [done|]. eapply Htrans; [done|by apply HR].
Qed.

Lemma system_accounts w c c' :
  SysInv w → reachable step (w, []) c → reachable step c c' → AccountsKept c.1 c'.1.
Proof. apply system_along; [apply AccountsKept_refl|apply AccountsKept_trans|by intros ? ? []]. Qed.

(** A step that leaves a build in place. *)
Definition undeleted (id : string) (c c' : Pool) : Prop :=
  step c c' ∧ anyWhere (buildIs id) (builds c'.1) = true.

Lemma undeleted_reachable id c c' : reachable (undeleted id) c c' → reachable step c c'.
Proof. induction 1 as [|c1 c2 _ IH [Hs _]]; [apply reachable_refl|by eapply reachable_step]. Qed.

Lemma system_build w c c' b :
  SysInv w → reachable step (w, []) c → reachable (undeleted (buildId b)) c c' →
  b ∈ builds c.1 → status b = Ready → BuildKept b c.1 c'.1.
Proof.
  intros HI Hr Hr' Hb Hready. induction Hr' as [|c1 c2 Hr1 IH [Hstep Hleft]]; [by apply BuildKept_refl|].
  eapply BuildKept_trans; [exact IH|].
  assert (reachable step (w, []) c1) as Hc1 by (eapply reachable_trans; [exact Hr|by eapply undeleted_reachable]).
  apply StorageStep_build; [|apply IH|done|done].
  apply (system_step c1 c2 (system_safe w c1 HI Hc1) Hstep).
Qed.
End Handlers.

(** ** Properties *)

Section Properties.
Context `{Sodium, PasswordHasher, Evp, Md5, Postgres, MailSender, TokenService, Disk}.
Variable site : Deployment.

Notation step := (poolStep (routed site) clockTick).



(** C8: however requests of every kind interleave, deletes of whole games among them,
    no two games have one slug, no two versions of a game one number, no two builds of a
    version one platform, no game two covers, banners or logos; and nothing is left behind
    without what it belongs to: every version, image and patch note has its game, every build
    its version, every file and upload session its build, and whatever is on a shelf is a
    game there is, on the shelf of an account there is. *)
Theorem catalog_safe w c :
  SysInv w → reachable step (w, []) c →
  (NoDup (map slug (games c.1)) ∧ NoDup (map versionKey (versions c.1)) ∧ NoDup (map targetKey (builds c.1))
   ∧ ∀ m m', m ∈ gameMedia c.1 → m' ∈ gameMedia c.1 → singleton (mediaGameId m) (mediaKind m) m' = true → m' = m)
  ∧ references publisherUserId userIs (games c.1) (users c.1)
  ∧ references versionGameId gameIs (versions c.1) (games c.1)
  ∧ references buildVersionId versionIs (builds c.1) (versions c.1)
  ∧ references fileBuildId buildIs (buildFiles c.1) (builds c.1)
  ∧ references sessionBuildId buildIs (sessions c.1) (builds c.1)
  ∧ references mediaGameId gameIs (gameMedia c.1) (games c.1)
  ∧ references noteGameId gameIs (patchNotes c.1) (games c.1)
  ∧ Forall (λ n, versionFits (noteGameVersionId n) c.1 = true) (patchNotes c.1)
  ∧ references libraryGameId gameIs (userGames c.1) (games c.1)
  ∧ references libraryUserId userIs (userGames c.1) (users c.1).
Proof.
  intros HI Hr. destruct (system_inv site w c HI Hr) as (_ & HS & HC).
  repeat split; first [apply HC | apply HS].
Qed.


(** Whether a build may be read, or published to, is not found out by asking. *)
Lemma hidden_readable actor id w :
  (∀ o, ownershipOf id w = Some o → mayReadBuild o actor = false) →
  perform (downloadableBuild actor id) w =
    (Some (if can actor permissions.GAME_DOWNLOAD then failure NotFound "no such build"
           else failure Forbidden "you cannot download builds"), w).
Proof.
  intros Ho. unfold downloadableBuild, builds_findOwnership.
  destruct (can _ _); cbn [negb]; [|done]. destruct (isUuid id); cbn [negb]; [|done]. run_statements.
  destruct (ownershipOf id w) as [o|]; [|done]. by rewrite (Ho o eq_refl).
Qed.

Lemma hidden_writable actor id w :
  (∀ o, ownershipOf id w = Some o → mayPublishBuild o actor = false) →
  perform (writableBuild actor id) w =
    (Some (if can actor permissions.BUILD_UPLOAD then failure NotFound "no such build"
           else failure Forbidden "you cannot upload builds"), w).
Proof.
  intros Ho. unfold writableBuild, builds_findOwnership.
  destruct (can _ _); cbn [negb]; [|done]. destruct (isUuid id); cbn [negb]; [|done]. run_statements.
  destruct (ownershipOf id w) as [o|]; [|done]. by rewrite (Ho o eq_refl).
Qed.

Lemma hidden_manifest actor id w :
  (∀ o, ownershipOf id w = Some o → mayReadBuild o actor = false) →
  perform (manifest actor id) w =
    (Some (if can actor permissions.GAME_DOWNLOAD then failure NotFound "no such build"
           else failure Forbidden "you cannot download builds"), w).
Proof.
  intros Ho. unfold manifest, builds_findOwnership.
  destruct (can _ _); cbn [negb]; [|done]. destruct (isUuid id); cbn [negb]; [|done]. run_statements.
  destruct (ownershipOf id w) as [o|]; [|done]. by rewrite (Ho o eq_refl).
Qed.

(** C7: a build the caller may not read is indistinguishable from one that is not
    there: every route that takes its id answers the same in both cases, a not-found for
    those with the permission of the route, and nothing is written. *)
Theorem hidden_builds actor id w absent o :
  ownershipOf id w = Some o → mayReadBuild o actor = false → ownershipOf id absent = None →
  let denied A permission detail : option (Result A) :=
    Some (if can actor permission then failure NotFound "no such build" else failure Forbidden detail) in
  let reads A := denied A permissions.GAME_DOWNLOAD "you cannot download builds" in
  let writes A := denied A permissions.BUILD_UPLOAD "you cannot upload builds" in
  ∀ w', w' = w ∨ w' = absent →
    (perform (manifest actor id) w' = (reads _, w')
     ∧ (∀ from, perform (plan (signer site) (downloadSettings site) actor id from) w' = (reads _, w'))
     ∧ (∀ installed, perform (verifyInstall (signer site) actor id installed) w' = (reads _, w')))
    ∧ (∀ declared, perform (missingBlobs (uploadSettings site) actor id declared) w' = (writes _, w'))
    ∧ (∀ declared, perform (beginUpload (uploadSettings site) actor id declared) w' = (writes _, w'))
    ∧ (∀ command, perform (finalizeBuild actor id command) w' = (writes _, w')).
Proof.
  intros Ho Hread Habsent denied reads_ writes w' Hw'.
  assert (∀ o, ownershipOf id w' = Some o → mayReadBuild o actor = false) as Hr
    by (intros o' Ho'; destruct Hw' as [-> | ->]; congruence).
  assert (∀ o, ownershipOf id w' = Some o → mayPublishBuild o actor = false) as Hp.
  { intros o' Ho'. specialize (Hr o' Ho'). unfold mayReadBuild in Hr. by apply orb_false_iff in Hr as [_ ?]. }
  pose proof (hidden_readable actor id w' Hr) as Er. pose proof (hidden_writable actor id w' Hp) as Ew.
  split; [split; [by apply hidden_manifest|split]|split; [|split]].
  - intros from. unfold plan. rewrite perform_bind, Er. subst reads_ denied. cbv beta.
    by destruct (can actor _).
  - intros installed. unfold verifyInstall. rewrite perform_bind, Er. subst reads_ denied. cbv beta.
    by destruct (can actor _).
  - intros declared. unfold missingBlobs. rewrite perform_bind, Ew. subst writes denied. cbv beta.
    destruct (can actor permissions.BUILD_UPLOAD); reflexivity.
  - intros declared. unfold beginUpload. rewrite perform_bind, Ew. subst writes denied. cbv beta.
    destruct (can actor permissions.BUILD_UPLOAD); reflexivity.
  - intros command. unfold finalizeBuild. rewrite perform_bind, Ew. subst writes denied. cbv beta.
    destruct (can actor permissions.BUILD_UPLOAD); reflexivity.
Qed.
End Properties.
