(* ===== verification/AppContext.v ===== *)
(** The composition root: [src/app/AppContext.cpp].  What each service is configured with, from
    the configuration the server started with; the repositories are the statements on the
    tables, and the services call them by name. *)

From S2P Require Import Prelude.
From S2P Require Import Signer.
From S2P Require Import Actors.
From S2P Require Import MailTemplates.
From S2P Require Import AuthService.
From S2P Require Import JwtTokenService.
From S2P Require Import RateLimiter.
From S2P Require Import Json.
From S2P Require Import Config.
From S2P Require Import Releases.
From S2P Require Import UploadService.
From S2P Require Import DownloadService.
From S2P Require Import RetentionService.
From S2P Require Import MediaService.
From S2P Require Import CrashReportService.
From S2P Require Import System.

Definition MAX_NEGOTIATION_BATCH : Z := 5000.

Section Context.
Variable config : AppConfig.

Definition authSettingsOf : AuthSettings :=
  let auth := authConfig config in
  mkAuthSettings (configRequireVerifiedEmail auth) (refreshTokenTtlSeconds auth) (emailVerificationTtlSeconds auth)
    (passwordResetTtlSeconds auth) roles.PLAYER
    (mkMailContext (configLinkBaseUrl (mailConfig config)) (configProductName (mailConfig config)))
    (mailConfigured (mailConfig config)).

Definition deploymentOf : Deployment :=
  let uploads := uploadConfig config in
  let storage := storageConfig config in
  mkDeployment authSettingsOf
    (mkUploadSettings (uploadMaxBlobBytes uploads) (uploadMaxChunkBytes uploads) (sessionTtlSeconds uploads)
      (uploadMaxOpenSessions uploads) MAX_NEGOTIATION_BATCH)
    (mkSettings (storageBaseUrl storage) (secureLinkSecret storage) (signedUrlTtlSeconds storage))
    (mkDownloadSettings (thresholdRatio (updateConfig config)))
    (mkRetentionSettings (configBlobGraceSeconds (retentionConfig config)) (sweepBatchSize (retentionConfig config)))
    (mkMediaLimits (mediaMaxBytes (mediaConfig config)) (mediaMaxVideoBytes (mediaConfig config)))
    (mkCrashSettings (crashRetentionSeconds (crashReportConfig config))).

Definition tokenSettingsOf : TokenSettings :=
  let auth := authConfig config in mkTokenSettings (jwtSecret auth) (jwtIssuer auth) (accessTokenTtlSeconds auth).

Definition releaseSettingsOf : LauncherReleaseSettings :=
  mkReleaseSettings (publicKey (launcherReleaseConfig config)) (releasesBaseUrl (launcherReleaseConfig config)).

(** The four limiters. *)
Record Limiters := mkLimiters {
  crashLimiter : RateLimiter;
  authLimiter : RateLimiter;
  accountLimiter : RateLimiter;
  mailLimiter : RateLimiter
}.

Definition limitersOf : Limiters :=
  let limits := rateLimitConfig config in
  let crashes := crashReportConfig config in
  mkLimiters (newLimiter (submitAttempts crashes) (submitWindowSeconds crashes))
    (newLimiter (authAttempts limits) (authWindowSeconds limits))
    (newLimiter (accountRequests limits) (accountWindowSeconds limits))
    (newLimiter (sendAttempts (mailConfig config)) (sendWindowSeconds (mailConfig config))).
End Context.
