(* ===== verification/Http.v ===== *)
(** Requests and responses: [src/app/HttpError.cpp], [src/app/SecurityHeaders.cpp] and
    [src/app/JsonBody.cpp].

    A controller is a program that answers a [Result]: a [Failure] is an [ApiException] it
    throws, with the error the central handler renders; any other exception is [Raise] or a
    refused statement. *)

From S2P Require Import Prelude.
From S2P Require Import Errors.
From S2P Require Import Json.
From S2P Require Import Decimals.
From S2P Require Import Validation.
From S2P Require Import Actors.
From S2P Require Import Programs.
From S2P Require Import AuthService.
From S2P Require Import Config.

(** ** Data *)

(** A request as Drogon hands it over: [requestJson] is [getJsonObject], absent where the body
    is not JSON or not said to be, [mintedId] the uuid Drogon would make for it, and a header
    or a parameter that was not sent is empty. *)
Record HttpRequest `{Jsoncpp} := mkHttpRequest {
  requestPath : string;
  requestPort : Z;
  requestPeer : string;
  requestHeader : string → string;
  requestParameter : string → string;
  requestBody : list ascii;
  requestJson : option Value;
  mintedId : string
}.

(** A request with the attributes the advices and the filters set on it. *)
Record Context `{Jsoncpp} := mkContext {
  theRequest : HttpRequest;
  requestId : string;
  authClaims : option AccessTokenClaims
}.

Inductive Content `{Jsoncpp} :=
| JsonContent (document : Json Value)
| BytesContent (contentType : string) (bytes : string)
| NoContent.

Record HttpResponse `{Jsoncpp} := mkResponse {
  responseStatus : Z;
  headers : gmap string string;
  content : Content
}.

Arguments mkHttpRequest {_} _ _ _ _ _ _ _ _.
Arguments mkContext {_} _ _ _.
Arguments JsonContent {_} _.
Arguments BytesContent {_} _ _.
Arguments NoContent {_}.
Arguments mkResponse {_} _ _ _.

(** What a controller reads: an [ApiException] is a [Failure], any other exception nothing. *)
Notation Reading A := (option (Result A)) (only parsing).

Section Responses.
Context `{Jsoncpp}.

(** ** Headers *)

Definition headerOf (name : string) (r : HttpResponse) : string :=
  default ""%stdpp (headers r !! name).

Definition addHeader (name value : string) (r : HttpResponse) : HttpResponse :=
  mkResponse (responseStatus r) (<[name := value]> (headers r)) (content r).

Definition addIfAbsent (name value : string) (r : HttpResponse) : HttpResponse :=
  if bool_decide (headerOf name r = ""%stdpp) then addHeader name value r else r.

Definition applySecurityHeaders (config : SecurityConfig) (r : HttpResponse) : HttpResponse :=
  let r := addIfAbsent "X-Content-Type-Options" "nosniff" r in
  let r := addIfAbsent "Content-Security-Policy" "default-src 'none'; frame-ancestors 'none'" r in
  let r := addIfAbsent "X-Frame-Options" "DENY" r in
  let r := addIfAbsent "Referrer-Policy" "no-referrer" r in
  if hsts config then
    addIfAbsent "Strict-Transport-Security" ("max-age=" +:+ toDecimal (hstsMaxAgeSeconds config)) r
  else r.

Definition withRequestId (id : string) (r : HttpResponse) : HttpResponse :=
  if bool_decide (id = ""%stdpp) then r else addHeader "X-Request-Id" id r.

(** ** Error envelopes *)

Definition errorBody (e : Error) (id : string) : Json Value :=
  JObject ([("type"%stdpp, JText "about:blank"); ("title"%stdpp, JText (titleFor (code e)));
            ("status"%stdpp, JInt (httpStatusFor (code e))); ("code"%stdpp, JText (Errors.nameFor (code e)));
            ("detail"%stdpp, JText (detail e))]
    ++ (if bool_decide (rule e = ""%stdpp) then []
        else ("rule"%stdpp, JText (rule e))
          :: match ruleArgs e with [] => [] | args => [("ruleArgs"%stdpp, JTexts args)] end)
    ++ (if bool_decide (id = ""%stdpp) then [] else [("requestId"%stdpp, JText id)])).

Definition makeErrorResponse (config : SecurityConfig) (e : Error) (id : string) : HttpResponse :=
  applySecurityHeaders config
    (withRequestId id (mkResponse (httpStatusFor (code e)) ∅ (JsonContent (errorBody e id)))).

Definition NO_SUCH_RESOURCE : string := "The requested resource does not exist.".

(** The page for a path that was never registered: one object, built once. *)
Definition notFoundPage (config : SecurityConfig) : HttpResponse :=
  makeErrorResponse config (mkError NotFound NO_SUCH_RESOURCE "" []) "".

(** The first advice: an id that came with the request, or a new one. *)
Definition identified (r : HttpRequest) : Context :=
  let incoming := requestHeader r "X-Request-Id" in
  mkContext r (if bool_decide (incoming = ""%stdpp) then mintedId r else incoming) None.

(** The handler of exceptions: what an [ApiException] carries, or one sentence for all others. *)
Definition onException (config : SecurityConfig) (c : Context) (e : option Error) : HttpResponse :=
  match e with
  | Some e => makeErrorResponse config e (requestId c)
  | None => makeErrorResponse config (mkError Internal "An unexpected error occurred." "" []) (requestId c)
  end.

(** ** Answers of controllers *)

Definition jsonResponse (c : Context) (status : Z) (document : Json Value) : HttpResponse :=
  withRequestId (requestId c) (mkResponse status ∅ (JsonContent document)).

Definition noContentResponse (c : Context) : HttpResponse := withRequestId (requestId c) (mkResponse 204 ∅ NoContent).

(** ** Bodies *)

Definition NOT_AN_OBJECT_BODY : string := "the request body must be a JSON object with content-type application/json".

Definition requireJsonObject (c : Context) : Result Value :=
  match requestJson (theRequest c) with
  | None => failure InvalidInput NOT_AN_OBJECT_BODY
  | Some body => if isObject body then Success body else failure InvalidInput "the request body must be a JSON object"
  end.

(** [emptyObject] is [Json::Value(Json::objectValue)]. *)
Definition optionalJsonObject (emptyObject : Value) (c : Context) : Result Value :=
  match requestBody (theRequest c) with [] => Success emptyObject | _ => requireJsonObject c end.

Definition requireString (body : Value) (field ruleName : string) : Reading string :=
  present ← isMember body field;
  if negb present || negb (isString (member body field)) then
    Some (Failure (mkError InvalidInput (field +:+ " is required and must be a string") ruleName []))
  else
    value ← asString (member body field);
    if bool_decide (trim value = ""%stdpp) then
      Some (Failure (mkError InvalidInput (field +:+ " must not be empty") ruleName []))
    else Some (Success value).

Definition optionalString (body : Value) (field fallback : string) : Reading string :=
  present ← isMember body field;
  if negb present || negb (isString (member body field)) then Some (Success fallback)
  else Success <$> asString (member body field).

Definition requireInt64 (body : Value) (field : string) : Reading Z :=
  present ← isMember body field;
  if negb present || negb (isNumeric (member body field)) then
    Some (failure InvalidInput (field +:+ " is required and must be a number"))
  else if negb (isIntegral (member body field)) || negb (isInt64 (member body field)) then
    Some (failure InvalidInput (field +:+ " must be a whole number that fits in 64 bits"))
  else Success <$> asInt64 (member body field).

Definition optionalBool (body : Value) (field : string) (fallback : bool) : Reading bool :=
  present ← isMember body field;
  if negb present || negb (isBool (member body field)) then Some (Success fallback)
  else Success <$> asBool (member body field).

(** The [if (body.isMember(...)) changes.field = ...] of a PATCH: a field that was not sent is
    left alone. *)
Definition patched {A} (body : Value) (field : string) (read : Reading A) : Reading (option A) :=
  present ← isMember body field;
  if (present : bool) then fmap (M := option) (λ r : Result A, let? a := r in Success (Some a)) read
  else Some (Success None).

(** ** Parameters *)

(** [std::from_chars] into a signed integer of a width, followed by the test that all was
    consumed. *)
Definition fromChars (width : Z) (l : list ascii) : option Z :=
  let '(negative, digits) := match l with "-"%char :: rest => (true, rest) | _ => (false, l) end in
  if bool_decide (digits = []) || negb (forallb isdigit digits) then None
  else
    let value := if negative then - decimalValue digits else decimalValue digits in
    if (- 2 ^ (width - 1) <=? value) && (value <? 2 ^ (width - 1)) then Some value else None.

Definition parseInt (s : string) (fallback : Z) : Z := default fallback (fromChars 32 (chars s)).

(** [a * b] of two [int]s: past the range the language defines nothing, and the machine wraps. *)
Definition mul32 (a b : Z) : Z := wrapSigned 32 (a * b).

(** [page] and [pageSize], clamped, as a limit and an offset. *)
Definition pagingOf (c : Context) (defaultSize maxSize : Z) : Z * Z :=
  let parameter name := requestParameter (theRequest c) name in
  let size := Z.max 1 (Z.min maxSize (parseInt (parameter "pageSize"%stdpp) defaultSize)) in
  let page := Z.max (parseInt (parameter "page"%stdpp) 1) 1 in
  (size, mul32 (page - 1) size).

(** ** Who is calling *)

Definition MISSING_FILTER : string := "this route is missing its authentication filter".

Definition requireClaims (c : Context) : Result AccessTokenClaims :=
  match authClaims c with Some claims => Success claims | None => failure Internal MISSING_FILTER end.

Definition actorOf (c : Context) : Result Actor :=
  let? claims := requireClaims c in Success (mkActor (claimUserId claims) (claimPermissions claims)).
End Responses.

(** Reading goes on where it gave a value. *)
Definition readThen {W A B} (r : Reading A) (k : A → Prog W (Result B)) : Prog W (Result B) :=
  match r with None => Raise | Some (Failure e) => mret (Failure e) | Some (Success a) => k a end.

Notation "'read!' x := r 'in' k" := (readThen r (λ x, k))
  (at level 200, x pattern, r at level 100, k at level 200) : launcher_scope.

Notation "'check!' x := r 'in' k" := (readThen (Some r) (λ x, k))
  (at level 200, x pattern, r at level 100, k at level 200) : launcher_scope.

Notation "'read?' x := r 'in' k" :=
  (match r with None => None | Some (Failure e) => Some (Failure e) | Some (Success x) => k end)
  (at level 200, x pattern, r at level 100, k at level 200) : launcher_scope.
