(* ===== verification/Wire.v ===== *)
(** What the routes show of the program's values: [src/controllers/v1/CatalogJson.cpp],
    [DownloadJson.cpp], [UploadJson.cpp] and [AuthController.cpp], and
    [src/controllers/admin/AdminJson.cpp].  Where both surfaces have a function of one name, the
    administrative one is called after the console here. *)

From S2P Require Import Prelude.
From S2P Require Import Errors.
From S2P Require Import Json.
From S2P Require Import Time.
From S2P Require Import Validation.
From S2P Require Import Actors.
From S2P Require Import Catalog.
From S2P Require Import Manifest.
From S2P Require Import Delta.
From S2P Require Import Media.
From S2P Require Import CrashReport.
From S2P Require Import PatchNote.
From S2P Require Import Programs.
From S2P Require Import World.
From S2P Require Import Accounts.
From S2P Require Import AuditLog.
From S2P Require Import AuthService.
From S2P Require Import Uploads.
From S2P Require Import CatalogRepositories.
From S2P Require Import ContentRepositories.
From S2P Require Import AdminRepositories.
From S2P Require Import CatalogService.
From S2P Require Import AdminUserService.
From S2P Require Import AnalyticsService.
From S2P Require Import CrashReportService.
From S2P Require Import UploadService.
From S2P Require Import DownloadService.

Section Wire.
Context {V : Type}.

(** The documents are objects, written one member at a time. *)
Notation Doc := (Json V).
#[local] Notation "k ~> v" := (pair k%stdpp v) (at level 65, no associativity).

(** ** The catalog *)

(** [mediaUrlFor], under the configured base. *)
Definition mediaUrlFor (base storageKey : string) : string :=
  if bool_decide (storageKey = ""%stdpp) then ""
  else Signer.withoutTrailingSlash base +:+ "/" +:+ storageKey.

Definition gameToJson (base : string) (g : Game) : Doc :=
  JObject ["id" ~> JText (gameId g); "slug" ~> JText (slug g); "title" ~> JText (title g); "summary" ~> JText (summary g);
    "description" ~> JText (description g); "releaseDate" ~> JText (releaseDate g);
    "visibility" ~> JText (GameVisibility_toString (visibility g)); "createdAt" ~> JText (gameCreatedAt g);
    "updatedAt" ~> JText (gameUpdatedAt g); "coverUrl" ~> JText (mediaUrlFor base (coverStorageKey g));
    "publisher" ~> JObject ["id" ~> JText (publisherUserId g); "displayName" ~> JText (publisherDisplayName g)]].

Definition mediaToJson (base : string) (m : GameMedia) : Doc :=
  JObject ["id" ~> JText (mediaId m); "gameId" ~> JText (mediaGameId m); "kind" ~> JText (MediaKind_toString (mediaKind m));
    "url" ~> JText (mediaUrlFor base (mediaStorageKey m)); "contentType" ~> JText (mediaContentType m);
    "sizeBytes" ~> JInt (mediaSizeBytes m); "altText" ~> JText (mediaAltText m); "sortOrder" ~> JInt (mediaSortOrder m);
    "createdAt" ~> JText (mediaCreatedAt m)].

Definition versionToJson (v : GameVersion) : Doc :=
  JObject ["id" ~> JText (versionId v); "gameId" ~> JText (versionGameId v); "semver" ~> JText (semver v);
    "stage" ~> JText (BuildStage_toString (stage v)); "releaseNotes" ~> JText (releaseNotes v);
    "publishedAt" ~> JText (publishedAt v); "published" ~> JBool (negb (bool_decide (publishedAt v = ""%stdpp)));
    "createdAt" ~> JText (versionCreatedAt v)].

Definition buildToJson (b : Build) : Doc :=
  JObject ["id" ~> JText (buildId b); "versionId" ~> JText (buildVersionId b); "name" ~> JText (buildName b);
    "platform" ~> JText (BuildPlatform_toString (platform b));
    "architecture" ~> JText (BuildArchitecture_toString (architecture b)); "status" ~> JText (BuildStatus_toString (status b));
    "manifestSha256" ~> JText (buildManifestSha256 b); "totalSizeBytes" ~> JInt (totalSizeBytes b);
    "fileCount" ~> JInt (fileCount b); "entrypoint" ~> JText (entrypointRelativePath b);
    "launchArgs" ~> JText (defaultLaunchArgs b); "createdAt" ~> JText (buildCreatedAt b); "readyAt" ~> JText (readyAt b)].

Definition patchNoteToJson (n : PatchNote) : Doc :=
  JObject ["id" ~> JText (noteId n); "gameId" ~> JText (noteGameId n); "versionId" ~> JText (noteGameVersionId n);
    "title" ~> JText (noteTitle n); "bodyMarkdown" ~> JText (bodyMarkdown n); "publishedAt" ~> JText (notePublishedAt n);
    "published" ~> JBool (published n); "createdAt" ~> JText (noteCreatedAt n); "updatedAt" ~> JText (noteUpdatedAt n);
    "author" ~> JObject ["id" ~> JText (authorUserId n); "displayName" ~> JText (authorDisplayName n)]].

(** A page of a listing of the public surface. *)
Definition pageToJson {A} (item : A → Doc) (items : list A) (total limit offset : Z) : Doc :=
  JObject ["items" ~> JArray (map item items); "total" ~> JInt total; "limit" ~> JInt limit; "offset" ~> JInt offset].

Definition patchNotePageToJson (p : PatchNotePage) (limit offset : Z) : Doc :=
  pageToJson patchNoteToJson (noteItems p) (noteTotal p) limit offset.

Definition gamePageToJson (base : string) (p : GamePage) (limit offset : Z) : Doc :=
  pageToJson (gameToJson base) (pageItems p) (pageTotal p) limit offset.

Definition gameDetailToJson (base : string) (d : GameDetail) : Doc :=
  JObject ["game" ~> gameToJson base (detailGame d); "inLibrary" ~> JBool (inLibrary d);
    "versions" ~> JArray (map versionToJson (detailVersions d)); "builds" ~> JArray (map buildToJson (detailBuilds d));
    "media" ~> JArray (map (mediaToJson base) (detailMedia d))].

(** ** Uploads and downloads *)

(** [toDatabaseValue] of a session. *)
Definition sessionStatusValue (s : UploadSessionStatus) : string :=
  match s with Pending => "pending" | Completed => "completed" | Aborted => "aborted" end.

Definition uploadSessionToJson (s : UploadSession) : Doc :=
  JObject ["id" ~> JText (uploadId s); "buildId" ~> JText (uploadBuildId s); "sha256" ~> JText (uploadSha256 s);
    "sizeBytes" ~> JInt (uploadDeclaredBytes s); "receivedBytes" ~> JInt (uploadReceivedBytes s);
    "status" ~> JText (sessionStatusValue (uploadStatus s)); "complete" ~> JBool (complete s)].

Definition entryMembers (e : ManifestEntry) : list (string * Doc) :=
  ["path" ~> JText (relativePath e); "sha256" ~> JText (blobSha256 e); "size" ~> JInt (sizeBytes e);
   "executable" ~> JBool (isExecutable e)].

Definition entryToJson (e : ManifestEntry) : Doc := JObject (entryMembers e).

Definition fileToJson (f : DownloadFile) : Doc :=
  JObject (entryMembers (downloadEntry f) ++ ["url" ~> JText (downloadUrl f)]
    ++ if bool_decide (downloadCopyFrom f = ""%stdpp) then [] else ["copyFrom" ~> JText (downloadCopyFrom f)]).

Definition downloadPlanToJson (p : DownloadPlan) : Doc :=
  JObject ["buildId" ~> JText (planBuildId p); "gameId" ~> JText (planGameId p); "versionId" ~> JText (planGameVersionId p);
    "kind" ~> JText (DownloadKind_toString (planKind p)); "manifestSha256" ~> JText (planManifestSha256 p);
    "entrypoint" ~> JText (planEntrypoint p); "launchArgs" ~> JText (planLaunchArgs p);
    "files" ~> JArray (map fileToJson (planFiles p)); "unchanged" ~> JArray (map entryToJson (planUnchanged p));
    "remove" ~> JTexts (planRemove p); "downloadBytes" ~> JInt (planDownloadBytes p); "totalBytes" ~> JInt (planTotalBytes p);
    "urlsExpireAt" ~> JText (formatUnixTimeUtc (planUrlsExpireAt p))].

Definition integrityReportToJson (r : IntegrityReport) : Doc :=
  JObject ["buildId" ~> JText (reportBuildId r); "manifestSha256" ~> JText (reportManifestSha256 r);
    "intact" ~> JBool (intact r); "missing" ~> JTexts (missing r); "corrupt" ~> JTexts (corrupt r);
    "unexpected" ~> JTexts (unexpected r); "repair" ~> JArray (map fileToJson (repair r)); "repairBytes" ~> JInt (repairBytes r);
    "urlsExpireAt" ~> JText (formatUnixTimeUtc (reportUrlsExpireAt r))].

(** ** Accounts *)

Definition accountToJson (u : User) : Doc :=
  JObject ["id" ~> JText (accountId u); "email" ~> JText (accountEmail u); "displayName" ~> JText (accountDisplayName u);
    "emailVerified" ~> JBool (emailVerified u); "passwordChangeRequired" ~> JBool (mustChangePassword u);
    "uploadQuotaBytes" ~> JInt (quotaBytes u); "uploadUsedBytes" ~> JInt (usedBytes u)].

Definition sessionToJson (t : AuthTokens) : Doc :=
  JObject ["accessToken" ~> JText (accessToken t); "refreshToken" ~> JText (refreshToken t); "tokenType" ~> JText "Bearer";
    "expiresIn" ~> JInt (accessTokenExpiresIn t); "user" ~> accountToJson (tokensUser t);
    "permissions" ~> JTexts (tokensPermissions t)].

(** What both surfaces say of the caller: the claims of its token. *)
Definition claimsToJson (c : AccessTokenClaims) : Doc :=
  JObject ["id" ~> JText (claimUserId c); "email" ~> JText (claimEmail c); "permissions" ~> JTexts (claimPermissions c)].

(** ** The console *)

Definition consoleSessionToJson (t : AuthTokens) : Doc :=
  JObject ["accessToken" ~> JText (accessToken t); "refreshToken" ~> JText (refreshToken t); "tokenType" ~> JText "Bearer";
    "expiresIn" ~> JInt (accessTokenExpiresIn t); "permissions" ~> JTexts (tokensPermissions t);
    "operator" ~> JObject ["id" ~> JText (accountId (tokensUser t)); "email" ~> JText (accountEmail (tokensUser t));
      "displayName" ~> JText (accountDisplayName (tokensUser t))]].

Definition consoleUserToJson (s : AdminUserSummary) : Doc :=
  let u := summaryUser s in
  JObject ["id" ~> JText (accountId u); "email" ~> JText (accountEmail u); "displayName" ~> JText (accountDisplayName u);
    "emailVerified" ~> JBool (emailVerified u); "active" ~> JBool (accountActive u);
    "passwordChangeRequired" ~> JBool (mustChangePassword u); "uploadQuotaBytes" ~> JInt (quotaBytes u);
    "uploadUsedBytes" ~> JInt (usedBytes u); "createdAt" ~> JText (summaryCreatedAt s);
    "lastLoginAt" ~> JText (summaryLastLoginAt s); "roles" ~> JTexts (summaryRoles s)].

(** A page of a listing of the console: the number of the page, from one. *)
Definition consolePageToJson {A} (item : A → Doc) (items : list A) (total limit offset : Z) : Doc :=
  JObject ["items" ~> JArray (map item items); "total" ~> JInt total; "pageSize" ~> JInt limit;
    "page" ~> JInt (if 0 <? limit then Z.quot offset limit + 1 else 1)].

Definition userPageToJson (p : AdminUserPage) (limit offset : Z) : Doc :=
  consolePageToJson consoleUserToJson (userItems p) (userTotal p) limit offset.

Definition roleToJson (r : Role) : Doc :=
  JObject ["key" ~> JText (roleKey r); "description" ~> JText (roleDescription r)].

Definition downloadReportToJson (r : DownloadReport) : Doc :=
  let t := totals r in
  JObject ["days" ~> JInt (reportDays r);
    "totals" ~> JObject ["downloads" ~> JInt (totalDownloads t); "distinctUsers" ~> JInt (totalDistinctUsers t);
      "bytesPlanned" ~> JInt (totalBytesPlanned t); "fullDownloads" ~> JInt (fullDownloads t);
      "deltaDownloads" ~> JInt (deltaDownloads t)];
    "daily" ~> JArray (map (λ d, JObject ["day" ~> JText (day d); "downloads" ~> JInt (dayDownloads d);
      "bytesPlanned" ~> JInt (dayBytesPlanned d)]) (daily r));
    "topGames" ~> JArray (map (λ g, JObject ["gameId" ~> JText (downloadedGameId g); "slug" ~> JText (downloadedSlug g);
      "title" ~> JText (downloadedTitle g); "downloads" ~> JInt (gameDownloads g); "bytesPlanned" ~> JInt (gameBytesPlanned g);
      "distinctUsers" ~> JInt (gameDistinctUsers g)]) (topGames r))].

Definition crashGroupToJson (g : CrashGroup) : Doc :=
  JObject ["fingerprint" ~> JText (groupFingerprint g); "exceptionType" ~> JText (groupExceptionType g);
    "message" ~> JText (groupMessage g); "occurrences" ~> JInt (occurrences g); "firstSeenAt" ~> JText (firstSeenAt g);
    "lastSeenAt" ~> JText (lastSeenAt g); "latestReportId" ~> JText (latestReportId g)].

Definition crashGroupPageToJson (p : CrashGroupPage) (limit offset : Z) : Doc :=
  consolePageToJson crashGroupToJson (groupItems p) (groupTotal p) limit offset.

Definition crashReportToJson (r : CrashReportService.CrashReport) : Doc :=
  let sent := crashReported r in
  JObject ["id" ~> JText (crashId r); "kind" ~> JText (crashKind sent); "occurredAt" ~> JText (occurredAt sent);
    "receivedAt" ~> JText (receivedAt r); "launcherVersion" ~> JText (launcherVersion sent);
    "platform" ~> JText (crashPlatform sent); "exceptionType" ~> JText (exceptionType sent);
    "message" ~> JText (crashMessage sent); "stackTrace" ~> JText (stackTrace sent); "fingerprint" ~> JText (fingerprint r)].

Definition crashPageToJson (p : CrashPage) (limit offset : Z) : Doc :=
  consolePageToJson crashReportToJson (crashItems p) (crashTotal p) limit offset.
End Wire.

(** Stored metadata is shown as what it was, where it still reads as an object. *)
Section Audit.
Context `{Jsoncpp}.

Definition parseMetadata (stored : string) : Json Value :=
  match readJson stored with Some v => if isObject v then JParsed v else JObject [] | None => JObject [] end.

Definition auditEntryToJson (e : AuditEntry) : Json Value :=
  JObject [("id"%stdpp, JInt (auditId e)); ("actorUserId"%stdpp, JText (entryActorUserId e));
    ("actorEmail"%stdpp, JText (entryActorEmail e)); ("action"%stdpp, JText (entryAction e));
    ("entityType"%stdpp, JText (entryEntityType e)); ("entityId"%stdpp, JText (entryEntityId e));
    ("metadata"%stdpp, parseMetadata (entryMetadataJson e)); ("createdAt"%stdpp, JText (entryCreatedAt e))].

Definition auditPageToJson (p : AuditPage) (limit offset : Z) : Json Value :=
  consolePageToJson auditEntryToJson (auditItems p) (auditTotal p) limit offset.
End Audit.
