(* ===== verification/Controllers.v ===== *)
(** The public routes: [src/controllers/v1/*.cpp].  A controller reads what was sent, calls one
    service and shows its answer; what it refuses itself, and what the service refuses, is an
    [ApiException]. *)

From S2P Require Import Prelude.
From S2P Require Import Errors.
From S2P Require Import Json.
From S2P Require Import Validation.
From S2P Require Import Actors.
From S2P Require Import Catalog.
From S2P Require Import Manifest.
From S2P Require Import Delta.
From S2P Require Import Media.
From S2P Require Import LauncherRelease.
From S2P Require Import Hash.
From S2P Require Import CrashReport.
From S2P Require Import PatchNote.
From S2P Require Import ClientAddress.
From S2P Require Import BlobStore.
From S2P Require Import Signer.
From S2P Require Import Signature.
From S2P Require Import Programs.
From S2P Require Import Random.
From S2P Require Import World.
From S2P Require Import Accounts.
From S2P Require Import MailTemplates.
From S2P Require Import AuthService.
From S2P Require Import JwtTokenService.
From S2P Require Import Config.
From S2P Require Import Releases.
From S2P Require Import Uploads.
From S2P Require Import CatalogRepositories.
From S2P Require Import ContentRepositories.
From S2P Require Import CatalogService.
From S2P Require Import AdminUserService.
From S2P Require Import CrashReportService.
From S2P Require Import PatchNoteService.
From S2P Require Import MediaService.
From S2P Require Import UploadService.
From S2P Require Import DownloadService.
From S2P Require Import System.
From S2P Require Import AppContext.
From S2P Require Import Http.
From S2P Require Import Wire.

(** [fail(result.error())], or the answer shown. *)
Definition shown `{Jsoncpp} {W A} (p : Prog W (Result A)) (show : A → HttpResponse) : Prog W (Result HttpResponse) :=
  try? a := p in mret (Success (show a)).

Section Controllers.
Context `{Jsoncpp, Sodium, PasswordHasher, Evp, Md5, Postgres, MailSender, TokenService, Disk}.
Variable config : AppConfig.

Let site : Deployment := deploymentOf config.
Let mediaBase : string := mediaBaseUrl (mediaConfig config).

Notation Handler := (Prog World (Result HttpResponse)) (only parsing).

(** A document that says one thing. *)
Definition statusDocument (said : string) : Json Value := JObject [("status"%stdpp, JText said)].

Definition clientAddressOf (c : Context) : string :=
  resolveClientAddress (requestPeer (theRequest c)) (requestHeader (theRequest c) "X-Forwarded-For"%stdpp)
    (trustedProxies (serverConfig config)).

Definition clientContextOf (c : Context) : ClientContext :=
  mkClient (requestHeader (theRequest c) "User-Agent"%stdpp) (clientAddressOf c).

(** ** AuthController *)

Definition AuthController_registerUser (c : Context) : Handler :=
  check! body := requireJsonObject c in
  read! email := requireString body "email" rules.EMAIL_REQUIRED in
  read! password := requireString body "password" rules.PASSWORD_REQUIRED in
  read! name := requireString body "displayName" rules.DISPLAY_NAME_REQUIRED in
  shown (registerUser (authSettings site) (mkRegister email password name)) (λ registration,
    jsonResponse c 201 (JObject
      [("user"%stdpp, accountToJson (registeredUser registration));
       ("emailVerificationRequired"%stdpp, JBool (configRequireVerifiedEmail (authConfig config)));
       ("verificationEmailSent"%stdpp, JBool (verificationEmailSent registration))])).

Definition AuthController_login (c : Context) : Handler :=
  check! body := requireJsonObject c in
  read! email := requireString body "email" rules.EMAIL_REQUIRED in
  read! password := requireString body "password" rules.PASSWORD_REQUIRED in
  shown (login (authSettings site) email password (clientContextOf c)) (λ tokens, jsonResponse c 200 (sessionToJson tokens)).

Definition AuthController_refresh (c : Context) : Handler :=
  check! body := requireJsonObject c in
  read! token := requireString body "refreshToken" "" in
  shown (refresh (authSettings site) token (clientContextOf c)) (λ tokens, jsonResponse c 200 (sessionToJson tokens)).

(** What the service answers is not looked at. *)
Definition AuthController_logout (c : Context) : Handler :=
  check! body := requireJsonObject c in
  read! token := requireString body "refreshToken" "" in
  _ ← logout token;
  mret (Success (jsonResponse c 200 (statusDocument "signed out"))).

Definition AuthController_verifyEmail (c : Context) : Handler :=
  check! body := requireJsonObject c in
  read! token := requireString body "token" "" in
  shown (verifyEmail token) (λ _, jsonResponse c 200 (statusDocument "verified")).

Definition AuthController_requestPasswordReset (c : Context) : Handler :=
  check! body := requireJsonObject c in
  read! email := requireString body "email" rules.EMAIL_REQUIRED in
  shown (requestPasswordReset (authSettings site) email)
    (λ _, jsonResponse c 200 (statusDocument "if that address is registered, a reset link has been sent")).

Definition AuthController_resendVerification (c : Context) : Handler :=
  check! body := requireJsonObject c in
  read! email := requireString body "email" rules.EMAIL_REQUIRED in
  shown (resendVerification (authSettings site) email)
    (λ _, jsonResponse c 200 (statusDocument "if that address needs confirming, a new link has been sent")).

Definition AuthController_confirmPasswordReset (c : Context) : Handler :=
  check! body := requireJsonObject c in
  read! token := requireString body "token" "" in
  read! password := requireString body "password" rules.PASSWORD_REQUIRED in
  shown (resetPassword token password) (λ _, jsonResponse c 200 (statusDocument "password updated")).

Definition AuthController_changePassword (c : Context) : Handler :=
  check! body := requireJsonObject c in
  read! current := requireString body "currentPassword" rules.PASSWORD_REQUIRED in
  read! replacement := requireString body "newPassword" rules.PASSWORD_REQUIRED in
  check! claims := requireClaims c in
  shown (changePassword (authSettings site) (claimUserId claims) current replacement (clientContextOf c))
    (λ tokens, jsonResponse c 200 (sessionToJson tokens)).

Definition AuthController_currentUser (c : Context) : Handler :=
  check! claims := requireClaims c in mret (Success (jsonResponse c 200 (claimsToJson claims))).

(** ** AccountController *)

Definition AccountController_requestErasure (c : Context) : Handler :=
  check! body := requireJsonObject c in
  read! password := requireString body "password" rules.PASSWORD_REQUIRED in
  read! reason := optionalString body "reason" "" in
  check! actor := actorOf c in
  shown (eraseAccount actor (mkErase password reason)) (λ _, noContentResponse c).

(** ** GameController *)

Definition VISIBILITY_VALUES : string := "draft, unlisted, public".
Definition STAGE_VALUES : string := "demo, alpha, beta, release".
Definition PLATFORM_VALUES : string := "windows, linux, macos".
Definition ARCHITECTURE_VALUES : string := "x64, arm64".

Definition requireEnum {T} (body : Value) (field : string) (parse : string → option T) (accepted : string)
    : option (Result T) :=
  read? value := requireString body field "" in
  Some (match parse value with
        | Some parsed => Success parsed
        | None => failure InvalidInput (field +:+ " must be one of: " +:+ accepted)
        end).

Definition optionalEnum {T} (body : Value) (field : string) (parse : string → option T) (accepted : string) (fallback : T)
    : option (Result T) :=
  present ← isMember body field;
  if negb present then Some (Success fallback) else requireEnum body field parse accepted.

Definition gameQueryOf (c : Context) : GameQuery :=
  let parameter name := requestParameter (theRequest c) name in
  let sort := parameter "sort"%stdpp in
  let '(limit, offset) := pagingOf c DEFAULT_GAME_PAGE_SIZE MAX_GAME_PAGE_SIZE in
  mkGameQuery (parameter "search"%stdpp)
    (if bool_decide (sort = "title"%stdpp) then SortTitle
     else if bool_decide (sort = "recent"%stdpp) then SortRecentlyAdded else SortReleaseDate)
    limit offset "" false.

Definition GameController_explore (c : Context) : Handler :=
  let q := gameQueryOf c in
  check! actor := actorOf c in
  shown (explore actor q) (λ page, jsonResponse c 200 (gamePageToJson mediaBase page (queryLimit q) (queryOffset q))).

Definition GameController_myGames (c : Context) : Handler :=
  let q := gameQueryOf c in
  check! actor := actorOf c in
  shown (publishedByActor actor q)
    (λ page, jsonResponse c 200 (gamePageToJson mediaBase page (queryLimit q) (queryOffset q))).

Definition GameController_createGame (c : Context) : Handler :=
  check! body := requireJsonObject c in
  read! title := requireString body "title" rules.TITLE_REQUIRED in
  read! slug := optionalString body "slug" "" in
  read! summary := optionalString body "summary" "" in
  read! description := optionalString body "description" "" in
  read! releaseDate := optionalString body "releaseDate" "" in
  read! visibility := optionalEnum body "visibility" parseGameVisibility VISIBILITY_VALUES Draft in
  check! actor := actorOf c in
  shown (createGame actor (mkCreateGame title slug summary description releaseDate visibility))
    (λ game, jsonResponse c 201 (gameToJson mediaBase game)).

Definition GameController_gameDetail (c : Context) (idOrSlug : string) : Handler :=
  check! actor := actorOf c in
  shown (gameDetail actor idOrSlug) (λ detail, jsonResponse c 200 (gameDetailToJson mediaBase detail)).

(** The fields of a PATCH on a game. *)
Definition gameUpdateOf (body : Value) : option (Result GameUpdate) :=
  read? title := patched body "title" (requireString body "title" rules.TITLE_REQUIRED) in
  read? summary := patched body "summary" (optionalString body "summary" "") in
  read? description := patched body "description" (optionalString body "description" "") in
  read? releaseDate := patched body "releaseDate" (optionalString body "releaseDate" "") in
  read? visibility := patched body "visibility" (requireEnum body "visibility" parseGameVisibility VISIBILITY_VALUES) in
  Some (Success (mkGameUpdate title summary description releaseDate visibility)).

Definition GameController_updateGame (c : Context) (idOrSlug : string) : Handler :=
  check! body := requireJsonObject c in
  read! changes := gameUpdateOf body in
  check! actor := actorOf c in
  shown (updateGame actor idOrSlug changes) (λ game, jsonResponse c 200 (gameToJson mediaBase game)).

Definition GameController_deleteGame (c : Context) (idOrSlug : string) : Handler :=
  check! actor := actorOf c in
  shown (deleteGame actor idOrSlug) (λ _, noContentResponse c).

Definition GameController_createVersion (c : Context) (idOrSlug : string) : Handler :=
  check! body := requireJsonObject c in
  read! number := requireString body "semver" rules.VERSION_REQUIRED in
  read! notes := optionalString body "releaseNotes" "" in
  read! publish := optionalBool body "publish" false in
  read! stage := optionalEnum body "stage" parseBuildStage STAGE_VALUES Release in
  check! actor := actorOf c in
  shown (createVersion actor idOrSlug (mkCreateVersion number stage notes publish))
    (λ version, jsonResponse c 201 (versionToJson version)).

Definition GameController_createBuild (c : Context) (idOrSlug version : string) : Handler :=
  check! body := requireJsonObject c in
  read! name := optionalString body "name" "" in
  read! platform := requireEnum body "platform" parseBuildPlatform PLATFORM_VALUES in
  read! architecture := optionalEnum body "architecture" parseBuildArchitecture ARCHITECTURE_VALUES X64 in
  check! actor := actorOf c in
  shown (createBuild actor idOrSlug (mkCreateBuild version name platform architecture))
    (λ build, jsonResponse c 201 (buildToJson build)).

(** [published] must be a bool where it is sent. *)
Definition publishedOf (body : Value) : option (Result bool) :=
  if isBool (member body "published"%stdpp) then Success <$> asBool (member body "published"%stdpp)
  else Some (failure InvalidInput "published must be true or false").

Definition versionUpdateOf (body : Value) : option (Result GameVersionUpdate) :=
  read? stage := patched body "stage" (requireEnum body "stage" parseBuildStage STAGE_VALUES) in
  read? notes := patched body "releaseNotes" (optionalString body "releaseNotes" "") in
  read? publish := patched body "published" (publishedOf body) in
  Some (Success (mkVersionUpdate stage notes publish)).

Definition GameController_updateVersion (c : Context) (idOrSlug version : string) : Handler :=
  check! body := requireJsonObject c in
  read! changes := versionUpdateOf body in
  check! actor := actorOf c in
  shown (updateVersion actor idOrSlug version changes) (λ version, jsonResponse c 200 (versionToJson version)).

Definition GameController_deleteVersion (c : Context) (idOrSlug version : string) : Handler :=
  check! actor := actorOf c in
  shown (deleteVersion actor idOrSlug version) (λ _, noContentResponse c).

(** ** LibraryController *)

Definition LibraryController_list (c : Context) : Handler :=
  check! actor := actorOf c in
  shown (library actor) (λ games, jsonResponse c 200 (JObject
    [("items"%stdpp, JArray (map (gameToJson mediaBase) games)); ("total"%stdpp, JInt (Z.of_nat (length games)))])).

Definition LibraryController_add (c : Context) (idOrSlug : string) : Handler :=
  check! actor := actorOf c in
  shown (addToLibrary actor idOrSlug) (λ _, jsonResponse c 200 (statusDocument "added")).

Definition LibraryController_remove (c : Context) (game : string) : Handler :=
  check! actor := actorOf c in
  shown (removeFromLibrary actor game) (λ _, jsonResponse c 200 (statusDocument "removed")).

(** ** PatchNoteController *)

Definition PatchNoteController_listForGame (c : Context) (idOrSlug : string) : Handler :=
  let '(limit, offset) := pagingOf c DEFAULT_PATCH_NOTE_PAGE_SIZE MAX_PATCH_NOTE_PAGE_SIZE in
  check! actor := actorOf c in
  shown (listNotes actor idOrSlug limit offset)
    (λ listing, jsonResponse c 200 (patchNotePageToJson listing limit offset)).

Definition PatchNoteController_create (c : Context) (idOrSlug : string) : Handler :=
  check! body := requireJsonObject c in
  read! title := requireString body "title" rules.PATCH_NOTE_TITLE_REQUIRED in
  read! markdown := optionalString body "bodyMarkdown" "" in
  read! version := optionalString body "versionId" "" in
  read! publish := optionalBool body "publish" false in
  check! actor := actorOf c in
  shown (createNote actor idOrSlug (mkCreateNote title markdown version publish))
    (λ note, jsonResponse c 201 (patchNoteToJson note)).

Definition noteUpdateOf (body : Value) : option (Result PatchNoteUpdate) :=
  read? title := patched body "title" (requireString body "title" rules.PATCH_NOTE_TITLE_REQUIRED) in
  read? markdown := patched body "bodyMarkdown" (optionalString body "bodyMarkdown" "") in
  read? version := patched body "versionId" (optionalString body "versionId" "") in
  read? publish := patched body "published" (optionalBool body "published" false) in
  Some (Success (mkNoteUpdate title markdown version publish)).

Definition PatchNoteController_update (c : Context) (id : string) : Handler :=
  check! body := requireJsonObject c in
  read! changes := noteUpdateOf body in
  check! actor := actorOf c in
  shown (updateNote actor id changes) (λ note, jsonResponse c 200 (patchNoteToJson note)).

Definition PatchNoteController_remove (c : Context) (id : string) : Handler :=
  check! actor := actorOf c in
  shown (removeNote actor id) (λ _, noContentResponse c).

(** ** MediaController *)

Definition KIND_VALUES : string := "cover, banner, logo, screenshot, video".

Definition requireKind (c : Context) : Result MediaKind :=
  let kind := requestParameter (theRequest c) "kind"%stdpp in
  if bool_decide (kind = ""%stdpp) then failure InvalidInput ("a kind query parameter is required, one of: " +:+ KIND_VALUES)
  else
    match parseMediaKind kind with
    | Some parsed => Success parsed
    | None => failure InvalidInput ("kind must be one of: " +:+ KIND_VALUES)
    end.

Definition optionalSortOrder (c : Context) : Result Z :=
  let given := requestParameter (theRequest c) "sortOrder"%stdpp in
  if bool_decide (given = ""%stdpp) then Success 0
  else
    match fromChars 32 (chars given) with
    | Some value => Success value
    | None => failure InvalidInput "sortOrder must be a whole number"
    end.

Definition MediaController_listForGame (c : Context) (idOrSlug : string) : Handler :=
  check! actor := actorOf c in
  shown (listMedia actor idOrSlug)
    (λ listing, jsonResponse c 200 (JObject [("items"%stdpp, JArray (map (mediaToJson mediaBase) listing))])).

Definition MediaController_upload (c : Context) (idOrSlug : string) : Handler :=
  check! kind := requireKind c in
  check! order := optionalSortOrder c in
  check! actor := actorOf c in
  shown (uploadMedia (mediaLimits site) actor idOrSlug
          (mkUploadMedia kind (requestParameter (theRequest c) "altText"%stdpp) order (requestBody (theRequest c))))
    (λ created, jsonResponse c 201 (mediaToJson mediaBase created)).

(** [static_cast<int>] keeps the low bits of the order. *)
Definition mediaUpdateOf (body : Value) : option (Result GameMediaUpdate) :=
  read? alt := patched body "altText" (optionalString body "altText" "") in
  read? order := patched body "sortOrder"
    (fmap (M := option) (λ r : Result Z, let? z := r in Success (wrapSigned 32 z)) (requireInt64 body "sortOrder")) in
  Some (Success (mkMediaUpdate alt order)).

Definition MediaController_update (c : Context) (id : string) : Handler :=
  check! body := requireJsonObject c in
  read! changes := mediaUpdateOf body in
  check! actor := actorOf c in
  shown (updateMedia actor id changes) (λ item, jsonResponse c 200 (mediaToJson mediaBase item)).

Definition MediaController_remove (c : Context) (id : string) : Handler :=
  check! actor := actorOf c in
  shown (removeMedia actor id) (λ _, noContentResponse c).

(** ** BuildController *)

Definition requireArray (body : Value) (field : string) : option (Result (list Value)) :=
  present ← isMember body field;
  if negb present || negb (isArray (member body field)) then
    Some (failure InvalidInput (field +:+ " is required and must be an array"))
  else Some (Success (elements (member body field))).

(** Each element an object, read in turn. *)
Fixpoint readEach {T} (field : string) (read : Value → option (Result T)) (l : list Value) : option (Result (list T)) :=
  match l with
  | [] => Some (Success [])
  | element :: rest =>
      if negb (isObject element) then Some (failure InvalidInput (field +:+ " must contain objects"))
      else
        read? entry := read element in
        read? entries := readEach field read rest in
        Some (Success (entry :: entries))
  end.

Definition readDeclaration (entry : Value) : option (Result BlobDeclaration) :=
  read? sha := requireString entry "sha256" "" in
  read? bytes := requireInt64 entry "size" in
  Some (Success (mkDeclaration sha bytes)).

Definition readDeclarations (body : Value) : option (Result (list BlobDeclaration)) :=
  read? blobs := requireArray body "blobs" in readEach "blobs" readDeclaration blobs.

(** The size of an entry is that of its blob, and not read. *)
Definition readManifestFile (entry : Value) : option (Result ManifestEntry) :=
  read? path := requireString entry "path" "" in
  read? sha := requireString entry "sha256" "" in
  read? executable := optionalBool entry "executable" false in
  Some (Success (mkEntry path sha 0 executable)).

Definition readManifestFiles (body : Value) : option (Result (list ManifestEntry)) :=
  read? files := requireArray body "files" in readEach "files" readManifestFile files.

Definition BuildController_missingBlobs (c : Context) (id : string) : Handler :=
  check! body := requireJsonObject c in
  check! actor := actorOf c in
  read! declarations := readDeclarations body in
  shown (missingBlobs (uploadSettings site) actor id declarations)
    (λ missing, jsonResponse c 200 (JObject [("missing"%stdpp, JTexts missing)])).

Definition uploadOffset (s : UploadSession) (r : HttpResponse) : HttpResponse :=
  addHeader "Upload-Offset" (toDecimal (uploadReceivedBytes s)) r.

Definition BuildController_beginUpload (c : Context) (id : string) : Handler :=
  check! body := requireJsonObject c in
  read! blob := readDeclaration body in
  check! actor := actorOf c in
  shown (beginUpload (uploadSettings site) actor id blob) (λ session,
    addHeader "Location" ("/api/v1/uploads/" +:+ uploadId session)
      (uploadOffset session (jsonResponse c 201 (uploadSessionToJson session)))).

Definition BuildController_finalize (c : Context) (id : string) : Handler :=
  check! body := requireJsonObject c in
  read! files := readManifestFiles body in
  read! entrypoint := requireString body "entrypoint" "" in
  read! args := optionalString body "launchArgs" "" in
  check! actor := actorOf c in
  shown (finalizeBuild actor id (mkFinalize files entrypoint args)) (λ build, jsonResponse c 200 (buildToJson build)).

(** Not written again: the bytes the hash is of. *)
Definition BuildController_manifest (c : Context) (id : string) : Handler :=
  check! actor := actorOf c in
  shown (manifest actor id) (λ document,
    withRequestId (requestId c) (addHeader "X-Manifest-Sha256" (documentSha256 document)
      (mkResponse 200 ∅ (BytesContent "application/json" (documentJson document))))).

Definition BuildController_remove (c : Context) (id : string) : Handler :=
  check! actor := actorOf c in
  shown (deleteBuild actor id) (λ _, noContentResponse c).

(** ** UploadController *)

Definition MISSING_OFFSET : string :=
  "an Upload-Offset header is required; GET this session to find the offset to resume from".

Definition requireUploadOffset (c : Context) : Result Z :=
  let given := requestHeader (theRequest c) "Upload-Offset"%stdpp in
  if bool_decide (given = ""%stdpp) then failure InvalidInput MISSING_OFFSET
  else
    match fromChars 64 (chars given) with
    | Some offset =>
        if offset <? 0 then failure InvalidInput "Upload-Offset must be a non-negative whole number of bytes"
        else Success offset
    | None => failure InvalidInput "Upload-Offset must be a non-negative whole number of bytes"
    end.

Definition sessionResponse (c : Context) (session : UploadSession) : HttpResponse :=
  uploadOffset session (jsonResponse c 200 (uploadSessionToJson session)).

Definition UploadController_status (c : Context) (id : string) : Handler :=
  check! actor := actorOf c in
  shown (sessionStatus actor id) (sessionResponse c).

Definition UploadController_uploadChunk (c : Context) (id : string) : Handler :=
  check! offset := requireUploadOffset c in
  check! actor := actorOf c in
  shown (uploadChunk (uploadSettings site) actor id offset (requestBody (theRequest c))) (sessionResponse c).

Definition UploadController_abort (c : Context) (id : string) : Handler :=
  check! actor := actorOf c in
  shown (abortUpload actor id) (λ _, jsonResponse c 200 (statusDocument "aborted")).

(** ** DownloadController *)

Definition readInstalledFile (entry : Value) : option (Result InstalledFile) :=
  read? path := requireString entry "path" "" in
  read? sha := requireString entry "sha256" "" in
  Some (Success (mkInstalled path sha)).

Definition readInstalledFiles (body : Value) : option (Result (list InstalledFile)) :=
  read? files := requireArray body "files" in readEach "files" readInstalledFile files.

Definition DownloadController_plan (emptyObject : Value) (c : Context) (id : string) : Handler :=
  check! body := optionalJsonObject emptyObject c in
  check! actor := actorOf c in
  read! from := optionalString body "fromBuildId" "" in
  shown (plan (signer site) (downloadSettings site) actor id from) (λ planned, jsonResponse c 200 (downloadPlanToJson planned)).

Definition DownloadController_verify (c : Context) (id : string) : Handler :=
  check! body := requireJsonObject c in
  check! actor := actorOf c in
  read! installed := readInstalledFiles body in
  shown (verifyInstall (signer site) actor id installed) (λ report, jsonResponse c 200 (integrityReportToJson report)).

(** ** CrashReportController *)

Definition CrashReportController_submit (c : Context) : Handler :=
  check! body := requireJsonObject c in
  read! kind := requireString body "kind" "" in
  read! at_ := requireString body "occurredAt" "" in
  read! version := optionalString body "launcherVersion" "" in
  read! platform := optionalString body "platform" "" in
  read! exception := optionalString body "exceptionType" "" in
  read! message := optionalString body "message" "" in
  read! stack := optionalString body "stackTrace" "" in
  shown (submitCrash (mkCrashReport kind at_ version platform exception message stack))
    (λ stored, jsonResponse c 202 (JObject [("fingerprint"%stdpp, JText (fingerprint stored))])).

(** ** CapabilitiesController *)

Definition MAX_AGE : string := "public, max-age=60".

Definition capabilitiesDocument (version : string) : Json Value :=
  let uploads := uploadConfig config in
  let media := mediaConfig config in
  JObject
    [("apiVersion"%stdpp, JText "v1"); ("serverVersion"%stdpp, JText version);
     ("uploads"%stdpp, JObject
       [("maxChunkBytes"%stdpp, JInt (uploadMaxChunkBytes uploads)); ("maxBlobBytes"%stdpp, JInt (uploadMaxBlobBytes uploads));
        ("maxOpenSessionsPerUser"%stdpp, JInt (uploadMaxOpenSessions uploads));
        ("sessionTtlSeconds"%stdpp, JInt (sessionTtlSeconds uploads));
        ("defaultQuotaBytes"%stdpp, JInt (defaultQuotaBytes uploads))]);
     ("manifest"%stdpp, JObject
       [("maxPathLength"%stdpp, JInt MAX_RELATIVE_PATH_LENGTH); ("maxFiles"%stdpp, JInt MAX_MANIFEST_ENTRIES)]);
     ("media"%stdpp, JObject
       [("maxBytes"%stdpp, JInt (mediaMaxBytes media)); ("maxScreenshotsPerGame"%stdpp, JInt MAX_SCREENSHOTS_PER_GAME);
        ("maxAltTextLength"%stdpp, JInt MAX_ALT_TEXT_LENGTH);
        ("contentTypes"%stdpp, JTexts (map contentTypeOfImage [Png; Jpeg; WebP]));
        ("maxVideoBytes"%stdpp, JInt (mediaMaxVideoBytes media)); ("maxVideosPerGame"%stdpp, JInt MAX_VIDEOS_PER_GAME);
        ("videoContentTypes"%stdpp, JTexts (map contentTypeOfVideo [Mp4; WebM]))]);
     ("catalog"%stdpp, JObject
       [("maxPageSize"%stdpp, JInt MAX_GAME_PAGE_SIZE); ("defaultPageSize"%stdpp, JInt DEFAULT_GAME_PAGE_SIZE);
        ("maxPatchNotePageSize"%stdpp, JInt MAX_PATCH_NOTE_PAGE_SIZE)]);
     ("crashReports"%stdpp, JObject
       [("enabled"%stdpp, JBool (crashReportsEnabled (crashReportConfig config)));
        ("maxMessageLength"%stdpp, JInt MAX_CRASH_MESSAGE_LENGTH); ("maxStackLength"%stdpp, JInt MAX_CRASH_STACK_LENGTH)]);
     ("mail"%stdpp, JObject [("enabled"%stdpp, JBool (mailConfigured (mailConfig config)))]);
     ("updates"%stdpp, JObject [("fullDownloadThresholdRatio"%stdpp, JReal (thresholdRatio (updateConfig config)))]);
     ("launcherReleases"%stdpp, JObject
       [("enabled"%stdpp, JBool (releasesConfigured (launcherReleaseConfig config)));
        ("channels"%stdpp, JTexts (map nameForChannel [StableChannel; BetaChannel]))])].

(** The order is that of the code: the age, then the id. *)
Definition CapabilitiesController_capabilities (version : string) (c : Context) : HttpResponse :=
  withRequestId (requestId c) (addHeader "Cache-Control" MAX_AGE (mkResponse 200 ∅ (JsonContent (capabilitiesDocument version)))).

(** ** HealthController *)

Definition HealthController_liveness (version : string) (c : Context) : HttpResponse :=
  withRequestId (requestId c) (mkResponse 200 ∅ (JsonContent (JObject
    [("status"%stdpp, JText "ok"); ("version"%stdpp, JText version); ("environment"%stdpp, JText (environment config))]))).

(** [SELECT 1], answered. *)
Definition HealthController_readiness (c : Context) : Handler :=
  _ ← query (λ _ : World, tt);
  mret (Success (withRequestId (requestId c) (mkResponse 200 ∅ (JsonContent (JObject
    [("status"%stdpp, JText "ready"); ("database"%stdpp, JText "up")]))))).
End Controllers.

(** ** LauncherController *)

Section LauncherController.
Context `{Jsoncpp, Openssl, Postgres}.
Variable config : AppConfig.

Definition releaseQueryFrom (c : Context) : Result ReleaseQuery :=
  let parameter name := requestParameter (theRequest c) name in
  let channel := parameter "channel"%stdpp in
  let? channel := (if bool_decide (channel = ""%stdpp) then Success StableChannel
                   else match parseReleaseChannel channel with
                        | Some parsed => Success parsed
                        | None => failure InvalidInput "channel must be 'stable' or 'beta'"
                        end) in
  match parseReleasePlatform (parameter "platform"%stdpp) with
  | None => failure InvalidInput "platform is required and must be 'windows', 'linux' or 'macos'"
  | Some platform =>
      match parseReleaseArch (parameter "arch"%stdpp) with
      | None => failure InvalidInput "arch is required and must be 'x64' or 'arm64'"
      | Some arch => Success (mkReleaseQuery channel platform arch)
      end
  end.

Definition LauncherController_latest (c : Context) : Prog ReleaseWorld (Result HttpResponse) :=
  check! asked := releaseQueryFrom c in
  shown (latestRelease (releaseSettingsOf config) asked) (λ found,
    addHeader "Cache-Control" MAX_AGE (jsonResponse c 200 (JObject
      [("document"%stdpp, JText (latestDocument found)); ("signature"%stdpp, JText (latestSignature found));
       ("url"%stdpp, JText (latestUrl found))]))).
End LauncherController.
