(* ===== verification/AdminControllers.v ===== *)
(** The operators' routes: [src/controllers/admin/*.cpp].  They are served on a listener of
    their own, behind the filters of [Filters]. *)

From S2P Require Import Prelude.
From S2P Require Import Errors.
From S2P Require Import Json.
From S2P Require Import Validation.
From S2P Require Import Actors.
From S2P Require Import Manifest.
From S2P Require Import Hash.
From S2P Require Import Programs.
From S2P Require Import Random.
From S2P Require Import World.
From S2P Require Import Accounts.
From S2P Require Import AuditLog.
From S2P Require Import MailTemplates.
From S2P Require Import AuthService.
From S2P Require Import Config.
From S2P Require Import AdminRepositories.
From S2P Require Import AdminUserService.
From S2P Require Import AnalyticsService.
From S2P Require Import CrashReportService.
From S2P Require Import System.
From S2P Require Import AppContext.
From S2P Require Import Http.
From S2P Require Import Wire.
From S2P Require Import Controllers.

Section AdminControllers.
Context `{Jsoncpp, Sodium, PasswordHasher, Evp, Postgres, MailSender, TokenService}.
Variable config : AppConfig.

Let site : Deployment := deploymentOf config.

Notation Handler := (Prog World (Result HttpResponse)) (only parsing).

(** ** Queries *)

Definition userQueryOf (c : Context) : AdminUserQuery :=
  let parameter name := requestParameter (theRequest c) name in
  let '(limit, offset) := pagingOf c DEFAULT_ADMIN_USER_PAGE_SIZE MAX_ADMIN_USER_PAGE_SIZE in
  mkAdminUserQuery (parameter "search"%stdpp) (bool_decide (parameter "inactive"%stdpp = "true"%stdpp)) limit offset.

Definition auditQueryOf (c : Context) : Result AuditQuery :=
  let parameter name := requestParameter (theRequest c) name in
  let '(limit, offset) := pagingOf c DEFAULT_AUDIT_PAGE_SIZE MAX_AUDIT_PAGE_SIZE in
  let actor := parameter "actor"%stdpp in
  if negb (bool_decide (actor = ""%stdpp)) && negb (isUuid actor) then failure InvalidInput "actor must be a user id"
  else
    Success (mkAuditQuery actor (parameter "action"%stdpp) (parameter "entityType"%stdpp) (parameter "entityId"%stdpp)
      limit offset).

Definition crashPagingOf (c : Context) : Z * Z := pagingOf c DEFAULT_CRASH_PAGE_SIZE MAX_CRASH_PAGE_SIZE.

Definition crashQueryOf (c : Context) : Result CrashQuery :=
  let '(limit, offset) := crashPagingOf c in
  let print := requestParameter (theRequest c) "fingerprint"%stdpp in
  if negb (bool_decide (print = ""%stdpp)) && negb (isSha256Hex print) then
    failure InvalidInput "fingerprint must be a SHA-256 digest"
  else Success (mkCrashQuery print limit offset).

(** ** AdminAuthController *)

Definition NOT_AN_ADMINISTRATOR : string := "this account is not an administrator".

(** A session of somebody who is no operator is ended before it is refused. *)
Definition adoptAdminSession (tokens : AuthTokens) : Prog World (Result AuthTokens) :=
  if mayUseAdminSurface (mkActor (accountId (tokensUser tokens)) (tokensPermissions tokens)) then mret (Success tokens)
  else
    _ ← logout (refreshToken tokens);
    mret (failure Forbidden NOT_AN_ADMINISTRATOR).

Definition AdminAuthController_login (c : Context) : Handler :=
  check! body := requireJsonObject c in
  read! email := requireString body "email" "" in
  read! password := requireString body "password" "" in
  try? tokens := login (authSettings site) email password (clientContextOf config c) in
  shown (adoptAdminSession tokens) (λ adopted, jsonResponse c 200 (consoleSessionToJson adopted)).

(** The permissions are looked at again on every rotation. *)
Definition AdminAuthController_refresh (c : Context) : Handler :=
  check! body := requireJsonObject c in
  read! token := requireString body "refreshToken" "" in
  try? tokens := refresh (authSettings site) token (clientContextOf config c) in
  shown (adoptAdminSession tokens) (λ adopted, jsonResponse c 200 (consoleSessionToJson adopted)).

Definition AdminAuthController_logout (c : Context) : Handler :=
  check! body := requireJsonObject c in
  read! token := requireString body "refreshToken" "" in
  _ ← logout token;
  mret (Success (noContentResponse c)).

Definition AdminAuthController_session (c : Context) : Handler :=
  check! claims := requireClaims c in mret (Success (jsonResponse c 200 (claimsToJson claims))).

(** ** AdminUserController *)

Definition showUser (c : Context) (s : AdminUserSummary) : HttpResponse := jsonResponse c 200 (consoleUserToJson s).

Definition AdminUserController_list (c : Context) : Handler :=
  let q := userQueryOf c in
  check! actor := actorOf c in
  shown (listUsers actor q) (λ found, jsonResponse c 200 (userPageToJson found (userLimit q) (userOffset q))).

Definition AdminUserController_detail (c : Context) (id : string) : Handler :=
  check! actor := actorOf c in shown (findUser actor id) (showUser c).

(** Two changes behind one PATCH, each where its field was sent and each with its own entry:
    what was changed before something is refused stays changed.  [active] is read by jsoncpp's
    conversion, [asBool], and not by [optionalBool]. *)
Definition AdminUserController_update (c : Context) (id : string) : Handler :=
  check! body := requireJsonObject c in
  check! actor := actorOf c in
  read! quotaSent := Success <$> isMember body "uploadQuotaBytes" in
  try? afterQuota := (if (quotaSent : bool) then
                        read! quota := requireInt64 body "uploadQuotaBytes" in
                        try? summary := setUploadQuota actor id quota in mret (Success (Some summary))
                      else mret (Success None)) in
  read! activeSent := Success <$> isMember body "active" in
  try? afterActive := (if (activeSent : bool) then
                         read! active := Success <$> asBool (member body "active"%stdpp) in
                         try? summary := setActive actor id active in mret (Success (Some summary))
                       else mret (Success afterQuota)) in
  match afterActive with
  | Some summary => mret (Success (showUser c summary))
  | None => shown (findUser actor id) (showUser c)
  end.

Definition AdminUserController_setTemporaryPassword (c : Context) (id : string) : Handler :=
  check! actor := actorOf c in
  shown (setTemporaryPassword actor id) (λ issued, jsonResponse c 200 (JObject
    [("user"%stdpp, consoleUserToJson (temporaryUser issued));
     ("temporaryPassword"%stdpp, JText (temporaryPassword issued))])).

Definition AdminUserController_grantRole (c : Context) (id role : string) : Handler :=
  check! actor := actorOf c in shown (grantRole actor id role) (showUser c).

Definition AdminUserController_revokeRole (c : Context) (id role : string) : Handler :=
  check! actor := actorOf c in shown (revokeRole actor id role) (showUser c).

Definition AdminUserController_listRoles (c : Context) : Handler :=
  check! actor := actorOf c in
  shown (listRoles actor) (λ found, jsonResponse c 200 (JObject [("items"%stdpp, JArray (map roleToJson found))])).

Definition AdminUserController_listAudit (c : Context) : Handler :=
  check! q := auditQueryOf c in
  check! actor := actorOf c in
  shown (listAudit actor q) (λ found, jsonResponse c 200 (auditPageToJson found (auditLimit q) (auditOffset q))).

(** ** AdminCrashController *)

Definition AdminCrashController_groups (c : Context) : Handler :=
  let '(limit, offset) := crashPagingOf c in
  check! actor := actorOf c in
  shown (listCrashGroups actor limit offset) (λ found, jsonResponse c 200 (crashGroupPageToJson found limit offset)).

Definition AdminCrashController_reports (c : Context) : Handler :=
  check! q := crashQueryOf c in
  check! actor := actorOf c in
  shown (listCrashes actor q) (λ found, jsonResponse c 200 (crashPageToJson found (crashLimit q) (crashOffset q))).

Definition AdminCrashController_report (c : Context) (id : string) : Handler :=
  check! actor := actorOf c in
  shown (findCrash actor id) (λ found, jsonResponse c 200 (crashReportToJson found)).

(** ** AdminAnalyticsController *)

Definition AdminAnalyticsController_downloads (c : Context) : Handler :=
  let parameterAsInt name fallback := parseInt (requestParameter (theRequest c) name) fallback in
  let days := parameterAsInt "days"%stdpp DEFAULT_ANALYTICS_DAYS in
  let top := parameterAsInt "topGames"%stdpp DEFAULT_ANALYTICS_TOP_GAMES in
  check! actor := actorOf c in
  shown (downloadReport actor days top) (λ report, jsonResponse c 200 (downloadReportToJson report)).

End AdminControllers.

(** ** AdminUiController *)

Definition PAGE_POLICY : string :=
  "default-src 'none'; script-src 'unsafe-inline'; style-src 'unsafe-inline'; connect-src 'self'; frame-ancestors 'none'; form-action 'none'; base-uri 'none'".

(** The headers both controllers of pages write. *)
Definition pageOf `{Jsoncpp} (html : string) : HttpResponse :=
  addHeader "Cache-Control" "no-store" (addHeader "Referrer-Policy" "no-referrer"
    (addHeader "X-Content-Type-Options" "nosniff" (addHeader "Content-Security-Policy" PAGE_POLICY
      (mkResponse 200 ∅ (BytesContent "text/html" html))))).

Definition AdminUiController_index `{Jsoncpp} (indexHtml : string) (c : Context) : HttpResponse :=
  withRequestId (requestId c) (pageOf indexHtml).

(** ** AuthPageController *)

Definition pageResponse `{Jsoncpp} (config : AppConfig) (html : string) (c : Context) : HttpResponse :=
  if negb (mailConfigured (mailConfig config)) then
    makeErrorResponse (securityConfig config) (mkError NotFound "no such endpoint" "" []) (requestId c)
  else withRequestId (requestId c) (pageOf html).
