(* ===== verification/Filters.v ===== *)
(** What stands in front of a handler: [src/filters/*.cpp] and the advice on bodies of
    [src/app/Bootstrap.cpp]. *)

From S2P Require Import Prelude.
From S2P Require Import Errors.
From S2P Require Import Json.
From S2P Require Import Actors.
From S2P Require Import ClientAddress.
From S2P Require Import Programs.
From S2P Require Import World.
From S2P Require Import AuthService.
From S2P Require Import JwtTokenService.
From S2P Require Import RateLimiter.
From S2P Require Import Config.
From S2P Require Import Releases.
From S2P Require Import AppContext.
From S2P Require Import Http.
From S2P Require Import Controllers.
From S2P Require Import AdminControllers.

(** ** The process *)

(** The tables and stores, the releases, and what the process keeps to itself: the limiters
    and its steady clock. *)
Record Server := mkServer {
  world : World;
  releaseWorld : ReleaseWorld;
  limiters : Limiters;
  steady : Z
}.

Definition setWorld (w : World) (s : Server) : Server := mkServer w (releaseWorld s) (limiters s) (steady s).
Definition setReleaseWorld (r : ReleaseWorld) (s : Server) : Server := mkServer (world s) r (limiters s) (steady s).
Definition setLimiters (l : Limiters) (s : Server) : Server := mkServer (world s) (releaseWorld s) l (steady s).

(** A part of the state that a program works on. *)
Record Part (S W : Type) := mkPart { partOf : S → W; withPart : W → S → S }.
Arguments mkPart {S W} _ _.
Arguments partOf {S W} _ _.
Arguments withPart {S W} _ _ _.

Fixpoint onPart {S W A} (part : Part S W) (p : Prog W A) : Prog S A :=
  match p with
  | Done a => Done a
  | Raise => Raise
  | Step f next =>
      Step (λ s, match f (partOf part s) with Some (b, w) => Some (b, withPart part w s) | None => None end)
        (λ b, onPart part (next b))
  end.

Definition worldPart : Part Server World := mkPart world setWorld.
Definition releasePart : Part Server ReleaseWorld := mkPart releaseWorld setReleaseWorld.

(** ** Filters *)

Inductive Verdict `{Jsoncpp} :=
| Rejected (response : HttpResponse)
| Proceeds (c : Context).

Section Filters.
Context `{Jwt}.
Variable config : AppConfig.

Notation Filter := (Context → Prog Server Verdict) (only parsing).

Definition reject (c : Context) (e : Error) : Verdict :=
  Rejected (makeErrorResponse (securityConfig config) e (requestId c)).

(** One call on a limiter, in one of the four places they are kept. *)
Definition onLimiter {A} (part : Part Limiters RateLimiter) (call : Z → RateLimiter → A * RateLimiter) : Prog Server A :=
  exec (λ s, let '(a, l) := call (steady s) (partOf part (limiters s)) in
             (a, setLimiters (withPart part l (limiters s)) s)).

Definition crashPart : Part Limiters RateLimiter :=
  mkPart crashLimiter (λ l s, mkLimiters l (authLimiter s) (accountLimiter s) (mailLimiter s)).
Definition authPart : Part Limiters RateLimiter :=
  mkPart authLimiter (λ l s, mkLimiters (crashLimiter s) l (accountLimiter s) (mailLimiter s)).
Definition accountPart : Part Limiters RateLimiter :=
  mkPart accountLimiter (λ l s, mkLimiters (crashLimiter s) (authLimiter s) l (mailLimiter s)).
Definition mailPart : Part Limiters RateLimiter :=
  mkPart mailLimiter (λ l s, mkLimiters (crashLimiter s) (authLimiter s) (accountLimiter s) l).

(** A token of the key's bucket, or a refusal that says how long to wait. *)
Definition limited (part : Part Limiters RateLimiter) (key detail : string) (c : Context) (granted : Prog Server Verdict)
    : Prog Server Verdict :=
  acquired ← onLimiter part (tryAcquire key);
  if (acquired : bool) then granted
  else
    wait ← onLimiter part (retryAfter key);
    mret (Rejected (addHeader "Retry-After" (toDecimal wait)
      (makeErrorResponse (securityConfig config) (mkError RateLimited detail "" []) (requestId c)))).

Definition AuthRateLimitFilter (c : Context) : Prog Server Verdict :=
  limited authPart (clientAddressOf config c) "too many attempts; please wait and try again" c (mret (Proceeds c)).

Definition CrashRateLimitFilter (c : Context) : Prog Server Verdict :=
  if negb (crashReportsEnabled (crashReportConfig config)) then
    mret (reject c (mkError NotFound "no such endpoint" "" []))
  else
    limited crashPart (clientAddressOf config c) "too many crash reports; please wait and try again" c (mret (Proceeds c)).

Definition MailRateLimitFilter (c : Context) : Prog Server Verdict :=
  if negb (mailConfigured (mailConfig config)) then mret (reject c (mkError NotFound "no such endpoint" "" []))
  else
    limited mailPart (clientAddressOf config c) "too many messages requested; please wait and try again" c (mret (Proceeds c)).

Definition BEARER_PREFIX : string := "Bearer ".

Definition extractBearerToken (c : Context) : string :=
  let header := requestHeader (theRequest c) "Authorization"%stdpp in
  if (size header <=? size BEARER_PREFIX) || negb (String.prefix BEARER_PREFIX header) then ""
  else text (drop (String.length BEARER_PREFIX) (chars header)).

Definition PASSWORD_CHANGE_PATH : string := "/api/v1/me/password".
Definition TOKEN_REQUIRED : string := "a bearer access token is required".
Definition MUST_CHANGE_PASSWORD : string := "this account is using a temporary password and must choose a new one".

(** The claims of a token, at the instant it is shown. *)
Definition claimsAt (now : Z) (token : string) : Result AccessTokenClaims := verifyAccessToken (tokenSettingsOf config) now token.

Definition JwtAuthFilter (c : Context) : Prog Server Verdict :=
  let token := extractBearerToken c in
  if bool_decide (token = ""%stdpp) then mret (reject c (mkError Unauthenticated TOKEN_REQUIRED "" []))
  else
    now ← query (λ s, clock (world s));
    match claimsAt now token with
    | Failure e => mret (reject c e)
    | Success claims =>
        limited accountPart (claimUserId claims) "too many requests on this account; please slow down" c
          (if claimPasswordChangeRequired claims && negb (bool_decide (requestPath (theRequest c) = PASSWORD_CHANGE_PATH)) then
             mret (reject c (mkError PasswordChangeRequired MUST_CHANGE_PASSWORD "" []))
           else mret (Proceeds (mkContext (theRequest c) (requestId c) (Some claims))))
    end.

Definition AdminSurfaceFilter (c : Context) : Prog Server Verdict :=
  let server := serverConfig config in
  if negb (adminEnabled server) || negb (requestPort (theRequest c) =? adminPort server) then
    mret (reject c (mkError NotFound NO_SUCH_RESOURCE "" []))
  else mret (Proceeds c).

Definition AdminOperatorFilter (c : Context) : Prog Server Verdict :=
  match authClaims c with
  | None => mret (reject c (mkError Internal MISSING_FILTER "" []))
  | Some claims =>
      if negb (mayUseAdminSurface (mkActor (claimUserId claims) (claimPermissions claims))) then
        mret (reject c (mkError Forbidden NOT_AN_ADMINISTRATOR "" []))
      else mret (Proceeds c)
  end.

(** The filters of a route, in turn. *)
Fixpoint filtered (filters : list (Context → Prog Server Verdict)) (c : Context) : Prog Server Verdict :=
  match filters with
  | [] => mret (Proceeds c)
  | f :: rest =>
      verdict ← f c;
      match verdict with Rejected r => mret (Rejected r) | Proceeds c => filtered rest c end
  end.

(** ** The advice on bodies *)

Definition TOO_LARGE_ANONYMOUS : string := "this request is too large to be sent without an account".

Definition bodyAdvice (c : Context) : Verdict :=
  if bool_decide (requestHeader (theRequest c) "Authorization"%stdpp = ""%stdpp)
     && (maxAnonymousBodyBytes (serverConfig config) <? Z.of_nat (length (requestBody (theRequest c)))) then
    reject c (mkError QuotaExceeded TOO_LARGE_ANONYMOUS "" [])
  else Proceeds c.
End Filters.
