(* ===== verification/Server.v ===== *)
(** The server: the routes of [src/controllers/**/*.h], the filters in front of each, and what
    the framework does with a request from its first advice to its response
    ([src/app/Bootstrap.cpp], [src/app/HttpError.cpp] and [src/app/SecurityHeaders.cpp]).

    Which route a method and a path lead to is Drogon's; a [Route] is one [ADD_METHOD_TO] or
    [PATH_ADD] with the parts of the path it captures. *)

From S2P Require Import Prelude.
From S2P Require Import Errors.
From S2P Require Import Json.
From S2P Require Import Validation.
From S2P Require Import Actors.
From S2P Require Import Hash.
From S2P Require Import ClientAddress.
From S2P Require Import BlobStore.
From S2P Require Import Signer.
From S2P Require Import Signature.
From S2P Require Import Programs.
From S2P Require Import Random.
From S2P Require Import World.
From S2P Require Import Accounts.
From S2P Require Import MailTemplates.
From S2P Require Import AuthService.
From S2P Require Import JwtTokenService.
From S2P Require Import RateLimiter.
From S2P Require Import Config.
From S2P Require Import Releases.
From S2P Require Import AppContext.
From S2P Require Import Http.
From S2P Require Import Controllers.
From S2P Require Import AdminControllers.
From S2P Require Import Filters.

(** ** Exceptions *)

(** A handler run to its end whatever is thrown on the way: [None] where something was. *)
Fixpoint attempt {W A} (p : Prog W A) : Prog W (option A) :=
  match p with
  | Done a => Done (Some a)
  | Raise => Done None
  | Step f next =>
      Step (λ w, match f w with Some (b, w') => Some (Some b, w') | None => Some (None, w) end)
        (λ b, match b with Some b => attempt (next b) | None => Done None end)
  end.

(** ** Routes *)

Inductive Route :=
| RegisterUser | Login | Refresh | Logout | VerifyEmail | ResendVerification | RequestPasswordReset | ConfirmPasswordReset
| ChangePassword | CurrentUser | RequestErasure
| Explore | CreateGame | MyGames | GameDetail (game : string) | UpdateGame (game : string) | DeleteGame (game : string)
| CreateVersion (game : string) | UpdateVersion (game version : string) | DeleteVersion (game version : string)
| CreateBuild (game version : string)
| ListLibrary | AddToLibrary (game : string) | RemoveFromLibrary (game : string)
| ListNotes (game : string) | CreateNote (game : string) | UpdateNote (note : string) | RemoveNote (note : string)
| ListMedia (game : string) | UploadMedia (game : string) | UpdateMedia (item : string) | RemoveMedia (item : string)
| MissingBlobs (build : string) | BeginUpload (build : string) | Finalize (build : string) | Manifest (build : string)
| RemoveBuild (build : string)
| UploadStatus (session : string) | UploadChunk (session : string) | AbortUpload (session : string)
| Plan (build : string) | VerifyInstall (build : string)
| SubmitCrash | Capabilities | Liveness | Readiness | LatestRelease
| VerifyEmailPage | PasswordResetPage
| AdminLogin | AdminRefresh | AdminLogout | AdminSession
| AdminListUsers | AdminUser (user : string) | AdminUpdateUser (user : string) | AdminTemporaryPassword (user : string)
| AdminGrantRole (user role : string) | AdminRevokeRole (user role : string) | AdminListRoles | AdminListAudit
| AdminCrashGroups | AdminCrashReports | AdminCrashReport (report : string)
| AdminDownloads | AdminIndex.

(** The path of a request that is routed so. *)
Definition pathOf (r : Route) : string :=
  match r with
  | RegisterUser => "/api/v1/auth/register"
  | Login => "/api/v1/auth/login"
  | Refresh => "/api/v1/auth/refresh"
  | Logout => "/api/v1/auth/logout"
  | VerifyEmail => "/api/v1/auth/verify-email"
  | ResendVerification => "/api/v1/auth/verify-email/resend"
  | RequestPasswordReset => "/api/v1/auth/password-reset/request"
  | ConfirmPasswordReset => "/api/v1/auth/password-reset/confirm"
  | ChangePassword => "/api/v1/me/password"
  | CurrentUser => "/api/v1/auth/me"
  | RequestErasure => "/api/v1/me/deletion"
  | Explore | CreateGame => "/api/v1/games"
  | MyGames => "/api/v1/me/games"
  | GameDetail game | UpdateGame game | DeleteGame game => "/api/v1/games/" +:+ game
  | CreateVersion game => "/api/v1/games/" +:+ game +:+ "/versions"
  | UpdateVersion game version | DeleteVersion game version => "/api/v1/games/" +:+ game +:+ "/versions/" +:+ version
  | CreateBuild game version => "/api/v1/games/" +:+ game +:+ "/versions/" +:+ version +:+ "/builds"
  | ListLibrary => "/api/v1/library"
  | AddToLibrary game | RemoveFromLibrary game => "/api/v1/library/" +:+ game
  | ListNotes game | CreateNote game => "/api/v1/games/" +:+ game +:+ "/patch-notes"
  | UpdateNote note | RemoveNote note => "/api/v1/patch-notes/" +:+ note
  | ListMedia game | UploadMedia game => "/api/v1/games/" +:+ game +:+ "/media"
  | UpdateMedia item | RemoveMedia item => "/api/v1/media/" +:+ item
  | MissingBlobs build => "/api/v1/builds/" +:+ build +:+ "/blobs/missing"
  | BeginUpload build => "/api/v1/builds/" +:+ build +:+ "/uploads"
  | Finalize build | Manifest build => "/api/v1/builds/" +:+ build +:+ "/manifest"
  | RemoveBuild build => "/api/v1/builds/" +:+ build
  | UploadStatus session | UploadChunk session | AbortUpload session => "/api/v1/uploads/" +:+ session
  | Plan build => "/api/v1/builds/" +:+ build +:+ "/download"
  | VerifyInstall build => "/api/v1/builds/" +:+ build +:+ "/verify"
  | SubmitCrash => "/api/v1/crash-reports"
  | Capabilities => "/api/v1/capabilities"
  | Liveness => "/api/v1/health"
  | Readiness => "/api/v1/health/ready"
  | LatestRelease => "/api/v1/launcher/releases/latest"
  | VerifyEmailPage => "/verify-email"
  | PasswordResetPage => "/password-reset"
  | AdminLogin => "/admin/api/auth/login"
  | AdminRefresh => "/admin/api/auth/refresh"
  | AdminLogout => "/admin/api/auth/logout"
  | AdminSession => "/admin/api/session"
  | AdminListUsers => "/admin/api/users"
  | AdminUser user | AdminUpdateUser user => "/admin/api/users/" +:+ user
  | AdminTemporaryPassword user => "/admin/api/users/" +:+ user +:+ "/temporary-password"
  | AdminGrantRole user role | AdminRevokeRole user role => "/admin/api/users/" +:+ user +:+ "/roles/" +:+ role
  | AdminListRoles => "/admin/api/roles"
  | AdminListAudit => "/admin/api/audit"
  | AdminCrashGroups => "/admin/api/crashes"
  | AdminCrashReports => "/admin/api/crashes/reports"
  | AdminCrashReport report => "/admin/api/crashes/reports/" +:+ report
  | AdminDownloads => "/admin/api/analytics/downloads"
  (* and "/admin/" *)
  | AdminIndex => "/admin"
  end.

(** The surface of the operators' listener. *)
Definition administrative (r : Route) : bool :=
  match r with
  | AdminLogin | AdminRefresh | AdminLogout | AdminSession | AdminListUsers | AdminUser _ | AdminUpdateUser _
  | AdminTemporaryPassword _ | AdminGrantRole _ _ | AdminRevokeRole _ _ | AdminListRoles | AdminListAudit
  | AdminCrashGroups | AdminCrashReports | AdminCrashReport _ | AdminDownloads | AdminIndex => true
  | _ => false
  end.

(** The routes that do not ask who is calling. *)
Definition anonymous (r : Route) : bool :=
  match r with
  | RegisterUser | Login | Refresh | Logout | VerifyEmail | ResendVerification | RequestPasswordReset
  | ConfirmPasswordReset | SubmitCrash | Capabilities | Liveness | Readiness | LatestRelease | VerifyEmailPage
  | PasswordResetPage | AdminLogin | AdminRefresh | AdminLogout | AdminIndex => true
  | _ => false
  end.

Section Server.
Context `{JC : Jsoncpp, Sodium, PasswordHasher, Evp, Md5, Postgres, MailSender, Disk, Openssl, JT : !Jwt}.
Variable config : AppConfig.
(** [APP_VERSION], the pages, which are bytes, and jsoncpp's empty object. *)
Variable version verifyEmailHtml passwordResetHtml indexHtml : string.
Variable emptyObject : Value.

(** The service every other one is given. *)
Definition tokenService : TokenService := JwtTokenService (tokenSettingsOf config).
#[local] Existing Instance tokenService.

(** The filters in the order of the route's list. *)
Definition filtersOf (r : Route) : list (Context → Prog Server Verdict) :=
  match r with
  | RegisterUser | Login | ConfirmPasswordReset => [AuthRateLimitFilter config]
  | ResendVerification => [MailRateLimitFilter config]
  | RequestPasswordReset => [AuthRateLimitFilter config; MailRateLimitFilter config]
  | SubmitCrash => [CrashRateLimitFilter config]
  | Refresh | Logout | VerifyEmail | Capabilities | Liveness | Readiness | LatestRelease | VerifyEmailPage
  | PasswordResetPage => []
  | ChangePassword => [AuthRateLimitFilter config; JwtAuthFilter config]
  | AdminLogin | AdminRefresh => [AdminSurfaceFilter config; AuthRateLimitFilter config]
  | AdminLogout | AdminIndex => [AdminSurfaceFilter config]
  | _ =>
      if administrative r then [AdminSurfaceFilter config; JwtAuthFilter config; AdminOperatorFilter config]
      else [JwtAuthFilter config]
  end.

(** The handlers on the tables and stores. *)
Definition worldHandler (r : Route) (c : Context) : Prog World (Result HttpResponse) :=
  match r with
  | RegisterUser => AuthController_registerUser config c
  | Login => AuthController_login config c
  | Refresh => AuthController_refresh config c
  | Logout => AuthController_logout c
  | VerifyEmail => AuthController_verifyEmail c
  | ResendVerification => AuthController_resendVerification config c
  | RequestPasswordReset => AuthController_requestPasswordReset config c
  | ConfirmPasswordReset => AuthController_confirmPasswordReset c
  | ChangePassword => AuthController_changePassword config c
  | CurrentUser => AuthController_currentUser c
  | RequestErasure => AccountController_requestErasure c
  | Explore => GameController_explore config c
  | CreateGame => GameController_createGame config c
  | MyGames => GameController_myGames config c
  | GameDetail game => GameController_gameDetail config c game
  | UpdateGame game => GameController_updateGame config c game
  | DeleteGame game => GameController_deleteGame c game
  | CreateVersion game => GameController_createVersion c game
  | UpdateVersion game number => GameController_updateVersion c game number
  | DeleteVersion game number => GameController_deleteVersion c game number
  | CreateBuild game number => GameController_createBuild c game number
  | ListLibrary => LibraryController_list config c
  | AddToLibrary game => LibraryController_add c game
  | RemoveFromLibrary game => LibraryController_remove c game
  | ListNotes game => PatchNoteController_listForGame c game
  | CreateNote game => PatchNoteController_create c game
  | UpdateNote note => PatchNoteController_update c note
  | RemoveNote note => PatchNoteController_remove c note
  | ListMedia game => MediaController_listForGame config c game
  | UploadMedia game => MediaController_upload config c game
  | UpdateMedia item => MediaController_update config c item
  | RemoveMedia item => MediaController_remove c item
  | MissingBlobs build => BuildController_missingBlobs config c build
  | BeginUpload build => BuildController_beginUpload config c build
  | Finalize build => BuildController_finalize c build
  | Manifest build => BuildController_manifest c build
  | RemoveBuild build => BuildController_remove c build
  | UploadStatus session => UploadController_status c session
  | UploadChunk session => UploadController_uploadChunk config c session
  | AbortUpload session => UploadController_abort c session
  | Plan build => DownloadController_plan config emptyObject c build
  | VerifyInstall build => DownloadController_verify config c build
  | SubmitCrash => CrashReportController_submit c
  | Capabilities => mret (Success (CapabilitiesController_capabilities config version c))
  | Liveness => mret (Success (HealthController_liveness config version c))
  | Readiness => HealthController_readiness c
  (* on the releases, in [handle] *)
  | LatestRelease => Raise
  | VerifyEmailPage => mret (Success (pageResponse config verifyEmailHtml c))
  | PasswordResetPage => mret (Success (pageResponse config passwordResetHtml c))
  | AdminLogin => AdminAuthController_login config c
  | AdminRefresh => AdminAuthController_refresh config c
  | AdminLogout => AdminAuthController_logout c
  | AdminSession => AdminAuthController_session c
  | AdminListUsers => AdminUserController_list c
  | AdminUser user => AdminUserController_detail c user
  | AdminUpdateUser user => AdminUserController_update c user
  | AdminTemporaryPassword user => AdminUserController_setTemporaryPassword c user
  | AdminGrantRole user role => AdminUserController_grantRole c user role
  | AdminRevokeRole user role => AdminUserController_revokeRole c user role
  | AdminListRoles => AdminUserController_listRoles c
  | AdminListAudit => AdminUserController_listAudit c
  | AdminCrashGroups => AdminCrashController_groups c
  | AdminCrashReports => AdminCrashController_reports c
  | AdminCrashReport report => AdminCrashController_report c report
  | AdminDownloads => AdminAnalyticsController_downloads c
  | AdminIndex => mret (Success (AdminUiController_index indexHtml c))
  end.

(** One of them is on the releases. *)
Definition handle (r : Route) (c : Context) : Prog Server (Result HttpResponse) :=
  match r with
  | LatestRelease => onPart releasePart (LauncherController_latest config c)
  | _ => onPart worldPart (worldHandler r c)
  end.

(** ** A request, to its response *)

(** What a handler comes to: its response, or the one for what it threw; either passes the
    advice on responses. *)
Definition respond (c : Context) (outcome : option (Result HttpResponse)) : HttpResponse :=
  applySecurityHeaders (securityConfig config)
    (match outcome with
     | Some (Success response) => response
     | Some (Failure e) => onException (securityConfig config) c (Some e)
     | None => onException (securityConfig config) c None
     end).

(** The two advices before routing, the filters, the handler.  What an advice or a filter
    rejects is the response, and no other advice sees it. *)
Definition serve (r : Route) (request : HttpRequest) : Prog Server HttpResponse :=
  match bodyAdvice config (identified request) with
  | Rejected response => mret response
  | Proceeds c =>
      verdict ← filtered (filtersOf r) c;
      match verdict with
      | Rejected response => mret response
      | Proceeds c => outcome ← attempt (handle r c); mret (respond c outcome)
      end
  end.

(** A path that is no route. *)
Definition serveUnknown (request : HttpRequest) : HttpResponse :=
  match bodyAdvice config (identified request) with
  | Rejected response => response
  | Proceeds _ => applySecurityHeaders (securityConfig config) (notFoundPage (securityConfig config))
  end.

(** What the process starts with. *)
Definition startServer (w : World) (r : ReleaseWorld) (now : Z) : Server := mkServer w r (limitersOf config) now.
End Server.
