(* ===== verification/Gate.v ===== *)
(** What the filters let through: who reaches a handler, on which listener and with which
    token, what a refused request leaves behind, and that every request is answered. *)

From S2P Require Import Prelude.
From S2P Require Import Errors.
From S2P Require Import Json.
From S2P Require Import Validation.
From S2P Require Import Actors.
From S2P Require Import Hash.
From S2P Require Import Signer.
From S2P Require Import Signature.
From S2P Require Import Programs.
From S2P Require Import Random.
From S2P Require Import World.
From S2P Require Import Accounts.
From S2P Require Import MailTemplates.
From S2P Require Import BlobStore.
From S2P Require Import AuthService.
From S2P Require Import JwtTokenService.
From S2P Require Import RateLimiter.
From S2P Require Import Config.
From S2P Require Import Releases.
From S2P Require Import AppContext.
From S2P Require Import Http.
From S2P Require Import Controllers.
From S2P Require Import AdminControllers.
From S2P Require Import Filters.
From S2P Require Import Server.

(** ** Programs on a part, and attempted *)

(** A part that is where it was put, and only there. *)
Class PartLaws {S W} (part : Part S W) := {
  part_put w s : partOf part (withPart part w s) = w;
  put_put w w' s : withPart part w' (withPart part w s) = withPart part w' s;
  put_part s : withPart part (partOf part s) s = s
}.

#[export] Instance worldPart_laws : PartLaws worldPart.
Proof. by split; [| |intros []]. Qed.

#[export] Instance releasePart_laws : PartLaws releasePart.
Proof. by split; [| |intros []]. Qed.

Lemma perform_onPart {S W A} (part : Part S W) `{!PartLaws part} (p : Prog W A) s :
  perform (onPart part p) s
  = ((perform p (partOf part s)).1, withPart part (perform p (partOf part s)).2 s).
Proof.
  revert s. induction p as [a| |B f next IH]; intros s; cbn; [by rewrite put_part..|].
  destruct (f (partOf part s)) as [[b w]|]; [|cbn; by rewrite put_part].
  by rewrite IH, part_put, put_put.
Qed.

Lemma perform_attempt {W A} (p : Prog W A) w : perform (attempt p) w = (Some (perform p w).1, (perform p w).2).
Proof. revert w. induction p as [a| |B f next IH]; intros w; cbn; [done|done|]. by destruct (f w) as [[b w']|]. Qed.

Section Gate.
Context `{JC : Jsoncpp, Sodium, PasswordHasher, Evp, Md5, Postgres, MailSender, Disk, Openssl, JT : !Jwt}.
Variable config : AppConfig.
Variable version verifyEmailHtml passwordResetHtml indexHtml : string.
Variable emptyObject : Value.

Notation serving := (serve config version verifyEmailHtml passwordResetHtml indexHtml emptyObject).
Notation security := (securityConfig config).

(** ** What the filters touch *)

(** Nothing but the counts of the limiters. *)
Definition onlyLimiters (s s' : Server) : Prop :=
  world s' = world s ∧ releaseWorld s' = releaseWorld s ∧ steady s' = steady s.

Lemma onlyLimiters_refl s : onlyLimiters s s.
Proof. done. Qed.

Lemma onlyLimiters_trans s1 s2 s3 : onlyLimiters s1 s2 → onlyLimiters s2 s3 → onlyLimiters s1 s3.
Proof. unfold onlyLimiters. intuition congruence. Qed.

(** How a filter's own refusal looks: an envelope for a request, with or without a time to wait. *)
Definition refusal (c : Context) (e : Error) (r : HttpResponse) : Prop :=
  r = makeErrorResponse security e (requestId c)
  ∨ ∃ wait, r = addHeader "Retry-After" (toDecimal wait) (makeErrorResponse security e (requestId c)).

(** What a filter does with one request: it lets it go on, or refuses it with one of some codes. *)
Definition FiltersFrom (pre : Context → Prop) (f : Context → Prog Server Verdict) (codes : list ErrorCode)
    (passes : Context → Server → Context → Prop) : Prop :=
  ∀ c s, pre c → ∃ verdict s', perform (f c) s = (Some verdict, s') ∧ onlyLimiters s s'
    ∧ match verdict with
      | Proceeds c' => passes c s c'
      | Rejected r => ∃ e, code e ∈ codes ∧ refusal c e r
      end.

Notation Filters := (FiltersFrom (λ _, True)).

Lemma perform_limiter {A} (part : Part Limiters RateLimiter) (call : Z → RateLimiter → A * RateLimiter) s :
  ∃ a s', perform (onLimiter part call) s = (Some a, s') ∧ onlyLimiters s s'.
Proof. unfold onLimiter, exec. cbn. destruct (call (steady s) (partOf part (limiters s))) as [a l]. by eexists _, _. Qed.

Lemma limited_filters part key said c s (granted : Prog Server Verdict) :
  (∃ s', perform (limited config part key said c granted) s = perform granted s' ∧ onlyLimiters s s')
  ∨ ∃ wait s', onlyLimiters s s'
      ∧ perform (limited config part key said c granted) s
        = (Some (Rejected (addHeader "Retry-After" (toDecimal wait)
             (makeErrorResponse security (mkError RateLimited said "" []) (requestId c)))), s').
Proof.
  unfold limited. rewrite perform_bind.
  destruct (perform_limiter part (tryAcquire key) s) as ([|] & s1 & -> & H1'); [left; by eexists|right].
  rewrite perform_bind. destruct (perform_limiter part (retryAfter key) s1) as (wait & s2 & -> & H2').
  exists wait, s2. split; [by eapply onlyLimiters_trans|done].
Qed.

Definition unchanged (c : Context) (_ : Server) (c' : Context) : Prop := c' = c.

Lemma Filters_limited part key said c s :
  ∃ verdict s', perform (limited config part key said c (mret (Proceeds c))) s = (Some verdict, s') ∧ onlyLimiters s s'
    ∧ match verdict with Proceeds c' => c' = c | Rejected r => ∃ e, code e ∈ [RateLimited] ∧ refusal c e r end.
Proof.
  destruct (limited_filters part key said c s (mret (Proceeds c))) as [(s' & -> & Hs)|(wait & s' & Hs & ->)].
  - by exists (Proceeds c), s'.
  - eexists _, s'. split_and!; [done..|]. exists (mkError RateLimited said "" []). split; [by left|]. right. by exists wait.
Qed.

Lemma Filters_auth : Filters (AuthRateLimitFilter config) [RateLimited] unchanged.
Proof. intros c s _. apply Filters_limited. Qed.

Lemma Filters_weaken pre f codes codes' (passes passes' : Context → Server → Context → Prop) :
  FiltersFrom pre f codes passes → (∀ x, x ∈ codes → x ∈ codes') → (∀ c s c', passes c s c' → passes' c s c') →
  FiltersFrom pre f codes' passes'.
Proof.
  intros Hf Hc Hp c s Hpre. destruct (Hf c s Hpre) as (verdict & s' & E & Hs & Hv). exists verdict, s'. split_and!; [done..|].
  destruct verdict as [r|c']; [|by apply Hp]. destruct Hv as (e & He & Hr). exists e. auto.
Qed.

(** An enabling condition before a filter. *)
Lemma Filters_guard (b : bool) f codes passes e :
  Filters f codes passes → Filters (λ c, if b then mret (reject config c e) else f c) (code e :: codes) passes.
Proof.
  intros Hf. destruct b.
  - intros c s _. eexists _, s. split_and!; [done..|]. exists e. split; [by left|by left].
  - eapply Filters_weaken; [exact Hf| |done]. intros x Hx. by right.
Qed.

Lemma Filters_crash : Filters (CrashRateLimitFilter config) [NotFound; RateLimited] unchanged.
Proof. apply (Filters_guard _ _ [RateLimited]). intros c s _. apply Filters_limited. Qed.

Lemma Filters_mail : Filters (MailRateLimitFilter config) [NotFound; RateLimited] unchanged.
Proof. apply (Filters_guard _ _ [RateLimited]). intros c s _. apply Filters_limited. Qed.

(** The claims of the token a request carries. *)
Definition identifies (c : Context) (s : Server) (claims : AccessTokenClaims) : Prop :=
  extractBearerToken c ≠ ""%stdpp ∧ claimsAt config (clock (world s)) (extractBearerToken c) = Success claims.

Definition authenticated (c : Context) (s : Server) (c' : Context) : Prop :=
  ∃ claims, identifies c s claims ∧ c' = mkContext (theRequest c) (requestId c) (Some claims)
    ∧ (claimPasswordChangeRequired claims = true → requestPath (theRequest c) = PASSWORD_CHANGE_PATH).

Lemma Filters_jwt : Filters (JwtAuthFilter config) [Unauthenticated; RateLimited; PasswordChangeRequired] authenticated.
Proof.
  intros c s _. unfold JwtAuthFilter. case_bool_decide as Et.
  { eexists _, s. split_and!; [done..|]. eexists. split; [|by left]. by left. }
  rewrite perform_query. destruct (claimsAt config (clock (world s)) (extractBearerToken c)) as [claims|e] eqn:Ev.
  2: { eexists _, s. split_and!; [done..|]. exists e. split; [|by left].
       apply verify_failure in Ev as ->. by left. }
  set (flagged := claimPasswordChangeRequired claims && negb (bool_decide (requestPath (theRequest c) = PASSWORD_CHANGE_PATH))).
  match goal with |- context [limited config accountPart ?k ?d c ?g] =>
    destruct (limited_filters accountPart k d c s g) as [(s' & -> & Hs)|(wait & s' & Hs & ->)] end.
  - subst flagged. destruct (_ && _) eqn:Ef.
    + eexists _, s'. split_and!; [done..|]. eexists. split; [|by left]. cbn. right; right; by left.
    + eexists _, s'. split_and!; [done..|]. exists claims. split_and!; [done..|]. intros Hp. rewrite Hp in Ef. cbn in Ef.
      by apply negb_false_iff, bool_decide_eq_true in Ef.
  - eexists _, s'. split_and!; [done..|]. eexists. split; [|right; by exists wait]. cbn. right; by left.
Qed.

Lemma Filters_surface :
  Filters (AdminSurfaceFilter config) [NotFound]
    (λ c s c', c' = c ∧ adminEnabled (serverConfig config) = true ∧ requestPort (theRequest c) = adminPort (serverConfig config)).
Proof.
  intros c s _. unfold AdminSurfaceFilter. destruct (_ || _) eqn:E; (eexists _, s; split_and!; [done..|]).
  - eexists. split; [|by left]. by left.
  - apply orb_false_iff in E as [E1%negb_false_iff E2%negb_false_iff]. by apply Z.eqb_eq in E2.
Qed.

(** Claims are there by the time they are looked at. *)
Lemma Filters_operator :
  FiltersFrom (λ c, authClaims c ≠ None) (AdminOperatorFilter config) [Forbidden]
    (λ c s c', c' = c ∧ ∃ claims, authClaims c = Some claims
       ∧ mayUseAdminSurface (mkActor (claimUserId claims) (claimPermissions claims)) = true).
Proof.
  intros c s Hc. unfold AdminOperatorFilter. destruct (authClaims c) as [claims|] eqn:E; [|done].
  destruct (mayUseAdminSurface _) eqn:Em; (eexists _, s; split_and!; [done..|]).
  - split; [done|]. by exists claims.
  - eexists. split; [|by left]. by left.
Qed.

(** ** Filters in turn *)

Definition afterwards (passes passes' : Context → Server → Context → Prop) (c : Context) (s : Server) (c' : Context) : Prop :=
  ∃ c1 s1, passes c s c1 ∧ onlyLimiters s s1 ∧ passes' c1 s1 c'.

Lemma Filters_nil : Filters (filtered []) [] unchanged.
Proof. intros c s _. by exists (Proceeds c), s. Qed.

Lemma Filters_cons pre f rest codes codes' (passes passes' : Context → Server → Context → Prop) :
  Filters f codes passes → FiltersFrom pre (filtered rest) codes' passes' →
  (∀ c s c', passes c s c' → pre c' ∧ requestId c' = requestId c) →
  Filters (filtered (f :: rest)) (codes ++ codes') (afterwards passes passes').
Proof.
  intros Hf Hr Hp c s _. cbn [filtered]. rewrite perform_bind.
  destruct (Hf c s I) as ([r|c1] & s1 & -> & Hs & Hv); cbn beta iota.
  - eexists _, s1. split_and!; [done..|]. destruct Hv as (e & He & Hv). exists e. split; [|done].
    apply elem_of_app. by left.
  - destruct (Hp c s c1 Hv) as [Hpre Eid]. destruct (Hr c1 s1 Hpre) as (verdict & s2 & -> & Hs' & Hv').
    exists verdict, s2. split_and!; [done|by eapply onlyLimiters_trans|]. destruct verdict as [r|c2].
    + destruct Hv' as (e & He & Hv'). exists e. split; [apply elem_of_app; by right|].
      unfold refusal in *. by rewrite Eid in Hv'.
    + by exists c1, s1.
Qed.

Lemma Filters_last pre f codes passes : FiltersFrom pre f codes passes → FiltersFrom pre (filtered [f]) codes passes.
Proof.
  intros Hf c s Hpre. cbn [filtered]. rewrite perform_bind. destruct (Hf c s Hpre) as ([r|c1] & s1 & -> & Hs & Hv); by eexists _, s1.
Qed.

(** ** Routes that ask who is calling *)

(** What lets a request through to the handler of such a route: a token that verifies now, of
    an account that may go on using it, and on the operators' surface its listener and the
    standing of an operator. *)
Definition admitted (r : Route) (c : Context) (s : Server) (claims : AccessTokenClaims) : Prop :=
  identifies c s claims
  ∧ (claimPasswordChangeRequired claims = true → requestPath (theRequest c) = PASSWORD_CHANGE_PATH)
  ∧ (administrative r = true →
       adminEnabled (serverConfig config) = true ∧ requestPort (theRequest c) = adminPort (serverConfig config)
       ∧ mayUseAdminSurface (mkActor (claimUserId claims) (claimPermissions claims)) = true).

Definition gatePasses (r : Route) (c : Context) (s : Server) (c' : Context) : Prop :=
  ∃ claims, admitted r c s claims ∧ c' = mkContext (theRequest c) (requestId c) (Some claims).

(** The codes a route may be refused with before its handler. *)
Definition gateCodes (r : Route) : list ErrorCode :=
  if administrative r then [NotFound; Unauthenticated; RateLimited; PasswordChangeRequired; Forbidden]
  else [Unauthenticated; RateLimited; PasswordChangeRequired].

Lemma gate_public r : administrative r = false → Filters (filtered [JwtAuthFilter config]) (gateCodes r) (gatePasses r).
Proof.
  intros Hr. unfold gateCodes. rewrite Hr. eapply Filters_weaken; [apply Filters_last, Filters_jwt|done|].
  intros c s c' (claims & Hi & -> & Hp). exists claims. split; [|done]. unfold admitted. by rewrite Hr.
Qed.

Lemma gate_password : Filters (filtered [AuthRateLimitFilter config; JwtAuthFilter config]) (gateCodes ChangePassword) (gatePasses ChangePassword).
Proof.
  eapply Filters_weaken; [eapply Filters_cons; [apply Filters_auth|apply (gate_public ChangePassword eq_refl)|]|..].
  - by intros c s c' ->.
  - intros x. cbn. set_solver.
  - intros c s c' (c1 & s1 & -> & (Hw & _ & _) & claims & (Hi & Hp & Ha) & ->). exists claims. split; [|done].
    split_and!; [|done..]. unfold identifies in *. by rewrite Hw in Hi.
Qed.

Lemma gate_operators r :
  administrative r = true →
  Filters (filtered [AdminSurfaceFilter config; JwtAuthFilter config; AdminOperatorFilter config]) (gateCodes r) (gatePasses r).
Proof.
  intros Hr. eapply Filters_weaken; [eapply Filters_cons;
    [apply Filters_surface|eapply Filters_cons; [apply Filters_jwt|apply Filters_last, Filters_operator|]|]|..].
  - intros c s c' (claims & _ & -> & _). by split.
  - by intros c s c' (-> & _).
  - unfold gateCodes. rewrite Hr. intros x. cbn. set_solver.
  - intros c s c' (c1 & s1 & (-> & He & Hport) & (Hw & _ & _) & c2 & s2 & (claims & Hi & -> & Hp) & _ & -> & claims' & E & Hm).
    injection E as <-. exists claims. split; [|done]. split_and!; [|done|done]. unfold identifies in *. by rewrite Hw in Hi.
Qed.

Lemma gate r : anonymous r = false → Filters (filtered (filtersOf config r)) (gateCodes r) (gatePasses r).
Proof.
  intros Hr. destruct r; try done; first [by apply gate_public|apply gate_password|by apply gate_operators].
Qed.

Notation handling := (handle config version verifyEmailHtml passwordResetHtml indexHtml emptyObject).

(** A request in the hands of a handler. *)
Definition withClaims (request : HttpRequest) (claims : AccessTokenClaims) : Context :=
  mkContext request (requestId (identified request)) (Some claims).

Definition handled (r : Route) (c : Context) (s : Server) (response : HttpResponse) (s' : Server) : Prop :=
  ∃ outcome, perform (handling r c) s = (outcome, s') ∧ response = respond config c outcome.

Lemma perform_handled r c s :
  perform (outcome ← attempt (handling r c); mret (respond config c outcome)) s
  = (Some (respond config c (perform (handling r c) s).1), (perform (handling r c) s).2).
Proof. by rewrite perform_bind, perform_attempt. Qed.

Lemma handled_perform r c s : handled r c s (respond config c (perform (handling r c) s).1) (perform (handling r c) s).2.
Proof. exists (perform (handling r c) s).1. split; [apply surjective_pairing|done]. Qed.

Lemma bodyAdvice_spec c :
  bodyAdvice config c = Proceeds c
  ∨ requestHeader (theRequest c) "Authorization"%stdpp = ""%stdpp ∧ ∃ e, code e = QuotaExceeded ∧ bodyAdvice config c = reject config c e.
Proof.
  unfold bodyAdvice. destruct (_ && _) eqn:E; [right|by left]. apply andb_true_iff in E as [E%bool_decide_eq_true _].
  split; [done|]. eexists. by split; [|reflexivity].
Qed.

Lemma identifies_header c s claims : identifies c s claims → requestHeader (theRequest c) "Authorization"%stdpp ≠ ""%stdpp.
Proof. intros [He _] E. apply He. unfold extractBearerToken. by rewrite E. Qed.

Lemma served_gate r request s response s' :
  anonymous r = false → perform (serving r request) s = (Some response, s') →
  (∃ claims s1, admitted r (identified request) s claims ∧ onlyLimiters s s1
     ∧ handled r (withClaims request claims) s1 response s')
  ∨ onlyLimiters s s' ∧ ∃ e, code e ∈ QuotaExceeded :: gateCodes r ∧ refusal (identified request) e response.
Proof.
  intros Hr. unfold serve. destruct (bodyAdvice_spec (identified request)) as [->|(_ & e & He & ->)].
  2: { intros [= <- <-]. right. split; [done|]. exists e. rewrite He. split; [by left|by left]. }
  rewrite perform_bind. destruct (gate r Hr (identified request) s I) as ([resp|c'] & s1 & -> & Hs & Hv); cbn beta iota.
  - intros [= <- <-]. right. split; [done|]. destruct Hv as (e & He & Hv). exists e. split; [by right|done].
  - destruct Hv as (claims & Ha & ->). intros E. left. exists claims, s1. split_and!; [done..|].
    rewrite perform_handled in E. injection E as <- <-. apply handled_perform.
Qed.

(** ** Tokens of the buckets *)

Definition grantedBy (part : Part Limiters RateLimiter) (key : string) (s : Server) : Prop :=
  (tryAcquire key (steady s) (partOf part (limiters s))).1 = true.

Lemma limited_granted part key said c s (p : Prog Server Verdict) :
  grantedBy part key s →
  perform (limited config part key said c p) s
  = perform p (setLimiters (withPart part (tryAcquire key (steady s) (partOf part (limiters s))).2 (limiters s)) s).
Proof.
  unfold grantedBy, limited, onLimiter, exec. intros E. rewrite perform_bind. cbn.
  destruct (tryAcquire key (steady s) (partOf part (limiters s))) as [b l]. cbn in *. by subst b.
Qed.

Lemma JwtAuthFilter_granted r c s claims :
  admitted r c s claims → grantedBy accountPart (claimUserId claims) s →
  ∃ s1, onlyLimiters s s1
    ∧ perform (JwtAuthFilter config c) s = (Some (Proceeds (mkContext (theRequest c) (requestId c) (Some claims))), s1).
Proof.
  intros ((He & Hv) & Hp & _) Hg. unfold JwtAuthFilter. rewrite bool_decide_false by done. rewrite perform_query, Hv.
  rewrite limited_granted by done. eexists. split; [|].
  2: { destruct (claimPasswordChangeRequired claims) eqn:Ef; cbn [andb]; [|reflexivity].
       rewrite bool_decide_eq_true_2 by auto. reflexivity. }
  done.
Qed.

Lemma gate_granted r c s claims :
  anonymous r = false → admitted r c s claims → grantedBy accountPart (claimUserId claims) s →
  (r = ChangePassword → grantedBy authPart (clientAddressOf config c) s) →
  ∃ s1, onlyLimiters s s1
    ∧ perform (filtered (filtersOf config r) c) s = (Some (Proceeds (mkContext (theRequest c) (requestId c) (Some claims))), s1).
Proof.
  intros Hr Ha Hg Hc.
  assert (∃ s1, onlyLimiters s s1 ∧ perform (filtered [JwtAuthFilter config] c) s
    = (Some (Proceeds (mkContext (theRequest c) (requestId c) (Some claims))), s1)) as Hone.
  { destruct (JwtAuthFilter_granted r c s claims Ha Hg) as (s1 & Hs & E). exists s1. split; [done|].
    cbn [filtered]. by rewrite perform_bind, E. }
  assert (administrative r = true → ∃ s1, onlyLimiters s s1
    ∧ perform (filtered [AdminSurfaceFilter config; JwtAuthFilter config; AdminOperatorFilter config] c) s
      = (Some (Proceeds (mkContext (theRequest c) (requestId c) (Some claims))), s1)) as Hadmin.
  { intros Hadm. destruct (JwtAuthFilter_granted r c s claims Ha Hg) as (s1 & Hs & E). exists s1. split; [done|].
    destruct Ha as (_ & _ & Ha). destruct (Ha Hadm) as (He & Hport & Hm). cbn [filtered].
    rewrite perform_bind. unfold AdminSurfaceFilter. rewrite He, Hport, Z.eqb_refl. cbn [negb orb perform]. rewrite perform_ret. cbn beta iota.
    rewrite perform_bind, E. cbn beta iota. rewrite perform_bind. unfold AdminOperatorFilter. cbn [authClaims]. by rewrite Hm. }
  destruct r; try done; try exact Hone; try by apply Hadmin.
  clear Hadmin Hone. cbn [filtersOf filtered]. specialize (Hc eq_refl). rewrite perform_bind. unfold AuthRateLimitFilter.
  rewrite limited_granted by done. rewrite perform_ret. cbn beta iota. set (s1 := setLimiters _ s).
  assert (onlyLimiters s s1) as Hs1 by done.
  destruct (JwtAuthFilter_granted ChangePassword c s1 claims Ha Hg) as (s2 & Hs & E). exists s2. split; [done|].
  by rewrite perform_bind, E.
Qed.

Lemma admitted_handled r request s claims :
  anonymous r = false → admitted r (identified request) s claims → grantedBy accountPart (claimUserId claims) s →
  (r = ChangePassword → grantedBy authPart (clientAddressOf config (identified request)) s) →
  ∃ s1 response s', onlyLimiters s s1 ∧ perform (serving r request) s = (Some response, s')
    ∧ handled r (withClaims request claims) s1 response s'.
Proof.
  intros Hr Ha Hg Hc. unfold serve. destruct (bodyAdvice_spec (identified request)) as [->|(E & _)].
  2: { by destruct (identifies_header _ _ _ (proj1 Ha)). }
  rewrite perform_bind. destruct (gate_granted r _ s claims Hr Ha Hg Hc) as (s1 & Hs & ->). cbn beta iota.
  rewrite perform_handled. do 3 eexists. split_and!; [exact Hs|done|]. apply handled_perform.
Qed.

(** ** Properties *)

(** C4: A route that asks who is calling has its handler run only under the claims of a token that
    verifies at that instant, of an account that need not choose a password first or is doing so, and, on
    the operators' surface, on its own listener and for somebody who may use it; otherwise the answer is a
    refusal under one of the codes of the route, and nothing has changed but the counts of the limiters.
    And a request that is entitled to its handler reaches it whenever the limiters have a token for it. *)
Theorem gate_correct r request s :
  anonymous r = false →
  (∀ response s', perform (serving r request) s = (Some response, s') →
     (∃ claims s1, admitted r (identified request) s claims ∧ onlyLimiters s s1
        ∧ handled r (withClaims request claims) s1 response s')
     ∨ onlyLimiters s s' ∧ ∃ e, code e ∈ QuotaExceeded :: gateCodes r ∧ refusal (identified request) e response)
  ∧ ∀ claims, admitted r (identified request) s claims → grantedBy accountPart (claimUserId claims) s →
      (r = ChangePassword → grantedBy authPart (clientAddressOf config (identified request)) s) →
      ∃ s1 response s', onlyLimiters s s1 ∧ perform (serving r request) s = (Some response, s')
        ∧ handled r (withClaims request claims) s1 response s'.
Proof. intros Hr. split; intros; [by apply served_gate|by apply admitted_handled]. Qed.

Lemma pathOf_password r : pathOf r = PASSWORD_CHANGE_PATH → r = ChangePassword.
Proof. by destruct r. Qed.

(** C12: A session that still holds the password an operator chose for its account reaches one route, the
    one that changes it: on every other route that asks who is calling its requests are refused, and
    change nothing. *)
Theorem temporary_session r request s claims response s' :
  anonymous r = false → requestPath request = pathOf r → r ≠ ChangePassword →
  identifies (identified request) s claims → claimPasswordChangeRequired claims = true →
  perform (serving r request) s = (Some response, s') →
  onlyLimiters s s' ∧ ∃ e, code e ∈ gateCodes r ∧ refusal (identified request) e response.
Proof.
  intros Hr Hpath Hne Hi Hf. unfold serve. destruct (bodyAdvice_spec (identified request)) as [->|(E & _)].
  2: { by destruct (identifies_header _ _ _ Hi). }
  rewrite perform_bind. destruct (gate r Hr (identified request) s I) as ([resp|c'] & s1 & -> & Hs & Hv); cbn beta iota.
  - intros [= <- <-]. by split.
  - destruct Hv as (claims' & ((_ & Hi') & Hp & _) & _). destruct Hi as [_ Hi]. rewrite Hi in Hi'. injection Hi' as <-.
    destruct Hne. apply pathOf_password. rewrite <- Hpath. by apply Hp.
Qed.

(** The filter of the surface, on another listener. *)
Lemma surface_hides r c s :
  administrative r = true → adminEnabled (serverConfig config) = false ∨ requestPort (theRequest c) ≠ adminPort (serverConfig config) →
  perform (filtered (filtersOf config r) c) s = (Some (reject config c (mkError NotFound NO_SUCH_RESOURCE "" [])), s).
Proof.
  intros Hr Hport.
  assert (negb (adminEnabled (serverConfig config)) || negb (requestPort (theRequest c) =? adminPort (serverConfig config)) = true) as E.
  { destruct Hport as [-> | Hport]; [done|]. apply orb_true_iff. right. by apply negb_true_iff, Z.eqb_neq. }
  destruct r; try done; cbn [filtersOf administrative filtered]; rewrite perform_bind; unfold AdminSurfaceFilter; by rewrite E.
Qed.

(** What is answered where nothing is: a refusal that says so. *)
Definition hiddenAnswer (request : HttpRequest) : HttpResponse :=
  match bodyAdvice config (identified request) with
  | Rejected response => response
  | Proceeds c => makeErrorResponse security (mkError NotFound NO_SUCH_RESOURCE "" []) (requestId c)
  end.

(** C11: Under any configuration the program accepts, no request that arrives on the public listener
    reaches an operators' route: whatever the route, the token and the body, the answer is the one
    not-found, and not even a limiter has counted it. *)
Theorem admin_hidden r request s :
  validate config = Success tt → administrative r = true → requestPort request = serverPort (serverConfig config) →
  perform (serving r request) s = (Some (hiddenAnswer request), s).
Proof.
  intros Hv%validate_spec Hr Hport. unfold serve, hiddenAnswer.
  destruct (bodyAdvice_spec (identified request)) as [->|(_ & e & _ & ->)]; [|done].
  rewrite perform_bind, surface_hides; [done|done|]. change (theRequest (identified request)) with request.
  destruct (adminEnabled (serverConfig config)) eqn:Ea; [right|by left]. rewrite Hport. intros E.
  destruct (safe_admin _ Hv Ea) as [Hn _]. congruence.
Qed.

End Gate.
