(* ===== verification/Responses.v ===== *)
(** What every response bears, whoever made it: the headers of
    [src/app/SecurityHeaders.cpp] and the id of its request. *)

From S2P Require Import Prelude.
From S2P Require Import Errors.
From S2P Require Import Json.
From S2P Require Import Decimals.
From S2P Require Import Validation.
From S2P Require Import Actors.
From S2P Require Import Hash.
From S2P Require Import Signer.
From S2P Require Import Signature.
From S2P Require Import Programs.
From S2P Require Import Random.
From S2P Require Import World.
From S2P Require Import Accounts.
From S2P Require Import MailTemplates.
From S2P Require Import BlobStore.
From S2P Require Import AuthService.
From S2P Require Import JwtTokenService.
From S2P Require Import RateLimiter.
From S2P Require Import Config.
From S2P Require Import Releases.
From S2P Require Import AppContext.
From S2P Require Import Http.
From S2P Require Import Controllers.
From S2P Require Import AdminControllers.
From S2P Require Import Filters.
From S2P Require Import Server.
From S2P Require Import Gate.

(** ** Headers *)

Section Headers.
Context `{Jsoncpp}.

Lemma headerOf_addHeader name other value r :
  headerOf name (addHeader other value r) = if bool_decide (other = name) then value else headerOf name r.
Proof.
  unfold headerOf, addHeader. cbn [headers]. case_bool_decide as E; [subst; by rewrite lookup_insert_eq|].
  by rewrite lookup_insert_ne.
Qed.

Lemma headerOf_filled name value r :
  headerOf name (addIfAbsent name value r) = if bool_decide (headerOf name r = ""%stdpp) then value else headerOf name r.
Proof. unfold addIfAbsent. case_bool_decide; [|done]. by rewrite headerOf_addHeader, bool_decide_true. Qed.

Lemma headerOf_kept name other value r : other ≠ name → headerOf name (addIfAbsent other value r) = headerOf name r.
Proof. intros Hn. unfold addIfAbsent. case_bool_decide; [|done]. by rewrite headerOf_addHeader, bool_decide_false. Qed.

Ltac headers := repeat first [rewrite headerOf_kept by discriminate | rewrite headerOf_filled].

Lemma filled_in (given value : string) (allowed : list string) :
  given ∈ ""%stdpp :: allowed → value ∈ allowed → (if bool_decide (given = ""%stdpp) then value else given) ∈ allowed.
Proof. rewrite elem_of_cons. intros [-> | Hg] Hv; [done|]. by case_bool_decide. Qed.

Lemma headerOf_withRequestId name id r :
  headerOf name (withRequestId id r)
  = if negb (bool_decide (id = ""%stdpp)) && bool_decide ("X-Request-Id"%stdpp = name) then id else headerOf name r.
Proof. unfold withRequestId. case_bool_decide; [done|]. by rewrite headerOf_addHeader. Qed.

Definition DEFAULT_POLICY : string := "default-src 'none'; frame-ancestors 'none'".

(** The headers a browser acts on, and what they may say. *)
Definition hardening (config : SecurityConfig) : list (string * list string) :=
  [("X-Content-Type-Options"%stdpp, ["nosniff"%stdpp]);
   ("Content-Security-Policy"%stdpp, [DEFAULT_POLICY; PAGE_POLICY]);
   ("X-Frame-Options"%stdpp, ["DENY"%stdpp]);
   ("Referrer-Policy"%stdpp, ["no-referrer"%stdpp])]
  ++ if hsts config then [("Strict-Transport-Security"%stdpp, ["max-age="%stdpp +:+ toDecimal (hstsMaxAgeSeconds config)])] else [].

Definition Hardened (config : SecurityConfig) (r : HttpResponse) : Prop :=
  Forall (λ h, headerOf h.1 r ∈ h.2) (hardening config).

(** Nothing was said to the contrary before they are applied. *)
Definition Open (config : SecurityConfig) (r : HttpResponse) : Prop :=
  Forall (λ h, headerOf h.1 r ∈ ""%stdpp :: h.2) (hardening config).

Definition bearsId (c : Context) (r : HttpResponse) : Prop :=
  requestId c ≠ ""%stdpp → headerOf "X-Request-Id" r = requestId c.

Lemma applySecurityHeaders_hardened config r : Open config r → Hardened config (applySecurityHeaders config r).
Proof.
  unfold Open, Hardened, hardening, applySecurityHeaders.
  destruct (hsts config); cbn [app]; rewrite !Forall_cons, Forall_nil; cbn [fst snd]; intros Ho;
    repeat (destruct Ho as [? Ho]); split_and!; try done; headers; (apply filled_in; [assumption|by left]).
Qed.

Lemma id_applied config r : headerOf "X-Request-Id" (applySecurityHeaders config r) = headerOf "X-Request-Id" r.
Proof. unfold applySecurityHeaders. by destruct (hsts config); headers. Qed.

Lemma applySecurityHeaders_bearsId config c r : bearsId c r → bearsId c (applySecurityHeaders config r).
Proof. intros Hr Hc. rewrite id_applied. by apply Hr. Qed.

Lemma Hardened_open config r : Hardened config r → Open config r.
Proof. intros Hr. eapply Forall_impl; [exact Hr|]. intros h Hh. by right. Qed.

(** What a handler may answer. *)
Definition Decent (config : SecurityConfig) (c : Context) (r : HttpResponse) : Prop := Open config r ∧ bearsId c r.

(** The other headers the routes set. *)
Definition otherHeaders : list string :=
  ["Location"%stdpp; "Upload-Offset"%stdpp; "X-Manifest-Sha256"%stdpp; "Cache-Control"%stdpp; "Retry-After"%stdpp].

(** None of them is one a browser acts on. *)
Lemma not_hardening config name : name ∈ "X-Request-Id"%stdpp :: otherHeaders → Forall (λ h, name ≠ h.1) (hardening config).
Proof.
  intros Hn. apply Forall_forall. intros h Hh ->. revert Hn Hh. unfold hardening, otherHeaders.
  destruct (hsts config); cbn [app]; rewrite !elem_of_cons, !elem_of_nil; intros Hn Hh;
    repeat (destruct Hh as [-> | Hh]); cbn in Hn; try done; by repeat (destruct Hn as [Hn|Hn]).
Qed.

Lemma Open_addHeader config name value r :
  name ∈ "X-Request-Id"%stdpp :: otherHeaders → Open config r → Open config (addHeader name value r).
Proof.
  intros Hn%(not_hardening config) Hr. eapply Forall_impl; [apply Forall_and; split; [exact Hr|exact Hn]|].
  intros h [Hh Hne]. by rewrite headerOf_addHeader, bool_decide_false by exact Hne.
Qed.

Lemma Hardened_addHeader config name value r :
  name ∈ otherHeaders → Hardened config r → Hardened config (addHeader name value r).
Proof.
  intros Hn Hr. assert (name ∈ "X-Request-Id"%stdpp :: otherHeaders) as Hn' by (by right).
  eapply Forall_impl; [apply Forall_and; split; [exact Hr|exact (not_hardening config _ Hn')]|].
  intros h [Hh Hne]. by rewrite headerOf_addHeader, bool_decide_false by exact Hne.
Qed.

Lemma bearsId_addHeader c name value r : name ∈ otherHeaders → bearsId c r → bearsId c (addHeader name value r).
Proof.
  intros Hn Hr Hc. rewrite headerOf_addHeader, bool_decide_false; [by apply Hr|]. intros ->. unfold otherHeaders in Hn.
  rewrite !elem_of_cons, elem_of_nil in Hn. by repeat (destruct Hn as [Hn|Hn]).
Qed.

Lemma Decent_addHeader config c name value r : name ∈ otherHeaders → Decent config c r → Decent config c (addHeader name value r).
Proof. intros Hn [Ho Hi]. split; [apply Open_addHeader; [by right|done]|by apply bearsId_addHeader]. Qed.

Lemma Decent_withRequestId config c r : Open config r → Decent config c (withRequestId (requestId c) r).
Proof.
  intros Ho. unfold withRequestId. case_bool_decide as E; [by split; [|intros ?]|].
  split; [apply Open_addHeader; [by left|done]|]. intros _. by rewrite headerOf_addHeader, bool_decide_true.
Qed.

Lemma Open_bare config status content : Open config (mkResponse status ∅ content).
Proof. unfold Open, hardening. destruct (hsts config); repeat (apply Forall_cons; split); cbn; try done; by left. Qed.

Lemma Open_page config html : Open config (pageOf html).
Proof.
  unfold Open, hardening, pageOf.
  destruct (hsts config); repeat (apply Forall_cons; split); cbn [app fst snd]; try done; rewrite !headerOf_addHeader; cbn; set_solver.
Qed.

Lemma Decent_json config c status document : Decent config c (jsonResponse c status document).
Proof. apply Decent_withRequestId, Open_bare. Qed.

Lemma Decent_nothing config c : Decent config c (noContentResponse c).
Proof. apply Decent_withRequestId, Open_bare. Qed.

Lemma Error_hardened config c e : Hardened config (makeErrorResponse config e (requestId c)).
Proof. apply applySecurityHeaders_hardened, (Decent_withRequestId _ c), Open_bare. Qed.

Lemma Error_bearsId config c e : bearsId c (makeErrorResponse config e (requestId c)).
Proof. by apply applySecurityHeaders_bearsId, (Decent_withRequestId config c), Open_bare. Qed.
End Headers.

(** ** Handlers *)

Section Handlers.
Context `{JC : Jsoncpp, Sodium, PasswordHasher, Evp, Md5, Postgres, MailSender, Disk, Openssl, JT : !Jwt}.
Variable config : AppConfig.
Variable version verifyEmailHtml passwordResetHtml indexHtml : string.
Variable emptyObject : Value.

Notation serving := (serve config version verifyEmailHtml passwordResetHtml indexHtml emptyObject).
Notation handling := (handle config version verifyEmailHtml passwordResetHtml indexHtml emptyObject).
Notation security := (securityConfig config).

Definition DecentAnswer (c : Context) (a : Result HttpResponse) : Prop :=
  match a with Success r => Decent security c r | Failure _ => True end.

Lemma Answers_success {W} c r : Decent security c r → Answers (W := W) (DecentAnswer c) (mret (Success r)).
Proof. intros Hr. by apply Answers_ret. Qed.

Lemma Answers_shown {W A} c (p : Prog W (Result A)) show :
  (∀ a, Decent security c (show a)) → Answers (DecentAnswer c) (shown p show).
Proof. intros Hs. apply Answers_bind. intros [a|e]; apply Answers_ret; [apply Hs|done]. Qed.

Lemma Answers_read {W A B} (P : Result B → Prop) (r : option (Result A)) (k : A → Prog W (Result B)) :
  (∀ e, P (Failure e)) → (∀ a, Answers P (k a)) → Answers P (readThen r k).
Proof. intros He Hk. destruct r as [[a|e]|]; cbn; [apply Hk|by apply Answers_ret|done]. Qed.

Lemma Answers_failure {W} c e : Answers (W := W) (DecentAnswer c) (Done (Failure e)).
Proof. by apply Answers_ret. Qed.

Lemma Decent_error c e : Decent security c (makeErrorResponse security e (requestId c)).
Proof. split; [apply Hardened_open, Error_hardened|apply Error_bearsId]. Qed.

Ltac decent :=
  repeat first
    [ apply Decent_json | apply Decent_nothing | apply Decent_error
    | apply Decent_addHeader; [by vm_compute; repeat constructor|]
    | apply Decent_withRequestId | apply Open_bare | apply Open_page
    | apply Open_addHeader; [by vm_compute; repeat constructor|]
    | apply Answers_failure | apply Answers_shown; intros | apply Answers_success
    | apply Answers_read; [by intros|intros] | apply Answers_bind; intros
    | progress cbv zeta | case_match ].

Lemma worldHandler_decent r c :
  Answers (DecentAnswer c) (worldHandler config version verifyEmailHtml passwordResetHtml indexHtml emptyObject r c).
Proof.
  destruct r; cbn [worldHandler].
  all: unfold BuildController_manifest, CapabilitiesController_capabilities, HealthController_liveness, pageResponse,
    AdminUiController_index, AdminAuthController_login, AdminAuthController_refresh, AdminUserController_update, showUser.
  all: try solve [decent].
  by intros w a.
Qed.

Lemma handle_decent r c : Answers (DecentAnswer c) (handling r c).
Proof.
  assert (∀ r, Answers (DecentAnswer c)
    (onPart worldPart (worldHandler config version verifyEmailHtml passwordResetHtml indexHtml emptyObject r c))) as Hw.
  { intros r' s a. rewrite (perform_onPart worldPart). by apply worldHandler_decent. }
  destruct r; try apply Hw. cbn [handle]. intros s a. rewrite (perform_onPart releasePart).
  assert (Answers (DecentAnswer c) (LauncherController_latest config c)) as Hl; [|by apply Hl].
  unfold LauncherController_latest. decent.
Qed.

Lemma respond_hardened c outcome :
  (∀ a, outcome = Some a → DecentAnswer c a) →
  Hardened security (respond config c outcome) ∧ bearsId c (respond config c outcome).
Proof.
  intros Ha. unfold respond.
  match goal with |- Hardened _ (applySecurityHeaders _ ?r) ∧ _ => assert (Decent security c r) as [Ho Hi] end.
  { destruct outcome as [[r|e]|]; [by apply (Ha (Success r))|apply Decent_error..]. }
  split; [by apply applySecurityHeaders_hardened|by apply applySecurityHeaders_bearsId].
Qed.

Lemma refusal_hardened c e r : refusal config c e r → Hardened security r ∧ bearsId c r.
Proof.
  intros [-> | (wait & ->)]; [split; [apply Error_hardened|apply Error_bearsId]|].
  assert ("Retry-After"%stdpp ∈ otherHeaders) by (vm_compute; repeat constructor).
  split; [apply Hardened_addHeader; [done|apply Error_hardened]|apply bearsId_addHeader; [done|apply Error_bearsId]].
Qed.

(** ** Every request *)

Definition sameId (c : Context) (_ : Server) (c' : Context) : Prop := requestId c' = requestId c.

(** Whichever the route, its filters come to a verdict. *)
Lemma filters_total r : ∃ codes, FiltersFrom config (λ _, True) (filtered (filtersOf config r)) codes sameId.
Proof.
  destruct (anonymous r) eqn:Er.
  2: { exists (gateCodes r). eapply Filters_weaken; [by apply gate|done|]. by intros c s c' (claims & _ & ->). }
  pose proof (Filters_last config _ _ _ _ (Filters_auth config)) as Hauth.
  pose proof (Filters_last config _ _ _ _ (Filters_mail config)) as Hmail.
  pose proof (Filters_last config _ _ _ _ (Filters_crash config)) as Hcrash.
  pose proof (Filters_last config _ _ _ _ (Filters_surface config)) as Hsurface.
  destruct r; try done; cbn [filtersOf]; eexists;
    first [ eapply Filters_weaken; [exact (Filters_nil config)|done|by intros c s c' ->]
          | eapply Filters_weaken; [exact Hauth|done|by intros c s c' ->]
          | eapply Filters_weaken; [exact Hmail|done|by intros c s c' ->]
          | eapply Filters_weaken; [exact Hcrash|done|by intros c s c' ->]
          | eapply Filters_weaken; [exact Hsurface|done|by intros c s c' (-> & _)]
          | eapply Filters_weaken;
              [eapply Filters_cons; [exact (Filters_auth config)|exact Hmail|by intros c s c' ->]|done|];
            by intros c s c' (c1 & s1 & -> & _ & ->)
          | eapply Filters_weaken;
              [eapply Filters_cons; [exact (Filters_surface config)|exact Hauth|by intros c s c' (-> & _)]|done|];
            by intros c s c' (c1 & s1 & (-> & _) & _ & ->) ].
Qed.

Lemma served_answered r request s :
  ∃ response s', perform (serving r request) s = (Some response, s')
    ∧ Hardened security response ∧ bearsId (identified request) response.
Proof.
  unfold serve. destruct (bodyAdvice_spec config (identified request)) as [->|(_ & e & _ & ->)].
  2: { eexists _, s. split; [done|]. apply (refusal_hardened _ e). by left. }
  rewrite perform_bind. destruct (filters_total r) as [codes Hf].
  destruct (Hf (identified request) s I) as ([response|c'] & s1 & -> & _ & Hv); cbn beta iota.
  - destruct Hv as (e & _ & Hr). eexists _, s1. split; [done|]. by apply (refusal_hardened _ e).
  - rewrite perform_handled. eexists _, _. split; [done|]. unfold bearsId. rewrite <- Hv. apply (respond_hardened c').
    intros a Ea. by apply (handle_decent r c' s1).
Qed.


Lemma status_applied r : responseStatus (applySecurityHeaders security r) = responseStatus r.
Proof. unfold applySecurityHeaders, addIfAbsent, addHeader. by destruct (hsts security); repeat case_bool_decide. Qed.

Lemma status_error e id : responseStatus (makeErrorResponse security e id) = httpStatusFor (code e).
Proof. unfold makeErrorResponse. rewrite status_applied. unfold withRequestId. by case_bool_decide. Qed.

(** A hidden route is told from a path that is no route at all: its answer bears the id of the request,
    and the page for the latter, which is one object for all requests, cannot. *)
Theorem hidden_told_apart request :
  bodyAdvice config (identified request) = Proceeds (identified request) → requestId (identified request) ≠ ""%stdpp →
  responseStatus (hiddenAnswer config request) = responseStatus (serveUnknown config request)
  ∧ headerOf "X-Request-Id" (hiddenAnswer config request) = requestId (identified request)
  ∧ headerOf "X-Request-Id" (serveUnknown config request) = ""%stdpp.
Proof.
  intros Hb Hid. unfold hiddenAnswer, serveUnknown. rewrite Hb. unfold notFoundPage. split_and!.
  - by rewrite status_applied, !status_error.
  - by apply Error_bearsId.
  - rewrite id_applied. unfold makeErrorResponse. by rewrite id_applied.
Qed.
End Handlers.
