(* ===== verification/Refinement.v ===== *)
(** The server refines the services: whatever requests arrive over HTTP, every interleaving of
    their statements with those of the filters, of the timers and of the clock does to the
    tables and stores what some interleaving of requests to the services ([System]) does. *)

From Stdlib Require Import FunctionalExtensionality.
From S2P Require Import Prelude.
From S2P Require Import Errors.
From S2P Require Import Json.
From S2P Require Import Validation.
From S2P Require Import Actors.
From S2P Require Import Hash.
From S2P Require Import Signer.
From S2P Require Import Signature.
From S2P Require Import Programs.
From S2P Require Import Random.
From S2P Require Import World.
From S2P Require Import Accounts.
From S2P Require Import MailTemplates.
From S2P Require Import BlobStore.
From S2P Require Import AuthService.
From S2P Require Import AccountSafety.
From S2P Require Import JwtTokenService.
From S2P Require Import RateLimiter.
From S2P Require Import Config.
From S2P Require Import Releases.
From S2P Require Import AdminUserService.
From S2P Require Import AnalyticsService.
From S2P Require Import CrashReportService.
From S2P Require Import StorageSafety.
From S2P Require Import UploadService.
From S2P Require Import RetentionService.
From S2P Require Import System.
From S2P Require Import AppContext.
From S2P Require Import Http.
From S2P Require Import Controllers.
From S2P Require Import AdminControllers.
From S2P Require Import Filters.
From S2P Require Import Server.

Lemma bind_assoc {W A B C} (p : Prog W A) (k : A → Prog W B) (h : B → Prog W C) :
  (p ≫= k) ≫= h = p ≫= λ a, k a ≫= h.
Proof.
  induction p as [a| |D f next IH]; [done..|]. cbn. f_equal. apply functional_extensionality. intros b. apply IH.
Qed.

Section Refinement.
Context `{JC : Jsoncpp, Sodium, PasswordHasher, Evp, Md5, Postgres, MailSender, Disk, Openssl, JT : !Jwt}.
Variable config : AppConfig.
Variable version verifyEmailHtml passwordResetHtml indexHtml : string.
Variable emptyObject : Value.

#[local] Instance tokens : TokenService := tokenService config.

Notation serving := (serve config version verifyEmailHtml passwordResetHtml indexHtml emptyObject).
Notation site := (deploymentOf config).
Notation systemStep := (poolStep (routed site) clockTick).

(** ** What the process does *)

(** A request, or one of the timers of [runServer], which catch what is thrown. *)
Inductive Task : Prog Server unit → Prop :=
| task_request r request : Task (answered (serving r request))
| task_uploads : Task (answered (attempt (onPart worldPart sweepExpiredSessions)))
| task_blobs : Task (answered (attempt (onPart worldPart (collectUnreferencedBlobs (retentionSettings site)))))
| task_crashes : crashReportsEnabled (crashReportConfig config) = true →
    Task (answered (attempt (onPart worldPart (sweepExpiredCrashes (crashSettings site))))).

(** Time passes, and releases are published from another process. *)
Inductive serverTick (s : Server) : Server → Prop :=
| tick_clock w now : clockTick (world s) w → serverTick s (mkServer w (releaseWorld s) (limiters s) now)
| tick_release r : serverTick s (setReleaseWorld r s).

Notation serverStep := (poolStep Task serverTick).

(** ** Handlers as requests to the services *)

(** Requests to services in turn, and statements that only read. *)
Inductive Composed {A} : Prog World A → Prop :=
| composed_done a : Composed (Done a)
| composed_raise : Composed Raise
| composed_read B (f : World → option (B * World)) next :
    (∀ w b w', f w = Some (b, w') → w' = w) → (∀ b, Composed (next b)) → Composed (Step f next)
| composed_request B who (p : Prog World B) k :
    Request site who (answered p) → (∀ b, Composed (k b)) → Composed (p ≫= k).

Lemma Composed_bind {A B} (p : Prog World A) (k : A → Prog World B) :
  Composed p → (∀ a, Composed (k a)) → Composed (p ≫= k).
Proof.
  intros Hp Hk. induction Hp as [a| |C f next Hf _ IH|C who p k' Hp _ IH].
  - apply Hk.
  - apply composed_raise.
  - by apply composed_read.
  - rewrite bind_assoc. by eapply composed_request.
Qed.

Lemma Composed_alone {B} who (p : Prog World B) : Request site who (answered p) → Composed p.
Proof.
  intros Hp. assert (p ≫= mret = p) as <-.
  { clear Hp. induction p as [a| |C f next IH]; [done..|]. cbn. f_equal. apply functional_extensionality, IH. }
  eapply composed_request; [exact Hp|]. intros b. apply composed_done.
Qed.

Lemma Composed_shown {A} (p : Prog World (Result A)) show : Composed p → Composed (shown p show).
Proof. intros Hp. apply Composed_bind; [done|]. intros [a|e]; apply composed_done. Qed.

Lemma Composed_read {A B} (r : option (Result A)) (k : A → Prog World (Result B)) :
  (∀ a, Composed (k a)) → Composed (readThen r k).
Proof. intros Hk. destruct r as [[a|e]|]; cbn; [apply Hk|apply composed_done|apply composed_raise]. Qed.

Lemma Composed_ret {A} (a : A) : Composed (mret a).
Proof. apply composed_done. Qed.

Lemma Composed_query {B} (f : World → B) : Composed (query f).
Proof. apply composed_read; [by intros w b w' [= _ <-]|intros; apply composed_done]. Qed.

Lemma composed_observe {A B} (b : World → bool) (f : World → B) (next : B → Prog World A) :
  (∀ x, Composed (next x)) → Composed (Step (λ w, if b w then Some (f w, w) else None) next).
Proof. intros Hn. apply composed_read; [|done]. intros w x w'. destruct (b w); congruence. Qed.

Lemma downloadReport_composed actor days top : Composed (downloadReport actor days top).
Proof.
  unfold downloadReport, analytics_downloadReport, statement. case_match; [apply Composed_ret|]. cbn.
  repeat (apply composed_observe; intros ?). apply composed_done.
Qed.

Ltac composed :=
  repeat first
    [ apply Composed_ret | apply composed_done | apply Composed_read; intros
    | apply Composed_shown | apply downloadReport_composed
    | solve [eapply Composed_alone; constructor]
    | solve [eapply Composed_alone; apply request_auth; constructor]
    | apply Composed_bind; intros
    | apply Composed_query | progress cbv zeta | case_match ].

Lemma worldHandler_composed r c :
  Composed (worldHandler config version verifyEmailHtml passwordResetHtml indexHtml emptyObject r c).
Proof.
  destruct r; cbn [worldHandler].
  all: unfold AdminAuthController_login, AdminAuthController_refresh, AdminUserController_update, adoptAdminSession.
  all: try solve [composed].
  apply composed_raise.
Qed.

(** ** Simulation *)

(** A statement on the tables and stores, whose refusal is caught. *)
Definition attempted {B} (g : World → option (B * World)) (s : Server) : option (option B * Server) :=
  match g (world s) with Some (b, w) => Some (Some b, setWorld w s) | None => Some (None, s) end.

(** What of a task is left to do, and the request to a service it is in the middle of: a task
    does not touch the tables and stores between two requests, starts one where it likes, and may
    leave one undone. *)
Inductive Sim : Prog Server unit → option (Prog World unit) → Prop :=
| sim_done u o : Sim (Done u) o
| sim_raise o : Sim Raise o
| sim_silent B (f : Server → option (B * Server)) next :
    (∀ s b s', f s = Some (b, s') → world s' = world s) → (∀ s b s', f s = Some (b, s') → Sim (next b) None) →
    Sim (Step f next) None
| sim_start p q : routed site q → Sim p (Some q) → Sim p None
| sim_drop p q : Sim p None → Sim p (Some q)
| sim_move B (f : Server → option (option B * Server)) (g : World → option (B * World)) next after :
    (∀ s, f s = attempted g s) → (∀ b, Sim (next (Some b)) (Some (after b))) → Sim (next None) None →
    Sim (Step f next) (Some (Step g after)).

Lemma sim_request {A B} (p : Prog World B) (k : B → Prog World A) (K : option A → Prog Server unit) :
  (∀ b, Sim (attempt (onPart worldPart (k b)) ≫= K) None) → Sim (K None) None →
  Sim (attempt (onPart worldPart (p ≫= k)) ≫= K) (Some (answered p)).
Proof.
  intros Hk HK. induction p as [b| |C g next IH]; [apply sim_drop, Hk|by apply sim_drop|].
  cbn. apply sim_move; [|apply IH|done]. intros s. unfold attempted. cbn. by destruct (g (world s)) as [[b w]|].
Qed.

Lemma sim_composed {A} (p : Prog World A) (K : option A → Prog Server unit) :
  Composed p → (∀ o, Sim (K o) None) → Sim (attempt (onPart worldPart p) ≫= K) None.
Proof.
  intros Hp HK. induction Hp as [a| |B f next Hf _ IH|B who p k Hp _ IH]; [apply HK..| |].
  - cbn. apply sim_silent.
    + intros s b s'. destruct (f (world s)) as [[b' w]|] eqn:E; intros [= <- <-]; [|done]. by apply (Hf _ _ _ E).
    + intros s b s' _. destruct b; [apply IH|apply HK].
  - apply sim_start with (answered p); [by exists who|]. by apply sim_request.
Qed.

(** A program that leaves the tables and stores alone. *)
Notation Quiet p := (Keeps (λ _, True) (λ s s' : Server, world s' = world s) p (λ _, True)).

Lemma sim_quiet {A} (p : Prog Server A) (K : A → Prog Server unit) :
  Quiet p → (∀ a, Sim (K a) None) → Sim (p ≫= K) None.
Proof.
  intros Hp HK. induction p as [a| |B f next IH]; [apply HK|apply sim_raise|]. cbn in *.
  apply sim_silent; intros s b s' E; destruct (Hp s b s' I E) as [Hw Hn]; [done|by apply IH].
Qed.

Lemma quiet_bind {A B} (p : Prog Server A) (k : A → Prog Server B) : Quiet p → (∀ a, Quiet (k a)) → Quiet (p ≫= k).
Proof. intros Hp Hk. apply (Keeps_bind _ _ _ _ (λ _, True)); [done|]. intros a _. apply Hk. Qed.

Lemma quiet_limiter {A} part (call : Z → RateLimiter → A * RateLimiter) : Quiet (onLimiter part call).
Proof. unfold onLimiter, exec. apply Keeps_statement. intros s a s' _. case_match. by intros [= <- <-]. Qed.

Lemma quiet_query {A} (f : Server → A) : Quiet (query f).
Proof. apply Keeps_statement. by intros s a s' _ [= _ <-]. Qed.

Lemma quiet_release {A} (p : Prog ReleaseWorld A) : Quiet (attempt (onPart releasePart p)).
Proof.
  induction p as [a| |B f next IH]; [done..|]. cbn. intros s b s' _.
  destruct (f (releaseWorld s)) as [[b' w]|]; intros [= <- <-]; by split.
Qed.

Ltac quiet := repeat first [apply quiet_query | apply quiet_limiter | apply quiet_bind; intros | done | case_match].

Lemma quiet_filters r c : Quiet (filtered (filtersOf config r) c).
Proof.
  assert (∀ f c, f ∈ filtersOf config r → Quiet (f c)) as Hf.
  { intros f c'. assert (∀ part key said c p, Quiet p → Quiet (limited config part key said c p)) as Hl
      by (intros; unfold limited; quiet).
    assert (f ∈ [AuthRateLimitFilter config; MailRateLimitFilter config; CrashRateLimitFilter config; JwtAuthFilter config;
                 AdminSurfaceFilter config; AdminOperatorFilter config] → Quiet (f c')) as Hall.
    { rewrite !elem_of_cons, elem_of_nil. intros [->|[->|[->|[->|[->|[->|[]]]]]]];
        unfold AuthRateLimitFilter, MailRateLimitFilter, CrashRateLimitFilter, JwtAuthFilter, AdminSurfaceFilter,
          AdminOperatorFilter;
        repeat first [apply Hl | progress quiet]. }
    intros Hin. apply Hall. revert Hin. destruct r; cbn; rewrite ?elem_of_cons, ?elem_of_nil; tauto. }
  revert c Hf. induction (filtersOf config r) as [|f rest IH]; intros c Hf; cbn [filtered]; [done|].
  apply quiet_bind; [apply Hf; by left|]. intros [resp|c']; [done|]. apply IH. intros g c'' Hg. apply Hf. by right.
Qed.

Lemma Task_sim p : Task p → Sim p None.
Proof.
  destruct 1 as [r request| | |].
  - unfold answered, serve. case_match; [apply sim_done|]. rewrite bind_assoc.
    apply sim_quiet; [apply quiet_filters|]. intros [resp|c']; [apply sim_done|]. rewrite bind_assoc.
    assert (∀ r, Sim (attempt (onPart worldPart (worldHandler config version verifyEmailHtml passwordResetHtml indexHtml emptyObject r c'))
      ≫= λ o, mret (respond config c' o) ≫= λ _, Done tt) None) as Hw.
    { intros r'. apply sim_composed; [apply worldHandler_composed|]. intros o. apply sim_done. }
    destruct r; try apply Hw. apply sim_quiet; [apply quiet_release|]. intros o. apply sim_done.
  - apply sim_composed; [|intros; apply sim_done]. eapply Composed_alone, request_sweep.
  - apply sim_composed; [|intros; apply sim_done]. eapply Composed_alone, request_collect.
  - apply sim_composed; [|intros; apply sim_done]. eapply Composed_alone, request_crash_sweep.
Qed.

(** ** Pools *)

Definition requestsOf (os : list (option (Prog World unit))) : list (Prog World unit) := omap id os.

Lemma advance_somewhere {B} (g : World → option (B * World)) after w b w' qs rest :
  qs ≡ₚ Step g after :: rest → g w = Some (b, w') →
  ∃ qs', reachable systemStep (w, qs) (w', qs') ∧ qs' ≡ₚ after b :: rest.
Proof.
  intros Hq Hg. assert (Step g after ∈ qs) as (qs1 & qs2 & ->)%list_elem_of_split by (rewrite Hq; by left).
  exists (qs1 ++ after b :: qs2). split.
  - eapply reachable_step; [apply reachable_refl|by apply pool_advance].
  - rewrite <- Permutation_middle in *. f_equiv. by apply Permutation_cons_inv in Hq.
Qed.

Lemma refused_somewhere {B} (g : World → option (B * World)) after w qs rest :
  qs ≡ₚ Step g after :: rest → g w = None → ∃ qs', reachable systemStep (w, qs) (w, qs') ∧ qs' ≡ₚ rest.
Proof.
  intros Hq Hg. assert (Step g after ∈ qs) as (qs1 & qs2 & ->)%list_elem_of_split by (rewrite Hq; by left).
  exists (qs1 ++ qs2). split.
  - eapply reachable_step; [apply reachable_refl|by apply pool_refused].
  - rewrite <- Permutation_middle in Hq. by apply Permutation_cons_inv in Hq.
Qed.

(** One statement of a task is a few steps of its request, or none. *)
Lemma sim_statement p o :
  Sim p o →
  match p with
  | Step f next => ∀ s b s' qs rest,
      f s = Some (b, s') → qs ≡ₚ option_list o ++ rest →
      ∃ o' dead qs', reachable systemStep (world s, qs) (world s', qs') ∧ Sim (next b) o' ∧ qs' ≡ₚ option_list o' ++ dead ++ rest
  | _ => True
  end.
Proof.
  induction 1 as [| |B f next Hw Hn _|p q Hq Hs IH|p q Hs IH|B f g next after Hf Hn _ HN _]; [done|done|..].
  - intros s b s' qs rest E Hq. exists None, [], qs. split_and!; [|by eapply Hn|done]. rewrite (Hw _ _ _ E). apply reachable_refl.
  - destruct p as [| |B f next]; [done..|]. intros s b s' qs rest E Hqs.
    destruct (IH s b s' (q :: qs) rest E) as (o' & dead & qs' & Hr & Hs' & Hq'); [by rewrite Hqs|].
    exists o', dead, qs'. split_and!; [|done..]. eapply reachable_trans; [|exact Hr].
    eapply reachable_step; [apply reachable_refl|by apply pool_arrive].
  - destruct p as [| |B f next]; [done..|]. intros s b s' qs rest E Hqs.
    destruct (IH s b s' qs (q :: rest) E Hqs) as (o' & dead & qs' & Hr & Hs' & Hq').
    exists o', (dead ++ [q]), qs'. split_and!; [done..|]. by rewrite <- (assoc_L (++) dead).
  - intros s b s' qs rest E Hqs. rewrite Hf in E. unfold attempted in E. cbn in Hqs.
    destruct (g (world s)) as [[c w]|] eqn:Eg; injection E as <- <-.
    + destruct (advance_somewhere g after _ _ _ qs rest Hqs Eg) as (qs' & Hr & Hq'). by exists (Some (after c)), [], qs'.
    + destruct (refused_somewhere g after _ qs rest Hqs Eg) as (qs' & Hr & Hq'). by exists None, [], qs'.
Qed.

(** The server's pool, and one of the services with the same tables and stores, which has the
    request each task is in the middle of, and some that nobody goes on with. *)
Definition Refines (c : Pool (W := Server)) (d : Pool (W := World)) : Prop :=
  d.1 = world c.1 ∧ ∃ os dead, Forall2 Sim c.2 os ∧ d.2 ≡ₚ requestsOf os ++ dead.

Lemma requestsOf_app os1 o os2 : requestsOf (os1 ++ o :: os2) ≡ₚ option_list o ++ requestsOf os1 ++ requestsOf os2.
Proof. unfold requestsOf. rewrite omap_app. destruct o as [q|]; cbn; [by rewrite <- Permutation_middle|done]. Qed.

Lemma refines_step c c' d : Refines c d → serverStep c c' → ∃ d', reachable systemStep d d' ∧ Refines c' d'.
Proof.
  destruct d as [w qs]. intros [Ew (os & dead & Hos & Hqs)] Hstep. cbn in *. subst w.
  destruct Hstep as [s ps p Hp|s s' ps1 ps2 B f next b E|s ps1 ps2 B f next E|s s' ps Hd]; cbn in *.
  - exists (world s, qs). split; [apply reachable_refl|]. split; [done|]. exists (None :: os), dead.
    split; [|done]. constructor; [by apply Task_sim|done].
  - apply Forall2_app_inv_l in Hos as (os1 & os2 & Hos1 & Hos2 & ->). inversion Hos2 as [|? o ? os2' Ho Hos3]; subst.
    rewrite requestsOf_app, <- !(assoc_L (++)) in Hqs.
    destruct (sim_statement _ _ Ho s b s' qs _ E Hqs) as (o' & dead' & qs' & Hr & Ho' & Hqs').
    exists (world s', qs'). split; [done|]. split; [done|]. exists (os1 ++ o' :: os2'), (dead' ++ dead). split.
    + by apply Forall2_app; [|constructor].
    + cbn. rewrite Hqs', requestsOf_app. solve_Permutation.
  - apply Forall2_app_inv_l in Hos as (os1 & os2 & Hos1 & Hos2 & ->). inversion Hos2 as [|? o ? os2' Ho Hos3]; subst.
    exists (world s, qs). split; [apply reachable_refl|]. split; [done|]. exists (os1 ++ os2'), (option_list o ++ dead). split.
    + by apply Forall2_app.
    + cbn. rewrite Hqs, requestsOf_app. unfold requestsOf. rewrite omap_app. solve_Permutation.
  - destruct Hd as [w now Hw|r].
    + exists (w, qs). split; [eapply reachable_step; [apply reachable_refl|by apply pool_drift]|]. split; [done|]. by exists os, dead.
    + exists (world s, qs). split; [apply reachable_refl|]. split; [done|]. by exists os, dead.
Qed.

Lemma refines_reachable c c' d : Refines c d → reachable serverStep c c' → ∃ d', reachable systemStep d d' ∧ Refines c' d'.
Proof.
  intros Hc Hr. induction Hr as [|c1 c2 _ (d1 & Hd1 & HR1) Hstep]; [exists d; split; [apply reachable_refl|done]|].
  destruct (refines_step c1 c2 d1 HR1 Hstep) as (d2 & Hd2 & HR2). exists d2. split; [by eapply reachable_trans|done].
Qed.

(** C3: The server refines the services: whatever requests arrive on whatever routes, with the filters, the
    limiters, the timers and the exceptions in between, and however their statements interleave, the
    tables and stores go through nothing but what requests to the services alone could have done to
    them, so that all that holds of every interleaving of those holds of the server; and so it goes on
    from there. *)
Theorem server_refines s c :
  reachable serverStep (s, []) c →
  ∃ d, reachable systemStep (world s, []) d ∧ d.1 = world c.1
    ∧ ∀ c', reachable serverStep c c' → ∃ d', reachable systemStep d d' ∧ d'.1 = world c'.1.
Proof.
  intros Hr. assert (Refines (s, []) (world s, [])) as HR0.
  { split; [done|]. exists [], []. by split. }
  destruct (refines_reachable _ c _ HR0 Hr) as (d & Hd & HR). exists d. split_and!; [done|apply HR|].
  intros c' Hc'. destruct (refines_reachable c c' d HR Hc') as (d' & Hd' & HR'). exists d'. split; [done|apply HR'].
Qed.

(** What holds of the services holds of the server: the invariant of all tables and stores at any time, and of
    the accounts at any two. *)
Corollary server_safe s c c' :
  SysInv (world s) → reachable serverStep (s, []) c → reachable serverStep c c' →
  SysInv (world c'.1) ∧ AccountsKept (world c.1) (world c'.1).
Proof.
  intros HI Hr Hr'. assert (Refines (s, []) (world s, [])) as HR0.
  { split; [done|]. exists [], []. by split. }
  destruct (refines_reachable _ c _ HR0 Hr) as (d & Hd & HR), (refines_reachable c c' d HR Hr') as (d' & Hd' & HR').
  destruct HR as [<- _], HR' as [<- _]. split.
  - eapply system_inv; [exact HI|]. by eapply reachable_trans.
  - by eapply system_accounts.
Qed.
End Refinement.
