(* ===== verification/Administration.v ===== *)
(** What operators can and cannot do, each request run alone: an operator always remains,
    permissions are asked for, an erasure leaves nothing of the person, and a temporary
    password replaces everything the old one reached. *)

From S2P Require Import Prelude.
From S2P Require Import Errors.
From S2P Require Import Validation.
From S2P Require Import Actors.
From S2P Require Import Hash.
From S2P Require Import Programs.
From S2P Require Import Random.
From S2P Require Import World.
From S2P Require Import Accounts.
From S2P Require Import AuditLog.
From S2P Require Import MailTemplates.
From S2P Require Import AuthService.
From S2P Require Import AccountSafety.
From S2P Require Import AdminRepositories.
From S2P Require Import AdminUserService.

#[local] Arguments updateWhere : simpl never.
#[local] Arguments deleteWhere : simpl never.
#[local] Arguments insertRow : simpl never.
#[local] Arguments anyWhere : simpl never.
#[local] Arguments selectWhere : simpl never.
#[local] Arguments selectFirst : simpl never.

(** ** Specification *)

(** Accounts from which users can be managed: the way back in. *)
Definition operator (w : World) (u : UserRow) : Prop :=
  u ∈ users w ∧ activeHolder permissions.ADMIN_USERS_MANAGE w u = true.

(** The requests that change accounts, and who makes them. *)
Inductive Manages `{Sodium, PasswordHasher, Postgres} (actor : Actor) : ∀ {A}, Prog World A → Prop :=
| manages_quota id quota : Manages actor (setUploadQuota actor id quota)
| manages_active id active : Manages actor (setActive actor id active)
| manages_password id : Manages actor (setTemporaryPassword actor id)
| manages_grant id role : Manages actor (grantRole actor id role)
| manages_revoke id role : Manages actor (revokeRole actor id role)
| manages_erase command : Manages actor (eraseAccount actor command).

(** The token says what the account may do now, as far as managing users goes. *)
Definition freshToken (actor : Actor) (w : World) : Prop :=
  ∀ u, u ∈ users w → userIs (actorUserId actor) u = true →
    reaches permissions.ADMIN_USERS_MANAGE w u = true → can actor permissions.ADMIN_USERS_MANAGE = true.

(** ** Operators remain *)

Lemma reaches_more permission w w' u u' :
  userId u' = userId u → rolePermissions w' = rolePermissions w →
  (∀ grant, grant ∈ roleGrants w → uuidEq grant.1 (userId u) = true → grant ∈ roleGrants w') →
  reaches permission w u = true → reaches permission w' u' = true.
Proof.
  intros Ei Ep Hg. unfold reaches. rewrite !anyWhere_true, Ei, Ep. intros (held & Hh & Hp).
  exists held. split; [|done]. apply andb_true_iff in Hp as [Hid _]. by apply Hg.
Qed.

Lemma still_operator w w' u u' :
  operator w u → u' ∈ users w' → userId u' = userId u → isActive u' = isActive u →
  rolePermissions w' = rolePermissions w →
  (∀ grant, grant ∈ roleGrants w → uuidEq grant.1 (userId u) = true → grant ∈ roleGrants w') → operator w' u'.
Proof.
  intros [Hu [Hr Ha]%andb_true_iff] Hu' Ei Ea Ep Hg. split; [done|]. unfold activeHolder.
  by rewrite (reaches_more _ w w' u u'), Ea.
Qed.

(** The row of an account after another may have changed. *)
Lemma updated_row id f us u :
  u ∈ us → (if userIs id u then f u else u) ∈ updateWhere (userIs id) f us.
Proof. intros Hu. apply elem_of_updateWhere. by exists u. Qed.

Section Statements.
Context `{Sodium, PasswordHasher, Postgres}.

Lemma perform_others permission id w {A} (k : Z → Prog World A) :
  perform (adminUsers_countOtherHoldersOf permission id ≫= k) w =
  perform (k (Z.of_nat (length (selectWhere (λ u, activeHolder permission w u && negb (userIs id u)) (users w))))) w.
Proof. done. Qed.

Lemma others_exist id w :
  0 < Z.of_nat (length (selectWhere (λ u, activeHolder permissions.ADMIN_USERS_MANAGE w u && negb (userIs id u)) (users w))) →
  ∃ u, operator w u ∧ userIs id u = false.
Proof.
  destruct (selectWhere _ _) as [|u rest] eqn:E; [cbn; lia|]. intros _.
  assert (u ∈ selectWhere (λ u, activeHolder permissions.ADMIN_USERS_MANAGE w u && negb (userIs id u)) (users w))
    as [Hu [Ha Hi%negb_true_iff]%andb_true_iff]%elem_of_selectWhere by (rewrite E; by left).
  by exists u.
Qed.

(** Past the guard there is another operator; stopped by it, nothing has happened. *)
Lemma refuseIfLast_guards {A} id w (k : Prog World (Result A)) :
  let p := try? _ := refuseIfLastAdministrator id in k in
  perform p w = (Some (failure Conflict LAST_ADMINISTRATOR), w)
  ∨ (∃ u, operator w u ∧ userIs id u = false) ∧ perform p w = perform k w.
Proof.
  cbv zeta. unfold refuseIfLastAdministrator. rewrite perform_assoc, perform_others, perform_ret_bind.
  destruct (0 <? _) eqn:E; [right|by left]. split; [|done]. apply others_exist. by apply Z.ltb_lt.
Qed.

(** A change of one row that leaves whether it is active alone, or of somebody else's. *)
Lemma changeUser_operators id allowed f audit (also : World → World) w r w' u :
  perform (changeUser id allowed f audit also) w = (r, w') →
  (∀ r, userId (f r) = userId r) →
  (∀ w, users (also w) = users w ∧ roleGrants (also w) = roleGrants w ∧ rolePermissions (also w) = rolePermissions w) →
  operator w u → (userIs id u = true → isActive (f u) = isActive u) → ∃ u', operator w' u'.
Proof.
  intros E Hid Halso Hop Hact. cbn in E. destruct (selectFirst (userIs id) (users w)); [|injection E as <- <-; eauto].
  destruct (_ || _) in E; injection E as <- <-; [eauto|].
  destruct (Halso (updateUser id f w)) as (E1 & E2 & E3).
  exists (if userIs id u then f u else u). apply (still_operator w _ u); cbn; rewrite ?E1, ?E2, ?E3; try done.
  - apply updated_row, Hop.
  - destruct (userIs id u); auto.
  - destruct (userIs id u) eqn:Eu; auto.
Qed.

Lemma grantRole_operators id role audit w r w' u :
  operator w u → perform (adminUsers_grantRole id role audit) w = (r, w') → ∃ u', operator w' u'.
Proof.
  intros Hop E. cbn in E. destruct (classifyRoleChange _ _ _ _); try (injection E as <- <-; eauto).
  destruct (negb _) in E; injection E as <- <-; [eauto|]. exists u.
  apply (still_operator w _ u); [done|apply Hop|done..|]. intros grant Hg _. apply elem_of_insertRow. by left.
Qed.

Lemma revokeRole_operators id role audit w r w' u :
  operator w u → userIs id u = false → perform (adminUsers_revokeRole id role audit) w = (r, w') →
  ∃ u', operator w' u'.
Proof.
  intros Hop Hne E. cbn in E. destruct (classifyRoleChange _ _ _ _); try (injection E as <- <-; eauto).
  destruct (negb _) in E; injection E as <- <-; [eauto|]. exists u.
  apply (still_operator w _ u); [done|apply Hop|done..|]. intros grant Hg Hu. apply elem_of_deleteWhere.
  split; [done|]. unfold holdsRole. destruct (uuidEq grant.1 id) eqn:E; [|done].
  apply uuidEq_true in E, Hu. exfalso. apply not_true_iff_false in Hne. apply Hne, uuidEq_true. congruence.
Qed.

Lemma erase_operators id identity audit w r w' u :
  operator w u → userIs id u = false → perform (accounts_erase id identity audit) w = (r, w') →
  ∃ u', operator w' u'.
Proof.
  intros Hop Hne E. cbn in E. repeat case_match; simplify_eq; eauto.
  exists u. apply (still_operator w _ u); [done| |done|done|done|by auto].
  pose proof (updated_row id (anonymised identity) (users w) u (proj1 Hop)) as Hu. by rewrite Hne in Hu.
Qed.

(** A program whose answers do not matter any more. *)
Lemma perform_last {A B} (p : Prog World A) (k : A → B) w :
  (perform (p ≫= λ a, mret (k a)) w).2 = (perform p w).2.
Proof. rewrite perform_bind. by destruct (perform p w) as [[a|] w']. Qed.

Lemma afterRoleChange_world id role change w : (perform (afterRoleChange id role change) w).2 = w.
Proof. unfold afterRoleChange. by destruct (roleChangeError change role). Qed.

Lemma perform_role (p : Prog World RoleChange) id role w :
  (perform (p ≫= afterRoleChange id role) w).2 = (perform p w).2.
Proof.
  rewrite perform_bind. destruct (perform p w) as [[change|] w']; [|done]. apply afterRoleChange_world.
Qed.

End Statements.

Section Operators.
Context `{Sodium, PasswordHasher, Postgres}.

Lemma setUploadQuota_operators actor id quota w :
  (∃ u, operator w u) → ∃ u, operator (perform (setUploadQuota actor id quota) w).2 u.
Proof.
  intros [u Hop]. unfold setUploadQuota. do 2 (case_match; [|by eauto]). case_match; [by eauto|].
  rewrite perform_last. by eapply changeUser_operators; [apply surjective_pairing|..|exact Hop|].
Qed.

Lemma setActive_statement actor id (active : bool) action w u :
  operator w u → (userIs id u = true → active = true) →
  ∃ u', operator (perform (updated ← adminUsers_setActive id active (auditFor actor action id []);
                           mret (summaryOr updated)) w).2 u'.
Proof.
  intros Hop Hu. rewrite perform_last.
  eapply changeUser_operators; [apply surjective_pairing|done|by destruct active|exact Hop|].
  intros Eu. rewrite (Hu Eu). destruct Hop as [_ [_ Ha]%andb_true_iff]. by rewrite Ha.
Qed.

Lemma setActive_operators actor id active w :
  (∃ u, operator w u) → ∃ u, operator (perform (setActive actor id active) w).2 u.
Proof.
  intros [u Hop]. unfold setActive. do 2 (case_match; [|by eauto]). destruct active.
  { change (∃ u, operator (perform (mret (Success tt) ≫= λ _ : VoidResult, updated ← adminUsers_setActive id true
      (auditFor actor auditActions.USER_ACTIVATED id []); mret (summaryOr updated)) w).2 u).
    rewrite perform_ret_bind. by apply (setActive_statement actor id true _ w u). }
  unfold deactivable. destruct (owns actor id); [by exists u|].
  destruct (refuseIfLast_guards id w (updated ← adminUsers_setActive id false
    (auditFor actor auditActions.USER_DEACTIVATED id []); mret (summaryOr updated))) as [->|[(v & Hv & Hne) ->]];
    [by exists u|].
  apply (setActive_statement actor id false _ w v); [done|]. by rewrite Hne.
Qed.

Lemma setTemporaryPassword_operators actor id w :
  (∃ u, operator w u) → ∃ u, operator (perform (setTemporaryPassword actor id) w).2 u.
Proof.
  intros [u Hop]. unfold setTemporaryPassword, hashPassword, draw. do 2 (case_match; [|by eauto]).
  case_match; [by eauto|]. run_statements. case_match; [|by exists u]. rewrite perform_last.
  by eapply changeUser_operators; [apply surjective_pairing|..|exact Hop|].
Qed.

Lemma grantRole_remains actor id role w :
  (∃ u, operator w u) → ∃ u, operator (perform (grantRole actor id role) w).2 u.
Proof.
  intros [u Hop]. unfold grantRole. do 2 (case_match; [|by eauto]). rewrite perform_role.
  by eapply grantRole_operators; [|apply surjective_pairing].
Qed.

Lemma revokeRole_remains actor id role w :
  (∃ u, operator w u) → ∃ u, operator (perform (revokeRole actor id role) w).2 u.
Proof.
  intros [u Hop]. unfold revokeRole. do 2 (case_match; [|by eauto]).
  destruct (refuseIfLast_guards id w (change ← adminUsers_revokeRole id role
    (auditFor actor auditActions.ROLE_REVOKED id [("role"%stdpp, role)]); afterRoleChange id role change))
    as [->|[(v & Hv & Hne) ->]]; [by exists u|].
  rewrite perform_role. by eapply revokeRole_operators; [| |apply surjective_pairing].
Qed.
End Operators.

(** ** Erasure *)

Section Erasure.
Context `{Sodium, PasswordHasher, Postgres}.

(** Whoever has the address an erasure writes. *)
Definition placeholderTaken (id : string) (w : World) : bool :=
  anyWhere (λ u, emailIs (erasedEmailFor id) u && negb (userIs id u)) (users w).

(** What an erasure asks before its one statement. *)
Definition MayErase (actor : Actor) (command : EraseAccountCommand) (w : World) (row : UserRow) : Prop :=
  isUuid (actorUserId actor) = true ∧ size (eraseReason command) ≤ MAX_ERASURE_REASON_LENGTH
  ∧ selectFirst (userIs (actorUserId actor)) (users w) = Some row
  ∧ verify (erasePassword command) (passwordHash row) = true
  ∧ (can actor permissions.ADMIN_USERS_MANAGE = true → ∃ u, operator w u ∧ userIs (actorUserId actor) u = false).

Definition erasureOf (row : UserRow) (command : EraseAccountCommand) : Prog World bool :=
  accounts_erase (userId row)
    (mkErasedIdentity (erasedEmailFor (userId row)) ERASED_DISPLAY_NAME ERASED_PASSWORD_HASH (trim (eraseReason command)))
    (mkNewAudit (userId row) auditActions.USER_ERASED auditEntities.USER (userId row) []).

(** Either nothing has happened, or everything that was asked for held and the statement ran. *)
Lemma perform_erase actor command w r w' :
  perform (eraseAccount actor command) w = (r, w') →
  (∃ e, r = Some (Failure e) ∧ w' = w)
  ∨ ∃ row, MayErase actor command w row
      ∧ perform (erased ← erasureOf row command;
                 mret (if (erased : bool) then Success tt else failure Unauthenticated NO_ACCOUNT_OF_SESSION)) w = (r, w').
Proof.
  unfold eraseAccount, users_findById, notLastAdministrator, MayErase.
  destruct (isUuid _); cbn [negb]; [|intros [= <- <-]; left; by eexists].
  destruct (MAX_ERASURE_REASON_LENGTH <? _) eqn:Er; [intros [= <- <-]; left; by eexists|]. apply Z.ltb_ge in Er.
  run_statements. destruct (selectFirst _ _) as [row|] eqn:Es; [|intros [= <- <-]; left; by eexists]. cbn [fmap option_fmap option_map].
  destruct (verify _ _) eqn:Ev; cbn [negb]; [|intros [= <- <-]; left; by eexists].
  destruct (can actor _) eqn:Ec.
  - rewrite perform_assoc, perform_others, perform_ret_bind. destruct (_ =? 0) eqn:Eo; [intros [= <- <-]; left; by eexists|].
    intros E. right. exists row. split_and!; [done..|intros _; apply others_exist|exact E].
    apply Z.eqb_neq in Eo. lia.
  - rewrite perform_ret_bind. intros E. right. exists row. by split_and!.
Qed.

(** Run where everything it asks for holds. *)
Lemma erase_performs actor command w row :
  MayErase actor command w row →
  perform (eraseAccount actor command) w =
  perform (erased ← erasureOf row command;
           mret (if (erased : bool) then Success tt else failure Unauthenticated NO_ACCOUNT_OF_SESSION)) w.
Proof.
  intros (Hu & Hr & Hs & Hv & Ho). unfold eraseAccount, users_findById, notLastAdministrator.
  rewrite Hu. cbn [negb]. apply Z.ltb_ge in Hr as ->. run_statements. rewrite Hs. cbn [fmap option_fmap option_map].
  change (accountPasswordHash (mapUser row)) with (passwordHash row). rewrite Hv. cbn [negb].
  destruct (can actor _) eqn:Ec; [|by rewrite perform_ret_bind].
  destruct (Ho eq_refl) as (u & [Hin Ha] & Hne). rewrite perform_assoc, perform_others, perform_ret_bind.
  destruct (selectWhere _ _) as [|x l] eqn:E; [|by cbn [length]; rewrite (proj2 (Z.eqb_neq _ _)) by lia].
  assert (u ∈ selectWhere (λ u, activeHolder permissions.ADMIN_USERS_MANAGE w u
    && negb (userIs (actorUserId actor) u)) (users w)) as Hu2 by (apply elem_of_selectWhere; by rewrite Ha, Hne).
  rewrite E in Hu2. by apply not_elem_of_nil in Hu2.
Qed.
End Erasure.

(** ** Operators remain *)

Section Remain.
Context `{Sodium, PasswordHasher, Postgres}.

Lemma userIs_row id row u : userIs id row = true → userIs (userId row) u = userIs id u.
Proof.
  unfold userIs. rewrite uuidEq_true. intros E. apply eq_bool_prop_intro. rewrite !Is_true_true, !uuidEq_true. by rewrite E.
Qed.

Lemma eraseAccount_remains actor command w :
  freshToken actor w → (∃ u, operator w u) → ∃ u, operator (perform (eraseAccount actor command) w).2 u.
Proof.
  intros Hf [u Hop]. destruct (perform (eraseAccount actor command) w) as [r w'] eqn:E.
  destruct (perform_erase _ _ _ _ _ E) as [(e & -> & ->)|(row & (Hu & Hr & Hs & Hv & Ho) & Ep)]; [by exists u|].
  assert (∃ v, operator w v ∧ userIs (actorUserId actor) v = false) as (v & Hv1 & Hv2).
  { destruct (can actor permissions.ADMIN_USERS_MANAGE) eqn:Ec; [by apply Ho|].
    exists u. split; [done|]. apply not_true_iff_false. intros Hi.
    destruct Hop as [Hin [Hreach _]%andb_true_iff]. specialize (Hf u Hin Hi Hreach). congruence. }
  apply selectFirst_Some in Hs as [_ Hrow]. rewrite <- (userIs_row _ _ v Hrow) in Hv2.
  rewrite perform_bind in Ep. destruct (perform (erasureOf row command) w) as [o w1] eqn:Ee.
  assert (w' = w1) as -> by (destruct o; by injection Ep). exact (erase_operators _ _ _ _ _ _ v Hv1 Hv2 Ee).
Qed.

End Remain.

(** ** What an erasure leaves *)

(** Nothing of the person is left: the row that others refer to is anonymous, the address is
    nobody's, and what belonged to the account alone is gone. *)
Record Forgotten (row : UserRow) (w : World) : Prop := {
  nobody's_address : ∀ u, u ∈ users w → userIs (userId row) u = false → emailIs (userEmail row) u = false;
  anonymous_row : ∀ u, u ∈ users w → userIs (userId row) u = true →
    userEmail u = erasedEmailFor (userId row) ∧ displayName u = ERASED_DISPLAY_NAME
    ∧ passwordHash u = ERASED_PASSWORD_HASH ∧ isActive u = false ∧ emailVerifiedAt u = None ∧ lastLoginAt u = None;
  no_sessions : ∀ r, r ∈ refreshTokens w → refreshOwnerIs (userId row) r = false;
  no_links : ∀ r, r ∈ userTokens w → uuidEq (tokenUserId r) (userId row) = false;
  no_library : ∀ r, r ∈ userGames w → uuidEq (libraryUserId r) (userId row) = false;
  no_trace : ∀ e, e ∈ downloadEvents w → uuidEq (eventUserId e) (userId row) = false
}.

(** What is not the person's is as it was: other accounts with their sessions and libraries,
    the catalog, and how many downloads there were of what. *)
Record Untouched (row : UserRow) (w w' : World) : Prop := {
  same_others : selectWhere (λ u, negb (userIs (userId row) u)) (users w')
                = selectWhere (λ u, negb (userIs (userId row) u)) (users w);
  same_count : length (users w') = length (users w);
  other_sessions : ∀ r, r ∈ refreshTokens w → refreshOwnerIs (userId row) r = false → r ∈ refreshTokens w';
  other_links : ∀ r, r ∈ userTokens w → uuidEq (tokenUserId r) (userId row) = false → r ∈ userTokens w';
  other_libraries : ∀ r, r ∈ userGames w → uuidEq (libraryUserId r) (userId row) = false → r ∈ userGames w';
  same_downloads : map (λ e, (eventGameId e, eventBuildId e, bytesPlanned e)) (downloadEvents w')
                   = map (λ e, (eventGameId e, eventBuildId e, bytesPlanned e)) (downloadEvents w);
  same_catalog : games w' = games w ∧ versions w' = versions w ∧ builds w' = builds w ∧ buildFiles w' = buildFiles w
    ∧ blobs w' = blobs w ∧ gameMedia w' = gameMedia w ∧ patchNotes w' = patchNotes w ∧ files w' = files w
    ∧ roleGrants w' = roleGrants w ∧ crashReports w' = crashReports w
}.

Section Forgetting.
Context `{Sodium, PasswordHasher, Postgres}.

Lemma eventWithoutUser_nobody id e :
  id ≠ ""%stdpp → uuidEq (eventUserId (eventWithoutUser e)) id = false.
Proof.
  intros Hid. apply not_true_iff_false. rewrite uuidEq_true. cbn. intros E. apply Hid.
  destruct id; [done|]. discriminate.
Qed.

Lemma selectWhere_updated {Row} (p q : Row → bool) f t :
  (∀ r, p r = true → q r = false ∧ q (f r) = false) → selectWhere q (updateWhere p f t) = selectWhere q t.
Proof.
  intros Hf. unfold selectWhere, updateWhere. induction t as [|r t IH]; [done|]. cbn.
  destruct (p r) eqn:E; cbn; [|by rewrite IH]. destruct (Hf r E) as [-> ->]. done.
Qed.

(** The statement on the row it looked at. *)
Definition entryOf (row : UserRow) : NewAuditEntry :=
  mkNewAudit (userId row) auditActions.USER_ERASED auditEntities.USER (userId row) [].

Definition forgotten (row : UserRow) (command : EraseAccountCommand) (w : World) : World :=
  insertAudit (entryOf row) (forgetUser (userId row) (trim (eraseReason command))
    (updateUser (userId row)
       (anonymised (mkErasedIdentity (erasedEmailFor (userId row)) ERASED_DISPLAY_NAME ERASED_PASSWORD_HASH
          (trim (eraseReason command)))) w)).

Lemma own_row w id row :
  AccountsOk w → selectFirst (userIs id) (users w) = Some row →
  ∀ u, u ∈ users w → userIs (userId row) u = true → u = row.
Proof.
  intros Hok Hs u Hu Hid. apply (same_user w id row u Hok Hs Hu). apply selectFirst_Some in Hs as [_ Hrow].
  by rewrite (userIs_row _ _ _ Hrow) in Hid.
Qed.

Lemma forgotten_Forgotten row command id w :
  AccountsOk w → id ≠ ""%stdpp → selectFirst (userIs id) (users w) = Some row → Forgotten row (forgotten row command w).
Proof.
  intros Hok Hne Hs. pose proof Hs as [Hin Hid]%selectFirst_Some. pose proof (own_row w id row Hok Hs) as Hown.
  split; cbn.
  - intros u' (u & Hu & ->)%elem_of_updateWhere. destruct (userIs (userId row) u) eqn:Eu;
      [intros Ea; change (userIs (userId row) u = false) in Ea; congruence|]. intros _.
    apply not_true_iff_false. unfold emailIs. rewrite citextEq_true. intros E.
    assert (u = row) as ->; [by apply (key_inj (λ r, lowerText (userEmail r)) (users w)); [apply Hok|..]|].
    unfold userIs in Eu. by rewrite uuidEq_refl in Eu.
  - intros u' (u & Hu & ->)%elem_of_updateWhere. destruct (userIs (userId row) u) eqn:Eu; [|congruence].
    by rewrite (Hown u Hu Eu).
  - by intros r [_ ?]%elem_of_deleteWhere.
  - by intros r [_ ?]%elem_of_deleteWhere.
  - by intros r [_ ?]%elem_of_deleteWhere.
  - intros e' (e & He & ->)%elem_of_updateWhere. destruct (uuidEq (eventUserId e) (userId row)) eqn:Ee; [|done].
    apply eventWithoutUser_nobody. intros E. unfold userIs in Hid. rewrite E, uuidEq_true in Hid. apply Hne.
    by destruct id.
Qed.

Lemma forgotten_Untouched row command w : Untouched row w (forgotten row command w).
Proof.
  split; cbn; [|unfold updateWhere; by rewrite length_map|..].
  - apply selectWhere_updated. intros r E. split; apply negb_false_iff; exact E.
  - intros. by apply elem_of_deleteWhere.
  - intros. by apply elem_of_deleteWhere.
  - intros. by apply elem_of_deleteWhere.
  - by apply updateWhere_keys.
  - done.
Qed.

Lemma erasureOf_performs row command w r w' :
  perform (erasureOf row command) w = (r, w') →
  (r = Some true ∧ w' = forgotten row command w ∧ placeholderTaken (userId row) w = false)
  ∨ (r ≠ Some true ∧ w' = w).
Proof.
  unfold erasureOf, placeholderTaken. cbn. repeat case_match; intros [= <- <-]; simplify_eq; try (by right). by left.
Qed.

End Forgetting.

(** ** When an erasure cannot be done *)

(** Ids in another letter case are the ids of the same rows. *)
Lemma lower_hyphen s i : charIs (lowerText s) i "-" = charIs s i "-".
Proof.
  unfold charIs, lowerText. rewrite chars_text. change (map tolower (chars s)) with (tolower <$> chars s). rewrite list_lookup_fmap. destruct (chars s !! i) as [c|]; [|done]. by every_byte c.
Qed.

Lemma lower_hex s i : from_option isxdigit false (chars (lowerText s) !! i) = from_option isxdigit false (chars s !! i).
Proof.
  unfold lowerText. rewrite chars_text. change (map tolower (chars s)) with (tolower <$> chars s). rewrite list_lookup_fmap. destruct (chars s !! i) as [c|]; [|done]. by every_byte c.
Qed.

Lemma forallb_same {X} (p q : X → bool) l : (∀ x, p x = q x) → forallb p l = forallb q l.
Proof. intros E. induction l as [|x l IH]; cbn; [done|]. by rewrite E, IH. Qed.

Lemma isUuid_lower s : isUuid (lowerText s) = isUuid s.
Proof.
  unfold isUuid. replace (size (lowerText s)) with (size s)
    by (unfold size, lowerText; by rewrite chars_text, length_map).
  destruct (negb _); [done|]. rewrite (forallb_same _ _ UUID_HYPHENS (lower_hyphen s)).
  destruct (negb _); [done|]. apply forallb_same. intros i. by rewrite lower_hex.
Qed.

Section Blocked.
Context `{Sodium, PasswordHasher, Postgres}.

(** The address an erasure writes is not reserved for it: where another account has registered it, the
    erasure that everything else allows fails in the database, whenever it is asked for, and leaves the
    account as it was; with the address free it succeeds. *)
Theorem erasure_blocked actor command w row :
  MayErase actor command w row → emailIs (erasedEmailFor (userId row)) row = false →
  perform (eraseAccount actor command) w
  = if placeholderTaken (userId row) w then (None, w) else (Some (Success tt), forgotten row command w).
Proof.
  intros HM Hn. rewrite (erase_performs _ _ _ _ HM). pose proof HM as (Hu & _ & Hs & _).
  apply selectFirst_Some in Hs as [Hin Hid]. unfold erasureOf. cbn.
  destruct (selectFirst _ (users w)) as [u|] eqn:Es.
  2: { rewrite selectFirst_None in Es. specialize (Es row Hin). unfold userIs in Es. by rewrite uuidEq_refl, Hn in Es. }
  fold (placeholderTaken (userId row) w). destruct (placeholderTaken _ _); [done|].
  assert (auditActorFits (userId row) w = true) as ->; [|done].
  unfold auditActorFits. apply orb_true_iff. right. apply andb_true_iff. split.
  - unfold userIs in Hid. apply uuidEq_true in Hid. rewrite <- (isUuid_lower (userId row)), Hid. by rewrite isUuid_lower.
  - apply anyWhere_true. exists row. split; [done|]. apply uuidEq_refl.
Qed.
End Blocked.

(** ** Temporary passwords *)

(** The account opens with the new password, which must be changed; whoever was signed
    in is not any more, no link that would set another password works, and nobody else's
    account, session or link is different. *)
Record HandedOver `{PasswordHasher} (id password : string) (w w' : World) : Prop := {
  opens_with : ∀ u, u ∈ users w' → userIs id u = true →
    verify password (passwordHash u) = true ∧ passwordChangeRequired u = true;
  signed_out : ∀ r, r ∈ refreshTokens w' → refreshOwnerIs id r = true → unrevoked r = false;
  links_spent : ∀ r, r ∈ userTokens w' → uuidEq (tokenUserId r) id = true → purposeIs PasswordReset r = true →
    unconsumed r = false;
  others_same : selectWhere (λ u, negb (userIs id u)) (users w') = selectWhere (λ u, negb (userIs id u)) (users w);
  others_signed_in : selectWhere (λ r, negb (refreshOwnerIs id r)) (refreshTokens w')
    = selectWhere (λ r, negb (refreshOwnerIs id r)) (refreshTokens w);
  other_links_work : selectWhere (λ r, negb (uuidEq (tokenUserId r) id)) (userTokens w')
    = selectWhere (λ r, negb (uuidEq (tokenUserId r) id)) (userTokens w)
}.

Section TemporaryPasswords.
Context `{Sodium, PasswordHasher, Postgres}.

(** C28: A temporary password is set only by an operator, on an account whose id is not written as its own;
    the hash it keeps is then that of the password the response shows, which must be replaced;
    every session of the account has ended and every reset link is spent; no other account, session or link
    has changed; and the log has one more entry, which holds nothing of the password. *)
Theorem temporaryPassword_correct actor id w t w' :
  perform (setTemporaryPassword actor id) w = (Some (Success t), w') →
  can actor permissions.ADMIN_USERS_MANAGE = true ∧ owns actor id = false
  ∧ HandedOver id (temporaryPassword t) w w'
  ∧ auditLog w' = auditLog w
      ++ [auditRow (clock w) (mkNewAudit (actorUserId actor) auditActions.USER_TEMPORARY_PASSWORD_SET
                                auditEntities.USER id [])].
Proof.
  unfold setTemporaryPassword, requirePermission, hashPassword, draw.
  destruct (can actor _); [|done]. destruct (requireUserId id); [|done]. destruct (owns actor id); [done|].
  run_statements. destruct (hash _ _) as [encoded|] eqn:Eh; [|done]. apply verify_hash in Eh. cbn.
  destruct (selectFirst _ _) as [row|]; [|done]. destruct (negb _); [done|]. intros [= <- <-].
  split_and!; [done|done| |done]. split; cbn.
  - intros u' (u & Hu & ->)%elem_of_updateWhere. destruct (userIs id u) eqn:Eu; [by intros _|by rewrite Eu].
  - intros r' (r & Hr & ->)%elem_of_updateWhere. destruct (_ && _) eqn:E; [done|]. intros Ho. by rewrite Ho in E.
  - intros r' (r & Hr & ->)%elem_of_updateWhere. destruct (_ && _) eqn:E; [done|]. intros Ho Hp.
    by rewrite Ho, Hp in E.
  - apply selectWhere_updated. intros u E. split; apply negb_false_iff; exact E.
  - apply selectWhere_updated. intros r [E _]%andb_true_iff. split; apply negb_false_iff; exact E.
  - apply selectWhere_updated. intros r [[E _]%andb_true_iff _]%andb_true_iff. split; apply negb_false_iff; exact E.
Qed.
End TemporaryPasswords.

(** ** Who is refused *)

(** What each request of the console asks of the token. *)
Inductive Needs `{Sodium, PasswordHasher, Postgres} (actor : Actor) : string → ∀ {A}, Prog World (Result A) → Prop :=
| needs_list q : Needs actor permissions.ADMIN_USERS_MANAGE (listUsers actor q)
| needs_find id : Needs actor permissions.ADMIN_USERS_MANAGE (findUser actor id)
| needs_quota id quota : Needs actor permissions.ADMIN_USERS_MANAGE (setUploadQuota actor id quota)
| needs_active id active : Needs actor permissions.ADMIN_USERS_MANAGE (setActive actor id active)
| needs_temporary id : Needs actor permissions.ADMIN_USERS_MANAGE (setTemporaryPassword actor id)
| needs_grant id role : Needs actor permissions.ADMIN_ROLES_MANAGE (grantRole actor id role)
| needs_revoke id role : Needs actor permissions.ADMIN_ROLES_MANAGE (revokeRole actor id role)
| needs_roles : Needs actor permissions.ADMIN_ROLES_MANAGE (listRoles actor)
| needs_audit q : Needs actor permissions.ADMIN_SETTINGS_MANAGE (listAudit actor q).

Section Refused.
Context `{Sodium, PasswordHasher, Postgres}.

(** Without the permission a request of the console asks for, the answer is a refusal made before any
    statement runs: whatever the database holds and whoever else is running, nothing is read and nothing
    changes. *)
Theorem admin_refused {A} actor permission (p : Prog World (Result A)) :
  Needs actor permission p → can actor permission = false → p = mret (failure Forbidden ADMIN_FORBIDDEN).
Proof.
  intros [] Hc; unfold listUsers, findUser, setUploadQuota, setActive, setTemporaryPassword, grantRole, revokeRole,
    listRoles, listAudit, requirePermission; by rewrite Hc.
Qed.

(** ** Roles *)

(** The grants of others, and of other roles, are as they were. *)
Definition otherGrants (id role : string) (w : World) : list (string * string) :=
  selectWhere (λ grant, negb (holdsRole id role grant)) (roleGrants w).

(** One entry when something changed, none when it was so already. *)
Definition loggedChange (changed : bool) (actor : Actor) (action id role : string) (w w' : World) : Prop :=
  auditLog w' = auditLog w
    ++ if changed then [auditRow (clock w) (auditFor actor action id [("role"%stdpp, role)])] else [].

Definition holds (id role : string) (w : World) : bool := anyWhere (holdsRole id role) (roleGrants w).

Lemma classify_cases id role changed w change :
  classifyRoleChange id role changed w = change →
  match change with
  | NoSuchUser => anyWhere (userIs id) (users w) = false
  | NoSuchRole => role ∉ roleKeys w
  | Applied => changed = true
  | AlreadyInThatState => changed = false
  end.
Proof.
  unfold classifyRoleChange. intros <-. destruct (anyWhere _ _); [|done]. cbn.
  case_bool_decide; [|done]. by destruct changed.
Qed.

Lemma afterRoleChange_success id role change w s w' :
  perform (afterRoleChange id role change) w = (Some (Success s), w') →
  w' = w ∧ (change = Applied ∨ change = AlreadyInThatState)
  ∧ ∃ row, selectFirst (userIs id) (users w) = Some row ∧ s = mapSummary w row.
Proof.
  unfold afterRoleChange. destruct change; cbn; try done; destruct (selectFirst _ _) as [row|];
    intros [= <- <-]; eauto 6.
Qed.

Lemma grant_statement id role audit w change w1 :
  perform (adminUsers_grantRole id role audit) w = (Some change, w1) → change = Applied ∨ change = AlreadyInThatState →
  holds id role w1 = true ∧ otherGrants id role w1 = otherGrants id role w
  ∧ auditLog w1 = auditLog w ++ if negb (holds id role w) then [auditRow (clock w) audit] else [].
Proof.
  intros E Hc. cbn in E. unfold holds, otherGrants.
  destruct (classifyRoleChange _ _ _ _) eqn:Ec; apply classify_cases in Ec; try (injection E as <- <-; by destruct Hc).
  - destruct (auditActorFits _ _); [|done]. injection E as <- <-. rewrite Ec. split_and!; [| |done].
    + cbn. apply anyWhere_true. exists (id, role). split; [apply elem_of_insertRow; by right|].
      unfold holdsRole. cbn. by rewrite uuidEq_refl, bool_decide_eq_true_2.
    + cbn. unfold selectWhere, insertRow. rewrite List.filter_app. cbn. unfold holdsRole at 2. cbn.
      by rewrite uuidEq_refl, bool_decide_eq_true_2, app_nil_r.
  - injection E as <- <-. apply negb_false_iff in Ec. by rewrite Ec, app_nil_r.
Qed.

Lemma revoke_statement id role audit w change w1 :
  perform (adminUsers_revokeRole id role audit) w = (Some change, w1) → change = Applied ∨ change = AlreadyInThatState →
  holds id role w1 = false ∧ otherGrants id role w1 = otherGrants id role w
  ∧ auditLog w1 = auditLog w ++ if holds id role w then [auditRow (clock w) audit] else [].
Proof.
  intros E Hc. cbn in E. unfold holds, otherGrants.
  destruct (classifyRoleChange _ _ _ _) eqn:Ec; apply classify_cases in Ec; try (injection E as <- <-; by destruct Hc).
  - destruct (auditActorFits _ _); [|done]. injection E as <- <-. rewrite Ec. split_and!; [| |done].
    + cbn. apply anyWhere_false. by intros r [_ ?]%elem_of_deleteWhere.
    + clear Ec. cbn. unfold selectWhere, deleteWhere. induction (roleGrants w) as [|g l IH]; [done|]. cbn.
      destruct (holdsRole id role g) eqn:Eg; cbn; rewrite ?Eg; cbn; by rewrite IH.
  - injection E as <- <-. by rewrite Ec, app_nil_r.
Qed.

(** C29: A role that was granted is held and one that was revoked is not, all other grants being as they were;
    the account is answered as it then stands; and the log has one more entry when that changed
    something and none when it was so already, so that asking twice changes and records nothing. *)
Theorem roles_correct actor id role w s w' :
  (perform (grantRole actor id role) w = (Some (Success s), w') →
     can actor permissions.ADMIN_ROLES_MANAGE = true
     ∧ holds id role w' = true ∧ otherGrants id role w' = otherGrants id role w
     ∧ loggedChange (negb (holds id role w)) actor auditActions.ROLE_GRANTED id role w w'
     ∧ ∃ row, selectFirst (userIs id) (users w') = Some row ∧ s = mapSummary w' row)
  ∧ (perform (revokeRole actor id role) w = (Some (Success s), w') →
     can actor permissions.ADMIN_ROLES_MANAGE = true
     ∧ holds id role w' = false ∧ otherGrants id role w' = otherGrants id role w
     ∧ loggedChange (holds id role w) actor auditActions.ROLE_REVOKED id role w w'
     ∧ ∃ row, selectFirst (userIs id) (users w') = Some row ∧ s = mapSummary w' row).
Proof.
  unfold grantRole, revokeRole, requirePermission. destruct (can actor _); [|done].
  destruct (requireUserId id); [|done]. split.
  - rewrite perform_bind. destruct (perform (adminUsers_grantRole _ _ _) w) as [[change|] w1] eqn:E; [|done].
    intros (-> & Hc & Hs)%afterRoleChange_success. by apply grant_statement in E as (H2 & H3 & H4).
  - destruct (refuseIfLast_guards id w (change ← adminUsers_revokeRole id role
      (auditFor actor auditActions.ROLE_REVOKED id [("role"%stdpp, role)]); afterRoleChange id role change))
      as [->|[_ ->]]; [done|].
    rewrite perform_bind. destruct (perform (adminUsers_revokeRole _ _ _) w) as [[change|] w1] eqn:E; [|done].
    intros (-> & Hc & Hs)%afterRoleChange_success. by apply revoke_statement in E as (H2 & H3 & H4).
Qed.
End Refused.
