(* ===== verification/Isolation.v ===== *)
(** Publishers are isolated from each other: whatever those who may not edit a game do, all
    at once and interleaved, nothing of the game changes. *)

From S2P Require Import Prelude.
From S2P Require Import Errors.
From S2P Require Import Validation.
From S2P Require Import Actors.
From S2P Require Import Catalog.
From S2P Require Import Manifest.
From S2P Require Import Media.
From S2P Require Import PatchNote.
From S2P Require Import Hash.
From S2P Require Import BlobStore.
From S2P Require Import Signer.
From S2P Require Import Programs.
From S2P Require Import Random.
From S2P Require Import World.
From S2P Require Import Accounts.
From S2P Require Import MailTemplates.
From S2P Require Import AuthService.
From S2P Require Import AccountSafety.
From S2P Require Import Uploads.
From S2P Require Import CatalogRepositories.
From S2P Require Import ContentRepositories.
From S2P Require Import MediaStore.
From S2P Require Import StorageSafety.
From S2P Require Import CatalogService.
From S2P Require Import PatchNoteService.
From S2P Require Import MediaService.
From S2P Require Import CatalogSafety.
From S2P Require Import UploadService.
From S2P Require Import DownloadService.
From S2P Require Import RetentionService.
From S2P Require Import AuditLog.
From S2P Require Import AdminRepositories.
From S2P Require Import AdminUserService.
From S2P Require Import CrashReportService.
From S2P Require Import AdminSafety.
From S2P Require Import System.

#[local] Arguments updateWhere : simpl never.
#[local] Arguments deleteWhere : simpl never.
#[local] Arguments insertRow : simpl never.
#[local] Arguments anyWhere : simpl never.

(** ** Specification *)

(** Two tables have the same rows among those a condition holds of. *)
Definition agreeOn {Row} (P : Row → Prop) (t t' : list Row) : Prop := ∀ r, P r → (r ∈ t' ↔ r ∈ t).

(** What belongs to a game. *)
Definition rowOf {Row} (key : Row → string) (game : string) (r : Row) : Prop := lowerText (key r) = lowerText game.

#[export] Instance rowOf_dec {Row} (key : Row → string) game r : Decision (rowOf key game r) := decide (_ = _).

Definition buildOf (game : string) (w : World) (b : Build) : Prop :=
  ∃ v, v ∈ versions w ∧ rowOf versionGameId game v ∧ lowerText (versionId v) = lowerText (buildVersionId b).

Definition fileOf (game : string) (w : World) (r : BuildFileRow) : Prop :=
  ∃ b, b ∈ builds w ∧ buildOf game w b ∧ lowerText (buildId b) = lowerText (fileBuildId r).

Record GameKept (game : string) (w w' : World) : Prop := {
  same_game : agreeOn (rowOf gameId game) (games w) (games w');
  same_versions : agreeOn (rowOf versionGameId game) (versions w) (versions w');
  same_builds : agreeOn (buildOf game w) (builds w) (builds w');
  same_files : agreeOn (fileOf game w) (buildFiles w) (buildFiles w');
  same_media : agreeOn (rowOf mediaGameId game) (gameMedia w) (gameMedia w');
  same_notes : agreeOn (rowOf noteGameId game) (patchNotes w) (patchNotes w')
}.

(** The versions a game's patch notes name are its own. *)
Definition ownNotes (game : string) (w : World) : Prop :=
  ∀ n, n ∈ patchNotes w → rowOf noteGameId game n → noteGameVersionId n = ""%stdpp ∨
    ∃ v, v ∈ versions w ∧ rowOf versionGameId game v ∧ lowerText (versionId v) = lowerText (noteGameVersionId n).

(** Those who may not edit a game, and whoever acts for nobody. *)
Definition stranger (g : Game) (who : option Actor) : Prop := ∀ actor, who = Some actor → mayEditGame g actor = false.

(** ** Lemmas on tables *)

Section Agree.
Context {Row : Type}.
Implicit Types (P : Row → Prop) (t : list Row).

Lemma agree_trans P t t1 t2 : agreeOn P t t1 → agreeOn P t1 t2 → agreeOn P t t2.
Proof. intros E1 E2 r Hr. by rewrite (E2 r Hr), (E1 r Hr). Qed.

Lemma agree_insert P t r : ¬ P r → agreeOn P t (insertRow r t).
Proof. intros Hr r' Hr'. rewrite elem_of_insertRow. naive_solver. Qed.

Lemma agree_append P t l : (∀ r, r ∈ l → ¬ P r) → agreeOn P t (t ++ l).
Proof. intros Hl r Hr. rewrite elem_of_app. naive_solver. Qed.

Lemma agree_delete P t p : (∀ r, r ∈ t → P r → p r = false) → agreeOn P t (deleteWhere p t).
Proof. intros Hp r Hr. rewrite elem_of_deleteWhere. naive_solver. Qed.

Lemma agree_update P t p f : (∀ r, r ∈ t → p r = true → ¬ P r ∧ ¬ P (f r)) → agreeOn P t (updateWhere p f t).
Proof.
  intros Hp r Hr. rewrite elem_of_updateWhere. split.
  - intros (r0 & Hr0 & ->). destruct (p r0) eqn:E; [|done]. by destruct (Hp r0 Hr0 E).
  - intros Hin. exists r. split; [done|]. destruct (p r) eqn:E; [|done]. by destruct (Hp r Hin E).
Qed.
End Agree.

(** ** What strangers leave alone *)

Section Strangers.
Context `{Sodium, PasswordHasher, Evp, Md5, Postgres, MailSender, TokenService, Disk}.
Variable g : Game.
Variable w0 : World.
Hypothesis inv0 : SysInv w0.
Hypothesis there0 : g ∈ games w0.
Hypothesis notes0 : ownNotes (gameId g) w0.

Notation game := (gameId g).

Definition Untouched (w : World) : Prop := SysInv w ∧ GameKept game w0 w.

Notation Iso p Q := (Keeps Untouched (λ _, Untouched) p Q).
Notation IsoProg p := (Iso p (λ _, True)).

(** Ids that are of no row of the game. *)
Definition foreignGame (id : string) : Prop := lowerText id ≠ lowerText game.
Definition foreignVersion (id : string) : Prop :=
  ∀ v, v ∈ versions w0 → rowOf versionGameId game v → lowerText (versionId v) ≠ lowerText id.
Definition foreignBuild (id : string) : Prop :=
  ∀ b, b ∈ builds w0 → buildOf game w0 b → lowerText (buildId b) ≠ lowerText id.
Definition foreignMedia (id : string) : Prop :=
  ∀ m, m ∈ gameMedia w0 → rowOf mediaGameId game m → lowerText (mediaId m) ≠ lowerText id.
Definition foreignNote (id : string) : Prop :=
  ∀ n, n ∈ patchNotes w0 → rowOf noteGameId game n → lowerText (noteId n) ≠ lowerText id.

Lemma there w : Untouched w → g ∈ games w.
Proof. intros [_ HK]. by apply (same_game _ _ _ HK). Qed.

Lemma the_game w x : Untouched w → x ∈ games w → rowOf gameId game x → x = g.
Proof.
  intros HU Hx E. apply (key_inj (λ g, lowerText (gameId g)) (games w)); [apply HU|done|by apply there|done].
Qed.

(** ** Reads *)

Lemma iso_query {B} (f : World → B) (Q : B → Prop) : (∀ w, Untouched w → Q (f w)) → Iso (query f) Q.
Proof. intros HQ w b w' HU [= <- <-]. split; [done|]. by apply HQ. Qed.

Lemma iso_read {B} (f : World → B) : IsoProg (query f).
Proof. by apply iso_query. Qed.

(** A statement of the catalog, with what it does to the tables. *)
Lemma iso_statement {B} (f : World → option (B * World)) Q :
  Keeps SysInv SysKept (statement f) Q →
  (∀ w b w', Untouched w → f w = Some (b, w') → GameKept game w0 w') → Iso (statement f) Q.
Proof. intros Hk Hf w b w' HU E. destruct (Hk w b w' (proj1 HU) E) as [[HI _ _] HQ]. split; [|exact HQ]. split; [done|by eapply Hf]. Qed.

(** The tables a game is kept in. *)
Definition SameContent (w w' : World) : Prop :=
  games w' = games w ∧ versions w' = versions w ∧ builds w' = builds w ∧ buildFiles w' = buildFiles w
  ∧ gameMedia w' = gameMedia w ∧ patchNotes w' = patchNotes w.

Lemma same_content w w' : Untouched w → SameContent w w' → GameKept game w0 w'.
Proof. intros [_ []] (E1 & E2 & E3 & E4 & E5 & E6). split; by rewrite ?E1, ?E2, ?E3, ?E4, ?E5, ?E6. Qed.

Lemma iso_elsewhere {B} (f : World → option (B * World)) Q :
  Keeps SysInv SysKept (statement f) Q →
  (∀ w b w', f w = Some (b, w') → SameContent w w') → Iso (statement f) Q.
Proof. intros Hk Hf. apply iso_statement; [done|]. intros w b w' HU E. by eapply same_content; [|eapply Hf]. Qed.

Lemma iso_go {A} (p : Prog World A) Q : Keeps SysInv SysGo p Q → Iso p Q.
Proof.
  apply Keeps_weaken; [by intros w []| |done]. intros w w' HU [HI _ HC _]. split; [done|].
  apply (same_content w); [done|]. destruct HC as (? & ? & ? & ? & ? & ? & _). by split_and!.
Qed.

Lemma gameWith_row w p x : gameWith w p = Some x → ∃ r, r ∈ games w ∧ p r = true ∧ mapGame w r = Some x.
Proof.
  unfold gameWith. destruct (selectFirst p _) as [r|] eqn:E; [|done]. cbn. intros Hx.
  apply selectFirst_Some in E as [Hr Hp]. eauto.
Qed.

(** A game found for somebody who may edit it is not the one they may not. *)
Lemma found_foreign w p x actor :
  Untouched w → gameWith w p = Some x → mayEditGame x actor = true → mayEditGame g actor = false →
  foreignGame (gameId x).
Proof.
  intros HU (r & Hr & _ & [Ei Ep]%mapGame_own)%gameWith_row Hx Hg E.
  rewrite Ei in E. rewrite (the_game w r HU Hr E) in Ep. unfold mayEditGame in *. by rewrite Ep, Hg in Hx.
Qed.

Lemma gameByIdOrSlug_iso actor id :
  mayEditGame g actor = false →
  Iso (gameByIdOrSlug id) (λ found, ∀ x, found = Some x → mayEditGame x actor = true →
    foreignGame (gameId x) ∧ (isUuid id = true → foreignGame id)).
Proof.
  intros Hg. unfold gameByIdOrSlug. destruct (isUuid id) eqn:Eid; apply iso_query; intros w HU x E Hx.
  - assert (foreignGame (gameId x)) as Hf by (by eapply found_foreign). split; [done|]. intros _.
    apply gameWith_row in E as (r & _ & Er%uuidEq_true & [Ei _]%mapGame_own).
    unfold foreignGame in *. congruence.
  - split; [by eapply found_foreign|done].
Qed.

Lemma visibleGame_iso actor id : IsoProg (visibleGame actor id).
Proof.
  unfold visibleGame, gameByIdOrSlug. eapply (Keeps_bind _ _ _ _ (λ _, True)).
  - case_match; apply iso_read.
  - intros [x|] _; apply Keeps_ret; done.
Qed.

Lemma editableGame_iso actor id :
  mayEditGame g actor = false →
  Iso (editableGame actor id) (λ r, ∀ x, r = Success x →
    foreignGame (gameId x) ∧ (isUuid id = true → foreignGame id)).
Proof.
  intros Hg. unfold editableGame, visibleGame.
  apply (Keeps_bind _ _ _ _ (λ r, ∀ x, r = Success x → mayEditGame x actor = true →
    foreignGame (gameId x) ∧ (isUuid id = true → foreignGame id))).
  - eapply Keeps_bind; [by apply (gameByIdOrSlug_iso actor)|]. intros [x|] Hx; apply Keeps_ret; [|done].
    destruct (mayViewGame x actor); [|done]. intros y [= <-]. by apply Hx.
  - intros [x|e] Hx; [|done]. destruct (mayEditGame x actor) eqn:E; apply Keeps_ret; [|done].
    intros y [= <-]. by apply Hx.
Qed.

(** Rows are the only ones with their ids. *)
Lemma version_foreign w v :
  Untouched w → v ∈ versions w → ¬ rowOf versionGameId game v → foreignVersion (versionId v).
Proof.
  intros [(_ & _ & HC) HK] Hv Hn v0 Hv0 Hg E.
  assert (v0 = v); [|congruence]. apply (key_inj (λ v, lowerText (versionId v)) (versions w));
    [apply HC|by apply (same_versions _ _ _ HK)|done|done].
Qed.

Lemma versionOfGame_iso version owner :
  foreignGame owner →
  Iso (versionOfGame version owner) (λ found, ∀ v, found = Some v →
    foreignVersion version ∧ foreignVersion (versionId v)).
Proof.
  intros Hf. unfold versionOfGame. case_match; [by apply Keeps_ret|].
  apply (Keeps_bind _ _ _ _ (λ found, ∀ v, found = Some v → versionGameId v = owner →
    foreignVersion version ∧ foreignVersion (versionId v))).
  - apply iso_query. intros w HU v [Hv Hid%uuidEq_true]%selectFirst_Some Eg.
    assert (foreignVersion (versionId v)) as Hv' by (apply (version_foreign w); [done|done|unfold rowOf; congruence]).
    split; [|done]. unfold foreignVersion in *. by rewrite <- Hid.
  - intros [v|] Hv; [|by apply Keeps_ret]. case_bool_decide; apply Keeps_ret; [|done]. intros ? [= <-]. by apply Hv.
Qed.

(** ** Writes *)

#[local] Hint Resolve iso_read : keeps.

Lemma own_version w v :
  GameKept game w0 w → v ∈ versions w → rowOf versionGameId game v → v ∈ versions w0.
Proof. intros HK Hv E. by apply (same_versions _ _ _ HK). Qed.

(** A game that changes in one table. *)
Ltac kept_parts HU := destruct HU as [? []]; split; cbn; try done.

Lemma games_create_iso new : IsoProg (games_create new).
Proof.
  apply iso_statement; [apply games_create_kept|]. intros w b w' HU E. cbv zeta in E.
  cbn [games users setDraws clock] in E. case_match; [done|].
  destruct (anyWhere (λ g, bool_decide _) (games w)); [injection E as <- <-; by apply (same_content w)|].
  destruct (_ || _) eqn:Ef in E; [done|]. apply orb_false_iff in Ef as [Ei _].
  destruct (mapGame _ _); [|done]. injection E as <- <-. pose proof (there w HU) as Hg.
  kept_parts HU. eapply agree_trans; [done|]. apply agree_insert. intros Eid.
  rewrite anyWhere_false in Ei. specialize (Ei g Hg). apply bool_decide_eq_false in Ei. by rewrite Eid in Ei.
Qed.

Lemma games_update_iso id changes : foreignGame id → IsoProg (games_update id changes).
Proof.
  intros Hf. apply iso_statement; [apply games_update_kept|]. intros w b w' HU E.
  destruct (selectFirst _ _); [|injection E as <- <-; apply HU]. cbv zeta in E. case_match; [done|].
  injection E as <- <-. kept_parts HU. eapply agree_trans; [done|]. apply agree_update.
  intros x _ Hx%uuidEq_true. assert (¬ rowOf gameId game x) by (unfold rowOf, foreignGame in *; congruence). done.
Qed.

Lemma versions_create_iso version : foreignGame (newVersionGameId version) → IsoProg (versions_create version).
Proof.
  intros Hf. apply iso_statement; [apply versions_create_kept|]. intros w b w' HU E. cbv zeta in E.
  cbn [games versions setDraws clock] in E. case_match; [done|].
  destruct (anyWhere (sameVersion _ _) (versions w)); [injection E as <- <-; by apply (same_content w)|].
  destruct (_ || _) in E; [done|]. injection E as <- <-.
  kept_parts HU. eapply agree_trans; [done|]. by apply agree_insert.
Qed.

Lemma versions_update_iso id changes : foreignVersion id → IsoProg (versions_update id changes).
Proof.
  intros Hf. apply iso_statement; [apply versions_update_kept|]. intros w b w' HU [= <- <-].
  pose proof (proj2 HU) as HK. kept_parts HU. eapply agree_trans; [done|]. apply agree_update.
  intros v Hv Hid%uuidEq_true.
  assert (¬ rowOf versionGameId game v) by (intros E; by apply (Hf v); [apply (own_version w)|..]). done.
Qed.

Lemma builds_create_iso build : foreignVersion (newBuildVersionId build) → IsoProg (builds_create build).
Proof.
  intros Hf. apply iso_statement; [apply builds_create_kept|]. intros w b w' HU E. cbv zeta in E.
  cbn [builds versions setDraws clock] in E. case_match; [done|].
  destruct (anyWhere (sameTarget _ _ _) (builds w)); [injection E as <- <-; by apply (same_content w)|].
  destruct (_ || _) in E; [done|]. injection E as <- <-.
  kept_parts HU. eapply agree_trans; [done|]. apply agree_insert.
  intros (v & Hv & Hg & E). by apply (Hf v).
Qed.

(** ** Deletes *)

Lemma own_build w b : GameKept game w0 w → buildOf game w0 b → b ∈ builds w → b ∈ builds w0.
Proof. intros HK Hg Hb. by apply (same_builds _ _ _ HK). Qed.

Lemma dropBuilds_iso p w :
  Untouched w → (∀ b, b ∈ builds w → buildOf game w0 b → p b = false) → Untouched (dropBuilds p w).
Proof.
  intros HU Hp. split; [apply (dropBuilds_kept p w), HU|]. pose proof HU as [(_ & HS & _) HK].
  kept_parts HU; (eapply agree_trans; [done|]); apply agree_delete; [done|].
  intros r Hr (b & Hb & Hg & E). apply not_true_is_false. intros (b' & Hb' & Hp' & E')%deletes_true.
  assert (b ∈ builds w) as Hbw by (by apply (same_builds _ _ _ HK)).
  assert (b' = b) as -> by (apply (same_build w); [done..|congruence]). by rewrite (Hp b Hbw Hg) in Hp'.
Qed.

Lemma forgetVersions_iso p w :
  Untouched w → (∀ v, v ∈ versions w → rowOf versionGameId game v → p v = false) →
  GameKept game w0 (forgetVersions p w).
Proof.
  intros HU Hp. pose proof HU as [(_ & _ & HC) HK].
  kept_parts HU; (eapply agree_trans; [done|]); [by apply agree_delete|]. apply agree_update. intros n Hn Hgone.
  assert (¬ rowOf noteGameId game n); [|done]. intros Hg. apply andb_true_iff in Hgone as [Hne Hgone].
  apply deletes_true in Hgone as (v & Hv & Hpv & E). assert (n ∈ patchNotes w0) as Hn0 by (by apply same_notes0).
  destruct (notes0 n Hn0 Hg) as [E0|(v0 & Hv0 & Hg0 & E0)]; [by rewrite bool_decide_eq_true_2 in Hne|].
  assert (v0 ∈ versions w) as Hv0w by (by apply same_versions0).
  assert (v = v0) as -> by (apply (key_inj (λ v, lowerText (versionId v)) (versions w)); [apply HC|done|done|congruence]).
  by rewrite (Hp v0 Hv0w Hg0) in Hpv.
Qed.

(** Builds go with their versions: a build of the game is of one of its versions. *)
Lemma dropVersions_iso p w :
  Untouched w → (∀ v, v ∈ versions w → rowOf versionGameId game v → p v = false) →
  Untouched (dropVersions p w).
Proof.
  intros HU Hp. split; [apply (dropVersions_kept p w), HU|]. pose proof HU as [(_ & _ & HC) HK].
  apply forgetVersions_iso; [|done]. apply dropBuilds_iso; [done|].
  intros b Hb (v & Hv & Hg & E). apply not_true_is_false. intros (v' & Hv' & Hp' & E')%deletes_true.
  assert (v ∈ versions w) as Hvw by (by apply (same_versions _ _ _ HK)).
  assert (v' = v) as -> by (apply (key_inj (λ v, lowerText (versionId v)) (versions w));
    [apply HC|done|done|congruence]). by rewrite (Hp v Hvw Hg) in Hp'.
Qed.

Lemma dropGames_iso p w : Untouched w → p g = false → GameKept game w0 (dropGames p w).
Proof.
  intros HU Hp. pose proof (there w HU) as Hg.
  assert (∀ id, lowerText id = lowerText game → deletes p gameId (games w) id = false) as Hgone.
  { intros id Eid. apply not_true_is_false. intros (x & Hx & Hpx & E)%deletes_true.
    rewrite (the_game w x HU Hx) in Hpx by (unfold rowOf; congruence). congruence. }
  unfold dropGames. set (w1 := dropVersions _ w).
  assert (Untouched w1) as HU1 by (apply dropVersions_iso; [done|]; intros v _ Hv; by apply Hgone).
  assert (games w1 = games w) as Eg by apply dropVersions_left.
  kept_parts HU1; rewrite ?Eg in *; (eapply agree_trans; [done|]); apply agree_delete.
  - intros x Hx E. by rewrite (the_game w x HU Hx E).
  - intros m _ E. by apply Hgone.
  - intros n _ E. by apply Hgone.
Qed.

Lemma games_remove_iso id : foreignGame id → IsoProg (games_remove id).
Proof.
  intros Hf. apply iso_statement; [apply games_remove_kept|]. intros w b w' HU E. cbv zeta in E.
  destruct (anyWhere _ _); injection E as <- <-; [|apply HU]. apply dropGames_iso; [done|].
  apply bool_decide_eq_false. by intros ?%eq_sym.
Qed.

Lemma builds_remove_iso id : foreignBuild id → IsoProg (builds_remove id).
Proof.
  intros Hf. apply iso_statement; [apply builds_remove_kept|]. intros w b w' HU [= <- <-].
  apply dropBuilds_iso; [done|]. intros b0 Hb Hg. apply not_true_is_false. intros E%uuidEq_true.
  apply (Hf b0); [by apply (own_build w); [apply HU|..]|done|done].
Qed.

Lemma versions_remove_iso id : foreignVersion id → IsoProg (versions_remove id).
Proof.
  intros Hf. apply iso_statement; [apply versions_remove_kept|]. intros w b w' HU [= <- <-].
  apply dropVersions_iso; [done|]. intros v Hv Hg. apply not_true_is_false. intros E%uuidEq_true.
  apply (Hf v); [by apply (own_version w), Hg; [apply HU|]|done|done].
Qed.

(** ** Builds, artwork and patch notes *)

Lemma foreign_row w b id : GameKept game w0 w → foreignBuild id → b ∈ builds w → buildIs id b = true → ¬ buildOf game w0 b.
Proof. intros HK Hf Hb E%uuidEq_true Hg. by apply (Hf b); [apply (own_build w)|..]. Qed.

Lemma builds_finalize_iso id manifest : foreignBuild id → IsoProg (builds_finalize id manifest).
Proof.
  intros Hf. apply iso_statement; [apply finalize_keeps|]. intros w x w' HU E. pose proof (proj2 HU) as HK.
  destruct (selectFirst (uploadingBuild id) (builds w)) as [b|] eqn:Eb; [|injection E as <- <-; apply HU].
  repeat (case_match; [done|]). injection E as <- <-.
  apply selectFirst_Some in Eb as [Hb [Hid _]%andb_true_iff].
  kept_parts HU; (eapply agree_trans; [done|]).
  - apply agree_update. intros b1 Hb1 [Hid1 _]%andb_true_iff.
    assert (¬ buildOf game w0 b1) by (by apply (foreign_row w b1 id)). done.
  - apply agree_append. intros r (e & -> & _)%list_elem_of_fmap (b0 & Hb0 & Hg & E).
    apply uuidEq_true in Hid. apply (Hf b0); [done..|]. change (fileBuildId _) with (buildId b) in E. congruence.
Qed.

Lemma own_media w m : GameKept game w0 w → rowOf mediaGameId game m → m ∈ gameMedia w → m ∈ gameMedia w0.
Proof. intros HK E Hm. by apply (same_media _ _ _ HK). Qed.

Lemma media_create_iso media :
  MediaFits (newMediaStorageKey media) (newMediaSha256 media) (newMediaContentType media) →
  foreignGame (newMediaGameId media) → IsoProg (media_create media).
Proof.
  intros Hfits Hf. apply iso_statement; [by apply media_create_kept|]. intros w b w' HU E. cbv zeta in E.
  cbn [games gameMedia setDraws clock] in E. case_match; [done|].
  destruct (selectFirst _ (gameMedia w)) as [m|].
  - injection E as <- <-. kept_parts HU. eapply agree_trans; [done|]. apply agree_update.
    intros m0 _ [[_ Eg%uuidEq_true]%andb_true_iff _]%andb_true_iff.
    assert (¬ rowOf mediaGameId game m0) by (unfold rowOf, foreignGame in *; congruence). done.
  - destruct (_ || _) in E; [done|]. injection E as <- <-.
    kept_parts HU. eapply agree_trans; [done|]. by apply agree_insert.
Qed.

Lemma media_foreign w m id :
  GameKept game w0 w → foreignMedia id → m ∈ gameMedia w → mediaIs id m = true → ¬ rowOf mediaGameId game m.
Proof. intros HK Hf Hm E%uuidEq_true Hg. by apply (Hf m); [apply (own_media w)|..]. Qed.

Lemma media_update_iso id changes : foreignMedia id → IsoProg (media_update id changes).
Proof.
  intros Hf. apply iso_statement; [apply media_update_kept|]. intros w b w' HU [= <- <-]. pose proof (proj2 HU) as HK.
  kept_parts HU. eapply agree_trans; [done|]. apply agree_update. intros m Hm Hid.
  pose proof (media_foreign w m id HK Hf Hm Hid). done.
Qed.

Lemma media_remove_iso id : foreignMedia id → IsoProg (media_remove id).
Proof.
  intros Hf. apply iso_statement; [apply media_remove_kept|]. intros w b w' HU [= <- <-]. pose proof (proj2 HU) as HK.
  kept_parts HU. eapply agree_trans; [done|]. apply agree_delete. intros m Hm Hg.
  apply not_true_is_false. intros Hid. by apply (media_foreign w m id HK Hf Hm Hid).
Qed.

Lemma own_note w n : GameKept game w0 w → rowOf noteGameId game n → n ∈ patchNotes w → n ∈ patchNotes w0.
Proof. intros HK E Hn. by apply (same_notes _ _ _ HK). Qed.

Lemma note_foreign w n id :
  GameKept game w0 w → foreignNote id → n ∈ patchNotes w → noteIs id n = true → ¬ rowOf noteGameId game n.
Proof. intros HK Hf Hn E%uuidEq_true Hg. by apply (Hf n); [apply (own_note w)|..]. Qed.

Lemma notes_create_iso note : foreignGame (newNoteGameId note) → IsoProg (notes_create note).
Proof.
  intros Hf. apply iso_statement; [apply notes_create_kept|]. intros w b w' HU E. cbv zeta in E.
  cbn [games versions patchNotes setDraws clock] in E. destruct (_ || _) in E; [done|]. injection E as <- <-.
  kept_parts HU. eapply agree_trans; [done|]. by apply agree_insert.
Qed.

Lemma notes_update_iso id changes : foreignNote id → IsoProg (notes_update id changes).
Proof.
  intros Hf. apply iso_statement; [apply notes_update_kept|]. intros w b w' HU E. pose proof (proj2 HU) as HK.
  destruct (selectFirst _ _) as [n|]; [|injection E as <- <-; apply HU]. cbv zeta in E. case_match; [done|].
  injection E as <- <-. kept_parts HU. eapply agree_trans; [done|]. apply agree_update. intros m Hm Hid.
  pose proof (note_foreign w m id HK Hf Hm Hid). done.
Qed.

Lemma notes_remove_iso id : foreignNote id → IsoProg (notes_remove id).
Proof.
  intros Hf. apply iso_statement; [apply notes_remove_kept|]. intros w b w' HU [= <- <-]. pose proof (proj2 HU) as HK.
  kept_parts HU. eapply agree_trans; [done|]. apply agree_delete. intros n Hn Hg.
  apply not_true_is_false. intros Hid. by apply (note_foreign w n id HK Hf Hn Hid).
Qed.

(** ** Statements on other tables *)

Lemma mediaPut_iso bytes format :
  Iso (onMediaDisk (mediaPut bytes format))
    (λ r, ∀ key, r = Success key → MediaFits key (substr key 6 64) (contentType format)).
Proof. apply iso_elsewhere; [apply mediaPut_kept|]. by intros w b w' [= <- <-]. Qed.

Lemma mediaDiscard_iso key : IsoProg (onMediaDisk (λ faults files, (tt, mediaDiscard key faults files))).
Proof. apply iso_elsewhere; [apply mediaDiscard_kept|]. by intros w b w' [= <- <-]. Qed.

Lemma library_add_iso user id : IsoProg (library_add user id).
Proof.
  apply iso_elsewhere; [apply library_add_kept|]. intros w b w' E.
  repeat (case_match; [simplify_eq; done|]). by simplify_eq.
Qed.

Lemma library_remove_iso user id : IsoProg (library_remove user id).
Proof. apply iso_elsewhere; [apply library_remove_kept|]. by intros w b w' [= <- <-]. Qed.

Lemma deleteIfUnreferenced_iso sha age : IsoProg (blobs_deleteIfUnreferenced sha age).
Proof. apply iso_elsewhere; [apply deleteIfUnreferenced_keeps|]. by intros w b w' [= <- <-]. Qed.

(** ** Handlers *)

#[local] Hint Resolve games_create_iso games_update_iso games_remove_iso versions_create_iso versions_update_iso
  versions_remove_iso builds_create_iso builds_remove_iso builds_finalize_iso media_update_iso
  media_remove_iso notes_create_iso notes_update_iso notes_remove_iso mediaDiscard_iso library_add_iso
  library_remove_iso deleteIfUnreferenced_iso visibleGame_iso : keeps.

(** Reads, by the name the handlers call them. *)
Ltac reads := repeat first [progress unfold games_search, versions_findById, versions_listForGame,
  builds_listForVersions, media_listForGame, media_findById, media_countForGame, media_isStorageKeyReferenced,
  notes_findById, notes_search, library_contains, library_list, blobs_findMany in *].

Ltac iso := reads; keeps_handler.

(** Past the check that the caller may edit the game. *)
Ltac editable Hg :=
  eapply Keeps_bind; [apply editableGame_iso; exact Hg|];
  let x := fresh "x" in let Hx := fresh "Hx" in
  intros [x|e] Hx; [destruct (Hx x eq_refl) as [Hgame Hid]; clear Hx|done].

Section Requests.
Variable actor : Actor.
Hypothesis Hg : mayEditGame g actor = false.

Lemma reclaim_iso key : IsoProg (reclaim key).
Proof. unfold reclaim. iso. Qed.
#[local] Hint Resolve reclaim_iso : keeps.

Lemma reclaimAll_iso keys : IsoProg (reclaimAll keys).
Proof. induction keys; cbn [reclaimAll]; iso. Qed.
#[local] Hint Resolve reclaimAll_iso : keeps.

Lemma createGame_iso command : IsoProg (createGame actor command).
Proof. unfold createGame. iso. Qed.

Lemma updateGame_iso id changes : IsoProg (updateGame actor id changes).
Proof.
  unfold updateGame. editable Hg. case_match; [by apply Keeps_ret|]. case_match; [|by apply Keeps_ret].
  destruct (isUuid id) eqn:E; cbn [negb]; [|done]. specialize (Hid eq_refl). iso.
Qed.

Lemma deleteGame_iso id : IsoProg (deleteGame actor id).
Proof. unfold deleteGame. editable Hg. iso. Qed.

Lemma createVersion_iso id command : IsoProg (createVersion actor id command).
Proof. unfold createVersion. case_match; [by apply Keeps_ret|]. editable Hg. iso. Qed.

Lemma updateVersion_iso id version changes : IsoProg (updateVersion actor id version changes).
Proof.
  unfold updateVersion. case_match; [by apply Keeps_ret|]. editable Hg. eapply Keeps_bind; [by apply versionOfGame_iso|].
  intros [v|] Hv; [|by apply Keeps_ret]. destruct (Hv v eq_refl). iso.
Qed.

Lemma deleteVersion_iso id version : IsoProg (deleteVersion actor id version).
Proof.
  unfold deleteVersion. editable Hg. eapply Keeps_bind; [by apply versionOfGame_iso|].
  intros [v|] Hv; [|by apply Keeps_ret]. destruct (Hv v eq_refl). iso.
Qed.

Lemma createBuild_iso id command : IsoProg (createBuild actor id command).
Proof.
  unfold createBuild. case_match; [by apply Keeps_ret|]. editable Hg.
  eapply Keeps_bind; [by apply versionOfGame_iso|]. intros [v|] Hv; [|by apply Keeps_ret].
  destruct (Hv v eq_refl). iso.
Qed.

(** Whoever may publish a build may edit its game. *)
Lemma ownership_foreign w id o :
  Untouched w → ownershipOf id w = Some o → mayPublishBuild o actor = true →
  foreignBuild id ∧ foreignBuild (ownBuildId o).
Proof.
  intros HU. unfold ownershipOf. destruct (selectFirst (buildIs id) _) as [b|] eqn:Eb; [cbn|done].
  destruct (selectFirst _ (versions w)) as [v|] eqn:Ev; [cbn|done].
  destruct (selectFirst _ (games w)) as [x|] eqn:Ex; [cbn|done]. intros [= <-] Hpub.
  apply selectFirst_Some in Eb as [Hb Eb%uuidEq_true], Ev as [Hv Ev%uuidEq_true], Ex as [Hx Ex%uuidEq_true].
  enough (foreignBuild id) as Hf by (split; [done|]; unfold foreignBuild in *; cbn [ownBuildId]; by rewrite Eb).
  intros b0 Hb0 (v0 & Hv0 & Hgv & E0) E. pose proof HU as [(_ & HS & HC) HK].
  assert (b0 ∈ builds w) as Hb0w by (apply (same_builds _ _ _ HK); [by exists v0|done]).
  assert (v0 ∈ versions w) as Hv0w by (by apply (same_versions _ _ _ HK)).
  assert (b0 = b) as -> by (apply (same_build w); [done..|congruence]).
  assert (v0 = v) as -> by (apply (key_inj (λ v, lowerText (versionId v)) (versions w)); [apply HC|done|done|congruence]).
  rewrite (the_game w x HU Hx) in Hpub by (unfold rowOf in *; congruence).
  unfold mayPublishBuild, mayEditGame in *. cbn in Hpub. by rewrite Hg in Hpub.
Qed.

Lemma deleteBuild_iso id : IsoProg (deleteBuild actor id).
Proof.
  unfold deleteBuild, builds_findOwnership. case_match; [by apply Keeps_ret|].
  apply (Keeps_bind _ _ _ _ (λ found, ∀ o, found = Some o → mayPublishBuild o actor = true → foreignBuild id)).
  - apply iso_query. intros w HU o E Ho. by apply (ownership_foreign w id o).
  - intros [o|] Ho; [|by apply Keeps_ret]. case_match; [by apply Keeps_ret|].
    destruct (mayPublishBuild o actor) eqn:E; cbn [negb]; [|by apply Keeps_ret].
    specialize (Ho o eq_refl E). iso.
Qed.

Lemma finalizeBuild_iso id command : IsoProg (finalizeBuild actor id command).
Proof.
  unfold finalizeBuild. apply (Keeps_bind _ _ _ _ (λ r, ∀ o, r = Success o → foreignBuild (ownBuildId o))).
  - unfold writableBuild, builds_findOwnership. repeat (case_match; [by apply Keeps_ret|]).
    apply (Keeps_bind _ _ _ _ (λ found, ∀ o, found = Some o → mayPublishBuild o actor = true → foreignBuild (ownBuildId o))).
    + apply iso_query. intros w HU o E Ho. by apply (ownership_foreign w id o).
    + intros [o|] Ho; [|by apply Keeps_ret].
      destruct (mayPublishBuild o actor) eqn:E; cbn [negb]; [|by apply Keeps_ret].
      case_match; apply Keeps_ret; [done|]. intros ? [= <-]. by apply Ho.
  - intros [o|e] Ho; [|done]. specialize (Ho o eq_refl). cbv zeta. iso.
Qed.

Lemma addToLibrary_iso id : IsoProg (addToLibrary actor id).
Proof. unfold addToLibrary. iso. Qed.

Lemma removeFromLibrary_iso id : IsoProg (removeFromLibrary actor id).
Proof. unfold removeFromLibrary. iso. Qed.

(** A note or an image found for somebody who may edit its game is of another one. *)
Lemma gameOf_foreign owner :
  rowOf (λ id, id) game owner →
  Iso (games_findById owner) (λ found, ∀ x, found = Some x → mayEditGame x actor = false).
Proof.
  intros E. apply iso_query. intros w HU x (r & Hr & Er%uuidEq_true & [_ Ep]%mapGame_own)%gameWith_row.
  rewrite (the_game w r HU Hr) in Ep by (unfold rowOf in *; congruence).
  unfold mayEditGame in *. by rewrite Ep.
Qed.

Lemma editableNote_iso id : Iso (editableNote actor id) (λ r, ∀ n, r = Success n → foreignNote id).
Proof.
  unfold editableNote, notes_findById. case_match; [by apply Keeps_ret|].
  apply (Keeps_bind _ _ _ _ (λ found, ∀ n, found = Some n → foreignNote id ∨ rowOf noteGameId game n)).
  - apply iso_query. intros w HU n. destruct (selectFirst _ _) as [r|] eqn:Er; [|done]. intros [= <-].
    apply selectFirst_Some in Er as [Hr Hid%uuidEq_true].
    destruct (decide (rowOf noteGameId game r)) as [Hgr|Hgr]; [by right|left]. intros n0 Hn0 Hg0 E.
    pose proof HU as [(_ & _ & HC) HK].
    assert (n0 = r); [|congruence]. apply (key_inj (λ n, lowerText (noteId n)) (patchNotes w));
      [apply HC|by apply (same_notes _ _ _ HK)|done|congruence].
  - intros [n|] Hn; [|by apply Keeps_ret]. destruct (Hn n eq_refl) as [Hf|Hgn].
    + eapply Keeps_bind; [apply iso_read|]. intros [x|] _; apply Keeps_ret; [|done]. by repeat case_match.
    + eapply Keeps_bind; [by apply gameOf_foreign|]. intros [x|] Hx; apply Keeps_ret; [|done].
      rewrite (Hx x eq_refl). by destruct (mayViewGame x actor).
Qed.

Lemma editableMedia_iso id : Iso (editableMedia actor id) (λ r, ∀ m, r = Success m → foreignMedia id).
Proof.
  unfold editableMedia, media_findById. case_match; [by apply Keeps_ret|].
  apply (Keeps_bind _ _ _ _ (λ found, ∀ m, found = Some m → foreignMedia id ∨ rowOf mediaGameId game m)).
  - apply iso_query. intros w HU r [Hr Hid%uuidEq_true]%selectFirst_Some.
    destruct (decide (rowOf mediaGameId game r)) as [Hgr|Hgr]; [by right|left]. intros m0 Hm0 Hg0 E.
    pose proof HU as [(_ & _ & HC) HK].
    assert (m0 = r); [|congruence]. apply (key_inj (λ m, lowerText (mediaId m)) (gameMedia w));
      [apply HC|by apply (same_media _ _ _ HK)|done|congruence].
  - intros [m|] Hm; [|by apply Keeps_ret]. destruct (Hm m eq_refl) as [Hf|Hgm].
    + eapply Keeps_bind; [apply iso_read|]. intros [x|] _; apply Keeps_ret; [|done]. by repeat case_match.
    + eapply Keeps_bind; [by apply gameOf_foreign|]. intros [x|] Hx; apply Keeps_ret; [|done].
      rewrite (Hx x eq_refl). by destruct (mayViewGame x actor).
Qed.

Lemma versionOfGame_read version owner : IsoProg (versionOfGame version owner).
Proof. unfold versionOfGame. iso. Qed.

Lemma noteVersionAllowed_iso version owner : IsoProg (noteVersionAllowed version owner).
Proof. pose proof versionOfGame_read. unfold noteVersionAllowed. iso. Qed.
#[local] Hint Resolve noteVersionAllowed_iso : keeps.

Lemma createNote_iso id command : IsoProg (createNote actor id command).
Proof. unfold createNote. editable Hg. cbv zeta. iso. Qed.

Lemma updateNote_iso id changes : IsoProg (updateNote actor id changes).
Proof.
  unfold updateNote. eapply Keeps_bind; [apply editableNote_iso|]. intros [n|e] Hn; [|done].
  specialize (Hn n eq_refl). iso.
Qed.

Lemma removeNote_iso id : IsoProg (removeNote actor id).
Proof.
  unfold removeNote. eapply Keeps_bind; [apply editableNote_iso|]. intros [n|e] Hn; [|done].
  specialize (Hn n eq_refl). iso.
Qed.

Lemma galleryHasRoom_iso owner kind : IsoProg (galleryHasRoom owner kind).
Proof. unfold galleryHasRoom. iso. Qed.
#[local] Hint Resolve galleryHasRoom_iso : keeps.

Lemma uploadMedia_iso limits id command : IsoProg (uploadMedia limits actor id command).
Proof.
  unfold uploadMedia. editable Hg. case_match; [|by apply Keeps_ret].
  eapply Keeps_bind; [apply galleryHasRoom_iso|]. intros room _. case_match; [by apply Keeps_ret|].
  eapply Keeps_bind; [apply mediaPut_iso|]. intros [key|e] Hkey; [|done].
  eapply Keeps_bind; [by apply media_create_iso; [apply Hkey|]|]. intros [result|e] _; [iso|done].
Qed.

Lemma updateMedia_iso id changes : IsoProg (updateMedia actor id changes).
Proof.
  unfold updateMedia. eapply Keeps_bind; [apply editableMedia_iso|]. intros [m|e] Hm; [|done].
  specialize (Hm m eq_refl). iso.
Qed.

Lemma removeMedia_iso id : IsoProg (removeMedia actor id).
Proof.
  unfold removeMedia. eapply Keeps_bind; [apply editableMedia_iso|]. intros [m|e] Hm; [|done].
  specialize (Hm m eq_refl). iso.
Qed.

End Requests.

(** ** Whoever asks *)

Lemma gameDetail_iso actor id : IsoProg (gameDetail actor id).
Proof. unfold gameDetail. iso. Qed.

Lemma explore_iso actor q : IsoProg (explore actor q).
Proof. unfold explore. iso. Qed.

Lemma publishedByActor_iso actor q : IsoProg (publishedByActor actor q).
Proof. unfold publishedByActor. iso. Qed.

Lemma library_iso actor : IsoProg (library actor).
Proof. unfold library. iso. Qed.

Lemma listNotes_iso actor id limit offset : IsoProg (listNotes actor id limit offset).
Proof. unfold listNotes. iso. Qed.

Lemma listMedia_iso actor id : IsoProg (listMedia actor id).
Proof. unfold listMedia. iso. Qed.

Lemma collectLoop_iso settings report candidates :
  Forall (λ b, 0 ≤ collectableSizeBytes b ≤ INT64_MAX) candidates → IsoProg (collectLoop settings report candidates).
Proof.
  intros HF. revert report. induction HF as [|blob rest Hblob _ IH]; intros report; cbn [collectLoop]; [done|].
  eapply Keeps_bind; [apply deleteIfUnreferenced_iso|]. intros deleted _. case_match; [apply IH|].
  eapply Keeps_bind; [apply iso_go, discardBlob_keeps|]. intros _ _.
  eapply Keeps_bind; [|intros _ _; apply IH]. case_match; [apply iso_go, sys_releaseUpload; lia|done].
Qed.

Lemma collect_iso settings : IsoProg (collectUnreferencedBlobs settings).
Proof.
  unfold collectUnreferencedBlobs. eapply Keeps_bind; [apply iso_go, findUnreferenced_keeps|].
  intros candidates. apply collectLoop_iso.
Qed.

Lemma accounts_erase_iso id identity audit :
  newAuditAction audit = auditActions.USER_ERASED → newAuditEntityType audit = auditEntities.USER →
  newAuditEntityId audit = id → IsoProg (accounts_erase id identity audit).
Proof.
  intros. apply iso_elsewhere; [by apply accounts_erase_kept|]. intros w b w' E.
  repeat case_match; by simplify_eq.
Qed.

Lemma eraseAccount_iso actor command : IsoProg (eraseAccount actor command).
Proof.
  unfold eraseAccount, users_findById, notLastAdministrator, adminUsers_countOtherHoldersOf.
  repeat (case_match; [done|]). eapply Keeps_bind; [apply iso_read|]. intros [user|] _; [|done].
  case_match; [done|]. eapply (Keeps_bind _ _ _ _ (λ _, True)).
  - case_match; [|done]. eapply Keeps_bind; [apply iso_read|]. done.
  - intros [[]|e] _; [|done]. eapply Keeps_bind; [by apply accounts_erase_iso|]. done.
Qed.

Lemma iso_answered {A} (p : Prog World A) Q : Iso p Q → IsoProg (answered p).
Proof. intros Hp. by apply (Keeps_bind _ _ _ _ _ _ Hp). Qed.

Lemma stranger_iso site who p : stranger g who → Request site who p → IsoProg p.
Proof.
  intros Hw Hp. revert Hw. destruct Hp; intros Hw.
  1: eapply iso_go, lift_account, AuthRequest_keeps; eassumption.
  all: eapply iso_answered.
  all: try (pose proof (Hw _ eq_refl) as Hg; clear Hw).
  all: try first [apply createGame_iso | apply updateGame_iso | apply deleteGame_iso | apply gameDetail_iso
    | apply explore_iso | apply publishedByActor_iso | apply createVersion_iso | apply updateVersion_iso
    | apply deleteVersion_iso | apply createBuild_iso | apply deleteBuild_iso | apply addToLibrary_iso
    | apply removeFromLibrary_iso | apply library_iso | apply listNotes_iso | apply createNote_iso
    | apply updateNote_iso | apply removeNote_iso | apply listMedia_iso | apply uploadMedia_iso
    | apply updateMedia_iso | apply removeMedia_iso | apply finalizeBuild_iso | apply collect_iso | apply eraseAccount_iso];
    try assumption.
  all: apply iso_go; first [apply missingBlobs_keeps | apply beginUpload_keeps | apply sessionStatus_keeps
    | apply uploadChunk_keeps | apply abortUpload_keeps | apply manifest_keeps | apply plan_keeps
    | apply verifyInstall_keeps | apply sweepExpiredSessions_keeps
    | apply lift_account; first [apply listUsers_keeps | apply findUser_keeps | apply quota_keeps
      | apply active_keeps | apply temporaryPassword_keeps | apply grant_keeps | apply revoke_role_keeps
      | apply listRoles_keeps | apply listAudit_keeps | apply submitCrash_keeps | apply listCrashGroups_keeps
      | apply listCrashes_keeps | apply findCrash_keeps | apply sweepExpiredCrashes_keeps]].
Qed.

Lemma strangers_safe site c :
  reachable (poolStep (λ p, ∃ who, stranger g who ∧ Request site who p) clockTick) (w0, []) c → Untouched c.1.
Proof.
  intros Hr. assert (SafePool Untouched (λ _, Untouched) c) as HS; [|apply HS].
  eapply pool_safe; [..|exact Hr].
  - intros p (who & Hw & Hp). eapply Safe_post; [eapply Keeps_safe; [|by eapply stranger_iso]|done]. done.
  - intros w w' HU Ht. destruct (clockTick_kept w w' (proj1 HU) Ht) as [HI _].
    assert (Untouched w') as HU'; [|by split]. split; [done|]. destruct Ht as [t _]. by apply (same_content w).
  - split; [done|]. by split.
Qed.
End Strangers.

(** ** Property *)

Section Property.
Context `{Sodium, PasswordHasher, Evp, Md5, Postgres, MailSender, TokenService, Disk}.

(** C9: whatever callers who may not edit a game ask for, any number of them at
    once and interleaved in any way with each other, with sign-ins, with erasures and changes
    of accounts and with the sweeps,
    nothing of the game changes: its row, its versions, its builds and their files, its
    artwork and its patch notes are those they were, none added and none gone. *)
Theorem strangers_change_nothing site g w c :
  SysInv w → g ∈ games w → ownNotes (gameId g) w →
  reachable (poolStep (λ p, ∃ who, stranger g who ∧ Request site who p) clockTick) (w, []) c →
  GameKept (gameId g) w c.1.
Proof. intros HI Hg Hn Hr. by apply (strangers_safe g w HI Hg Hn site c). Qed.
End Property.
