(* ===== verification/Artwork.v ===== *)
(** What deleting a game takes with it and what it leaves, and what uploading an image to a game
    does, each run alone. *)

From S2P Require Import Prelude.
From S2P Require Import Errors.
From S2P Require Import Validation.
From S2P Require Import Actors.
From S2P Require Import Catalog.
From S2P Require Import Manifest.
From S2P Require Import Media.
From S2P Require Import Hash.
From S2P Require Import PatchNote.
From S2P Require Import BlobStore.
From S2P Require Import Signer.
From S2P Require Import Programs.
From S2P Require Import Random.
From S2P Require Import World.
From S2P Require Import Accounts.
From S2P Require Import MailTemplates.
From S2P Require Import AuthService.
From S2P Require Import AccountSafety.
From S2P Require Import Uploads.
From S2P Require Import CatalogRepositories.
From S2P Require Import ContentRepositories.
From S2P Require Import MediaStore.
From S2P Require Import CatalogService.
From S2P Require Import MediaService.
From S2P Require Import StorageSafety.
From S2P Require Import CatalogSafety.
From S2P Require Import CatalogCorrect.
From S2P Require Import Isolation.

(** ** Storage keys *)

Lemma forallb_no (p : ascii → bool) l c : forallb p l = true → p c = false → c ∉ l.
Proof.
  intros Hl Hc Hin. rewrite forallb_forall in Hl. apply list_elem_of_In in Hin. by rewrite (Hl c Hin) in Hc.
Qed.

(** A key that fits, in characters: no byte of it but the two slashes and the dot is
    anything but a digit or a lower-case letter. *)
Lemma keyFits_chars key :
  keyFits key = true →
  ∃ a b h e, chars key = a ++ "/"%char :: b ++ "/"%char :: h ++ "."%char :: e
    ∧ length a = 2%nat ∧ forallb (λ c, isdigit c || islower c) (a ++ b ++ h ++ e) = true.
Proof.
  unfold keyFits. set (l := chars key). set (hex := forallb _).
  rewrite !andb_true_iff, !bool_decide_eq_true.
  intros [[[[[[[Ha E2] Hb] E5] Hh] E70] _] He].
  assert (∀ k, hex k = true → forallb (λ c, isdigit c || islower c) k = true) as Hhex.
  { intros k. unfold hex. rewrite !forallb_forall. intros Hk c Hc. specialize (Hk c Hc). clear -Hk. by every_byte c. }
  exists (take 2 l), (take 2 (drop 3 l)), (take 64 (drop 6 l)), (drop 71 l). split_and!.
  - rewrite <- (take_drop_middle l 2 _ E2) at 1. f_equal. f_equal.
    change (l !! (3 + 2)%nat = Some "/"%char) in E5. rewrite <- lookup_drop in E5.
    rewrite <- (take_drop_middle (drop 3 l) 2 _ E5) at 1. f_equal. f_equal.
    rewrite drop_drop. change (3 + 3)%nat with 6%nat. change (l !! (6 + 64)%nat = Some "."%char) in E70. rewrite <- lookup_drop in E70.
    rewrite <- (take_drop_middle (drop 6 l) 64 _ E70) at 1. by rewrite drop_drop.
  - apply lookup_lt_Some in E2. rewrite length_take. lia.
  - rewrite !forallb_app, !Hhex, He by done. done.
Qed.

Lemma keyFits_no_comma key : keyFits key = true → ","%char ∉ chars key.
Proof.
  intros (a & b & h & e & -> & _ & Hf)%keyFits_chars. rewrite !forallb_app, !andb_true_iff in Hf.
  destruct Hf as (Ha & Hb & Hh & He).
  assert (∀ l, forallb (λ c, isdigit c || islower c) l = true → ","%char ∉ l) as Hno
    by (intros; by eapply forallb_no).
  apply Hno in Ha, Hb, Hh, He.
  rewrite !elem_of_app, !elem_of_cons, !elem_of_app, !elem_of_cons, !elem_of_app, !elem_of_cons. naive_solver.
Qed.

(** One dot is not two. *)
Lemma findSub_dots k e : "."%char ∉ k → "."%char ∉ e → findSub (chars "..") (k ++ "."%char :: e) = None.
Proof.
  change (chars "..") with ["."%char; "."%char]. induction k as [|x k IH]; intros Hk He.
  - cbn [app findSub prefixb]. destruct e as [|y e]; cbn [prefixb]; [done|].
    apply not_elem_of_cons in He as [Hy He]. rewrite (proj2 (ceqb_neq _ y)) by done. cbn [andb].
    rewrite andb_false_r. by rewrite findSub_none_head by (by apply not_elem_of_cons).
  - apply not_elem_of_cons in Hk as [Hx Hk]. cbn [app findSub prefixb].
    rewrite (proj2 (ceqb_neq _ x)) by done. cbn [andb]. by rewrite IH.
Qed.

Lemma keyFits_path key : keyFits key = true → mediaPathFor key = Some key.
Proof.
  intros (a & b & h & e & E & Hl & Hf)%keyFits_chars. rewrite !forallb_app, !andb_true_iff in Hf.
  destruct Hf as (Ha & Hb & Hh & He). unfold mediaPathFor, charIs. rewrite E.
  assert (∀ l, forallb (λ c, isdigit c || islower c) l = true → "."%char ∉ l) as Hdot
    by (intros; by eapply forallb_no).
  rewrite (bool_decide_eq_false_2 (key = ""%stdpp)) by (intros ->; by destruct a).
  replace (a ++ "/"%char :: b ++ "/"%char :: h ++ "."%char :: e)
    with ((a ++ "/"%char :: b ++ "/"%char :: h) ++ "."%char :: e) by (by rewrite <- !app_assoc, <- !app_comm_cons, <- !app_assoc).
  rewrite findSub_dots; [|rewrite !elem_of_app, !elem_of_cons, !elem_of_app, !elem_of_cons|by apply Hdot].
  - rewrite bool_decide_eq_false_2; [done|]. destruct a as [|x a]; [done|]. cbn. intros [= ->]. by cbn in Ha.
  - apply Hdot in Ha, Hb, Hh. naive_solver.
Qed.

(** What the database packs into one text and the repository unpacks. *)
Lemma splitStorageKeys_pack keys :
  Forall (λ key, keyFits key = true) keys → splitStorageKeys (packStorageKeys keys) = keys.
Proof.
  intros HF. unfold splitStorageKeys, packStorageKeys. rewrite chars_text.
  destruct (decide (keys = [])) as [->|Hne]; [done|].
  rewrite splitOn_joinOn; [|by destruct keys|].
  - rewrite <- list_fmap_compose. rewrite (list_fmap_ext _ id) by (intros; apply text_chars). rewrite list_fmap_id.
    clear Hne. induction HF as [|key keys Hk _ IH]; [done|]. cbn [List.filter]. rewrite IH.
    rewrite bool_decide_eq_false_2; [done|]. by intros ->.
  - apply Forall_fmap. eapply Forall_impl; [exact HF|]. apply keyFits_no_comma.
Qed.

(** ** Reclaiming artwork *)

Section Reclaim.
Context `{Postgres, Disk}.

(** Whether a row still names a file. *)
Definition keyUsed (key : string) (w : World) : bool := anyWhere (λ m, bool_decide (mediaStorageKey m = key)) (gameMedia w).

Lemma same_files_world w : setMediaFiles (mediaFiles w) (setDraws (draws w) w) = w.
Proof. by destruct w. Qed.

Lemma mediaDiscard_other key faults fs p : p ≠ key → mediaDiscard key faults fs !! p = fs !! p.
Proof.
  intros Hp. unfold mediaDiscard, mediaPathFor. case_match; [|done]. case_match; [done|]. simplify_eq.
  by apply discard_other.
Qed.

Lemma perform_reclaim key w :
  ∃ fs n, perform (reclaim key) w = (Some tt, setMediaFiles fs (setDraws n w))
    ∧ (∀ p, p ≠ key ∨ keyUsed p w = true → fs !! p = mediaFiles w !! p)
    ∧ ((∀ n, removeFails (faultsAt n) = false) → keyFits key = true → keyUsed key w = false → fs !! key = None).
Proof.
  unfold reclaim. case_bool_decide as E; [|unfold media_isStorageKeyReferenced; run_statements; fold (keyUsed key w)].
  - exists (mediaFiles w), (draws w). rewrite same_files_world. split_and!; [done|done|]. subst. by intros _ Hk.
  - destruct (keyUsed key w) eqn:Eu.
    + exists (mediaFiles w), (draws w). by rewrite same_files_world.
    + exists (mediaDiscard key (faultsAt (draws w)) (mediaFiles w)), (S (draws w)). split; [done|]. split.
      * intros p [Hp|Hp]; [by apply mediaDiscard_other|]. apply mediaDiscard_other. intros ->. congruence.
      * intros Hok Hk _. unfold mediaDiscard. rewrite keyFits_path by done. by apply discard_gone.
Qed.

Lemma perform_reclaimAll keys w :
  ∃ fs n, perform (reclaimAll keys) w = (Some tt, setMediaFiles fs (setDraws n w))
    ∧ (∀ p, p ∉ keys ∨ keyUsed p w = true → fs !! p = mediaFiles w !! p)
    ∧ ((∀ n, removeFails (faultsAt n) = false) → ∀ key, key ∈ keys → keyFits key = true → keyUsed key w = false →
         fs !! key = None).
Proof.
  revert w. induction keys as [|key keys IH]; intros w; cbn [reclaimAll].
  - exists (mediaFiles w), (draws w). rewrite same_files_world. split_and!; [done|done|]. by intros _ key ?%not_elem_of_nil.
  - destruct (perform_reclaim key w) as (fs & n & E & Hkeep & Hgone). rewrite perform_bind, E.
    destruct (IH (setMediaFiles fs (setDraws n w))) as (fs' & n' & E' & Hkeep' & Hgone'). rewrite E'.
    assert (∀ p, keyUsed p (setMediaFiles fs (setDraws n w)) = keyUsed p w) as Eused by done.
    setoid_rewrite Eused in Hkeep'. setoid_rewrite Eused in Hgone'. cbn [mediaFiles setMediaFiles] in Hkeep'.
    exists fs', n'. split; [done|]. split.
    + intros p Hp. rewrite Hkeep', Hkeep by (rewrite ?not_elem_of_cons in *; tauto). done.
    + intros Hok k Hk Hfit Hu. destruct (decide (k ∈ keys)) as [Hin|Hin]; [by apply Hgone'|].
      rewrite Hkeep' by (by left). apply elem_of_cons in Hk as [->|Hk]; [by apply Hgone|done].
Qed.
End Reclaim.

(** ** Deleting a game *)

Lemma dropGames_files `{Postgres} p w : mediaFiles (dropGames p w) = mediaFiles w.
Proof. reflexivity. Qed.

Section Property.
Context `{Evp, Postgres, Disk}.

Lemma GameKept_same id w w1 w2 : GameKept id w w1 → SameContent w1 w2 → GameKept id w w2.
Proof. intros [] (E1 & E2 & E3 & E4 & E5 & E6). split; by rewrite ?E1, ?E2, ?E3, ?E4, ?E5, ?E6. Qed.

Lemma deleted_games p w x : x ∈ games (dropGames p w) ↔ x ∈ games w ∧ p x = false.
Proof. cbn. apply elem_of_deleteWhere. Qed.

Lemma dropGames_versions p w v : v ∈ versions (dropGames p w) → v ∈ versions w.
Proof. cbn. by intros [? _]%elem_of_deleteWhere. Qed.

Lemma dropGames_builds p w b : b ∈ builds (dropGames p w) → b ∈ builds w.
Proof. cbn. by intros [? _]%elem_of_deleteWhere. Qed.

(** What names a game that is gone is gone with it. *)
Lemma references_gone {Row} (key : Row → string) t (p : Game → bool) w r id :
  references key gameIs t (games (dropGames p w)) → (∀ x, x ∈ games w → rowOf gameId id x → p x = true) →
  r ∈ t → ¬ rowOf key id r.
Proof.
  unfold references. rewrite Forall_forall. intros Hr Hp Hin E. specialize (Hr r Hin). cbv beta in Hr.
  apply anyWhere_true in Hr as (x & [Hx Hpx]%deleted_games & Ex%uuidEq_true).
  rewrite (Hp x Hx) in Hpx by (unfold rowOf in *; congruence). done.
Qed.

Lemma drop_nothing_left (p : Game → bool) w id :
  SysInv w → CatalogInv (dropGames p w) → StorageInv (dropGames p w) →
  (∀ x, x ∈ games w → rowOf gameId id x → p x = true) →
  (∀ v, v ∈ versions (dropGames p w) → ¬ rowOf versionGameId id v)
  ∧ (∀ b, buildOf id w b → b ∉ builds (dropGames p w)) ∧ (∀ r, fileOf id w r → r ∉ buildFiles (dropGames p w)).
Proof.
  intros (_ & HS & HC) HC' HS' Hp.
  assert (∀ v, v ∈ versions (dropGames p w) → ¬ rowOf versionGameId id v) as Hv
    by (intros v; apply references_gone with (p := p) (w := w); [apply HC'|done]).
  assert (∀ b, buildOf id w b → b ∉ builds (dropGames p w)) as Hb.
  { intros b (v & Hvw & Hg & E) Hb.
    pose proof (proj1 (Forall_forall _ _) (build_versions _ HC') b Hb) as (v' & Hv' & E'%uuidEq_true)%anyWhere_true.
    apply (Hv v' Hv'). assert (v' = v) as ->; [|done].
    apply (key_inj (λ v, lowerText (versionId v)) (versions w)); [apply HC|by eapply dropGames_versions|done|congruence]. }
  split_and!; [done|done|]. intros r (b & Hbw & Hg & E) Hr.
  pose proof (proj1 (Forall_forall _ _) (manifest_builds _ HS') r Hr) as (b' & Hb' & E'%uuidEq_true)%anyWhere_true.
  apply (Hb b' ); [|done]. assert (b' = b) as ->; [|done].
  apply (same_build w); [done|by eapply dropGames_builds|done|congruence].
Qed.

(** What a world is without a game. *)
Record WithoutGame (g : Game) (w w1 : World) : Prop := {
  without_row x : x ∈ games w1 ↔ x ∈ games w ∧ gameIs (gameId g) x = false;
  without_versions v : v ∈ versions w1 → ¬ rowOf versionGameId (gameId g) v;
  without_builds b : buildOf (gameId g) w b → b ∉ builds w1;
  without_files r : fileOf (gameId g) w r → r ∉ buildFiles w1;
  without_media m : m ∈ gameMedia w1 → ¬ rowOf mediaGameId (gameId g) m;
  without_notes n : n ∈ patchNotes w1 → ¬ rowOf noteGameId (gameId g) n;
  without_shelves r : r ∈ userGames w1 → ¬ rowOf libraryGameId (gameId g) r;
  without_others g2 : g2 ∈ games w → gameIs (gameId g) g2 = false → ownNotes (gameId g2) w → GameKept (gameId g2) w w1
}.

Lemma dropGames_without g w : SysInv w → WithoutGame g w (dropGames (gameIs (gameId g)) w).
Proof.
  intros HI. destruct (dropGames_kept (gameIs (gameId g)) w HI) as [(_ & HSt & HC) _ _].
  assert (∀ x, x ∈ games w → rowOf gameId (gameId g) x → gameIs (gameId g) x = true) as Hnamed
    by (intros x _ Ex; by apply uuidEq_true).
  destruct (drop_nothing_left _ w (gameId g) HI HC HSt Hnamed) as (Hv & Hb & Hr).
  split; [apply deleted_games|exact Hv|exact Hb|exact Hr|..].
  - intros m. exact (references_gone mediaGameId _ _ w m (gameId g) (media_games _ HC) Hnamed).
  - intros n. exact (references_gone noteGameId _ _ w n (gameId g) (note_games _ HC) Hnamed).
  - intros r. exact (references_gone libraryGameId _ _ w r (gameId g) (shelf_games _ HC) Hnamed).
  - intros g2 Hg2 Hne Hnotes. apply (dropGames_iso g2 w Hg2 Hnotes); [|exact Hne]. by split.
Qed.

Lemma WithoutGame_same g w w1 w2 :
  WithoutGame g w w1 → SameContent w1 w2 → userGames w2 = userGames w1 → WithoutGame g w w2.
Proof.
  intros HW HS E. pose proof HS as (E1 & E2 & E3 & E4 & E5 & E6).
  split; rewrite ?E1, ?E2, ?E3, ?E4, ?E5, ?E6, ?E; try apply HW.
  intros g2 Hg2 Hne Hnotes. apply (GameKept_same _ _ w1); [by apply (without_others _ _ _ HW)|done].
Qed.

(** The world a delete of a game leaves, whatever becomes of the files. *)
Lemma perform_deleteGame actor id w w' :
  SysInv w → perform (deleteGame actor id) w = (Some (Success tt), w') →
  ∃ g w1, gameNamed id w = Some g ∧ mayEditGame g actor = true ∧ WithoutGame g w w1
    ∧ (SameContent w1 w' ∧ userGames w' = userGames w1)
    ∧ let keys := mediaStorageKey <$> selectWhere (λ m, uuidEq (mediaGameId m) (gameId g)) (gameMedia w) in
      (∀ p, p ∉ keys ∨ keyUsed p w1 = true → mediaFiles w' !! p = mediaFiles w !! p)
      ∧ ((∀ n, removeFails (faultsAt n) = false) →
           ∀ key, key ∈ keys → keyUsed key w1 = false → mediaFiles w' !! key = None).
Proof.
  intros HI. pose proof HI as (_ & _ & HC). unfold deleteGame. rewrite perform_bind.
  destruct (perform (editableGame actor id) w) as [r w1] eqn:E.
  destruct r as [[g|e]|]; [|done|done]. apply editable_found in E as (-> & Hg & Hedit).
  unfold games_remove. run_statements. set (keys := mediaStorageKey <$> _).
  assert (Forall (λ key, keyFits key = true) keys) as Hkeys.
  { apply Forall_fmap, Forall_forall. intros m [Hm _]%elem_of_selectWhere.
    by apply (proj1 (Forall_forall _ _) (media_rows w HC) m Hm). }
  rewrite splitStorageKeys_pack by done. destruct (anyWhere _ (games w)); [|done].
  cbn [fst snd]. rewrite perform_bind. pose proof (dropGames_files (gameIs (gameId g)) w) as Efiles.
  pose proof (dropGames_without g w HI) as HW. intros Hp. exists g. cbv zeta. fold keys. revert Hp.
  generalize dependent (dropGames (gameIs (gameId g)) w). intros w1 <- HW Hp. exists w1. revert Hp.
  destruct (perform_reclaimAll keys w1) as (fs & n & -> & Hkeep & Hgone). intros [= <-].
  split_and!; [done|done|done|done|done|done|]. intros Hok key Hk Hu. apply Hgone; [done|done| |done].
  by apply (proj1 (Forall_forall _ _) Hkeys).
Qed.

(** C20: a delete of a game that succeeds was asked for by somebody who may edit it, and
    takes the game, its versions, builds, manifests, artwork rows and patch notes and its
    place on every shelf; nothing of any other game changes.  Of the artwork files it had,
    those no other game uses are gone when the file system lets them go, and no other file
    is touched. *)
Theorem deleteGame_correct actor id w w' :
  SysInv w → perform (deleteGame actor id) w = (Some (Success tt), w') →
  ∃ g, gameNamed id w = Some g ∧ mayEditGame g actor = true ∧ WithoutGame g w w'
    ∧ (∀ m, m ∈ gameMedia w → rowOf mediaGameId (gameId g) m → keyUsed (mediaStorageKey m) w' = false →
         (∀ n, removeFails (faultsAt n) = false) → mediaFiles w' !! mediaStorageKey m = None)
    ∧ ∀ key, keyUsed key w' = true ∨ (∀ m, m ∈ gameMedia w → rowOf mediaGameId (gameId g) m → mediaStorageKey m ≠ key) →
        mediaFiles w' !! key = mediaFiles w !! key.
Proof.
  intros HI Hp.
  destruct (perform_deleteGame actor id w w' HI Hp) as (g & w1 & Hg & Hedit & HW & [HS Eshelf] & Hkeep & Hgone).
  unfold keyUsed in *.
  exists g. split; [done|]. split; [done|]. pose proof HS as (_ & _ & _ & _ & E5 & _). rewrite E5.
  split; [by apply (WithoutGame_same _ _ w1)|]. split.
  - intros m Hm' Em Hu Hok. apply Hgone; [done| |done]. apply list_elem_of_fmap_2, elem_of_selectWhere.
    split; [done|by apply uuidEq_true].
  - intros key Hkey. apply Hkeep. destruct Hkey as [Hu|Hno]; [by right|left].
    intros (m & -> & [Hm' Em%uuidEq_true]%elem_of_selectWhere)%list_elem_of_fmap. by apply (Hno m).
Qed.
End Property.

Section Property.
Context `{Evp, Postgres, Disk}.

(** How many images of a kind a game has. *)
Definition galleryCount (game : string) (kind : MediaKind) (w : World) : Z :=
  Z.of_nat (length (selectWhere (λ m, uuidEq (mediaGameId m) game && bool_decide (mediaKind m = kind)) (gameMedia w))).

Lemma galleryHasRoom_spec game kind w :
  perform (galleryHasRoom game kind) w = (Some (isSingletonKind kind || (galleryCount game kind w <? galleryCap kind)), w).
Proof. unfold galleryHasRoom. by destruct (isSingletonKind kind). Qed.

(** The row an upload leaves, and the file it may displace. *)
Record MediaCreated (new : NewGameMedia) (w w' : World) (result : StoredMedia) : Prop := {
  created_row : storedMedia result ∈ gameMedia w';
  created_game : lowerText (mediaGameId (storedMedia result)) = lowerText (newMediaGameId new);
  created_kind : mediaKind (storedMedia result) = newMediaKind new;
  created_content : mediaStorageKey (storedMedia result) = newMediaStorageKey new
    ∧ mediaSha256 (storedMedia result) = newMediaSha256 new
    ∧ mediaContentType (storedMedia result) = newMediaContentType new;
  created_files : mediaFiles w' = mediaFiles w;
  created_replaced : replacedStorageKey result ≠ newMediaStorageKey new;
  created_count : isSingletonKind (newMediaKind new) = false →
    galleryCount (newMediaGameId new) (newMediaKind new) w' = galleryCount (newMediaGameId new) (newMediaKind new) w + 1
}.

Lemma selectWhere_insert {Row} (p : Row → bool) r t :
  selectWhere p (insertRow r t) = selectWhere p t ++ (if p r then [r] else []).
Proof. unfold selectWhere, insertRow. rewrite List.filter_app. cbn. by destruct (p r). Qed.

Lemma perform_media_create new w result w' :
  perform (media_create new) w = (Some (Success result), w') → MediaCreated new w w' result.
Proof.
  cbn [perform statement media_create]. cbv zeta. destruct (_ || _) eqn:Eok; [done|].
  assert (newMediaStorageKey new ≠ ""%stdpp) as Hne.
  { intros E. rewrite !orb_false_iff, !negb_false_iff in Eok. destruct Eok as [[_ Hk] _]. by rewrite E in Hk. }
  cbn [gameMedia setDraws games].
  destruct (selectFirst _ (gameMedia w)) as [m|] eqn:Es.
  - apply selectFirst_Some in Es as [Hm Hs]. intros [= <- <-]. pose proof Hs as Hs'. unfold singleton in Hs'.
    rewrite !andb_true_iff in Hs'. destruct Hs' as [[Hone Hgame%uuidEq_true] Hkind%bool_decide_eq_true].
    split; cbn [storedMedia replacedStorageKey gameMedia setGameMedia].
    + apply elem_of_updateWhere. exists m. by rewrite Hs.
    + exact Hgame.
    + exact Hkind.
    + done.
    + done.
    + case_bool_decide as E; [by apply not_eq_sym|exact E].
    + intros Hn. by rewrite Hone in Hn.
  - destruct (_ || _) in |- *; [done|]. intros [= <- <-].
    split; cbn [storedMedia replacedStorageKey gameMedia setGameMedia].
    + apply elem_of_insertRow. by right.
    + done.
    + done.
    + done.
    + done.
    + by apply not_eq_sym.
    + intros _. unfold galleryCount. cbn [gameMedia setGameMedia]. rewrite selectWhere_insert. cbn [mediaGameId mediaKind newMediaRow].
      rewrite uuidEq_refl, bool_decide_eq_true_2 by done. cbn [andb gameMedia setDraws]. rewrite length_app. cbn. lia.
Qed.

End Property.
