(* ===== verification/Publishing.v ===== *)
(** What publishing promises: a build announces the hash of exactly the document that is
    served for it, that document lists exactly the files that were submitted with the
    sizes of the stored blobs, and none of it ever changes again. *)

From S2P Require Import Prelude.
From S2P Require Import Errors.
From S2P Require Import Validation.
From S2P Require Import Actors.
From S2P Require Import Catalog.
From S2P Require Import Manifest.
From S2P Require Import Delta.
From S2P Require Import Hash.
From S2P Require Import BlobStore.
From S2P Require Import Signer.
From S2P Require Import Programs.
From S2P Require Import Random.
From S2P Require Import World.
From S2P Require Import Accounts.
From S2P Require Import MailTemplates.
From S2P Require Import AuthService.
From S2P Require Import AccountSafety.
From S2P Require Import Uploads.
From S2P Require Import StorageSafety.
From S2P Require Import UploadService.
From S2P Require Import DownloadService.
From S2P Require Import RetentionService.
From S2P Require Import System.

(** ** Specification *)

(** A submitted file, with the size the store has for its content. *)
Definition storedEntry (w : World) (e : ManifestEntry) : option ManifestEntry :=
  blob ← selectFirst (blobIs (blobSha256 e)) (blobs w);
  Some (mkEntry (relativePath e) (blobSha256 e) (blobSize blob) (isExecutable e)).

(** The document served for a build. *)
Definition servedDocument (b : Build) (w : World) : string :=
  canonicalManifestDocument (filesOf (buildId b) w) (entrypointRelativePath b) (defaultLaunchArgs b).

(** ** Lemmas *)

Lemma omap_same {A B} (f g : A → option B) l : Forall (λ x, f x = g x) l → omap f l = omap g l.
Proof. induction 1 as [|x l E _ IH]; [done|]. cbn [omap list_omap]. rewrite E. by destruct (g x); rewrite IH. Qed.

Lemma blob_by_sha `{Evp} w b : StorageInv w → b ∈ blobs w → selectFirst (blobIs (blobSha b)) (blobs w) = Some b.
Proof.
  intros HI Hb. apply (selectFirst_unique blobSha); [apply HI| |done|by apply bool_decide_eq_true].
  intros x y Hx%bool_decide_eq_true Hy%bool_decide_eq_true. congruence.
Qed.

Lemma build_by_id `{Evp} w b : StorageInv w → b ∈ builds w → selectFirst (buildIs (buildId b)) (builds w) = Some b.
Proof.
  intros HI Hb. apply (selectFirst_unique (λ b, lowerText (buildId b))); [apply HI| |done|apply uuidEq_refl].
  intros x y Hx%uuidEq_true Hy%uuidEq_true. congruence.
Qed.

(** A build that is left in place is what it was. *)
Lemma ready_same `{Evp} w w' b :
  StorageInv w → StorageInv w' → BuildKept b w w' → b ∈ builds w →
  selectFirst (buildIs (buildId b)) (builds w') = Some b ∧ filesOf (buildId b) w' = filesOf (buildId b) w.
Proof.
  intros HI HI' HK Hb. split; [apply build_by_id; [done|apply HK]|].
  unfold filesOf. fold (manifestOf (buildId b) w) (manifestOf (buildId b) w'). rewrite (manifest_kept _ _ _ HK).
  f_equal. apply omap_same, Forall_forall. intros r Hr. pose proof Hr as [Hrow _]%elem_of_selectWhere.
  destruct (manifest_has w r HI Hrow) as (blob & Hblob & Esha). unfold fileEntry. rewrite <- Esha.
  rewrite (blob_by_sha w), (blob_by_sha w'); try done. by apply (contents_kept _ _ _ HK r).
Qed.

Lemma canonical_sorted entries entrypoint launchArgs :
  NoDup (paths entries) →
  canonicalManifestDocument (merge_sort entryLe entries) entrypoint launchArgs
  = canonicalManifestDocument entries entrypoint launchArgs.
Proof.
  intros HN. unfold canonicalManifestDocument.
  rewrite (sortEntries_permutation entries (merge_sort entryLe entries)); [done..|].
  by rewrite merge_sort_Permutation.
Qed.

Lemma validateManifest_NoDup entries entrypoint :
  validateManifest entries entrypoint = Success tt → NoDup (paths entries).
Proof.
  unfold validateManifest. repeat (case_match; [done|]). case_match; [|done]. cbn.
  destruct (validateEntries ∅ entries) as [seen|] eqn:E; [|done].
  apply validateEntries_spec in E as (_ & HN & _). done.
Qed.

Lemma sizesOf_Some w (shas : list string) sha n :
  sizesOf (map blobRecordOf (selectWhere (λ row, bool_decide (blobSha row ∈ shas)) (blobs w))) !! sha = Some n →
  NoDup (map blobSha (blobs w)) →
  ∃ blob, selectFirst (blobIs sha) (blobs w) = Some blob ∧ blobSize blob = n.
Proof.
  unfold sizesOf. rewrite (foldl_emplace recordSha256 recordSizeBytes), lookup_empty.
  destruct (head _) as [r|] eqn:E; [|done]. cbn. intros [= <-] HN.
  apply head_filter_Some in E as [(blob & -> & [Hb _]%elem_of_selectWhere)%list_elem_of_fmap <-]. cbn in *.
  exists blob. split; [|done]. apply (selectFirst_unique blobSha); [done| |done|by apply bool_decide_eq_true].
  intros x y Hx%bool_decide_eq_true Hy%bool_decide_eq_true. congruence.
Qed.

Lemma sizedFiles_paths sizes entries sized :
  sizedFiles sizes entries = Some sized → paths sized = paths entries.
Proof.
  revert sized. induction entries as [|e rest IH]; intros sized; cbn; [by intros [= <-]|].
  destruct (sizes !! _) as [n|]; [|done]. cbn. destruct (sizedFiles sizes rest) as [l|]; [|done].
  intros [= <-]. cbn. f_equal. by apply IH.
Qed.

Lemma sizedFiles_stored w sizes entries sized :
  (∀ sha n, sizes !! sha = Some n → ∃ blob, selectFirst (blobIs sha) (blobs w) = Some blob ∧ blobSize blob = n) →
  sizedFiles sizes entries = Some sized → sized = omap (storedEntry w) entries.
Proof.
  intros Hs. revert sized. induction entries as [|e rest IH]; intros sized; cbn; [by intros [= <-]|].
  destruct (sizes !! _) as [n|] eqn:En; [|done]. cbn. destruct (sizedFiles sizes rest) as [l|] eqn:El; [|done].
  intros [= <-]. destruct (Hs _ _ En) as (blob & Eb & <-). unfold storedEntry at 1. rewrite Eb. cbn.
  f_equal. by apply IH.
Qed.

Section Finalized.
Context `{Evp, Postgres}.

(** The files of a build right after its manifest was inserted. *)
Lemma filesOf_inserted w w' b files_ :
  StorageInv w → b ∈ builds w → status b = Uploading →
  blobs w' = blobs w → buildFiles w' = buildFiles w ++ map (manifestRow (buildId b)) files_ →
  (∀ e, e ∈ files_ → storedEntry w e = Some e) →
  filesOf (buildId b) w' = merge_sort entryLe files_.
Proof.
  intros HI Hb Hup Eblobs Erows Hstored. unfold filesOf. f_equal. unfold selectWhere.
  rewrite Erows, List.filter_app.
  assert (List.filter (λ row, uuidEq (fileBuildId row) (buildId b)) (buildFiles w) = []) as ->.
  { apply selectWhere_none. intros r Hr. apply not_true_is_false. intros E.
    assert (status b = Ready); [|congruence]. apply (uploading_empty w HI r); [done|done|].
    apply uuidEq_true in E. by apply uuidEq_true. }
  cbn [app]. clear Erows. induction files_ as [|e rest IH]; [done|].
  cbn [map List.filter manifestRow fileBuildId]. rewrite uuidEq_refl. cbn [omap list_omap].
  assert (fileEntry w' (manifestRow (buildId b) e) = Some e) as ->.
  { specialize (Hstored e ltac:(by left)). unfold fileEntry, storedEntry in *. cbn [fileSha manifestRow].
    rewrite Eblobs. exact Hstored. }
  f_equal. apply IH. intros x Hx. apply Hstored. by right.
Qed.

Lemma storedEntry_stored w e e' : storedEntry w e = Some e' → storedEntry w e' = Some e'.
Proof.
  unfold storedEntry. destruct (selectFirst _ _) as [blob|] eqn:E; [|done]. cbn. intros [= <-]. cbn. by rewrite E.
Qed.

Lemma perform_writableBuild actor id w :
  ∃ r, perform (writableBuild actor id) w = (Some r, w)
    ∧ ∀ o, r = Success o → can actor permissions.BUILD_UPLOAD = true ∧ ownershipOf id w = Some o
        ∧ mayPublishBuild o actor = true ∧ ownStatus o = Uploading.
Proof.
  unfold writableBuild, builds_findOwnership.
  destruct (can actor _) eqn:Ecan; cbn [negb]; [|by eexists].
  destruct (isUuid id); cbn [negb]; [|by eexists]. run_statements.
  destruct (ownershipOf id w) as [o|]; [|by eexists].
  destruct (mayPublishBuild o actor) eqn:Epub; cbn [negb]; [|by eexists].
  case_bool_decide as Hup; cbn [negb]; run_statements; [|by eexists].
  eexists. split; [done|]. by intros ? [= <-].
Qed.

Lemma ownershipOf_build id w o :
  ownershipOf id w = Some o →
  ∃ b, selectFirst (buildIs id) (builds w) = Some b ∧ ownBuildId o = buildId b ∧ ownStatus o = status b.
Proof.
  unfold ownershipOf. destruct (selectFirst (buildIs id) _) as [b|]; [|done]. cbn.
  repeat (destruct (selectFirst _ _); [cbn|done]). intros [= <-]. by exists b.
Qed.

(** What a manifest command asks to be recorded. *)
Definition recordedManifest (w : World) (command : FinalizeBuildCommand) : FinalizedManifest :=
  let files_ := omap (storedEntry w) (commandFiles command) in
  let entrypoint := trim (commandEntrypoint command) in
  mkFinalized files_ entrypoint (commandLaunchArgs command)
    (sha256Hex (canonicalManifestDocument files_ entrypoint (commandLaunchArgs command))) (installedSize files_).

(** A successful publication, from the first statement to the last. *)
Record PublishedBy (actor : Actor) (id : string) (command : FinalizeBuildCommand) (w w' : World) (b0 : Build)
    : Prop := {
  by_build : b0 ∈ builds w ∧ buildIs id b0 = true ∧ status b0 = Uploading;
  by_permission : can actor permissions.BUILD_UPLOAD = true;
  by_owner : ∃ o, ownershipOf id w = Some o ∧ mayPublishBuild o actor = true;
  by_manifest : validateManifest (commandFiles command) (trim (commandEntrypoint command)) = Success tt;
  by_paths : paths (finalizedFiles (recordedManifest w command)) = paths (commandFiles command);
  by_update : builds w' = updateWhere (uploadingBuild (buildId b0)) (readyBuild (clock w) (recordedManifest w command)) (builds w);
  by_insert : buildFiles w' = buildFiles w ++ map (manifestRow (buildId b0)) (finalizedFiles (recordedManifest w command));
  by_rest : blobs w' = blobs w ∧ games w' = games w ∧ versions w' = versions w
}.

Lemma perform_finalizeBuild actor id command w b w' :
  StorageInv w → perform (finalizeBuild actor id command) w = (Some (Success b), w') →
  ∃ b0, PublishedBy actor id command w w' b0 ∧ b = readyBuild (clock w) (recordedManifest w command) b0.
Proof.
  intros HI. unfold finalizeBuild. rewrite perform_bind.
  destruct (perform_writableBuild actor id w) as (r & -> & Hr).
  destruct r as [o|e]; [|done]. destruct (Hr o eq_refl) as (Hcan & Ho & Hpub & Hup). cbv zeta.
  case_match; [done|]. destruct (validateManifest _ _) as [[]|e] eqn:Ev; [|done].
  unfold blobs_findMany. run_statements.
  case_match; [done|]. destruct (sizedFiles _ _) as [files_|] eqn:Es; [|done].
  pose proof (sizedFiles_paths _ _ _ Es) as Epaths.
  apply (sizedFiles_stored w) in Es as ->.
  2:{ intros sha n Hsha. eapply sizesOf_Some; [exact Hsha|apply HI]. }
  fold (recordedManifest w command). unfold builds_finalize. run_statements.
  destruct (ownershipOf_build id w o Ho) as (b0 & Eb0 & Eid & Est). rewrite Eid.
  apply selectFirst_Some in Eb0 as [Hb0 Hid].
  destruct (selectFirst (uploadingBuild (buildId b0)) (builds w)) as [b1|] eqn:Eb1.
  2:{ run_statements. done. }
  apply selectFirst_Some in Eb1 as [Hb1 [Hid1%uuidEq_true _]%andb_true_iff].
  assert (b1 = b0) as -> by (by apply (same_build w)).
  destruct (negb (isSha256Hex _)); [done|]. destruct (negb (manifestRowsFit _ _ _)); [done|].
  run_statements. intros [= <- <-]. exists b0. split; [|done].
  split; try done; [|by exists o]. split_and!; [done|done|congruence].
Qed.

Lemma perform_manifest actor id w doc w' :
  perform (manifest actor id) w = (Some (Success doc), w') →
  ∃ b, selectFirst (buildIs id) (builds w) = Some b
    ∧ documentJson doc = canonicalManifestDocument (filesOf id w) (entrypointRelativePath b) (defaultLaunchArgs b)
    ∧ documentSha256 doc = buildManifestSha256 b.
Proof.
  unfold manifest, builds_findOwnership, builds_findById, builds_filesFor.
  repeat (case_match; [done|]). run_statements.
  destruct (ownershipOf id w) as [o|]; [|done]. repeat (case_match; [done|]). run_statements.
  destruct (selectFirst _ (builds w)) as [b|]; [|done]. run_statements. intros [= <- <-]. by exists b.
Qed.

(** The world a publication leaves. *)
Lemma published_files w w' b0 actor id command :
  let b := readyBuild (clock w) (recordedManifest w command) b0 in
  StorageInv w → PublishedBy actor id command w w' b0 →
  b ∈ builds w'
  ∧ filesOf (buildId b) w' = merge_sort entryLe (omap (storedEntry w) (commandFiles command))
  ∧ NoDup (paths (omap (storedEntry w) (commandFiles command))).
Proof.
  intros b HS [(Hb0 & Hid & Hup) _ _ Hv Hpaths Hupd Hins (Hblobs & _ & _)].
  split; [|split].
  - rewrite Hupd. apply elem_of_updateWhere. exists b0. split; [done|]. unfold uploadingBuild.
    by rewrite (uuidEq_refl (buildId b0) : buildIs (buildId b0) b0 = true), bool_decide_eq_true_2.
  - change (buildId b) with (buildId b0).
    apply (filesOf_inserted w); [done|done|done|done|exact Hins|].
    intros e (e0 & _ & He)%list_elem_of_omap. by eapply storedEntry_stored.
  - change (finalizedFiles (recordedManifest w command)) with (omap (storedEntry w) (commandFiles command)) in Hpaths.
    rewrite Hpaths. by eapply validateManifest_NoDup.
Qed.
End Finalized.

(** ** Properties *)

Section Properties.
Context `{Sodium, PasswordHasher, Evp, Md5, Postgres, MailSender, TokenService, Disk}.
Variable site : Deployment.

Notation step := (poolStep (routed site) clockTick).

(** What is served of a build for as long as it is not deleted. *)
Lemma served_kept w c c' b reader doc c1 :
  SysInv w → reachable step (w, []) c → reachable (undeleted site (buildId b)) c c' →
  b ∈ builds c.1 → status b = Ready → perform (manifest reader (buildId b)) c'.1 = (Some (Success doc), c1) →
  documentJson doc = servedDocument b c.1 ∧ documentSha256 doc = buildManifestSha256 b.
Proof.
  intros HI Hr Hr' Hb Hready Hdoc.
  destruct (system_inv site w c HI Hr) as (_ & HS & _).
  destruct (system_inv site w c' HI) as (_ & HS' & _);
    [eapply reachable_trans; [exact Hr|by eapply undeleted_reachable]|].
  destruct (ready_same c.1 c'.1 b HS HS') as [E2 E3]; [by eapply system_build|done|].
  destruct (perform_manifest reader (buildId b) c'.1 doc c1 Hdoc) as (b1 & Eb1 & E1 & E4).
  rewrite E2 in Eb1. injection Eb1 as <-. by rewrite E3 in E1.
Qed.

(** C5: finalizing succeeds only for a publisher of the build, while it is uploading
    and with a valid manifest whose content is all in the store.  The build is then ready,
    its files are the submitted ones with the sizes of the stored blobs, and from then on,
    however requests of every kind interleave, for as long as the build is not deleted the
    document any reader is served for it is that of these files and hashes to what the build
    announces. *)
Theorem publish_correct actor id command w b w' :
  SysInv w → perform (finalizeBuild actor id command) w = (Some (Success b), w') →
  (can actor permissions.BUILD_UPLOAD = true
   ∧ (∃ o, ownershipOf id w = Some o ∧ mayPublishBuild o actor = true ∧ ownStatus o = Uploading)
   ∧ validateManifest (commandFiles command) (trim (commandEntrypoint command)) = Success tt)
  ∧ (b ∈ builds w' ∧ status b = Ready
     ∧ filesOf (buildId b) w' ≡ₚ omap (storedEntry w) (commandFiles command)
     ∧ paths (filesOf (buildId b) w') ≡ₚ paths (commandFiles command))
  ∧ ∀ c, reachable (undeleted site (buildId b)) (w', []) c →
      ∀ reader doc c1, perform (manifest reader (buildId b)) c.1 = (Some (Success doc), c1) →
        documentJson doc = servedDocument b w' ∧ documentSha256 doc = buildManifestSha256 b
        ∧ sha256Hex (documentJson doc) = documentSha256 doc.
Proof.
  intros HI Hp. pose proof Hp as Hp'. pose proof HI as (HA & HS & HC).
  apply perform_finalizeBuild in Hp' as (b0 & HP & ->); [|done].
  destruct (published_files w w' b0 actor id command HS HP) as (Hin & Hfiles & HN).
  set (b := readyBuild _ _ b0) in *.
  split; [|split; [split; [done|split; [done|split]]|]].
  - destruct HP as [(Hb0 & Hid & Hup) Hcan (o & Ho & Hpub) Hv _ _ _ _]. split_and!; [done| |done].
    exists o. split_and!; [done|done|]. destruct (ownershipOf_build id w o Ho) as (b1 & Eb1 & _ & ->).
    apply selectFirst_Some in Eb1 as [Hb1 Hid1]. rewrite <- Hup. f_equal. apply (same_build w); [done..|].
    apply uuidEq_true in Hid, Hid1. congruence.
  - rewrite Hfiles. apply merge_sort_Permutation.
  - rewrite Hfiles, <- (by_paths _ _ _ _ _ _ HP). apply fmap_Permutation, merge_sort_Permutation.
  - intros c Hr reader doc c1 Hdoc.
    assert (SysInv w') as HI' by (eapply perform_inv; [apply finalizeBuild_keeps|exact HI|exact Hp]).
    destruct (served_kept w' (w', []) c b reader doc c1) as [E1 E2]; try done; [apply reachable_refl|].
    split; [done|]. split; [done|]. rewrite E1, E2. unfold servedDocument. cbn [fst].
    by rewrite Hfiles, canonical_sorted.
Qed.

(** C6: from the moment a build is ready, however requests of every kind interleave,
    for as long as nobody deletes it its row and its files stay what they are, whoever is
    served a manifest for it is served the same one, and no sweep and no delete of another
    build takes a blob any of its files is in. *)
Theorem published_immutable w c c' b :
  SysInv w → reachable step (w, []) c → reachable (undeleted site (buildId b)) c c' →
  b ∈ builds c.1 → status b = Ready →
  b ∈ builds c'.1
  ∧ filesOf (buildId b) c'.1 = filesOf (buildId b) c.1
  ∧ (∀ reader doc c1, perform (manifest reader (buildId b)) c'.1 = (Some (Success doc), c1) →
       documentJson doc = servedDocument b c.1 ∧ documentSha256 doc = buildManifestSha256 b)
  ∧ (∀ r blob, r ∈ manifestOf (buildId b) c.1 → blob ∈ blobs c.1 → blobSha blob = fileSha r → blob ∈ blobs c'.1).
Proof.
  intros HI Hr Hr' Hb Hready. pose proof (system_build site w c c' b HI Hr Hr' Hb Hready) as HK.
  destruct (system_inv site w c HI Hr) as (_ & HS & _).
  destruct (system_inv site w c' HI) as (_ & HS' & _);
    [eapply reachable_trans; [exact Hr|by eapply undeleted_reachable]|].
  destruct (ready_same c.1 c'.1 b HS HS' HK Hb) as [_ E3].
  split_and!; [apply HK|done| |apply HK]. intros. by eapply served_kept.
Qed.
End Properties.
