(* ===== verification/Scenarios.v ===== *)
(** A concrete deployment, on which the theorems about the whole system are instantiated,
    and the schedules that show what it does not promise. *)

From S2P Require Import Prelude.
From S2P Require Import Errors.
From S2P Require Import Validation.
From S2P Require Import Actors.
From S2P Require Import Catalog.
From S2P Require Import Manifest.
From S2P Require Import Delta.
From S2P Require Import Hash.
From S2P Require Import BlobStore.
From S2P Require Import Signer.
From S2P Require Import Programs.
From S2P Require Import Random.
From S2P Require Import World.
From S2P Require Import Accounts.
From S2P Require Import MailTemplates.
From S2P Require Import AuthService.
From S2P Require Import AccountSafety.
From S2P Require Import AuthSessions.
From S2P Require Import Uploads.
From S2P Require Import StorageSafety.
From S2P Require Import Media.
From S2P Require Import PatchNote.
From S2P Require Import CatalogRepositories.
From S2P Require Import ContentRepositories.
From S2P Require Import CatalogService.
From S2P Require Import PatchNoteService.
From S2P Require Import MediaService.
From S2P Require Import AuditLog.
From S2P Require Import AdminRepositories.
From S2P Require Import AdminUserService.
From S2P Require Import CrashReportService.
From S2P Require Import AdminSafety.
From S2P Require Import CatalogSafety.
From S2P Require Import UploadService.
From S2P Require Import DownloadService.
From S2P Require Import RetentionService.
From S2P Require Import System.
From S2P Require Import Publishing.

(** ** The deployment *)

Definition sampleDisk : Disk := {| faultsAt _ := noFaults |}.

Definition sampleMd5 : Md5 := {| md5 data := Some (take 16 (data ++ replicate 16 "0"%char)) |}.

#[local] Existing Instances sampleSodium sampleEvp samplePostgres sampleMail sampleTokens sampleDisk sampleMd5.

Definition sampleUploads : UploadSettings := mkUploadSettings 1000000 1000 86400 4 100.
Definition sampleSigner : SignedUrlSettings := mkSettings "https://cdn.example.org/files" "s3cret" 300.
(** The default ratio, 0.7. *)
Definition sampleDownloads : DownloadSettings := mkDownloadSettings (SpecFloat.S754_finite false 6305039478318694 (-53)).
Definition sampleRetention : RetentionSettings := mkRetentionSettings 86400 500.

Definition sampleMedia : MediaLimits := mkMediaLimits 10485760 209715200.

Definition sampleSite : Deployment :=
  mkDeployment sampleSettings sampleUploads sampleSigner sampleDownloads sampleRetention sampleMedia
    (mkCrashSettings 2592000).

Definition publisherId : string := default ""%stdpp (userId <$> head (users registeredWorld)).
Definition publisher : Actor := mkActor publisherId [permissions.BUILD_UPLOAD; permissions.GAME_DOWNLOAD].
Definition player : Actor := mkActor "00000000-0000-4000-8000-00000000beef" [permissions.GAME_DOWNLOAD].

Definition sampleGameId : string := "11111111-1111-4111-8111-111111111111".
Definition sampleVersionId : string := "22222222-2222-4222-8222-222222222222".
Definition sampleBuildId : string := "33333333-3333-4333-8333-333333333333".

(** A game of the publisher with a released version, and a build of it to upload. *)
Definition catalogWith (seen : GameVisibility) : World :=
  setGames [mkGame sampleGameId "my-game" "My game" "" "" publisherId "" "" seen "" "" ""]
    (setVersions [mkGameVersion sampleVersionId sampleGameId "1.0.0" 1 0 0 Release "" "2026-01-01T00:00:00Z" ""]
      (setBuilds [mkBuild sampleBuildId sampleVersionId "" Windows X64 Uploading "" 0 0 "" "" "" ""]
        registeredWorld)).

Definition catalogWorld : World := catalogWith Public.

Notation sampleRequest := (routed sampleSite).
Notation sampleStep := (poolStep sampleRequest clockTick).

(** The invariant of the whole system, decided by running where nothing is stored yet. *)
Lemma references_run {Row Row'} (key : Row → string) (named : string → Row' → bool) t t' :
  forallb (λ r, anyWhere (named (key r)) t') t = true → references key named t t'.
Proof. rewrite forallb_forall. intros Hf. apply Forall_forall. intros r Hr. by apply Hf, list_elem_of_In. Qed.

Lemma catalogWith_storage seen : StorageInv (catalogWith seen).
Proof.
  split; cbn [sessions blobs buildFiles files builds catalogWith].
  1, 2, 4, 5, 7, 8, 10, 11: constructor.
  - intros s s' Hs. destruct (not_elem_of_nil _ Hs).
  - apply NoDup_singleton.
  - intros r b Hr. destruct (not_elem_of_nil _ Hr).
  - intros h q c _ E. discriminate E.
Qed.

Lemma catalogWith_catalog seen : CatalogInv (catalogWith seen).
Proof.
  split; cbn [games versions builds gameMedia patchNotes userGames mediaFiles catalogWith].
  all: try (apply NoDup_singleton || (apply references_run; vm_compute; reflexivity) || constructor).
  - intros h f c _ E. discriminate E.
  - intros m m' Hm. destruct (not_elem_of_nil _ Hm).
Qed.

Lemma catalogWorld_inv : SysInv catalogWorld.
Proof.
  split; [split; [apply accountsOk_sound|apply usageOk_sound]; vm_compute; reflexivity|].
  split; [apply catalogWith_storage|apply catalogWith_catalog].
Qed.

(** ** Publishing and downloading *)

Definition sampleHash : string := sha256Hex "hello world".

Definition begun : option (Result UploadSession) * World :=
  perform (beginUpload sampleUploads publisher sampleBuildId (mkDeclaration sampleHash 11)) catalogWorld.

Definition sampleSession : string :=
  match begun.1 with
  | Some (Success session) => uploadId session
  | _ => ""
  end.

Definition uploaded : option (Result UploadSession) * World :=
  perform (uploadChunk sampleUploads publisher sampleSession 0 (chars "hello world")) begun.2.

Definition sampleCommand : FinalizeBuildCommand :=
  mkFinalize [mkEntry "bin/game.exe" sampleHash 0 true; mkEntry "README" sampleHash 0 false]
    " bin/game.exe " "--fast".

Definition published : option (Result Build) * World :=
  perform (finalizeBuild publisher sampleBuildId sampleCommand) uploaded.2.

Definition downloaded : option (Result DownloadPlan) * World :=
  perform (plan sampleSigner sampleDownloads publisher sampleBuildId "") published.2.

(** One file as it should be, the other overwritten, and one that does not belong. *)
Definition checked : option (Result IntegrityReport) * World :=
  perform (verifyInstall sampleSigner publisher sampleBuildId
    [mkInstalled "README" sampleHash; mkInstalled "save.dat" sampleHash; mkInstalled "bin/game.exe" (sha256Hex "bad")])
    published.2.

(** The pool after the publisher's first [n] requests were served. *)
Definition idle (n : nat) (w : World) : Pool := (w, replicate n (Done tt)).

(** Rewritten rather than computed where the world is the result of a run. *)
Lemma idle_world n w : (idle n w).1 = w.
Proof. reflexivity. Qed.

Lemma serve {A} (p : Prog World A) n w c :
  sampleRequest (answered p) → reachable sampleStep c (idle n w) →
  (∃ a, (perform p w).1 = Some a) →
  reachable sampleStep c (idle (S n) (perform p w).2).
Proof.
  intros Hp Hc [a Ha]. eapply request_reachable; [exact Hp|exact Hc|].
  rewrite (surjective_pairing (perform p w)) at 1. rewrite Ha. reflexivity.
Qed.

Lemma begun_reachable : reachable sampleStep (catalogWorld, []) (idle 1 begun.2).
Proof.
  apply (serve (beginUpload sampleUploads publisher sampleBuildId (mkDeclaration sampleHash 11)) 0);
    [eexists; apply request_begin|apply reachable_refl|]. eexists. vm_compute. reflexivity.
Qed.

Lemma uploaded_reachable : reachable sampleStep (catalogWorld, []) (idle 2 uploaded.2).
Proof.
  apply (serve (uploadChunk sampleUploads publisher sampleSession 0 (chars "hello world")) 1);
    [eexists; apply request_chunk|apply begun_reachable|]. eexists. vm_compute. reflexivity.
Qed.

Lemma published_reachable : reachable sampleStep (catalogWorld, []) (idle 3 published.2).
Proof.
  apply (serve (finalizeBuild publisher sampleBuildId sampleCommand) 2);
    [eexists; apply request_finalize|apply uploaded_reachable|]. eexists. vm_compute. reflexivity.
Qed.

(** A run whose every world passes a check. *)
Fixpoint runs {A} (check : World → bool) (p : Prog World A) (w : World) : bool :=
  match p with
  | Done _ => true
  | Raise => false
  | Step f next => match f w with Some (b, w') => check w' && runs check (next b) w' | None => false end
  end.

Lemma runs_reachable {A} check (p : Prog World A) w ps :
  runs check p w = true →
  reachable (λ c c', sampleStep c c' ∧ check c'.1 = true) (w, answered p :: ps) ((perform p w).2, Done tt :: ps).
Proof.
  revert w. induction p as [b| |B f next IH]; intros w; cbn; [intros _; apply reachable_refl|done|].
  destruct (f w) as [[b w1]|] eqn:Ef; [|done]. intros [Hc Hr]%andb_true_iff.
  eapply reachable_trans; [|by apply (IH b w1)]. eapply reachable_step; [apply reachable_refl|].
  split; [|exact Hc]. exact (pool_advance _ _ w w1 [] ps B f (λ b, answered (next b)) b Ef).
Qed.

Lemma serve_checked {A} check (p : Prog World A) n w :
  sampleRequest (answered p) → check w = true → runs check p w = true →
  reachable (λ c c', sampleStep c c' ∧ check c'.1 = true) (idle n w) (idle (S n) (perform p w).2).
Proof.
  intros Hp Hw Hr. eapply reachable_trans; [|by apply (runs_reachable check p w (replicate n (Done tt)))].
  eapply reachable_step; [apply reachable_refl|]. split; [by apply pool_arrive|exact Hw].
Qed.

Definition sampleBuildThere (w : World) : bool := anyWhere (buildIs sampleBuildId) (builds w).

Lemma planned_reachable n w :
  sampleBuildThere w = true → runs sampleBuildThere (plan sampleSigner sampleDownloads publisher sampleBuildId "") w = true →
  reachable (undeleted sampleSite sampleBuildId) (idle n w)
    (idle (S n) (perform (plan sampleSigner sampleDownloads publisher sampleBuildId "") w).2).
Proof.
  exact (serve_checked sampleBuildThere (plan sampleSigner sampleDownloads publisher sampleBuildId "") n w
    (ex_intro _ _ (request_plan sampleSite publisher sampleBuildId ""))).
Qed.

Lemma downloaded_reachable :
  reachable (undeleted sampleSite sampleBuildId) (idle 3 published.2) (idle 4 downloaded.2).
Proof. unfold downloaded. apply planned_reachable; vm_compute; reflexivity. Qed.

(** ** Schedules *)

(** A session for the same bytes that declares twenty, eleven of which have arrived. *)
Definition overdeclared : World :=
  (perform (uploadChunk sampleUploads publisher sampleSession 0 (chars "hello world"))
     (perform (beginUpload sampleUploads publisher sampleBuildId (mkDeclaration sampleHash 20)) catalogWorld).2).2.

Definition shortRequests : list (Prog World unit) :=
  [answered (uploadChunk sampleUploads publisher sampleSession 11 (chars "123456789"));
   answered (uploadChunk sampleUploads publisher sampleSession 20 [])].

(** One chunk reserves the last nine bytes and, before it writes them, an empty chunk at the
    end of the session completes it. *)
Definition shortUpload : Pool :=
  schedule ([0; 0] ++ replicate 9 1 ++ replicate 4 0)%nat
    (overdeclared, shortRequests ++ replicate 2 (Done tt)).

(** The size a blob is recorded with is the declared one, and concurrent chunks of
    one session can make it wrong: an empty chunk, sent while another chunk has reserved
    the end of the file and not yet written it, completes the session, and a blob of
    eleven bytes is recorded, charged and from then on announced as one of twenty. *)
Theorem size_race :
  SysInv catalogWorld ∧ reachable sampleStep (catalogWorld, []) shortUpload
  ∧ ∃ blob content, blob ∈ blobs shortUpload.1 ∧ blobAt (files shortUpload.1) (blobSha blob) = Some content
      ∧ length content = 11%nat ∧ blobSize blob = 20.
Proof.
  split; [apply catalogWorld_inv|]. split.
  - eapply reachable_trans; [|apply schedule_reachable]. eapply reachable_trans.
    + apply (serve (uploadChunk sampleUploads publisher sampleSession 0 (chars "hello world")) 1);
        [eexists; apply request_chunk
        |apply (serve (beginUpload sampleUploads publisher sampleBuildId (mkDeclaration sampleHash 20)) 0);
           [eexists; apply request_begin|apply reachable_refl|]|]; eexists; vm_compute; reflexivity.
    + apply arrive_more. repeat (apply Forall_cons; split); [eexists; apply request_chunk..|constructor].
  - assert (∃ blob, blobs shortUpload.1 = [blob] ∧ blobSize blob = 20
      ∧ blobAt (files shortUpload.1) (blobSha blob) = Some (chars "hello world")) as (blob & E & Hs & Hf).
    { eexists. split; [vm_compute; reflexivity|]. split; [reflexivity|vm_compute; reflexivity]. }
    exists blob, (chars "hello world"). split_and!; [|exact Hf|reflexivity|exact Hs].
    rewrite E. by left.
Qed.

(** The content is in the store, old enough and in no build. *)
Definition stale : World := setClock 100000 uploaded.2.

Definition resurrecting : list (Prog World unit) :=
  [answered (collectUnreferencedBlobs sampleRetention);
   answered (beginUpload sampleUploads publisher sampleBuildId (mkDeclaration sampleHash 11));
   answered (uploadChunk sampleUploads publisher "00000000-0000-4000-8000-000000000007" 0 (chars "hello world"))].

(** The sweep deletes the row; the content is uploaded again, its file still there; and the
    sweep deletes the file. *)
Definition resurrected : Pool :=
  schedule ([0; 0] ++ replicate 6 1 ++ replicate 10 2 ++ [0; 0])%nat
    (stale, resurrecting ++ replicate 2 (Done tt)).

(** The sweep deletes a blob's row and then its file, and what happens in between is
    lost: content uploaded again at that moment ends up recorded, and its file deleted. *)
Theorem sweep_race :
  SysInv catalogWorld ∧ reachable sampleStep (catalogWorld, []) resurrected
  ∧ ∃ blob, blob ∈ blobs resurrected.1 ∧ blobAt (files resurrected.1) (blobSha blob) = None.
Proof.
  split; [apply catalogWorld_inv|]. split.
  - eapply reachable_trans; [|apply schedule_reachable]. eapply reachable_trans; [apply uploaded_reachable|].
    eapply reachable_trans; [|apply arrive_more; repeat (apply Forall_cons; split);
      [eexists; apply request_collect|eexists; apply request_begin|eexists; apply request_chunk|constructor]].
    eapply reachable_step; [apply reachable_refl|]. apply pool_drift. constructor. vm_compute. discriminate.
  - assert (∃ blob, blobs resurrected.1 = [blob] ∧ blobAt (files resurrected.1) (blobSha blob) = None) as (blob & E & Hf).
    { eexists. split; vm_compute; reflexivity. }
    exists blob. split; [|exact Hf]. rewrite E. by left.
Qed.

(** ** The properties at this deployment *)

Lemma uploaded_inv : SysInv uploaded.2.
Proof.
  exact (system_inv sampleSite _ _ catalogWorld_inv uploaded_reachable).
Qed.

Lemma stale_inv : SysInv stale.
Proof. refine (proj1 (clockTick_kept uploaded.2 stale uploaded_inv _)). constructor. vm_compute. discriminate. Qed.

Lemma published_inv : SysInv published.2.
Proof.
  rewrite <- (idle_world 3).
  apply (system_inv sampleSite _ _ catalogWorld_inv published_reachable).
Qed.

Lemma published_keys : ManifestKeys published.2.
Proof. apply manifest_keys, published_inv. Qed.



(** The build of a draft game is not there for a player. *)
Lemma hidden_builds_witness :
  perform (manifest player sampleBuildId) (catalogWith Draft) = (Some (failure NotFound "no such build"), (catalogWith Draft)).
Proof.
  destruct (ownershipOf sampleBuildId (catalogWith Draft)) as [o|] eqn:E; [|discriminate E].
  apply (hidden_builds sampleSite player sampleBuildId (catalogWith Draft) registeredWorld o E).
  - vm_compute in E. injection E as <-. vm_compute. reflexivity.
  - vm_compute. reflexivity.
  - left. reflexivity.
Defined.

Lemma answer_is {A B} {x : A * B} {a} : x.1 = a → x = (a, x.2).
Proof. by destruct x as [? ?]; intros <-. Qed.

Lemma published_success : ∃ b, published = (Some (Success b), published.2).
Proof.
  destruct published.1 as [[b|e]|] eqn:E; [|vm_compute in E; discriminate E..].
  exists b. exact (answer_is E).
Qed.

Lemma publish_correct_witness :
  ∃ b, published = (Some (Success b), published.2)
    ∧ (status b = Ready ∧ paths (filesOf (buildId b) published.2) ≡ₚ paths (commandFiles sampleCommand))
    ∧ ∀ doc w1, perform (manifest player (buildId b)) published.2 = (Some (Success doc), w1) →
        sha256Hex (documentJson doc) = documentSha256 doc.
Proof.
  destruct published_success as [b E]. exists b. split; [exact E|]. unfold published at 1 in E.
  destruct (publish_correct sampleSite
    publisher sampleBuildId sampleCommand uploaded.2 b published.2 uploaded_inv E) as (_ & (_ & Hs & _ & Hp) & Hd).
  split; [split; [exact Hs|exact Hp]|]. intros doc w1 Hdoc.
  rewrite <- (idle_world 0 published.2) in Hdoc. apply (Hd (idle 0 published.2) (reachable_refl _ _) player doc w1 Hdoc).
Defined.

(** The one build of a world that has one. *)
Lemma published_build : ∃ b, builds published.2 = [b] ∧ status b = Ready ∧ buildId b = sampleBuildId.
Proof. eexists. split_and!; vm_compute; reflexivity. Qed.

Lemma published_immutable_witness :
  ∃ b, b ∈ builds downloaded.2 ∧ status b = Ready
    ∧ filesOf (buildId b) downloaded.2 = filesOf (buildId b) published.2.
Proof.
  destruct published_build as (b & E & Hready & Eid). exists b.
  destruct (published_immutable sampleSite
    catalogWorld (idle 3 published.2) (idle 4 downloaded.2) b) as (Hb & Hf & _).
  - apply catalogWorld_inv.
  - apply published_reachable.
  - rewrite Eid. apply downloaded_reachable.
  - rewrite idle_world, E. left.
  - exact Hready.
  - rewrite idle_world in Hb, Hf. rewrite idle_world in Hf. split; [exact Hb|]. split; [exact Hready|exact Hf].
Defined.

Lemma downloaded_success : ∃ p, downloaded = (Some (Success p), downloaded.2)
  ∧ planDownloadBytes p = 11 ∧ bool_decide (planFiles p = []) = false ∧ downloadEvents published.2 = []
  ∧ isUuid "" = false ∧ ownershipOf "" published.2 = None.
Proof.
  destruct downloaded.1 as [[p|e]|] eqn:E; [|vm_compute in E; discriminate E..].
  exists p. split; [exact (answer_is E)|].
  vm_compute in E. injection E as <-. split_and!; vm_compute; reflexivity.
Qed.

Lemma inserted_first (event : DownloadEvent) : length (insertRow event []) = 1%nat.
Proof. reflexivity. Qed.


Lemma checked_success : ∃ r, checked = (Some (Success r), checked.2)
  ∧ intact r = false ∧ missing r = [] ∧ corrupt r = ["bin/game.exe"]%stdpp ∧ unexpected r = ["save.dat"]%stdpp.
Proof.
  destruct checked.1 as [[r|e]|] eqn:E; [|vm_compute in E; discriminate E..].
  exists r. split; [exact (answer_is E)|].
  vm_compute in E. injection E as <-. split_and!; vm_compute; reflexivity.
Qed.

Lemma verifyInstall_correct_witness :
  ∃ r, checked = (Some (Success r), checked.2) ∧ intact r = false ∧ corrupt r = ["bin/game.exe"]%stdpp
    ∧ "save.dat"%stdpp ∉ paths (filesOf sampleBuildId published.2).
Proof.
  destruct checked_success as (r & E & Hi & _ & Hc & Hu). exists r. split; [exact E|].
  split; [exact Hi|]. split; [exact Hc|]. unfold checked at 1 in E.
  destruct (verifyInstall_correct sampleSigner publisher sampleBuildId _ published.2 r checked.2 E)
    as (_ & _ & _ & Hunexpected & _).
  apply (Hunexpected "save.dat"%stdpp). rewrite Hu. left.
Defined.

(** Uploaded, never published and by now old enough: the content goes and the bytes are
    given back. *)
Lemma collect_correct_witness :
  ∃ report w', perform (collectUnreferencedBlobs sampleRetention) stale = (Some report, w')
    ∧ collected report = 1%nat ∧ blobs w' = [] ∧ length (blobs stale) = 1%nat.
Proof.
  destruct (collect_correct sampleRetention stale) as (report & w' & E & _ & _ & _ & Hcount & _); [apply stale_inv|].
  exists report, w'. split; [exact E|].
  assert (collected report = 1%nat) as Hone.
  { apply (f_equal fst) in E. vm_compute in E. injection E as <-. reflexivity. }
  assert (length (blobs stale) = 1%nat) as Hlen by (vm_compute; reflexivity).
  split; [exact Hone|]. split; [|exact Hlen].
  rewrite Hone, Hlen in Hcount. destruct (blobs w') as [|b l]; [reflexivity|cbn in Hcount; lia].
Defined.
