(* ===== verification/Storefront.v ===== *)
(** The theorems about the catalog at a concrete deployment: a publisher adds a game to the
    one there is, gives it a cover, and takes it away again. *)

From S2P Require Import Prelude.
From S2P Require Import Errors.
From S2P Require Import Validation.
From S2P Require Import Actors.
From S2P Require Import Catalog.
From S2P Require Import Manifest.
From S2P Require Import Delta.
From S2P Require Import Hash.
From S2P Require Import BlobStore.
From S2P Require Import Signer.
From S2P Require Import Programs.
From S2P Require Import Random.
From S2P Require Import World.
From S2P Require Import Accounts.
From S2P Require Import MailTemplates.
From S2P Require Import AuthService.
From S2P Require Import AccountSafety.
From S2P Require Import AuthSessions.
From S2P Require Import Uploads.
From S2P Require Import StorageSafety.
From S2P Require Import Media.
From S2P Require Import PatchNote.
From S2P Require Import CatalogRepositories.
From S2P Require Import ContentRepositories.
From S2P Require Import CatalogService.
From S2P Require Import PatchNoteService.
From S2P Require Import MediaService.
From S2P Require Import CatalogSafety.
From S2P Require Import UploadService.
From S2P Require Import DownloadService.
From S2P Require Import RetentionService.
From S2P Require Import System.
From S2P Require Import Publishing.
From S2P Require Import Ordering.
From S2P Require Import MediaStore.
From S2P Require Import CatalogCorrect.
From S2P Require Import Isolation.
From S2P Require Import Artwork.
From S2P Require Import Scenarios.

#[local] Existing Instances sampleSodium sampleEvp samplePostgres sampleMail sampleTokens sampleDisk sampleMd5.

(** ** A publisher at work *)

Definition studio : Actor :=
  mkActor publisherId [permissions.GAME_PUBLISH; permissions.GAME_READ; permissions.LIBRARY_MANAGE].
Definition visitor : Actor := mkActor "00000000-0000-4000-8000-00000000beef" [permissions.GAME_READ].

Definition sampleGameCommand : CreateGameCommand := mkCreateGame " Second game " "second-game" "" "" "2026-05-01" Public.
Definition sampleCover : UploadMediaCommand :=
  mkUploadMedia Cover "The cover" 0 (ascii_of_nat <$> [137; 80; 78; 71; 13; 10; 26; 10]%nat ++ [0; 0; 0; 13]%nat).

Definition created : option (Result Game) * World := perform (createGame studio sampleGameCommand) catalogWorld.
Definition decorated : option (Result GameMedia) * World :=
  perform (uploadMedia sampleMedia studio "second-game" sampleCover) created.2.
Definition withdrawn : option VoidResult * World := perform (deleteGame studio "second-game") decorated.2.

Lemma created_reachable : reachable sampleStep (catalogWorld, []) (idle 1 created.2).
Proof.
  apply (serve (createGame studio sampleGameCommand) 0);
    [eexists; apply request_create_game|apply reachable_refl|]. eexists. vm_compute. reflexivity.
Qed.

Lemma decorated_reachable : reachable sampleStep (catalogWorld, []) (idle 2 decorated.2).
Proof.
  apply (serve (uploadMedia sampleMedia studio "second-game" sampleCover) 1);
    [eexists; apply (request_upload_media sampleSite)|apply created_reachable|]. eexists. vm_compute. reflexivity.
Qed.

Lemma created_inv : SysInv created.2.
Proof. rewrite <- (idle_world 1). apply (system_inv sampleSite _ _ catalogWorld_inv created_reachable). Qed.

Lemma decorated_inv : SysInv decorated.2.
Proof. rewrite <- (idle_world 2). apply (system_inv sampleSite _ _ catalogWorld_inv decorated_reachable). Qed.

Lemma decorated_success : ∃ m, decorated = (Some (Success m), decorated.2)
  ∧ gameMedia decorated.2 = [m] ∧ mediaContentType m = "image/png"%stdpp.
Proof.
  destruct decorated.1 as [[m|e]|] eqn:E; [|vm_compute in E; discriminate E..].
  exists m. split; [exact (answer_is E)|].
  vm_compute in E. injection E as <-. split; vm_compute; reflexivity.
Qed.

Lemma withdrawn_success : withdrawn = (Some (Success tt), withdrawn.2).
Proof.
  destruct withdrawn.1 as [[[]|e]|] eqn:E; [|vm_compute in E; discriminate E..]. exact (answer_is E).
Qed.

(** ** The properties *)

Lemma catalog_safe_witness :
  slug <$> games decorated.2 = ["my-game"; "second-game"]%stdpp
  ∧ NoDup (map slug (games decorated.2))
  ∧ references mediaGameId gameIs (gameMedia decorated.2) (games decorated.2).
Proof.
  split; [vm_compute; reflexivity|].
  destruct (catalog_safe sampleSite catalogWorld (idle 2 decorated.2)) as ((Hs & _) & _ & _ & _ & _ & _ & Hm & _);
    [apply catalogWorld_inv|apply decorated_reachable|].
  rewrite idle_world in Hs, Hm. split; [exact Hs|exact Hm].
Defined.


(** A visitor tries to take the game away. *)
Definition refused : option VoidResult * World := perform (deleteGame visitor sampleGameId) catalogWorld.

Definition strangerStep : Pool → Pool → Prop :=
  poolStep (λ p, ∃ who, stranger (mkGame sampleGameId "my-game" "My game" "" "" publisherId "" "" Public "" "" "") who
                        ∧ Request sampleSite who p) clockTick.

Lemma refused_answer : refused.1 = Some (failure Forbidden NOT_YOURS).
Proof. vm_compute. reflexivity. Qed.

Lemma refused_reachable : reachable strangerStep (catalogWorld, []) (idle 1 refused.2).
Proof.
  eapply request_reachable.
  - exists (Some visitor). split; [|apply (request_delete_game sampleSite)]. intros actor [= <-]. vm_compute. reflexivity.
  - apply reachable_refl.
  - apply answer_is, refused_answer.
Qed.

Lemma strangers_change_nothing_witness :
  refused.1 = Some (failure Forbidden NOT_YOURS) ∧ GameKept sampleGameId catalogWorld refused.2.
Proof.
  split; [exact refused_answer|]. rewrite <- (idle_world 1 refused.2).
  apply (strangers_change_nothing sampleSite (mkGame sampleGameId "my-game" "My game" "" "" publisherId "" "" Public "" "" "")).
  - apply catalogWorld_inv.
  - left.
  - intros n Hn. destruct (not_elem_of_nil _ Hn).
  - apply refused_reachable.
Defined.


(** Two public games, two to a page: the first page has both. *)
Lemma explore_correct_witness :
  title <$> exploreList "" SortTitle created.2 = ["My game"; "Second game"]%stdpp
  ∧ ∃ p, perform (explore visitor (exploreQuery "" SortTitle 2 0)) created.2 = (Some (Success p), created.2)
         ∧ pageTotal p = 2 ∧ pageItems p = exploreList "" SortTitle created.2.
Proof.
  assert (title <$> exploreList "" SortTitle created.2 = ["My game"; "Second game"]%stdpp) as E by (vm_compute; reflexivity).
  split; [exact E|].
  destruct (explore_correct visitor "" SortTitle 2 created.2) as (_ & _ & _ & Hpages);
    [apply created_inv|reflexivity|unfold MAX_GAME_PAGE_SIZE; lia|].
  destruct (Hpages 1%nat) as (pages & Hp & Hj).
  apply (f_equal length) in E. rewrite length_fmap in E. cbn [length] in E. revert E Hp Hj.
  generalize (exploreList "" SortTitle created.2). intros games_ E Hp Hj.
  inversion Hp as [|k p ks ps (Hperform & Htotal & _) Hrest]; subst. inversion Hrest; subst.
  exists p. split; [exact Hperform|]. split; [rewrite Htotal, E; reflexivity|].
  cbn in Hj. rewrite app_nil_r in Hj. rewrite Hj. apply take_ge. rewrite E. reflexivity.
Defined.

Definition shown : option (Result GameDetail) * World := perform (gameDetail visitor "my-game") catalogWorld.

Lemma shown_success : ∃ d, shown = (Some (Success d), shown.2) ∧ length (detailVersions d) = 1%nat.
Proof.
  destruct shown.1 as [[d|e]|] eqn:E; [|vm_compute in E; discriminate E..].
  exists d. split; [exact (answer_is E)|]. vm_compute in E. injection E as <-. reflexivity.
Qed.

Lemma gameDetail_correct_witness :
  ∃ d, shown = (Some (Success d), shown.2) ∧ length (detailVersions d) = 1%nat
    ∧ ∀ v, v ∈ detailVersions d → v ∈ versions catalogWorld
        ∧ (publishedAt v ≠ ""%stdpp ∨ mayEditGame (detailGame d) visitor = true).
Proof.
  destruct shown_success as (d & E & Hone). exists d. split; [exact E|]. split; [exact Hone|].
  unfold shown at 1 in E.
  destruct (gameDetail_correct visitor "my-game" catalogWorld d shown.2 E) as (_ & _ & _ & _ & (_ & Hv) & _).
  intros v Hin. apply Hv in Hin as (Hin & _ & Hseen). by split.
Defined.

Definition sampleChanges : GameUpdate := mkGameUpdate (Some "New title"%stdpp) None None None None.

Lemma updateGame_by_slug_witness :
  perform (updateGame studio "my-game" sampleChanges) catalogWorld = (None, catalogWorld).
Proof.
  destruct (gameNamed "my-game" catalogWorld) as [g|] eqn:E; [|discriminate E].
  apply (updateGame_by_slug studio "my-game" sampleChanges catalogWorld g);
    [vm_compute; reflexivity|exact E| |reflexivity|eexists; vm_compute; reflexivity].
  vm_compute in E. injection E as <-. vm_compute. reflexivity.
Defined.

Lemma createGame_correct_witness :
  ∃ g, (perform (createGame studio sampleGameCommand) catalogWorld).1 = Some (Success g)
    ∧ slug g = "second-game"%stdpp ∧ publisherUserId g = publisherId.
Proof.
  destruct (newGameOf studio sampleGameCommand) as [new|e] eqn:E; [|vm_compute in E; discriminate E].
  pose proof (createGame_correct studio sampleGameCommand new catalogWorld eq_refl E) as Hc.
  vm_compute in E. injection E as <-.
  destruct Hc as (g & Hp & _ & Hs & Hpub & _); [vm_compute; discriminate|vm_compute; reflexivity..|].
  exists g. split; [exact (f_equal fst Hp)|]. split; [exact Hs|exact Hpub].
Defined.

Lemma decorated_rows : ∃ m, gameMedia decorated.2 = [m] ∧ keyUsed (mediaStorageKey m) withdrawn.2 = false
  ∧ mediaGameId m = "00000000-0000-4000-8000-000000000004"%stdpp.
Proof. eexists. split_and!; vm_compute; reflexivity. Qed.

Lemma deleteGame_correct_witness :
  withdrawn = (Some (Success tt), withdrawn.2)
  ∧ ∃ m, m ∈ gameMedia decorated.2 ∧ m ∉ gameMedia withdrawn.2 ∧ mediaFiles withdrawn.2 !! mediaStorageKey m = None.
Proof.
  split; [exact withdrawn_success|]. pose proof withdrawn_success as E. unfold withdrawn at 1 in E.
  destruct (deleteGame_correct studio "second-game" decorated.2 withdrawn.2 decorated_inv E) as (g & Hg & _ & HW & Hfiles & _).
  destruct decorated_rows as (m & Em & Hused & Hgame). exists m.
  assert (m ∈ gameMedia decorated.2) as Hm by (rewrite Em; left).
  assert (rowOf mediaGameId (gameId g) m) as Hrow.
  { unfold rowOf. rewrite Hgame. vm_compute in Hg. injection Hg as <-. vm_compute. reflexivity. }
  split; [exact Hm|]. split.
  - intros Hin. exact (without_media _ _ _ HW m Hin Hrow).
  - exact (Hfiles m Hm Hrow Hused (λ n, eq_refl)).
Defined.

