(* ===== verification/Console.v ===== *)
(** Two operators at work: the theorems about administration at a concrete deployment, and the
    runs that show what the console does not promise. *)

From S2P Require Import Prelude.
From S2P Require Import Errors.
From S2P Require Import Validation.
From S2P Require Import Actors.
From S2P Require Import Hash.
From S2P Require Import Programs.
From S2P Require Import Random.
From S2P Require Import World.
From S2P Require Import Accounts.
From S2P Require Import AuditLog.
From S2P Require Import MailTemplates.
From S2P Require Import AuthService.
From S2P Require Import AccountSafety.
From S2P Require Import AuthSessions.
From S2P Require Import StorageSafety.
From S2P Require Import CatalogSafety.
From S2P Require Import AdminRepositories.
From S2P Require Import AdminUserService.
From S2P Require Import System.
From S2P Require Import Administration.
From S2P Require Import Scenarios.

#[local] Existing Instances sampleSodium sampleEvp samplePostgres sampleMail sampleTokens sampleDisk sampleMd5.

(** ** An installation with two operators *)

Definition adaId : string := "aaaaaaaa-0000-4000-8000-00000000000a".
Definition bobId : string := "bbbbbbbb-0000-4000-8000-00000000000b".

Definition adaEmail : string := "ada@example.org".

Definition accountOf (id email name : string) : UserRow :=
  mkUserRow id email (Some 900) (SAMPLE_PREFIX +:+ "a good passphrase") name 1000 0 true None false 800.

Definition operatorToken (id : string) : Actor :=
  mkActor id [permissions.ADMIN_USERS_MANAGE; permissions.ADMIN_ROLES_MANAGE].
Definition ada : Actor := operatorToken adaId.
Definition bob : Actor := operatorToken bobId.

Definition ADMIN : string := "admin".

(** The two operators, and some of them not. *)
Definition consoleWorld (holders : list string) : World :=
  setUsers [accountOf adaId adaEmail "Ada"; accountOf bobId "bob@example.org" "Bob"]
    (setRoleGrants (map (λ id, (id, ADMIN)) holders)
      (mkWorld [] [] [mkRole 1 roles.PLAYER ""; mkRole 2 ADMIN "Everything"]
         [(ADMIN, permissions.ADMIN_USERS_MANAGE); (ADMIN, permissions.ADMIN_ROLES_MANAGE)]
         [mkRefreshRow "cccccccc-0000-4000-8000-00000000000c" adaId "dddddddd-0000-4000-8000-00000000000d" "token"
            5000 None None None None]
         [] [] [] [] [] [] [] [] [] [] [] [] [] [] ∅ ∅ [] 1000 0)).

Definition twoOperators : World := consoleWorld [adaId; bobId].
Definition onlyAda : World := consoleWorld [adaId].

Lemma consoleWorld_inv holders : SysInv (consoleWorld holders).
Proof.
  split; [split; [apply accountsOk_sound|apply usageOk_sound]; vm_compute; reflexivity|]. split.
  - split; cbn [sessions blobs buildFiles files builds consoleWorld].
    1, 2, 4, 5, 7, 8, 10, 11: constructor.
    + intros s s' Hs. destruct (not_elem_of_nil _ Hs).
    + constructor.
    + intros r b Hr. destruct (not_elem_of_nil _ Hr).
    + intros h q c _ E. discriminate E.
  - split; cbn [games versions builds gameMedia patchNotes userGames mediaFiles consoleWorld].
    all: try (constructor || (intros h f c _ E; discriminate E)).
    intros m m' Hm. destruct (not_elem_of_nil _ Hm).
Qed.

(** Operators counted by running. *)
Definition operators (w : World) : list UserRow := selectWhere (activeHolder permissions.ADMIN_USERS_MANAGE w) (users w).

Lemma operators_spec w u : operator w u ↔ u ∈ operators w.
Proof. unfold operators. by rewrite elem_of_selectWhere. Qed.

Lemma operators_none w : operators w = [] → ¬ ∃ u, operator w u.
Proof. intros E (u & Hu%operators_spec). rewrite E in Hu. by apply not_elem_of_nil in Hu. Qed.

Lemma operators_some w u us : operators w = u :: us → ∃ u, operator w u.
Proof. intros E. exists u. apply operators_spec. rewrite E. by left. Qed.

Lemma freshToken_of actor w : can actor permissions.ADMIN_USERS_MANAGE = true → freshToken actor w.
Proof. by intros Hc u _ _ _. Qed.

(** ** Operators remain when requests run alone *)


(** ** ... and not when two interleave *)

Definition mutual : list (Prog World unit) :=
  [answered (setActive ada bobId false); answered (setActive bob adaId false)].

(** Both count the other before either acts. *)
Definition deposed : Pool := schedule [0; 1; 0; 1]%nat (twoOperators, mutual).

(** The last operator is guarded by a count that is read before the change and outside its transaction:
    of two operators who deactivate each other at the same time both succeed, each having counted the
    other, and nobody is left who can manage users. *)
Theorem operators_race :
  SysInv twoOperators ∧ freshToken ada twoOperators ∧ freshToken bob twoOperators
  ∧ (∃ u, operator twoOperators u)
  ∧ reachable sampleStep (twoOperators, []) deposed ∧ deposed.2 = [Done tt; Done tt]
  ∧ ¬ ∃ u, operator deposed.1 u.
Proof.
  split_and!; [apply consoleWorld_inv|by apply freshToken_of|by apply freshToken_of| | | |].
  - apply (operators_some _ (accountOf adaId adaEmail "Ada") [accountOf bobId "bob@example.org" "Bob"]).
    vm_compute. reflexivity.
  - eapply reachable_trans; [|apply schedule_reachable]. apply arrive_reachable.
    repeat (apply Forall_cons; split); [eexists; apply request_active..|constructor].
  - vm_compute. reflexivity.
  - apply operators_none. vm_compute. reflexivity.
Qed.

(** ** A token older than the role *)

(** Ada's token was issued before the role was granted to the account. *)
Definition staleAda : Actor := mkActor adaId [].
Definition leaving : EraseAccountCommand := mkErase "a good passphrase" "  too many games ".

(** A token may be stale in the other direction too: where the only operator was given its role after its
    token was issued, the erasure is not counted as an operator's, succeeds, and leaves nobody who can
    manage users. *)
Theorem stale_erasure :
  SysInv onlyAda ∧ (∃ u, operator onlyAda u)
  ∧ (perform (eraseAccount staleAda leaving) onlyAda).1 = Some (Success tt)
  ∧ (¬ ∃ u, operator (perform (eraseAccount staleAda leaving) onlyAda).2 u)
  ∧ (perform (eraseAccount ada leaving) onlyAda).1 = Some (failure Conflict LAST_ADMINISTRATOR).
Proof.
  split_and!; [apply consoleWorld_inv| |vm_compute; reflexivity| |vm_compute; reflexivity].
  - apply (operators_some _ (accountOf adaId adaEmail "Ada") []). vm_compute. reflexivity.
  - apply operators_none. vm_compute. reflexivity.
Qed.

(** ** An id in other letters *)

Definition adaIdAbove : string := "AAAAAAAA-0000-4000-8000-00000000000A".

(** An operator is kept from locking itself out only as long as it writes its id the way the token does:
    ids are compared as texts by the service and as uuids by the database, so that an operator who sends
    its own id in capitals gives itself a temporary password, which signs it out of every session, and
    deactivates itself. *)
Theorem self_lockout :
  SysInv twoOperators ∧ lowerText adaIdAbove = actorUserId ada
  ∧ (perform (setTemporaryPassword ada adaId) twoOperators).1
    = Some (failure InvalidInput "an operator cannot set a temporary password on their own account; ask another one")
  ∧ map passwordChangeRequired (selectWhere (userIs adaId) (users (perform (setTemporaryPassword ada adaIdAbove) twoOperators).2))
    = [true]
  ∧ selectWhere unrevoked (refreshTokens twoOperators) ≠ []
  ∧ selectWhere unrevoked (refreshTokens (perform (setTemporaryPassword ada adaIdAbove) twoOperators).2) = []
  ∧ map isActive (selectWhere (userIs adaId) (users (perform (setActive ada adaIdAbove false) twoOperators).2)) = [false].
Proof. split_and!; [apply consoleWorld_inv|..]; by vm_compute. Qed.

(** ** Erasures *)

Definition erased : option VoidResult * World := perform (eraseAccount bob leaving) twoOperators.

Lemma erased_success : erased.1 = Some (Success tt).
Proof. vm_compute. reflexivity. Qed.


(** Somebody registers the address that Bob's erasure would write. *)
Definition squatted : World :=
  (perform (registerUser sampleSettings (mkRegister (erasedEmailFor bobId) "correct horse battery" "Mallory")) twoOperators).2.

Lemma erasure_blocked_witness :
  SysInv twoOperators
  ∧ (∃ r, (perform (registerUser sampleSettings (mkRegister (erasedEmailFor bobId) "correct horse battery" "Mallory"))
       twoOperators).1 = Some (Success r))
  ∧ perform (eraseAccount bob leaving) squatted = (None, squatted).
Proof.
  split_and!; [apply consoleWorld_inv|eexists; vm_compute; reflexivity|].
  pose proof (erasure_blocked bob leaving squatted (accountOf bobId "bob@example.org" "Bob")) as Hb.
  rewrite Hb; [|split_and!|vm_compute; reflexivity].
  - assert (placeholderTaken (userId (accountOf bobId "bob@example.org" "Bob")) squatted = true) as ->; [|done].
    vm_compute. reflexivity.
  - vm_compute. reflexivity.
  - vm_compute. discriminate.
  - vm_compute. reflexivity.
  - vm_compute. reflexivity.
  - intros _. exists (accountOf adaId adaEmail "Ada"). split; [split|vm_compute; reflexivity].
    + assert (∃ rest, users squatted = accountOf adaId adaEmail "Ada" :: rest) as [rest ->]; [|by left].
      eexists. vm_compute. reflexivity.
    + vm_compute. reflexivity.
Defined.

(** ** Passwords and roles *)

Definition handedOver : option (Result TemporaryPassword) * World := perform (setTemporaryPassword bob adaId) twoOperators.

Lemma temporaryPassword_correct_witness :
  ∃ t, handedOver.1 = Some (Success t) ∧ HandedOver adaId (temporaryPassword t) twoOperators handedOver.2
    ∧ length (auditLog handedOver.2) = 1%nat.
Proof.
  destruct handedOver.1 as [[t|e]|] eqn:E; [|vm_compute in E; discriminate E..].
  destruct (temporaryPassword_correct bob adaId twoOperators t handedOver.2 (answer_is E)) as (_ & _ & HH & HL).
  exists t. split_and!; [done|done|]. rewrite HL. reflexivity.
Defined.

Lemma admin_refused_witness : revokeRole player adaId ADMIN = mret (failure Forbidden ADMIN_FORBIDDEN).
Proof. apply (admin_refused player permissions.ADMIN_ROLES_MANAGE); [apply needs_revoke|reflexivity]. Defined.

Definition regranted : option (Result AdminUserSummary) * World := perform (grantRole ada bobId ADMIN) onlyAda.

Lemma roles_correct_witness :
  holds bobId ADMIN onlyAda = false ∧ holds bobId ADMIN regranted.2 = true
  ∧ loggedChange true ada auditActions.ROLE_GRANTED bobId ADMIN onlyAda regranted.2.
Proof.
  destruct regranted.1 as [[s|e]|] eqn:E; [|vm_compute in E; discriminate E..].
  destruct (proj1 (roles_correct ada bobId ADMIN onlyAda s regranted.2) (answer_is E)) as (_ & H2 & _ & H4 & _).
  split_and!; [reflexivity|exact H2|exact H4].
Defined.
