(* ===== verification/CommandLine.v ===== *)
(** The process: [src/main.cpp], the role a shell grants ([src/app/RoleGrant.cpp]), and the limits
    on bodies and the migrations of [src/app/Bootstrap.cpp].  What a command prints is left off:
    a command is what it does and the code it exits with. *)

From S2P Require Import Prelude.
From S2P Require Import Errors.
From S2P Require Import Json.
From S2P Require Import Validation.
From S2P Require Import Actors.
From S2P Require Import LauncherRelease.
From S2P Require Import Hash.
From S2P Require Import EnvInterpolation.
From S2P Require Import Migrations.
From S2P Require Import Signature.
From S2P Require Import Config.
From S2P Require Import Programs.
From S2P Require Import World.
From S2P Require Import Accounts.
From S2P Require Import AuditLog.
From S2P Require Import AccountSafety.
From S2P Require Import Releases.
From S2P Require Import AdminRepositories.
From S2P Require Import AdminSafety.
From S2P Require Import Administration.
From S2P Require Import Console.

Definition EXIT_OK : Z := 0.
Definition EXIT_FAILURE_CODE : Z := 1.
Definition EXIT_USAGE : Z := 2.

(** ** The command line *)

Record Options := mkOptions {
  migrateOnly : bool;
  configPath : string;
  grantEmail : string;
  grantRoleKey : string;
  publishRequest : ReleasePublishRequest;
  publishing : bool;
  retiring : bool;
  retireChannel : string;
  retirePlatform : string;
  retireArch : string;
  retireVersion : string
}.

Definition noOptions : Options := mkOptions false "" "" "" (mkPublish "" "" "") false false "" "" "" "".

(** What one option of the command line assigns. *)
Definition withMigrate (o : Options) : Options :=
  mkOptions true (configPath o) (grantEmail o) (grantRoleKey o) (publishRequest o) (publishing o) (retiring o)
    (retireChannel o) (retirePlatform o) (retireArch o) (retireVersion o).
Definition withGrant (email role : string) (o : Options) : Options :=
  mkOptions (migrateOnly o) (configPath o) email role (publishRequest o) (publishing o) (retiring o)
    (retireChannel o) (retirePlatform o) (retireArch o) (retireVersion o).
Definition withPublish (request : ReleasePublishRequest) (publishes : bool) (o : Options) : Options :=
  mkOptions (migrateOnly o) (configPath o) (grantEmail o) (grantRoleKey o) request publishes (retiring o)
    (retireChannel o) (retirePlatform o) (retireArch o) (retireVersion o).
Definition withRetire (channel platform arch version : string) (o : Options) : Options :=
  mkOptions (migrateOnly o) (configPath o) (grantEmail o) (grantRoleKey o) (publishRequest o) (publishing o) true
    channel platform arch version.
Definition withConfig (path : string) (o : Options) : Options :=
  mkOptions (migrateOnly o) path (grantEmail o) (grantRoleKey o) (publishRequest o) (publishing o) (retiring o)
    (retireChannel o) (retirePlatform o) (retireArch o) (retireVersion o).

(** The loop over the arguments: the code to exit with at once, or what they say. *)
Fixpoint readArguments (o : Options) (args : list string) : Z + Options :=
  match args with
  | [] => inr o
  | arg :: args =>
      if bool_decide (arg = "--help"%stdpp) || bool_decide (arg = "-h"%stdpp) then inl EXIT_OK
      else if bool_decide (arg = "--version"%stdpp) then inl EXIT_OK
      else if bool_decide (arg = "--migrate"%stdpp) then readArguments (withMigrate o) args
      else if bool_decide (arg = "--grant-role"%stdpp) then
        match args with
        | email :: role :: args => readArguments (withGrant email role o) args
        | _ => inl EXIT_USAGE
        end
      else if bool_decide (arg = "--publish-release"%stdpp) then
        match args with
        | path :: args =>
            let r := publishRequest o in
            readArguments (withPublish (mkPublish path (signaturePath r) (artifactPath r)) true o) args
        | _ => inl EXIT_USAGE
        end
      else if bool_decide (arg = "--signature"%stdpp) then
        match args with
        | path :: args =>
            let r := publishRequest o in
            readArguments (withPublish (mkPublish (documentPath r) path (artifactPath r)) (publishing o) o) args
        | _ => inl EXIT_USAGE
        end
      else if bool_decide (arg = "--artifact"%stdpp) then
        match args with
        | path :: args =>
            let r := publishRequest o in
            readArguments (withPublish (mkPublish (documentPath r) (signaturePath r) path) (publishing o) o) args
        | _ => inl EXIT_USAGE
        end
      else if bool_decide (arg = "--retire-release"%stdpp) then
        match args with
        | channel :: platform :: arch :: version :: args =>
            readArguments (withRetire channel platform arch version o) args
        | _ => inl EXIT_USAGE
        end
      else if bool_decide (arg = "--config"%stdpp) then
        match args with
        | path :: args => readArguments (withConfig path o) args
        | _ => inl EXIT_USAGE
        end
      else inl EXIT_USAGE
  end.

(** What the process goes on to do. *)
Inductive Command :=
| Exits (code : Z)
| GrantRole (config : AppConfig) (email role : string)
| PublishRelease (config : AppConfig) (request : ReleasePublishRequest)
| RetireRelease (config : AppConfig) (query : ReleaseQuery) (version : string)
| RunMigrations (config : AppConfig)
| RunServer (config : AppConfig).

Definition dispatch (o : Options) (config : AppConfig) : Command :=
  if bool_decide (grantEmail o ≠ ""%stdpp) then GrantRole config (grantEmail o) (grantRoleKey o)
  else if publishing o then
    if bool_decide (signaturePath (publishRequest o) = ""%stdpp) || bool_decide (artifactPath (publishRequest o) = ""%stdpp)
    then Exits EXIT_USAGE
    else PublishRelease config (publishRequest o)
  else if retiring o then
    match parseReleaseChannel (retireChannel o), parseReleasePlatform (retirePlatform o), parseReleaseArch (retireArch o) with
    | Some channel, Some platform, Some arch => RetireRelease config (mkReleaseQuery channel platform arch) (retireVersion o)
    | _, _, _ => Exits EXIT_USAGE
    end
  else if migrateOnly o then RunMigrations config
  else RunServer config.

Section Main.
Context `{Jsoncpp, Openssl}.

(** [main], over the files of the machine; [None] where an exception ends the process. *)
Definition main (files : string → option string) (lookup : EnvLookup) (args : list string) : option Command :=
  match readArguments noOptions args with
  | inl code => Some (Exits code)
  | inr o =>
      let path := resolveConfigPath (configPath o) lookup in
      match loadFromFile path (files path) lookup with
      | None => None
      | Some (Failure _) => Some (Exits EXIT_USAGE)
      | Some (Success config) => Some (dispatch o config)
      end
  end.
End Main.

(** ** Bodies *)

Definition BODY_SIZE_HEADROOM : Z := 64 * 1024.

(** A cast to [size_t], and the slack above it. *)
Definition withHeadroom (bytes : Z) : Z := wrapUnsigned 64 (wrapUnsigned 64 bytes + BODY_SIZE_HEADROOM).

(** [setClientMaxMemoryBodySize] and [setClientMaxBodySize] of [configureBodyLimits]. *)
Definition clientMaxMemoryBodySize (config : AppConfig) : Z := withHeadroom (uploadMaxChunkBytes (uploadConfig config)).

Definition clientMaxBodySize (config : AppConfig) : Z :=
  Z.max (clientMaxMemoryBodySize config)
    (Z.max (withHeadroom (maxDocumentBytes (serverConfig config))) (withHeadroom (mediaMaxVideoBytes (mediaConfig config)))).

(** ** Migrations *)

Definition runMigrations `{Evp} {Schema} (engine : Engine Schema) (directory : option (list DirectoryEntry)) (db : Database Schema)
    : Z * Database Schema :=
  let '(result, db) := Migrations.run engine directory db in
  (match result with Success _ => EXIT_OK | Failure _ => EXIT_FAILURE_CODE end, db).

(** ** The first operator *)

Inductive RoleGrantOutcome := Granted | AlreadyHeld | NoSuchAddress | NoSuchKey.

Section RoleGrant.
Context `{Connection}.

(** What the entry of the log says of how it came to be; no user acted. *)
Definition commandLineAudit (id role : string) : NewAuditEntry :=
  mkNewAudit "" auditActions.ROLE_GRANTED auditEntities.USER id [("role"%stdpp, role); ("via"%stdpp, "command-line"%stdpp)].

(** [GRANT_SQL]. *)
Definition grantStatement (email role : string) (w : World) : RoleGrantOutcome * World :=
  match selectFirst (emailIs email) (users w) with
  | None => (NoSuchAddress, w)
  | Some user =>
      if negb (bool_decide (role ∈ roleKeys w)) then (NoSuchKey, w)
      else if anyWhere (holdsRole (userId user) role) (roleGrants w) then (AlreadyHeld, w)
      else
        (Granted, insertAudit (commandLineAudit (userId user) role)
           (setRoleGrants (insertRow (userId user, role) (roleGrants w)) w))
  end.

Definition grantRoleFromCommandLine (email roleKey : string) : Prog World (Result RoleGrantOutcome) :=
  connected ← draw connects;
  if negb connected then mret (failure DependencyFailure "cannot connect to the database")
  else
    outcome ← exec (grantStatement (c_str email) (c_str roleKey));
    mret (Success outcome).

Definition runRoleGrant (email roleKey : string) : Prog World Z :=
  result ← grantRoleFromCommandLine email roleKey;
  mret (match result with
        | Success Granted | Success AlreadyHeld => EXIT_OK
        | _ => EXIT_FAILURE_CODE
        end).
End RoleGrant.

(** ** What the command line says *)

(** An option with its values. *)
Inductive Argument :=
| Migrate
| Grant (email role : string)
| Publish (document : string)
| Signed (signature : string)
| Artifact (artifact : string)
| Retire (channel platform arch version : string)
| ConfigFile (path : string).

Definition wordsOf (a : Argument) : list string :=
  match a with
  | Migrate => ["--migrate"]
  | Grant email role => ["--grant-role"; email; role]
  | Publish path => ["--publish-release"; path]
  | Signed path => ["--signature"; path]
  | Artifact path => ["--artifact"; path]
  | Retire channel platform arch version => ["--retire-release"; channel; platform; arch; version]
  | ConfigFile path => ["--config"; path]
  end%stdpp.

Definition says (o : Options) (a : Argument) : Options :=
  let r := publishRequest o in
  match a with
  | Migrate => withMigrate o
  | Grant email role => withGrant email role o
  | Publish path => withPublish (mkPublish path (signaturePath r) (artifactPath r)) true o
  | Signed path => withPublish (mkPublish (documentPath r) path (artifactPath r)) (publishing o) o
  | Artifact path => withPublish (mkPublish (documentPath r) (signaturePath r) path) (publishing o) o
  | Retire channel platform arch version => withRetire channel platform arch version o
  | ConfigFile path => withConfig path o
  end.

Lemma read_argument o a args : readArguments o (wordsOf a ++ args) = readArguments (says o a) args.
Proof. by destruct a. Qed.

(** The words that ask for nothing but a text. *)
Definition asksForText (arg : string) : Prop := arg ∈ ["--help"; "-h"; "--version"]%stdpp.

(** What one turn of the loop comes to. *)
Lemma read_turn o arg args :
  (∃ a rest, arg :: args = wordsOf a ++ rest ∧ readArguments o (arg :: args) = readArguments (says o a) rest)
  ∨ readArguments o (arg :: args) = inl EXIT_USAGE
  ∨ asksForText arg ∧ readArguments o (arg :: args) = inl EXIT_OK.
Proof.
  unfold asksForText. cbn [readArguments].
  repeat match goal with
  | |- context [bool_decide (arg = ?s)] => destruct (bool_decide_reflect (arg = s)) as [->|_]; cbn [orb]
  end.
  all: try by (right; right; split; [set_solver|]).
  all: try by (right; left).
  - left. by exists Migrate, args.
  - destruct args as [|email [|role args]]; [by right; left..|]. left. by exists (Grant email role), args.
  - destruct args as [|path args]; [by right; left|]. left. by exists (Publish path), args.
  - destruct args as [|path args]; [by right; left|]. left. by exists (Signed path), args.
  - destruct args as [|path args]; [by right; left|]. left. by exists (Artifact path), args.
  - destruct args as [|channel [|platform [|arch [|version args]]]]; [by right; left..|].
    left. by exists (Retire channel platform arch version), args.
  - destruct args as [|path args]; [by right; left|]. left. by exists (ConfigFile path), args.
Qed.

(** A command line is read exactly when it is a sequence of options with their values, and then says what
    they say in turn; any other is refused before anything is read or run, but for one that asks for a
    text. *)
Theorem arguments_correct o args :
  (∀ o', readArguments o args = inr o' ↔ ∃ l, args = concat (map wordsOf l) ∧ o' = foldl says o l)
  ∧ (∀ code, readArguments o args = inl code → code = EXIT_USAGE ∨ code = EXIT_OK ∧ Exists asksForText args).
Proof.
  remember (length args) as n eqn:En. revert o args En. induction (lt_wf n) as [n _ IH]. intros o args ->. split.
  - intros o'. split.
    + destruct args as [|arg args]; [intros [= ->]; by exists []|].
      destruct (read_turn o arg args) as [(a & rest & E & ->)|[->|[_ ->]]]; [|done..]. rewrite E. intros Hr.
      assert (length rest < length (arg :: args))%nat as Hlt.
      { rewrite E, length_app. assert (0 < length (wordsOf a))%nat by (destruct a; cbn; lia). lia. }
      apply (IH _ Hlt (says o a) rest eq_refl) in Hr as (l & -> & ->). by exists (a :: l).
    + intros (l & -> & ->). clear IH. revert o. induction l as [|a l IHl]; intros o; [done|].
      cbn [map concat foldl]. by rewrite read_argument.
  - intros code. destruct args as [|arg args]; [done|].
    destruct (read_turn o arg args) as [(a & rest & E & ->)|[->|[Ht ->]]].
    2: { intros [= <-]. by left. }
    2: { intros [= <-]. right. split; [done|]. by constructor. }
    assert (length rest < length (arg :: args))%nat as Hlt.
    { rewrite E, length_app. assert (0 < length (wordsOf a))%nat by (destruct a; cbn; lia). lia. }
    intros Hr. apply (IH _ Hlt (says o a) rest eq_refl) in Hr as [->|[-> Hx]]; [by left|right]. split; [done|].
    rewrite E. apply Exists_app. by right.
Qed.

(** An address that is empty is no address: the process starts the server. *)
Theorem empty_address_serves config :
  ∃ o, readArguments noOptions ["--grant-role"; ""; "admin"]%stdpp = inr o ∧ dispatch o config = RunServer config.
Proof. eexists. split; reflexivity. Qed.

(** ** What a body may hold *)

Lemma withHeadroom_exact bytes : 0 ≤ bytes ≤ INT64_MAX → withHeadroom bytes = bytes + BODY_SIZE_HEADROOM.
Proof.
  unfold withHeadroom, wrapUnsigned, BODY_SIZE_HEADROOM, INT64_MAX. intros Hb.
  rewrite (Z.mod_small bytes) by lia. rewrite Z.mod_small by lia. done.
Qed.

(** Under a configuration the program accepts, whatever a route may be sent is within what the framework
    takes, with room for its framing, and chunks are within what it keeps in memory, if the size of a
    video, which is not validated, is not negative. *)
Theorem bodies_fit `{Openssl} config :
  validate config = Success tt → uploadMaxChunkBytes (uploadConfig config) ≤ INT64_MAX →
  maxDocumentBytes (serverConfig config) ≤ INT64_MAX → 0 ≤ mediaMaxVideoBytes (mediaConfig config) ≤ INT64_MAX →
  clientMaxMemoryBodySize config = uploadMaxChunkBytes (uploadConfig config) + BODY_SIZE_HEADROOM
  ∧ clientMaxMemoryBodySize config ≤ clientMaxBodySize config
  ∧ maxDocumentBytes (serverConfig config) + BODY_SIZE_HEADROOM ≤ clientMaxBodySize config
  ∧ mediaMaxVideoBytes (mediaConfig config) + BODY_SIZE_HEADROOM ≤ clientMaxBodySize config
  ∧ maxAnonymousBodyBytes (serverConfig config) < clientMaxBodySize config.
Proof.
  intros Hv%validate_spec Hc Hd Hm. destruct (safe_uploads _ Hv) as (_ & [? _] & _), (safe_bodies _ Hv).
  unfold clientMaxBodySize, clientMaxMemoryBodySize. rewrite !withHeadroom_exact by lia.
  unfold BODY_SIZE_HEADROOM. lia.
Qed.

(** A size of less than minus the headroom makes the limit one of sixteen exabytes, which is none. *)
Theorem negative_unbounded config :
  mediaMaxVideoBytes (mediaConfig config) = -65537 → clientMaxBodySize config = 2 ^ 64 - 1.
Proof.
  intros E. unfold clientMaxBodySize, clientMaxMemoryBodySize. rewrite E.
  change (withHeadroom (-65537)) with (2 ^ 64 - 1).
  pose proof (Z.mod_pos_bound (wrapUnsigned 64 (uploadMaxChunkBytes (uploadConfig config)) + BODY_SIZE_HEADROOM) (2 ^ 64) eq_refl) as H1.
  pose proof (Z.mod_pos_bound (wrapUnsigned 64 (maxDocumentBytes (serverConfig config)) + BODY_SIZE_HEADROOM) (2 ^ 64) eq_refl) as H2.
  unfold withHeadroom. unfold wrapUnsigned at 1 3. lia.
Qed.

(** ** What a grant does *)

Section Granting.
Context `{Connection}.

Lemma grantStatement_keeps email role : AccountProg (exec (grantStatement email role)).
Proof.
  intros w b w' HI E. split; [|done]. injection E as E. unfold grantStatement in E.
  destruct (selectFirst _ _) as [user|]; [|injection E as <- <-; by apply AccountsGo_refl].
  destruct (negb _); [injection E as <- <-; by apply AccountsGo_refl|].
  destruct (anyWhere _ _); [injection E as <- <-; by apply AccountsGo_refl|]. injection E as <- <-.
  split; [by destruct HI as [[] ?]; split| |done|done].
  apply AccountsKept_logged; [done|done|]. split; [by auto..| | |by apply users_same_quota].
  - intros u Hu. exists u. split; [done|apply UserKept_refl].
  - intros grant Hg. left. apply elem_of_insertRow. by left.
Qed.

Lemma commandLine_keeps email role : AccountProg (grantRoleFromCommandLine email role).
Proof.
  unfold grantRoleFromCommandLine. eapply Keeps_bind; [apply draw_keeps|]. intros connected _.
  destruct (negb connected); [by apply Keeps_ret|].
  eapply Keeps_bind; [apply grantStatement_keeps|]. intros outcome _. by apply Keeps_ret.
Qed.

(** What the statement did to the grants and the log, by what it answers. *)
Definition grantDid (email role : string) (outcome : RoleGrantOutcome) (w w' : World) : Prop :=
  match outcome with
  | Granted => ∃ user, selectFirst (emailIs email) (users w) = Some user
      ∧ holds (userId user) role w = false ∧ holds (userId user) role w' = true
      ∧ otherGrants (userId user) role w' = otherGrants (userId user) role w
      ∧ auditLog w' = auditLog w ++ [auditRow (clock w) (commandLineAudit (userId user) role)]
      ∧ users w' = users w ∧ rolePermissions w' = rolePermissions w
  | AlreadyHeld => w' = w ∧ ∃ user, selectFirst (emailIs email) (users w) = Some user ∧ holds (userId user) role w = true
  | NoSuchAddress => w' = w ∧ selectFirst (emailIs email) (users w) = None
  | NoSuchKey => w' = w ∧ role ∉ roleKeys w
  end.

Lemma grantStatement_spec email role w :
  grantDid email role (grantStatement email role w).1 w (grantStatement email role w).2.
Proof.
  unfold grantStatement. destruct (selectFirst _ _) as [user|] eqn:Eu; [|done].
  case_bool_decide as Ek; cbn [negb]; [|done].
  destruct (anyWhere (holdsRole _ _) _) eqn:Eh; [by split; [|exists user]|]. cbn [fst snd grantDid]. exists user.
  split_and!; try done.
  - unfold holds. cbn. apply anyWhere_true. exists (userId user, role). split; [apply elem_of_insertRow; by right|].
    unfold holdsRole. cbn. by rewrite uuidEq_refl, bool_decide_eq_true_2.
  - unfold otherGrants. cbn. unfold selectWhere, insertRow. rewrite List.filter_app. cbn. unfold holdsRole at 2. cbn.
    by rewrite uuidEq_refl, bool_decide_eq_true_2, app_nil_r.
Qed.

Lemma holds_reaches user role permission w :
  holds (userId user) role w = true → (role, permission) ∈ rolePermissions w → reaches permission w user = true.
Proof.
  unfold holds, reaches. rewrite !anyWhere_true. intros ([id key] & Hin & Hh) Hp. exists (id, key). split; [done|].
  unfold holdsRole in Hh. cbn in *. bool_to_prop. subst key. apply andb_true_iff. split; [done|].
  apply anyWhere_true. exists (role, permission). cbn. split; [done|]. by rewrite !bool_decide_eq_true_2.
Qed.

End Granting.

Definition localDatabase : Connection := {| connects _ := true |}.

