(* ===== verification/ServerScenes.v ===== *)
(** A server at work: the theorems about the gate, the responses, tokens, the refinement and the
    download figures at a concrete deployment, and requests that show what they do not promise. *)

From stdpp Require Import countable.
From S2P Require Import Prelude.
From S2P Require Import Errors.
From S2P Require Import Json.
From S2P Require Import Validation.
From S2P Require Import Actors.
From S2P Require Import Catalog.
From S2P Require Import Delta.
From S2P Require Import Hash.
From S2P Require Import Signature.
From S2P Require Import Programs.
From S2P Require Import Random.
From S2P Require Import World.
From S2P Require Import Accounts.
From S2P Require Import MailTemplates.
From S2P Require Import AuthService.
From S2P Require Import JwtTokenService.
From S2P Require Import RateLimiter.
From S2P Require Import Config.
From S2P Require Import Ordering.
From S2P Require Import Releases.
From S2P Require Import AdminRepositories.
From S2P Require Import AdminUserService.
From S2P Require Import AnalyticsService.
From S2P Require Import CatalogService.
From S2P Require Import System.
From S2P Require Import AppContext.
From S2P Require Import Http.
From S2P Require Import Controllers.
From S2P Require Import AdminControllers.
From S2P Require Import Filters.
From S2P Require Import Server.
From S2P Require Import Gate.
From S2P Require Import Responses.
From S2P Require Import Refinement.
From S2P Require Import Scenarios.
From S2P Require Import Console.

#[local] Existing Instances sampleReader keyless sampleSodium sampleEvp samplePostgres sampleMail sampleDisk sampleMd5.

(** ** Tokens that are what they say, in bits *)

Fixpoint bitsText (p : positive) : string :=
  match p with
  | xH => "."
  | xO p => String "0" (bitsText p)
  | xI p => String "1" (bitsText p)
  end.

Fixpoint textBits (s : string) : option positive :=
  match s with
  | String "0" rest => xO <$> textBits rest
  | String "1" rest => xI <$> textBits rest
  | String "." EmptyString => Some xH
  | _ => None
  end.

Lemma textBits_bitsText p : textBits (bitsText p) = Some p.
Proof. by induction p as [p IH|p IH|]; cbn; rewrite ?IH. Qed.

(** A claim as a tree; what no claim of this server is, is left out. *)
Fixpoint claimTree (j : Json PlainValue) : gen_tree string :=
  match j with
  | JText s => GenLeaf s
  | JBool b => GenNode (if b then 1 else 0) []
  | JArray items => GenNode 2 (map claimTree items)
  | _ => GenNode 3 []
  end.

Fixpoint treeValue (t : gen_tree string) : PlainValue :=
  match t with
  | GenLeaf s => PlainText s
  | GenNode 0 _ => PlainBool false
  | GenNode 1 _ => PlainBool true
  | GenNode 2 items => PlainArray (map treeValue items)
  | _ => PlainNull
  end.

(** Secret, issuer, subject, three instants and the claims. *)
Definition OpenToken : Type := string * string * string * (Z * Z * Z) * list (string * gen_tree string).

Definition openClaim (token : OpenToken) (name : string) : option PlainValue :=
  (λ c : string * gen_tree string, treeValue c.2) <$> List.find (λ c, bool_decide (c.1 = name)) token.2.

Definition openJwt : Jwt := {|
  Decoded := OpenToken;
  signJwt secret p := bitsText (encode ((secret, payloadIssuer p, payloadSubject p,
    (issuedAt p, notBefore p, expiresAt p), map (λ c, (c.1, claimTree c.2)) (payloadClaims p)) : OpenToken));
  decodeJwt s := p ← textBits s; decode p;
  verifiesJwt secret issuer now d :=
    let '(signed, by_, _, (issued, from, until), _) := d in
    bool_decide (signed = secret) && bool_decide (issuer = by_) && (Z.max from issued <=? now) && (now <=? until);
  jwtSubject d := let '(_, _, subject, _, _) := d in Some subject;
  jwtClaim := openClaim
|}.
#[local] Existing Instance openJwt.

Lemma treeValue_reads (j : Json PlainValue) : reads j (treeValue (claimTree j)).
Proof.
  revert j. fix IH 1. intros [b|z|x|s|items|members|v]; cbn; try done; [by destruct b|].
  split; [done|]. induction items as [|j items IHi]; cbn; [done|]. split; [apply IH|exact IHi].
Qed.

Lemma find_keyed {V} (l : list (string * V)) c :
  NoDup (map fst l) → c ∈ l → List.find (λ d, bool_decide (d.1 = c.1)) l = Some c.
Proof.
  induction l as [|d l IH]; cbn; [by intros _ ?%not_elem_of_nil|]. intros [Hn Hd]%NoDup_cons [<- | Hc]%elem_of_cons.
  - by rewrite bool_decide_true.
  - rewrite bool_decide_false; [by apply IH|]. intros E. apply Hn. rewrite E. by apply list_elem_of_fmap_2.
Qed.

#[local] Instance openJwt_laws : JwtLaws.
Proof.
  assert (∀ q, bitsText q ≠ ""%stdpp) as Hb by (by intros []). split; [intros secret p; apply Hb|]. intros secret p Hnd. cbn. rewrite textBits_bitsText. cbn [mbind option_bind].
  rewrite decode_encode. eexists. split_and!; [done|done|..].
  - apply Forall_forall. intros c Hc. exists (treeValue (claimTree c.2)). split; [|apply treeValue_reads].
    unfold openClaim. cbn [snd]. change c.1 with (c.1, claimTree c.2).1.
    rewrite (find_keyed _ (c.1, claimTree c.2)); [done|by rewrite map_map|]. by apply (list_elem_of_fmap_2 (λ c, (c.1, claimTree c.2))).
  - intros issuer now. cbn. by rewrite bool_decide_true.
Qed.

(** ** A deployment *)

Definition sampleConfig : AppConfig :=
  ltac:(let c := eval vm_compute in accepted in match c with Some ?x => exact x end).

(** jsoncpp's empty object. *)
Definition emptyValue : Value := PlainObject [].

Notation handling := (Server.handle sampleConfig "1.0" "<html>" "<html>" "<html>" emptyValue).
Notation serving := (Server.serve sampleConfig "1.0" "<html>" "<html>" "<html>" emptyValue).

#[local] Instance sampleTokenService : TokenService := tokenService sampleConfig.

Definition noReleases : ReleaseWorld := mkReleaseWorld [] ∅ ∅ 1000 0.
Definition running (w : World) : Server := startServer sampleConfig w noReleases 0.

Definition adaClaims : AccessTokenClaims :=
  mkClaims adaId adaEmail [permissions.ADMIN_USERS_MANAGE; permissions.ADMIN_ROLES_MANAGE] false.

(** Bob was given a password by Ada. *)
Definition bobClaims : AccessTokenClaims := mkClaims bobId "bob@example.org" [] true.

Definition tokenFor (claims : AccessTokenClaims) : string := signToken (tokenSettingsOf sampleConfig) 900 "id" claims.

(** A request that shows a token, on a port. *)
Definition asking (path : string) (port : Z) (token : string) (body : option PlainValue) : HttpRequest :=
  mkHttpRequest path port "192.0.2.1"
    (λ name, if bool_decide (name = "Authorization"%stdpp) then if bool_decide (token = ""%stdpp) then "" else BEARER_PREFIX +:+ token
             else "")
    (λ _, "") [] body "0f0f0f0f-0000-4000-8000-00000000000f".

Definition adaAsks (path : string) (body : option PlainValue) : HttpRequest := asking path 9090 (tokenFor adaClaims) body.

Lemma token_roundtrip_witness :
  verifyAccessToken (tokenSettingsOf sampleConfig) 1000 (tokenFor adaClaims) = Success adaClaims
  ∧ verifyAccessToken (tokenSettingsOf sampleConfig) 1000000 (tokenFor adaClaims) = rejected.
Proof.
  unfold tokenFor. split.
  - rewrite (token_roundtrip (tokenSettingsOf sampleConfig) 900 1000 "id" adaClaims); [reflexivity|vm_compute; discriminate|discriminate].
  - rewrite (token_roundtrip (tokenSettingsOf sampleConfig) 900 1000000 "id" adaClaims); [reflexivity|vm_compute; discriminate|discriminate].
Defined.

Lemma ada_admitted r path : admitted sampleConfig r (identified (adaAsks path None)) (running twoOperators) adaClaims.
Proof.
  split; [split|split]; [by vm_compute|by vm_compute|by intros|]. intros _. split_and!; by vm_compute.
Qed.

(** Ada lists the accounts. *)
Lemma gate_correct_witness :
  ∃ s1 response s', onlyLimiters (running twoOperators) s1
    ∧ perform (serving AdminListUsers (adaAsks "/admin/api/users" None)) (running twoOperators) = (Some response, s')
    ∧ Gate.handled sampleConfig "1.0" "<html>" "<html>" "<html>" emptyValue AdminListUsers
        (withClaims (adaAsks "/admin/api/users" None) adaClaims) s1 response s'.
Proof.
  destruct (gate_correct sampleConfig "1.0" "<html>" "<html>" "<html>" emptyValue AdminListUsers
              (adaAsks "/admin/api/users" None) (running twoOperators) eq_refl) as [_ Hs].
  apply Hs; [apply ada_admitted|by vm_compute|done].
Defined.

(** Bob asks who he is. *)
Definition bobAsks : HttpRequest := asking "/api/v1/auth/me" 8000 (tokenFor bobClaims) None.

Lemma temporary_session_witness :
  onlyLimiters (running twoOperators) (perform (serving CurrentUser bobAsks) (running twoOperators)).2.
Proof.
  destruct (served_answered sampleConfig "1.0" "<html>" "<html>" "<html>" emptyValue CurrentUser bobAsks (running twoOperators))
    as (response & s' & E & _).
  rewrite E. apply (temporary_session sampleConfig "1.0" "<html>" "<html>" "<html>" emptyValue CurrentUser bobAsks
    (running twoOperators) bobClaims response s'); [done|done|done| |done|exact E].
  split; by vm_compute.
Defined.

(** What Ada asked of the console, on the public port. *)
Lemma admin_hidden_witness :
  (perform (serving AdminListUsers (asking "/admin/api/users" 8000 (tokenFor adaClaims) None)) (running twoOperators)).2
  = running twoOperators.
Proof.
  rewrite (admin_hidden sampleConfig "1.0" "<html>" "<html>" "<html>" emptyValue AdminListUsers); [done| |done|];
    vm_compute; reflexivity.
Defined.

(** Ada signs in. *)
Definition signingIn : HttpRequest :=
  asking "/api/v1/auth/login" 8000 ""
    (Some (PlainObject [("email"%stdpp, PlainText adaEmail); ("password"%stdpp, PlainText "a good passphrase")])).

Definition afterSignIn : Server := (perform (serving Login signingIn) (running twoOperators)).2.

Lemma signIn_opens : (length (refreshTokens (world (running twoOperators))), length (refreshTokens (world afterSignIn))) = (1, 2)%nat.
Proof. vm_compute. reflexivity. Qed.

Lemma server_refines_witness :
  ∃ d, reachable (poolStep (routed (deploymentOf sampleConfig)) clockTick) (twoOperators, []) d ∧ d.1 = world afterSignIn.
Proof.
  destruct (served_answered sampleConfig "1.0" "<html>" "<html>" "<html>" emptyValue Login signingIn (running twoOperators))
    as (response & s' & E & _).
  assert (reachable (poolStep (Task sampleConfig "1.0" "<html>" "<html>" "<html>" emptyValue) serverTick)
    (running twoOperators, []) (s', [Done tt])) as Hr.
  { eapply request_reachable; [apply task_request|apply reachable_refl|exact E]. }
  destruct (server_refines sampleConfig "1.0" "<html>" "<html>" "<html>" emptyValue (running twoOperators) _ Hr)
    as (d & Hd & Ed & _).
  exists d. split; [exact Hd|]. unfold afterSignIn. by rewrite E, Ed.
Defined.

(** ** What a PATCH may say *)

Definition patching (body : PlainValue) : option (Result HttpResponse) * World :=
  perform (AdminUserController_update (withClaims (adaAsks ("/admin/api/users/" +:+ bobId) (Some body)) adaClaims) bobId) twoOperators.

Definition bobOf (w : World) : list (bool * Z) := map (λ u, (isActive u, uploadQuotaBytes u)) (selectWhere (userIs bobId) (users w)).

Definition threw {A B} (x : option A * B) : bool := match x.1 with None => true | Some _ => false end.

(** [active] is not read as the fields of the other routes are: a null takes the account out of use, as
    [false] does, and a text is an unexpected error, before which a quota sent along has been changed. *)
Theorem null_deactivates :
  bobOf twoOperators = [(true, 1000)]
  ∧ bobOf (patching (PlainObject [("active"%stdpp, PlainNull)])).2 = [(false, 1000)]
  ∧ threw (patching (PlainObject [("uploadQuotaBytes"%stdpp, PlainNumber 5); ("active"%stdpp, PlainText "yes")])) = true
  ∧ bobOf (patching (PlainObject [("uploadQuotaBytes"%stdpp, PlainNumber 5); ("active"%stdpp, PlainText "yes")])).2 = [(true, 5)].
Proof. split; [|split; [|split]]; vm_compute; reflexivity. Qed.

(** ** A page past the range *)

Definition pageRequest (number : string) : Context :=
  identified (mkHttpRequest "/admin/api/users" 9090 "192.0.2.1" (λ _, "")
    (λ name, if bool_decide (name = "page"%stdpp) then number else "") [] None "id").

(** The offset of a page is computed in an [int] before anything bounds it. *)
Theorem paging_overflow :
  pagingOf (pageRequest "3") 25 100 = (25, 50)
  ∧ (25 * (100000001 - 1) <? 2 ^ 31) = false
  ∧ pagingOf (pageRequest "100000001") 25 100 = (25, 25 * (100000001 - 1) - 2 ^ 32).
Proof. split; [|split]; vm_compute; reflexivity. Qed.

(** ** Figures *)

Definition theGame : string := "99999999-0000-4000-8000-000000000009".

Definition downloadAt (at_ : Z) (kind : DownloadKind) (bytes : Z) : DownloadEvent :=
  mkDownloadEvent theGame "88888888-0000-4000-8000-000000000008" bobId "" kind bytes at_.

(** Two downloads on one day, the first of them early. *)
Definition counted : World :=
  setGames [mkGame theGame "tetris" "Tetris" "" "" adaId "Ada" "" Public "" "" ""]
    (setDownloadEvents [downloadAt 1005000 FullDownload 70; downloadAt 952000 DeltaDownload 7] (setClock 1005000 twoOperators)).

Definition analyst : Actor := mkActor adaId [permissions.ADMIN_SETTINGS_MANAGE].
Definition yesterday : option (Result DownloadReport) * World :=
  perform (downloadReport analyst 1 10) (setClock 1040000 counted).


(** The totals are of a number of hours and the chart of a number of days and the day that has begun: at
    this hour the total says one download where the chart shows two. *)
Theorem analytics_windows :
  match yesterday.1 with
  | Some (Success report) =>
      reportDays report = 1 ∧ totalDownloads (totals report) = 1 ∧ map dayDownloads (daily report) = [2; 0]
  | _ => False
  end.
Proof. vm_compute. repeat split. Qed.
